(* ===== verification/_CoqProject ===== *)
-Q . S2P
Common.v
Prelude.v
VFS.v
OSFile.v
LRU.v
Crc32.v
Page.v
Slotted.v
Telemetry.v
BufferPool.v
PoolInv.v
PoolOps.v
PoolProps.v
WAL.v
DBPage.v
DB.v
DBSpec.v
DBProps.v
Recovery.v
RecoverySpec.v
LockManager.v
Roaring.v
Segment.v
Utf8.v
Query.v
MVCC.v
Compression.v
PoolPins.v
PoolLatch.v
PoolAlloc.v
BTreePage.v
BTreeNode.v
BTree.v
BTreeSpec.v
BTreeLocked.v
BTreeWalk.v
BTreeJoin.v
KVRecover.v
KVStore.v
KVSpec.v
PoolTrace.v
KVPut.v
KVProps.v
KVIter.v
KVLatch.v
KVSplit.v
KVOpen.v
KVReplica.v
KVReplicaSpec.v
HotSwap.v
Interfaces.v
HotSwapSpec.v
HotSwapMigrate.v
InterfaceLocks.v
InterfaceSpec.v
HotSwapIter.v
KVClients.v
UQLLexer.v
UQLParser.v
UQLParserSpec.v
UQLExec.v
UQLSpec.v
UQLProps.v
UQLWrites.v
UQLDemo.v
RangeCursor.v
ORM.v
Scorer.v
Kernel.v
KernelCluster.v
KernelSearch.v
KernelInsert.v
KernelDocs.v
