(* ===== verification/Common.v ===== *)
(** UltimateDB: a verification of the storage engine, its log and recovery, its
    B-tree and the key-value stores over it, its lock manager, its full-text
    search, its query language, and the object mapper and search kernel on top.

    * The program

    UltimateDB (package [ultimate_db], Go) is an embedded database.  A block
    device (vfs.go) holds 32 KiB pages.  The buffer pool (storage.go) caches them
    in frames under a replacement policy (lru_policy.go), checks and stamps
    checksums, and writes dirty pages back.  [DB] (db.go) keeps multi-version
    records on slotted pages and runs transactions over them; the write-ahead log
    (wal.go) batches log records of concurrent callers into one synced write, and
    recovery.go replays that log after a crash.  A B-tree (btree.go) lives on
    pages of the same pool; kv_store.go is a key-value store over one tree, with
    salvage of the records of older versions, kv_replica.go doubles its identity
    keys into a second tree and a JSON file, and hotswap_store.go puts a tree in
    front of a slotted page whose records it takes over.  A two-phase lock manager
    (lock_manager.go) serves transactions.  Full-text search (index.go, ast.go)
    indexes documents into segments and answers Boolean queries with roaring
    bitmaps (roaring.go).  A cache of versioned values with optimistic
    transactions (query.go section 1) sits beside it.  The query language UQL
    (query.go from section 2 on) has a lexer, a parser and statements that run
    over the database, the cache, the index and the lock manager; orm.go stores Go
    structs through it.  The kernel (kernel.go) keeps documents and chunks of
    postings on slotted pages, reads them through a range cursor (range.go), ranks
    hits (scorer.go), and answers for a cluster of nodes on a hash ring behind an
    access check.  Counters (telemetry.go) are updated on the way.

    * The files

    - [Common]: the constants of common.go.  [Prelude]: Go results ([result]:
      a value, an error, a panic, or no return), fixed-width integers as [Z] with
      explicit wrap-around ([u16], [u32], [u64], [i64]), byte arrays as maps from
      indices with checked slices, little-endian fields, the order a Go map is
      ranged over in (class [MapRange]: any permutation), and the lemmas, hint
      databases and tactics the files share.
    - [VFS]: the interface [BlockDevice] as a class, its laws [BlockDeviceSpec]
      (errors allowed), and [MemDevice] with its proof of the laws.  [OSFile]: the
      device over a file of the operating system, which has the laws its file has.
    - [LRU]: the interface [EvictionPolicy] with its laws, and
      [LRUEvictionPolicy] (container/list elements and the index map), refined to
      a list of pages in order of use.
    - [Crc32], [Page], [Slotted]: CRC-32, the page header and slot directory with
      the arithmetic of the source, the record format, the loop over the slots,
      and [page_repr]: the list of records a page stands for.
    - [Telemetry]: the counters and their snapshot.
    - [BufferPool]: [DiskManager] and [BufferPool] with every operation.
      [PoolInv]: the invariant [pool_inv] and the contents [view] of every page.
      [PoolOps]: how each operation acts on them, progress of the victim search,
      pins.  [PoolProps]: the theorems.
    - [WAL]: log records and their frames, the queue, [Append] split at the end
      of its critical section, the flusher step by step (select, drain loop, a
      truncation request put back, batch, truncation, stop), and the interleavings
      of callers, close and flusher as the relation [wal_step].
    - [DBPage]: [compactPage], [Write], [Read], [Scan], [restoreWrite] on one
      page, and what they mean on lists of records.  [DB]: the same through the
      buffer pool, transactions, compressed values, hashes, checkpoint tick and
      close.  [DBSpec]: the abstraction [db_rep] from a database to a map from
      pages to lists of records, and the theorems on operations.  [DBProps]:
      arbitrary devices, reopening, compaction, transaction ids, codecs, hashes.
    - [Recovery]: the three passes on the bytes of the log.  [RecoverySpec]:
      what they do to the map of records.
    - [LockManager]: the lock table and the waiting calls, as a step relation.
    - [Roaring]: the bitmap as a set of 64-bit values.  [Segment]: tokenizer,
      postings, varints and segment format.  [Utf8]: UTF-8 and the lower case of a
      string.  [Query]: query trees, execution, the parser.
    - [MVCC]: the optimistic transaction cache (query.go section 1).
    - [PoolPins]: pins of pages across fetches, for operations that hold several.
      [PoolLatch]: fetches under held latches and when they return.  [PoolAlloc]:
      the page [NewPage] takes.  [PoolTrace]: the pool in the middle of an
      operation that holds pages, allocates and writes.
    - [BTreePage]: the layout of tree nodes, the cell loops, insertion, deletion
      and splits on page images, and the list of cells a page stands for.
      [BTreeNode]: the theorems on nodes.  [BTree]: descents, insertion, splits
      that reach the parent, cursor, prefix scan, join.  [BTreeSpec]: the tree a
      set of pages stands for (subtree, leaves, leaf chain), and the read descent.
      [BTreeLocked]: the descent that keeps ancestors latched.  [BTreeWalk]: the
      cursor.  [BTreeJoin]: scan and join.
    - [KVRecover]: the salvage of records from raw pages.  [KVStore]: [Get],
      [Put], [Delete], [Flush], the iterator, reset and opening of a root.
      [KVSpec]: the abstraction [kv_rep] from a store to the list of its leaves
      ([tree_map] is the map they hold), [Get] and [Delete], and what an operation
      leaves alone ([kv_frame]).  [KVPut]: [Put] and [Flush].  [KVProps],
      [KVIter], [KVOpen]: the theorems on operations, on the iterator and on
      opening.  [KVLatch]: descents that wait for themselves.  [KVSplit]: the
      split of a full root, from [Put] down to the pages.
    - [KVReplica]: the store that keeps identity keys in three places, with the
      file system and the JSON form of the mirror as classes, and [filepath.Dir].
      [KVReplicaSpec]: two trees in one pool, the mirror on a file system that
      serves it, and the theorems.
    - [HotSwap]: the store with a legacy page.  [HotSwapSpec]: the theorems on
      reads and deletions.  [HotSwapMigrate]: the theorem on the migration.
      [HotSwapIter]: the iterator over tree and legacy page.
    - [Interfaces]: the interfaces of interfaces.go as records of operations, and
      the stores, the lock manager and the metrics as values of them.
      [InterfaceLocks]: the contract of the lock manager, two-phase sessions over
      any manager that keeps it, the counters behind the metrics.
      [InterfaceSpec]: the contract [KVStoreSpec] of a key-value store (a finite
      map with ordered listings), client sequences over any store that keeps it
      ([calls_refine]), and its proof for the tree and the replicating store.
      [KVClients]: all three stores behind the interface.
    - [Compression]: the block codec (compression.go) with the tables [init]
      builds.
    - [UQLLexer]: the scanner, proved equal to a reference lexer on the unread
      text.  [UQLParser]: the parser as a state monad over the scanner.
      [UQLParserSpec]: it returns on every input, its round trips, its numbers.
      [UQLExec]: one definition per [Execute] method, over an [Engine] of
      database, cache, index and lock manager.  [UQLSpec]: the abstraction
      [engine_at] and the rows a reader gets.  [UQLProps], [UQLWrites]: the
      theorems on statements.  [UQLDemo]: a concrete engine for the witnesses.
    - [RangeCursor]: the cursor of range.go.  [ORM]: models as reflection shows
      them, and the four operations.  [Scorer]: BM25 in binary64 ([SpecFloat]).
    - [Kernel]: the analyzer, documents and posting chunks, search,
      scoring, ring, distributed search.  [KernelCluster]: what leaves the cluster
      alone, the ring over any history, the access gate.  [KernelSearch]: the
      cursor over the chunks of a term, the set a query evaluates to ([eval_spec]),
      the hits.  [KernelInsert]: the rows an insertion adds ([term_rows]) and what a
      search sees of them.  [KernelDocs]: insertion to search, and the witnesses.

    * What the theorems show

    - Pages: [Write], [Read] and [Scan] through the pool do exactly what their
      list specifications say; a transaction reads its own writes, others do not
      see them; compaction is well formed and keeps what it should under stated
      conditions.
    - Pool: fetching, evicting and flushing never change the contents of a page,
      a successful flush is durable, a fetch succeeds when a frame can be had; an
      allocation takes the page behind the end of the device, which is fresh while
      the cached pages lie inside it.
    - Log: frames round-trip; a lone append returns the offset of its record; in
      every interleaving a record is in one place and answered at most once, and the
      flusher goes on unless it has nothing to do, was stopped, or is stuck on the
      full queue; acknowledged records are in the file.
    - Recovery: analysis finds the losers; recovery redoes the log and undoes the
      losers in reverse order; an update on an empty page is kept or rolled back
      as the log has the commit or not.
    - Locks: mutual exclusion in every reachable state, no lost wake-up, release.
    - Search: segments round-trip, the parser ends and inverts printing, a search
      returns exactly the documents that satisfy the query read from the text, which
      is its first expression.
    - Codec: text of short codes round-trips, but for its last character in the
      case the theorem names.
    - Version cache: the first of two overlapping writers to commit wins, a commit
      is visible to later readers.
    - Tree nodes: insertion into a leaf is insertion into its map and stays within
      the page, a split divides the cells, an internal node routes a key to the
      child it should, up to the four bytes it has for the rightmost one.
    - Key-value store: a run of operations whose data fits the leaves answers as a
      finite map does; the iterator yields the keys with the prefix in order; the
      join of two trees is the join of their maps; opening keeps all keys but the
      ephemeral ones; a successful [Put] of a durable key is on the device.  A [Put]
      that finds the root leaf full splits it, reports success and drops the record.
    - Interfaces: a client gets the same answers from the tree store, the
      replicating store and the migrated hot-swap store, those of the finite map;
      a session that takes locks through the interface holds them until it
      releases them, and nobody else holds what it holds exclusively.
    - Replication: an identity key is written to both trees and the mirror file,
      and is read back after the primary tree was reset.
    - Hot swap: a read falls through to the legacy page and copies the value into
      the tree; a deletion of a copied key hides the legacy record; the migration
      keeps the answer to every read; before it, the iterator yields the tree in
      order and then the matching records of the legacy page, keys of the tree
      again among them.
    - UQL: tokens and statements of the documented forms round-trip; every input
      is answered with a statement or an error; numbers are read in their range;
      [SELECT] returns the rows of the documents its filter finds, up to its limit,
      from cache or page; an inserted row is selected once its document is in the
      segment, also by a process started after a flush; [UPDATE] and [DELETE]
      change exactly the rows they match, on the page and in the cache.
    - ORM: a stored model is found again, up to its first quote.
    - Kernel: an inserted document is added to what a search sees of its terms and
      nothing else; a search returns exactly the documents of the query's set that
      have a scored posting, up to its limit; a denied distributed search touches
      nothing but the audit messages; the ring is sorted and holds the points of
      the nodes added, whatever else happens in between.
    - Where the code does something other than what it is meant to do, a theorem
      states what it does: the victim loop that never ends, compaction that
      changes reads, LSNs that are not offsets, back pointers that survive a
      checkpoint, the loser at LSN 0, the torn log, the lock upgrade that waits
      forever, hash keys that collide, cache reads that are not repeatable, a
      crowded root page that is erased when the store is opened, a deletion that
      misses a key of the legacy page, a log whose flusher waits for itself, words
      after the first expression of a query that are dropped, a row for a limit of
      zero, a record lost in a split, a new tree page on
      a reserved root, a checksum over a tree node, a fetch that waits for its
      caller's latch, keys listed twice, [UPDATE] and [DELETE] texts that are always
      rejected, filters that lose their operators, a failed insert that readers
      see, models cut at a quote, updates that the cache does not learn of, and
      posting chunks and NOT queries that a search cannot answer.

    * Modelling choices

    Operations that hold a mutex throughout are atomic; what the code does
    between critical sections (log appends, lock waits) is a step relation.  An
    operation on one page runs from fetch to unpin.  The tree operations latch more
    than one page; they run to completion here, and a latch shows where an
    operation would release it twice or wait for itself: in its own descent, or in
    the flush that a fetch makes when most frames are dirty ([FetchLatched] takes
    the frames the caller has latched).  The theorems on descents ask that this
    flush is not due ([slack]) or that the tree is its root page.
    Each component that takes the shared metrics object keeps its own counters.
    Clock readings are arguments.  Error texts are kept without their formatted
    arguments; sentinel errors and wrapping are kept.  Device and policy are
    arguments with laws; the operating system behind the log is an outcome per
    step of the flusher ([io_outcome]: of a batch - success, a partial write, a
    failed sync - and of the truncation and the reopening of the file).  The laws of
    the file system and of the JSON form behind the mirror ([FileSystemSpec],
    [MirrorCodecSpec]) are those of operations that succeed and of UTF-8 keys; that
    the operations on the mirror succeed is the hypothesis [serves] of the theorems
    that speak of the mirror.  Pin counts do not wrap: a page has fewer than 2^31
    pins.  A UQL statement
    and a kernel call run alone, so a lock request that has to wait never returns.
    Floating-point numbers are those of [SpecFloat] at binary64, each operation
    rounded on its own (no fused multiply-add).  Package json, the
    Unicode tables beyond ASCII, SHA-256, the logarithm and the order in which
    [sort.Slice] leaves equal scores are parameters (classes [ModelCodec],
    [SearchJSON] with [SearchJSONSpec], [Unicode], and arguments); UTF-8, decimal
    numbers and the string functions the code uses are defined.

    Loops that are not structural carry fuel: the victim search one round per
    frame and one more (for the LRU policy: enough whenever some page is unpinned,
    and running out is [Hang], as a round without a result leaves the order as it
    was and the loop never ends; another policy may need another bound, and the
    theorems that say a fetch returns are those of LRU); the flusher that runs alone
    as many rounds as [work] counts; the log passes one round per byte of the log; the undo pass takes any
    fuel above the number of records; the parser 51 levels, which the nesting
    limit of 50 never uses up; a descent of the tree one round per level and one
    more; a walk along the leaves one round per record and one more; the loops of
    the lexer one round per byte of the text and one more; the loop over the words
    of a condition three rounds more than the text has bytes; the loop over a range
    cursor in the kernel any number from two on.  Theorems about results include
    that the fuel is enough.

    * Not modelled

    Log output.  Calls that interleave: statements, kernel calls and store calls
    run one after the other, so a hot-swap call during the migration's goroutine
    and a latch that an open iterator keeps while other calls flush the pool are
    outside the model.  Splits of trees of more than one page are defined, and
    their effect on the pages is proved, without a theorem on the whole tree: the
    code loses the record, or panics for want of an ancestor, there.  Insertions of
    documents that compact a page on the way are outside the theorems on documents,
    as compaction can change what readers find.  [DB] takes an arbitrary [Codec];
    the code has no adapter from the block codec to that interface.  File creation
    and short writes of a segment file, the operating system, package json and the
    network transport are parameters or left out: their code is not here. *)

From Stdlib Require Import ZArith.

Open Scope Z_scope.

(** ** Storage layout (common.go, sections 1 and 2) *)

Definition PageSize : Z := 32768.
Definition PageHeaderSize : Z := 32.
Definition RecordHeaderSize : Z := 24.
Definition BTreeHeaderSize : Z := 24.
Definition PageTypeInternal : Z := 1.
Definition PageTypeLeaf : Z := 2.

(** ** Compression and query limits (section 3) *)

Definition MaxBlockSize : Z := 32700.
Definition MagicHeader : Z := 0x5348.
Definition LookaheadBits : Z := 8.
Definition LookaheadMask : Z := 0xFF.
Definition LookaheadSize : Z := 256.
Definition MaxQueryDepth : Z := 50.

(** ** Log record types (section 4) *)

Definition LogTypeBegin : Z := 0.
Definition LogTypeUpdate : Z := 1.
Definition LogTypeCommit : Z := 2.
Definition LogTypeAbort : Z := 3.
Definition LogTypeCLR : Z := 4.
Definition LogTypeCheckpoint : Z := 5.

(** ** Identifiers (section 5) *)

(** [PageID] and [LogSequenceNumber] are [uint64]; values are kept in range
    by the operations that produce them. *)
Abbreviation PageID := Z (only parsing).
Abbreviation LogSequenceNumber := Z (only parsing).
