(* ===== verification/Prelude.v ===== *)
(** Shared vocabulary of the development: Go's machine integers, byte strings
    and their little-endian codecs, byte arrays as total maps with slices and
    in-place stores, Go results (value, error, panic, no return), and the
    order in which Go ranges over a map. *)

From Stdlib Require Import Strings.Byte.
From Stdlib Require Export ZArith Lia.
From stdpp Require Export base gmap list list_numbers strings sorting.


Open Scope Z_scope.

(** ** Bytes *)

Abbreviation byte := Byte.byte (only parsing).
Abbreviation bytes := (list Byte.byte) (only parsing).

#[export] Instance byte_eq_decision : EqDecision byte := Byte.byte_eq_dec.

#[export] Program Instance byte_countable : Countable byte :=
  inj_countable Byte.to_N Byte.of_N _.
Next Obligation.
intros b. by rewrite Byte.of_to_N.
Qed.

(** The value of a byte, and the truncating conversion [byte(z)]. *)
Definition b2z (b : byte) : Z := Z.of_N (Byte.to_N b).
Definition z2b (z : Z) : byte := default Byte.x00 (Byte.of_N (Z.to_N (z mod 256))).

(** Go string literals are byte sequences. *)
Definition str (s : string) : bytes := String.list_byte_of_string s.
Arguments str !_%_string /.

(** ** Machine integers *)

Definition u16 (z : Z) : Z := z mod 2 ^ 16.
Definition u32 (z : Z) : Z := z mod 2 ^ 32.
Definition u64 (z : Z) : Z := z mod 2 ^ 64.
Definition i64 (z : Z) : Z := (z + 2 ^ 63) mod 2 ^ 64 - 2 ^ 63.

Definition MaxInt64 : Z := 2 ^ 63 - 1.

(** ** Lengths in [Z] *)

Definition zlen {A} (l : list A) : Z := Z.of_nat (length l).

(** ** Results of Go calls *)

(** Errors are values: the sentinels the code compares with [errors.Is], any
    other message, and a message that wraps an error ([%w]). *)
Inductive error :=
| EOF
| ErrUnexpectedEOF
| ErrPageFull
| Msg (s : string)
| Wrap (s : string) (e : error).

#[export] Instance error_eq_decision : EqDecision error.
Proof. solve_decision. Defined.

(** [errors.Is], which unwraps. *)
Fixpoint errors_Is (e target : error) : bool :=
  if decide (e = target) then true
  else match e with Wrap _ e' => errors_Is e' target | _ => false end.

(** A call returns a value, returns an error, panics, or never returns. *)
Inductive result (A : Type) :=
| Ok (a : A)
| Err (e : error)
| Panic
| Hang.
Arguments Ok {_} _.
Arguments Err {_} _.
Arguments Panic {_}.
Arguments Hang {_}.

#[export] Instance result_ret : MRet result := fun A a => Ok a.
#[export] Instance result_bind : MBind result := fun A B f r =>
  match r with Ok a => f a | Err e => Err e | Panic => Panic | Hang => Hang end.

Definition returns {A} (r : result A) : bool :=
  match r with Ok _ | Err _ => true | Panic | Hang => false end.

(** ** Byte arrays *)

(** A fixed-size Go array (or a buffer whose length is known from the
    context) is a total map from indices; every access in the models is
    guarded by the bounds check Go performs. *)
Definition mem := Z -> byte.

Definition zero_mem : mem := fun _ => Byte.x00.

(** [m[lo:hi]], without its bounds check. *)
Definition slice (m : mem) (lo hi : Z) : bytes := m <$> seqZ lo (hi - lo).

(** [copy(m[off:], bs)], without its bounds check. *)
Definition store (m : mem) (off : Z) (bs : bytes) : mem := fun i =>
  if (off <=? i) && (i <? off + zlen bs)
  then default Byte.x00 (bs !! Z.to_nat (i - off)) else m i.

(** [for i := lo; i < hi; i++ { m[i] = 0 }]. *)
Definition clear (m : mem) (lo hi : Z) : mem := fun i =>
  if (lo <=? i) && (i <? hi) then Byte.x00 else m i.

(** [copy(m[dst:], m[src:src+n])]: Go's copy is correct on overlap. *)
Definition move (m : mem) (dst src n : Z) : mem := fun i =>
  if (dst <=? i) && (i <? dst + n) then m (src + (i - dst)) else m i.

(** The bounds-checked forms: a slice expression [m[lo:hi]] of an array of
    [cap] bytes panics unless [lo <= hi <= cap]. *)
Definition slice_ok (cap lo hi : Z) : bool :=
  (0 <=? lo) && (lo <=? hi) && (hi <=? cap).

Definition sliceR (m : mem) (cap lo hi : Z) : result bytes :=
  if slice_ok cap lo hi then Ok (slice m lo hi) else Panic.

Definition storeR (m : mem) (cap lo hi : Z) (bs : bytes) : result mem :=
  if slice_ok cap lo hi then Ok (store m lo (take (Z.to_nat (hi - lo)) bs)) else Panic.

(** ** encoding/binary *)

Fixpoint le_bytes (n : nat) (z : Z) : bytes :=
  match n with O => [] | S n' => z2b z :: le_bytes n' (z / 256) end.

Fixpoint le_val (bs : bytes) : Z :=
  match bs with [] => 0 | b :: bs' => b2z b + 256 * le_val bs' end.

Definition be_bytes (n : nat) (z : Z) : bytes := rev (le_bytes n z).
Definition be_val (bs : bytes) : Z := le_val (rev bs).

Definition PutUint16 (m : mem) (off v : Z) : mem := store m off (le_bytes 2 v).
Definition PutUint32 (m : mem) (off v : Z) : mem := store m off (le_bytes 4 v).
Definition PutUint64 (m : mem) (off v : Z) : mem := store m off (le_bytes 8 v).
Definition Uint16 (m : mem) (off : Z) : Z := le_val (slice m off (off + 2)).
Definition Uint32 (m : mem) (off : Z) : Z := le_val (slice m off (off + 4)).
Definition Uint64 (m : mem) (off : Z) : Z := le_val (slice m off (off + 8)).

(** ** package bytes *)

Fixpoint bytes_compare (a b : bytes) : comparison :=
  match a, b with
  | [], [] => Eq
  | [], _ :: _ => Lt
  | _ :: _, [] => Gt
  | x :: a', y :: b' =>
      match Z.compare (b2z x) (b2z y) with Eq => bytes_compare a' b' | c => c end
  end.

Definition bytes_equal (a b : bytes) : bool := bool_decide (a = b).

Fixpoint has_prefix (s p : bytes) {struct p} : bool :=
  match p, s with
  | [], _ => true
  | x :: p', y :: s' => bool_decide (x = y) && has_prefix s' p'
  | _ :: _, [] => false
  end.

(** ** Ranging over a map *)

(** Go leaves the order of [for k, v := range m] unspecified.  A definition
    that ranges over a map takes the order as a parameter; the theorems hold
    for every order. *)
Class MapRange := {
  range : forall {K V : Type} `{Countable K}, gmap K V -> list (K * V);
  range_perm : forall {K V : Type} `{Countable K} (m : gmap K V),
    range m ≡ₚ map_to_list m
}.

(** The order stdpp enumerates a map in: an instance to compute with. *)
Definition canonical_range : MapRange := {|
  range := fun K V _ _ m => map_to_list m;
  range_perm := fun K V _ _ m => Permutation_refl _
|}.

(** * Lemmas *)

Create HintDb udb discriminated.
Create Rewrite HintDb len.

(** Normalise lengths, then arithmetic. *)
Ltac len := autorewrite with len in *; unfold zlen in *; autorewrite with len in *; lia.

(** Case analysis on the boolean comparisons in the goal. *)
Ltac bcase :=
  repeat match goal with
  | |- context [if ?b then _ else _] => destruct b eqn:?
  end.

(** Turn boolean arithmetic facts into propositions. *)
Ltac bprop :=
  repeat match goal with
  | H : (_ && _) = true |- _ => apply andb_true_iff in H as [? ?]
  | H : (_ && _) = false |- _ => apply andb_false_iff in H as [H|H]
  | H : (_ || _) = true |- _ => apply orb_true_iff in H as [H|H]
  | H : (_ || _) = false |- _ => apply orb_false_iff in H as [? ?]
  | H : negb _ = true |- _ => apply negb_true_iff in H
  | H : negb _ = false |- _ => apply negb_false_iff in H
  | H : (_ <=? _) = true |- _ => apply Z.leb_le in H
  | H : (_ <=? _) = false |- _ => apply Z.leb_gt in H
  | H : (_ <? _) = true |- _ => apply Z.ltb_lt in H
  | H : (_ <? _) = false |- _ => apply Z.ltb_ge in H
  | H : (_ =? _) = true |- _ => apply Z.eqb_eq in H
  | H : (_ =? _) = false |- _ => apply Z.eqb_neq in H
  end.

(** ** Bytes *)

Lemma b2z_range b : 0 <= b2z b < 256.
Proof. unfold b2z. pose proof (Byte.to_N_bounded b). lia. Qed.

Lemma z2b_b2z b : z2b (b2z b) = b.
Proof.
  unfold z2b. rewrite Z.mod_small by apply b2z_range.
  unfold b2z. by rewrite N2Z.id, Byte.of_to_N.
Qed.

Lemma b2z_z2b z : b2z (z2b z) = z mod 256.
Proof.
  unfold z2b. pose proof (Z.mod_pos_bound z 256 ltac:(lia)).
  destruct (Byte.of_N (Z.to_N (z mod 256))) as [b|] eqn:E; cbn.
  - apply Byte.to_of_N in E. unfold b2z. lia.
  - apply Byte.of_N_None_iff in E. lia.
Qed.

#[export] Instance b2z_inj : Inj (=) (=) b2z.
Proof. intros a b E. by rewrite <- (z2b_b2z a), <- (z2b_b2z b), E. Qed.

(** ** Little-endian codecs *)

Lemma length_le_bytes n z : length (le_bytes n z) = n.
Proof. revert z. induction n; intros; cbn; auto. Qed.
#[export] Hint Rewrite length_le_bytes : len.

Lemma le_val_bytes n z : le_val (le_bytes n z) = z mod 2 ^ (8 * Z.of_nat n).
Proof.
  revert z. induction n as [|n IH]; intros z; cbn [le_bytes le_val].
  - by rewrite Z.mod_1_r.
  - rewrite IH, b2z_z2b.
    replace (8 * Z.of_nat (S n)) with (8 + 8 * Z.of_nat n) by lia.
    rewrite Z.pow_add_r by lia. change (2 ^ 8) with 256.
    rewrite Z.rem_mul_r by lia. lia.
Qed.

Lemma le_val_range bs : 0 <= le_val bs < 2 ^ (8 * zlen bs).
Proof.
  unfold zlen. induction bs as [|b bs IH]; cbn [le_val length]; [cbn; lia|].
  pose proof (b2z_range b).
  replace (8 * Z.of_nat (S (length bs))) with (8 + 8 * Z.of_nat (length bs)) by lia.
  rewrite Z.pow_add_r by lia. change (2 ^ 8) with 256. lia.
Qed.

Lemma le_bytes_val n bs : length bs = n -> le_bytes n (le_val bs) = bs.
Proof.
  intros <-. induction bs as [|b bs IH]; cbn [le_val length le_bytes]; [done|].
  pose proof (b2z_range b). f_equal.
  - rewrite <- (z2b_b2z b) at 2. unfold z2b.
    replace ((b2z b + 256 * le_val bs) mod 256) with (b2z b mod 256); [done|].
    by rewrite Z.mul_comm, Z_mod_plus_full.
  - replace ((b2z b + 256 * le_val bs) / 256) with (le_val bs); [done|].
    rewrite Z.mul_comm, Z.div_add, Z.div_small by lia. lia.
Qed.

(** ** Slices and stores *)

Lemma length_slice m lo hi : length (slice m lo hi) = Z.to_nat (hi - lo).
Proof. unfold slice. by rewrite length_fmap, length_seqZ. Qed.
#[export] Hint Rewrite length_slice : len.

Lemma lookup_slice m lo hi i :
  0 <= i < hi - lo -> slice m lo hi !! Z.to_nat i = Some (m (lo + i)).
Proof.
  intros Hi. unfold slice.
  rewrite list_lookup_fmap, lookup_seqZ_lt by lia. cbn. f_equal. f_equal. lia.
Qed.

Lemma slice_ext m1 m2 lo hi :
  (forall i, lo <= i < hi -> m1 i = m2 i) -> slice m1 lo hi = slice m2 lo hi.
Proof.
  intros E. unfold slice. apply list_fmap_ext. intros i x Hx.
  apply lookup_seqZ in Hx as [-> ?]. apply E. lia.
Qed.

Lemma slice_app m lo mid hi :
  lo <= mid <= hi -> slice m lo hi = slice m lo mid ++ slice m mid hi.
Proof.
  intros H. unfold slice.
  replace (hi - lo) with ((mid - lo) + (hi - mid)) by lia.
  rewrite seqZ_app, fmap_app by lia. do 3 f_equal. lia.
Qed.

Lemma slice_nil m lo hi : hi <= lo -> slice m lo hi = [].
Proof. intros. unfold slice. by rewrite seqZ_nil by lia. Qed.

Lemma slice_shift m1 m2 lo1 hi1 lo2 hi2 :
  hi1 - lo1 = hi2 - lo2 ->
  (forall i, 0 <= i < hi1 - lo1 -> m1 (lo1 + i) = m2 (lo2 + i)) ->
  slice m1 lo1 hi1 = slice m2 lo2 hi2.
Proof.
  intros Hl E. apply list_eq. intros n.
  destruct (decide (Z.of_nat n < hi1 - lo1)).
  - rewrite <- (Nat2Z.id n), !lookup_slice by lia. f_equal. apply E. lia.
  - rewrite !lookup_ge_None_2; [done | len | len].
Qed.

Lemma slice_inv m1 m2 lo hi i :
  slice m1 lo hi = slice m2 lo hi -> lo <= i < hi -> m1 i = m2 i.
Proof.
  intros E Hi.
  assert (slice m1 lo hi !! Z.to_nat (i - lo) = slice m2 lo hi !! Z.to_nat (i - lo)) as E'
    by by rewrite E.
  rewrite !lookup_slice in E' by lia. injection E' as E'.
  by replace (lo + (i - lo)) with i in E' by lia.
Qed.

Lemma store_out m off bs i :
  ~ (off <= i < off + zlen bs) -> store m off bs i = m i.
Proof.
  intros. unfold store. destruct (_ && _) eqn:E; [|done].
  bprop. lia.
Qed.

Lemma store_in m off bs i b :
  bs !! i = Some b -> store m off bs (off + Z.of_nat i) = b.
Proof.
  intros Hb. pose proof (lookup_lt_Some _ _ _ Hb). unfold store, zlen.
  rewrite (proj2 (andb_true_iff _ _)) by (split; [apply Z.leb_le | apply Z.ltb_lt]; lia).
  replace (off + Z.of_nat i - off) with (Z.of_nat i) by lia.
  by rewrite Nat2Z.id, Hb.
Qed.

(** Reading back exactly what was stored. *)
Lemma slice_store_same m off bs : slice (store m off bs) off (off + zlen bs) = bs.
Proof.
  apply list_eq. intros n. destruct (bs !! n) as [b|] eqn:Hb.
  - pose proof (lookup_lt_Some _ _ _ Hb). rewrite <- (Nat2Z.id n).
    rewrite lookup_slice by len. f_equal. by apply store_in.
  - apply lookup_ge_None in Hb. apply lookup_ge_None. len.
Qed.

(** Reading elsewhere. *)
Lemma slice_store_other m off bs lo hi :
  hi <= off \/ off + zlen bs <= lo ->
  slice (store m off bs) lo hi = slice m lo hi.
Proof. intros H. apply slice_ext. intros. apply store_out. lia. Qed.

Lemma slice_clear_other m a b lo hi :
  hi <= a \/ b <= lo -> slice (clear m a b) lo hi = slice m lo hi.
Proof.
  intros H. apply slice_ext. intros i Hi. unfold clear.
  destruct (_ && _) eqn:E; [|done]. bprop. lia.
Qed.

Lemma store_nil m off i : store m off [] i = m i.
Proof. apply store_out. unfold zlen. cbn. lia. Qed.

Lemma sliceR_ok m cap lo hi :
  0 <= lo <= hi -> hi <= cap -> sliceR m cap lo hi = Ok (slice m lo hi).
Proof.
  intros. unfold sliceR, slice_ok.
  by rewrite !(proj2 (Z.leb_le _ _)) by lia.
Qed.

Lemma storeR_ok m cap lo hi bs :
  0 <= lo <= hi -> hi <= cap -> zlen bs = hi - lo ->
  storeR m cap lo hi bs = Ok (store m lo bs).
Proof.
  intros. unfold storeR, slice_ok.
  rewrite !(proj2 (Z.leb_le _ _)) by lia. cbn.
  rewrite take_ge; [done | len].
Qed.

(** ** Integer fields in byte arrays *)

Lemma Uint16_Put m off v : Uint16 (PutUint16 m off v) off = u16 v.
Proof.
  unfold Uint16, PutUint16, u16.
  replace (off + 2) with (off + zlen (le_bytes 2 v)) by len.
  by rewrite slice_store_same, le_val_bytes.
Qed.

Lemma Uint32_Put m off v : Uint32 (PutUint32 m off v) off = u32 v.
Proof.
  unfold Uint32, PutUint32, u32.
  replace (off + 4) with (off + zlen (le_bytes 4 v)) by len.
  by rewrite slice_store_same, le_val_bytes.
Qed.

Lemma Uint64_Put m off v : Uint64 (PutUint64 m off v) off = u64 v.
Proof.
  unfold Uint64, PutUint64, u64.
  replace (off + 8) with (off + zlen (le_bytes 8 v)) by len.
  by rewrite slice_store_same, le_val_bytes.
Qed.

Lemma Uint16_range m off : 0 <= Uint16 m off < 2 ^ 16.
Proof.
  unfold Uint16. pose proof (le_val_range (slice m off (off + 2))) as H.
  replace (zlen (slice m off (off + 2))) with 2 in H by len. exact H.
Qed.

Lemma Uint32_range m off : 0 <= Uint32 m off < 2 ^ 32.
Proof.
  unfold Uint32. pose proof (le_val_range (slice m off (off + 4))) as H.
  replace (zlen (slice m off (off + 4))) with 4 in H by len. exact H.
Qed.

Lemma Uint64_range m off : 0 <= Uint64 m off < 2 ^ 64.
Proof.
  unfold Uint64. pose proof (le_val_range (slice m off (off + 8))) as H.
  replace (zlen (slice m off (off + 8))) with 8 in H by len. exact H.
Qed.

Lemma Uint16_ext m1 m2 off :
  (forall i, off <= i < off + 2 -> m1 i = m2 i) -> Uint16 m1 off = Uint16 m2 off.
Proof. intros. unfold Uint16. f_equal. by apply slice_ext. Qed.

Lemma Uint32_ext m1 m2 off :
  (forall i, off <= i < off + 4 -> m1 i = m2 i) -> Uint32 m1 off = Uint32 m2 off.
Proof. intros. unfold Uint32. f_equal. by apply slice_ext. Qed.

Lemma Uint64_ext m1 m2 off :
  (forall i, off <= i < off + 8 -> m1 i = m2 i) -> Uint64 m1 off = Uint64 m2 off.
Proof. intros. unfold Uint64. f_equal. by apply slice_ext. Qed.

(** A store disjoint from a field does not change the field. *)
Lemma field_store_other (n off a : Z) m bs :
  a + n <= off \/ off + zlen bs <= a ->
  forall i, a <= i < a + n -> store m off bs i = m i.
Proof. intros. apply store_out. lia. Qed.

Lemma field_clear_other (n a lo hi : Z) m :
  a + n <= lo \/ hi <= a ->
  forall i, a <= i < a + n -> clear m lo hi i = m i.
Proof.
  intros H i Hi. unfold clear. destruct (_ && _) eqn:E; [|done]. bprop. lia.
Qed.

Lemma u16_small z : 0 <= z < 2 ^ 16 -> u16 z = z.
Proof. apply Z.mod_small. Qed.
Lemma u32_small z : 0 <= z < 2 ^ 32 -> u32 z = z.
Proof. apply Z.mod_small. Qed.
Lemma u64_small z : 0 <= z < 2 ^ 64 -> u64 z = z.
Proof. apply Z.mod_small. Qed.
Lemma i64_small z : - 2 ^ 63 <= z < 2 ^ 63 -> i64 z = z.
Proof. intros. unfold i64. rewrite Z.mod_small; lia. Qed.
Lemma u64_range z : 0 <= u64 z < 2 ^ 64.
Proof. apply Z.mod_pos_bound. lia. Qed.
Lemma u32_range z : 0 <= u32 z < 2 ^ 32.
Proof. apply Z.mod_pos_bound. lia. Qed.

(** Read the fields of a chain of [PutUintN]s, stores and clears: [fields]
    rewrites a hit to the value and skips a miss when the ranges are disjoint
    by arithmetic. *)
Ltac field_miss :=
  intros; unfold PutUint16, PutUint32, PutUint64;
  first [ apply store_out; autorewrite with len; unfold zlen; autorewrite with len; lia
        | eapply field_clear_other; [|eassumption]; lia ].

Ltac fields :=
  repeat first
  [ rewrite Uint16_Put | rewrite Uint32_Put | rewrite Uint64_Put
  | match goal with
    | |- context [Uint16 (PutUint16 ?m ?o ?v) ?a] =>
        rewrite (Uint16_ext (PutUint16 m o v) m a) by field_miss
    | |- context [Uint16 (PutUint32 ?m ?o ?v) ?a] =>
        rewrite (Uint16_ext (PutUint32 m o v) m a) by field_miss
    | |- context [Uint16 (PutUint64 ?m ?o ?v) ?a] =>
        rewrite (Uint16_ext (PutUint64 m o v) m a) by field_miss
    | |- context [Uint16 (store ?m ?o ?v) ?a] =>
        rewrite (Uint16_ext (store m o v) m a) by field_miss
    | |- context [Uint16 (clear ?m ?o ?v) ?a] =>
        rewrite (Uint16_ext (clear m o v) m a) by field_miss
    | |- context [Uint32 (PutUint16 ?m ?o ?v) ?a] =>
        rewrite (Uint32_ext (PutUint16 m o v) m a) by field_miss
    | |- context [Uint32 (PutUint32 ?m ?o ?v) ?a] =>
        rewrite (Uint32_ext (PutUint32 m o v) m a) by field_miss
    | |- context [Uint32 (PutUint64 ?m ?o ?v) ?a] =>
        rewrite (Uint32_ext (PutUint64 m o v) m a) by field_miss
    | |- context [Uint32 (store ?m ?o ?v) ?a] =>
        rewrite (Uint32_ext (store m o v) m a) by field_miss
    | |- context [Uint32 (clear ?m ?o ?v) ?a] =>
        rewrite (Uint32_ext (clear m o v) m a) by field_miss
    | |- context [Uint64 (PutUint16 ?m ?o ?v) ?a] =>
        rewrite (Uint64_ext (PutUint16 m o v) m a) by field_miss
    | |- context [Uint64 (PutUint32 ?m ?o ?v) ?a] =>
        rewrite (Uint64_ext (PutUint32 m o v) m a) by field_miss
    | |- context [Uint64 (PutUint64 ?m ?o ?v) ?a] =>
        rewrite (Uint64_ext (PutUint64 m o v) m a) by field_miss
    | |- context [Uint64 (store ?m ?o ?v) ?a] =>
        rewrite (Uint64_ext (store m o v) m a) by field_miss
    | |- context [Uint64 (clear ?m ?o ?v) ?a] =>
        rewrite (Uint64_ext (clear m o v) m a) by field_miss
    end ].

(** ** Byte-string order *)

Lemma bytes_compare_refl a : bytes_compare a a = Eq.
Proof. induction a as [|x a IH]; cbn; [done|]. by rewrite Z.compare_refl. Qed.

Lemma bytes_compare_eq a b : bytes_compare a b = Eq <-> a = b.
Proof.
  split; [|intros ->; apply bytes_compare_refl].
  revert b. induction a as [|x a IH]; intros [|y b]; cbn; try done.
  destruct (Z.compare_spec (b2z x) (b2z y)) as [E|E|E]; try done.
  intros H. apply (inj b2z) in E. f_equal; auto.
Qed.

Lemma bytes_compare_antisym a b : bytes_compare b a = CompOpp (bytes_compare a b).
Proof.
  revert b. induction a as [|x a IH]; intros [|y b]; cbn; try done.
  rewrite (Z.compare_antisym (b2z x) (b2z y)).
  destruct (b2z x ?= b2z y); cbn; auto.
Qed.

Definition bytes_lt (a b : bytes) : Prop := bytes_compare a b = Lt.
#[export] Instance bytes_lt_dec a b : Decision (bytes_lt a b).
Proof. unfold bytes_lt. apply _. Defined.

#[export] Instance bytes_lt_trans : Transitive bytes_lt.
Proof.
  intros a b. revert a. unfold bytes_lt.
  induction b as [|y b IH]; intros [|x a] [|z c]; cbn; try done.
  destruct (Z.compare_spec (b2z x) (b2z y)), (Z.compare_spec (b2z y) (b2z z)),
    (Z.compare_spec (b2z x) (b2z z)); try done; try lia; eauto.
Qed.

Lemma bytes_lt_irrefl a : ~ bytes_lt a a.
Proof. unfold bytes_lt. by rewrite bytes_compare_refl. Qed.

Lemma bytes_compare_gt a b : bytes_compare a b = Gt <-> bytes_lt b a.
Proof.
  unfold bytes_lt. rewrite bytes_compare_antisym.
  destruct (bytes_compare b a); cbn; naive_solver.
Qed.

Lemma bytes_lt_total a b : bytes_lt a b \/ a = b \/ bytes_lt b a.
Proof.
  destruct (bytes_compare a b) eqn:E.
  - right; left. by apply bytes_compare_eq.
  - by left.
  - right; right. by apply bytes_compare_gt.
Qed.

Lemma has_prefix_spec s p : has_prefix s p = true <-> exists t, s = p ++ t.
Proof.
  revert s. induction p as [|x p IH]; intros s; cbn.
  - split; [by eexists | done].
  - destruct s as [|y s]; [split; [done|by intros [t ?]]|].
    rewrite andb_true_iff, bool_decide_eq_true, IH. split.
    + intros [<- [t ->]]. by eexists.
    + intros [t [= -> ->]]. eauto.
Qed.

(** ** Ranging over maps *)

Section MapRangeFacts.
Context `{MapRange} {K V : Type} `{Countable K}.
Implicit Types m : gmap K V.

Lemma elem_of_range m k v : (k, v) ∈ range m <-> m !! k = Some v.
Proof. by rewrite range_perm, elem_of_map_to_list. Qed.

Lemma NoDup_range_keys m : NoDup (range m).*1.
Proof. rewrite range_perm. apply NoDup_fst_map_to_list. Qed.

Lemma range_to_map m : list_to_map (range m) = m.
Proof.
  rewrite <- (list_to_map_to_list m) at 2.
  apply list_to_map_proper; [apply NoDup_range_keys | apply range_perm].
Qed.

Lemma length_range m : length (range m) = size m.
Proof. by rewrite range_perm, length_map_to_list. Qed.
(** A loop that writes each key of the map at most once. *)
Lemma fold_range_lookup {W} (g : K -> V -> option W -> option W) m (res : gmap K W) k :
  fold_left (fun res '(k, x) => match g k x (res !! k) with Some y => <[k := y]> res | None => res end)
    (range m) res !! k =
  match m !! k with
  | Some x => match g k x (res !! k) with Some y => Some y | None => res !! k end
  | None => res !! k
  end.
Proof.
  assert (forall (ls : list (K * V)) (res : gmap K W), NoDup ls.*1 ->
    fold_left (fun res '(k, x) => match g k x (res !! k) with Some y => <[k := y]> res | None => res end) ls res !! k =
    match (list_to_map ls : gmap K V) !! k with
    | Some x => match g k x (res !! k) with Some y => Some y | None => res !! k end
    | None => res !! k
    end) as Hgen.
  { induction ls as [|[k' x] ls IH]; intros res0 Hnd; [done|]. cbn [fold_left fmap list_fmap fst] in *.
    apply NoDup_cons in Hnd as [Hk Hnd]. rewrite IH by done. cbn [list_to_map foldr]. cbn.
    destruct (decide (k = k')) as [->|Hne].
    - rewrite lookup_insert_eq. rewrite (not_elem_of_list_to_map_1 ls k') by done.
      destruct (g k' x (res0 !! k')) eqn:E; [by rewrite lookup_insert_eq | done].
    - rewrite lookup_insert_ne by done.
      assert ((match g k' x (res0 !! k') with Some y => <[k' := y]> res0 | None => res0 end) !! k = res0 !! k) as ->.
      { destruct (g k' x (res0 !! k')); [by rewrite lookup_insert_ne | done]. }
      done. }
  rewrite Hgen by apply NoDup_range_keys. by rewrite range_to_map.
Qed.
End MapRangeFacts.

Lemma fold_left_ext {A B} (f g : A -> B -> A) l a :
  (forall a b, f a b = g a b) -> fold_left f l a = fold_left g l a.
Proof. intros E. revert a. induction l as [|b l IH]; intros a; cbn; [done|]. by rewrite E, IH. Qed.

(** ** Packing bits *)

Lemma lor_shiftl acc y s : 0 <= s -> 0 <= acc < 2 ^ s -> Z.lor acc (Z.shiftl y s) = acc + y * 2 ^ s.
Proof.
  intros Hs Ha. rewrite Z.shiftl_mul_pow2 by done. rewrite <- Z.lxor_lor; [symmetry; apply Z.add_nocarry_lxor|].
  all: apply Z.bits_inj'; intros n Hn; rewrite Z.land_spec, Z.bits_0.
  all: destruct (Z_lt_le_dec n s); [rewrite Z.mul_pow2_bits_low by done; apply andb_false_r|].
  all: replace (Z.testbit acc n) with false; [done|]; symmetry; apply Z.testbit_false; [done|].
  all: rewrite Z.div_small; [done|]; split; [lia|].
  all: apply Z.lt_le_trans with (2 ^ s); [lia | apply Z.pow_le_mono_r; lia].
Qed.

(** ** More on stores *)

Lemma zlen_app {A} (l1 l2 : list A) : zlen (l1 ++ l2) = zlen l1 + zlen l2.
Proof. unfold zlen. rewrite length_app. lia. Qed.
Lemma zlen_cons {A} (x : A) l : zlen (x :: l) = 1 + zlen l.
Proof. unfold zlen. cbn. lia. Qed.
Lemma zlen_nonneg {A} (l : list A) : 0 <= zlen l.
Proof. unfold zlen. lia. Qed.
Lemma zlen_le_bytes n z : zlen (le_bytes n z) = Z.of_nat n.
Proof. unfold zlen. by rewrite length_le_bytes. Qed.
Lemma zlen_slice m lo hi : lo <= hi -> zlen (slice m lo hi) = hi - lo.
Proof. intros. unfold zlen. rewrite length_slice. lia. Qed.

(** Two consecutive stores are one. *)
Lemma store_app m off a b i :
  store m off (a ++ b) i = store (store m off a) (off + zlen a) b i.
Proof.
  destruct (decide (off <= i < off + zlen a)).
  - rewrite (store_out _ _ b) by lia.
    assert (exists x, a !! Z.to_nat (i - off) = Some x) as [x Hx].
    { apply lookup_lt_is_Some. unfold zlen in *. lia. }
    replace i with (off + Z.of_nat (Z.to_nat (i - off))) by lia.
    rewrite (store_in _ _ _ _ x); [|by apply lookup_app_l_Some].
    by rewrite (store_in _ _ _ _ x).
  - destruct (decide (off + zlen a <= i < off + zlen a + zlen b)).
    + assert (exists x, b !! Z.to_nat (i - off - zlen a) = Some x) as [x Hx].
      { apply lookup_lt_is_Some. unfold zlen in *. lia. }
      transitivity x; [|symmetry].
      * replace i with (off + Z.of_nat (length a + Z.to_nat (i - off - zlen a)))
          by (unfold zlen in *; lia).
        apply store_in. rewrite lookup_app_r by lia. rewrite <- Hx. f_equal. lia.
      * replace i with (off + zlen a + Z.of_nat (Z.to_nat (i - off - zlen a))) by lia.
        by apply store_in.
    + rewrite !store_out by (rewrite ?zlen_app; pose proof (zlen_nonneg a); lia). done.
Qed.

Lemma store_ext m1 m2 off bs i :
  m1 i = m2 i -> store m1 off bs i = store m2 off bs i.
Proof. intros E. unfold store. by rewrite E. Qed.

(** ** Filtering *)

Lemma filter_id {A} (P : A -> Prop) `{forall x, Decision (P x)} (l : list A) :
  (forall x, x ∈ l -> P x) -> filter P l = l.
Proof.
  induction l as [|y l IH]; intros Hl; [done|]. rewrite filter_cons_True.
  - f_equal. apply IH. intros. apply Hl. by right.
  - apply Hl. left.
Qed.

(** ** Calls on a state *)

(** A call on a state that may return an error, panic or never return; the
    bind is [if err != nil { return err }]. *)
Definition io (S A : Type) : Type := S -> result A * S.

#[export] Instance io_ret {S} : MRet (io S) := fun A a s => (Ok a, s).
#[export] Instance io_bind {S} : MBind (io S) := fun A B f m s =>
  match m s with
  | (Ok a, s) => f a s
  | (Err e, s) => (Err e, s)
  | (Panic, s) => (Panic, s)
  | (Hang, s) => (Hang, s)
  end.

(** A call whose error is inspected instead of returned. *)
Definition try {S A} (m : io S A) : io S (error + A) := fun s =>
  match m s with
  | (Ok a, s) => (Ok (inr a), s)
  | (Err e, s) => (Ok (inl e), s)
  | (Panic, s) => (Panic, s)
  | (Hang, s) => (Hang, s)
  end.

(** [_ = f()]. *)
Definition ignore {S A} (m : io S A) : io S unit := _ ← try m; mret tt.

Definition of_result {S A} (r : result A) : io S A := fun s => (r, s).

(** Calls whose error is dropped. *)
Lemma ignore_ok {S A} (m : io S A) (s : S) a s' : m s = (Ok a, s') -> ignore m s = (Ok tt, s').
Proof. intros E. unfold ignore, try, mbind, io_bind. by rewrite E. Qed.

Lemma bind_ok {S A B} (m : io S A) (f : A -> io S B) (s : S) a s' : m s = (Ok a, s') -> (x ← m; f x) s = f a s'.
Proof. intros E. unfold mbind, io_bind. by rewrite E. Qed.
