(* ===== verification/VFS.v ===== *)
(** The block devices (interfaces.go section 1, vfs.go): the [BlockDevice]
    interface as a class of operations with the laws its clients rely on, and
    the in-memory device as an implementation that discharges them.
    The file-backed device is in OSFile.v. *)

From Stdlib Require Import Strings.Byte.
From S2P Require Import Common.
From S2P Require Import Prelude.

(** ** The interface *)

(** [ReadAt(p, off)] fills the first [n] bytes of a caller's buffer of the
    given length and returns [(n, err)]; the bytes read come back as a map.
    [WriteAt(p, off)] takes the buffer as a map and a length.  [Stat] is used
    for [Size()] only. *)
Class BlockDevice (D : Type) := {
  ReadAt : D -> forall (len off : Z), result (mem * Z * option error);
  WriteAt : D -> mem -> forall (len off : Z), result (Z * option error) * D;
  Sync : D -> option error * D;
  StatSize : D -> result Z;
  CloseDevice : D -> option error * D
}.

(** What a device promises: its contents are a byte map that is zero past the
    size; reads at a non-negative offset return and see the contents; a write
    that reports no error replaces exactly the range; a failed write, a sync
    and a stat change nothing outside the range; a sync keeps the size. *)
Class BlockDeviceSpec (D : Type) `{BlockDevice D} := {
  dev_size : D -> Z;
  dev_at : D -> Z -> byte;
  dev_size_nonneg : forall d, 0 <= dev_size d;
  dev_past_end : forall d i, dev_size d <= i -> dev_at d i = Byte.x00;
  ReadAt_returns : forall d len off, 0 <= off ->
    exists p n e, ReadAt d len off = Ok (p, n, e);
  ReadAt_data : forall d len off p n e, 0 <= len -> 0 <= off ->
    ReadAt d len off = Ok (p, n, e) ->
    0 <= n <= len /\ (forall i, 0 <= i < n -> p i = dev_at d (off + i));
  ReadAt_full : forall d len off p n, 0 <= len -> 0 <= off ->
    ReadAt d len off = Ok (p, n, None) -> n = len;
  ReadAt_eof : forall d len off p n e, 0 <= len -> 0 <= off ->
    ReadAt d len off = Ok (p, n, Some e) -> errors_Is e EOF = true ->
    dev_size d <= off + n;
  WriteAt_returns : forall d p len off, 0 <= off ->
    exists n e d', WriteAt d p len off = (Ok (n, e), d');
  WriteAt_data : forall d p len off n d', 0 <= len -> 0 <= off ->
    WriteAt d p len off = (Ok (n, None), d') ->
    dev_size d' = Z.max (dev_size d) (off + len) /\
    (forall i, off <= i < off + len -> dev_at d' i = p (i - off));
  WriteAt_frame : forall d p len off r d' i, 0 <= len -> 0 <= off ->
    WriteAt d p len off = (r, d') -> ~ (off <= i < off + len) ->
    dev_at d' i = dev_at d i;
  Sync_frame : forall d e d', Sync d = (e, d') -> forall i, dev_at d' i = dev_at d i;
  Sync_size : forall d e d', Sync d = (e, d') -> dev_size d' = dev_size d;
  StatSize_spec : forall d z, StatSize d = Ok z -> z = dev_size d
}.

(** ** MemDevice *)

(** [data []byte] as its length and its bytes. *)
Record MemDevice := mkMemDevice { md_length : N; md_data : mem }.

Definition md_len (m : MemDevice) : Z := Z.of_N (md_length m).

Definition NewMemDevice : MemDevice := {| md_length := 0; md_data := zero_mem |}.

Module MemDevice.

Definition ReadAt (m : MemDevice) (len off : Z) : result (mem * Z * option error) :=
  if md_len m <=? off then Ok (zero_mem, 0, Some EOF)
  else if off <? 0 then Panic
  else
    let n := Z.min len (md_len m - off) in
    let p : mem := fun i => md_data m (off + i) in
    if n <? len then Ok (p, n, Some EOF) else Ok (p, n, None).

Definition WriteAt (m : MemDevice) (p : mem) (len off : Z) :
    result (Z * option error) * MemDevice :=
  let endOffset := off + len in
  let m1 :=
    if md_len m <? endOffset
    then {| md_length := Z.to_N endOffset;
            md_data := fun i => if i <? md_len m then md_data m i else Byte.x00 |}
    else m in
  if off <? 0 then (Panic, m1)
  else
    let n := Z.min len (md_len m1 - off) in
    (Ok (n, None),
     {| md_length := md_length m1;
        md_data := fun i =>
          if (off <=? i) && (i <? off + n) then p (i - off) else md_data m1 i |}).

Definition Sync (m : MemDevice) : option error * MemDevice := (None, m).

Definition Stat (m : MemDevice) : result Z := Ok (md_len m).

Definition Close (m : MemDevice) : option error * MemDevice :=
  (None, {| md_length := 0; md_data := zero_mem |}).

End MemDevice.

#[export] Instance MemDevice_BlockDevice : BlockDevice MemDevice := {|
  ReadAt := MemDevice.ReadAt;
  WriteAt := MemDevice.WriteAt;
  Sync := MemDevice.Sync;
  StatSize := MemDevice.Stat;
  CloseDevice := MemDevice.Close
|}.

(** The contents of a device: [data] inside its length, zero elsewhere. *)
Definition md_at (m : MemDevice) (i : Z) : byte :=
  if (0 <=? i) && (i <? md_len m) then md_data m i else Byte.x00.

Lemma md_read_data d len off p n e :
  0 <= len -> 0 <= off -> MemDevice.ReadAt d len off = Ok (p, n, e) ->
  (0 <= n <= len /\ (forall i, 0 <= i < n -> p i = md_at d (off + i))) /\
  (e = None -> n = len) /\ (e <> None -> md_len d <= off + n).
Proof.
  intros Hl Ho. unfold MemDevice.ReadAt, md_at. intros E.
  repeat case_match; simplify_eq; bprop; split_and!; intros; try done; try lia.
  all: case_match; [done | bprop; lia].
Qed.

Lemma md_write_data d p len off n d' :
  0 <= len -> 0 <= off -> MemDevice.WriteAt d p len off = (Ok (n, None), d') ->
  md_len d' = Z.max (md_len d) (off + len) /\
  (forall i, off <= i < off + len -> md_at d' i = p (i - off)).
Proof.
  intros Hl Ho. unfold MemDevice.WriteAt, md_at. intros E.
  repeat case_match; simplify_eq; bprop; unfold md_len in *; cbn in *; split; try lia; intros i Hi.
  all: repeat (case_match; bprop); repeat (case_match; bprop); try done; lia.
Qed.

Lemma md_write_frame d p len off r d' i :
  0 <= len -> 0 <= off -> MemDevice.WriteAt d p len off = (r, d') ->
  ~ (off <= i < off + len) -> md_at d' i = md_at d i.
Proof.
  intros Hl Ho. unfold MemDevice.WriteAt, md_at. intros E Hi.
  repeat case_match; simplify_eq; bprop; unfold md_len in *; cbn in *; repeat (case_match; bprop); try done; lia.
Qed.

#[export] Program Instance MemDevice_Spec : BlockDeviceSpec MemDevice := {|
  dev_size := md_len;
  dev_at := md_at
|}.
Next Obligation. intros d. unfold md_len. lia. Qed.
Next Obligation. intros d i. unfold md_at. intros. case_match; [bprop; lia | done]. Qed.
Next Obligation.
  intros d len off Ho. cbn. unfold MemDevice.ReadAt.
  repeat case_match; bprop; try lia; eauto.
Qed.
Next Obligation. intros d len off p n e ?? E. by apply md_read_data in E as [? _]. Qed.
Next Obligation. intros d len off p n ?? E. apply md_read_data in E as (_ & E & _); auto. Qed.
Next Obligation. intros d len off p n e ?? E ?. apply md_read_data in E as (_ & _ & E); auto. Qed.
Next Obligation.
  intros d p len off Ho. cbn. unfold MemDevice.WriteAt.
  repeat case_match; bprop; try lia; eauto.
Qed.
Next Obligation. intros d p len off n d' ?? E. by apply md_write_data in E. Qed.
Next Obligation. intros d p len off r d' i ?? E ?. by eapply md_write_frame in E. Qed.
Next Obligation. intros. cbn in *. unfold MemDevice.Sync in *. by simplify_eq. Qed.
Next Obligation. intros. cbn in *. unfold MemDevice.Sync in *. by simplify_eq. Qed.
Next Obligation. intros. cbn in *. unfold MemDevice.Stat in *. by simplify_eq. Qed.

(** ** Device round trip *)

(** After a write at any non-negative offset (growing the device when it
    reaches past the end) the in-memory device reads back exactly the written
    bytes, and every byte outside the range is as before, zero in a new gap. *)
Theorem MemDevice_read_after_write d p len off :
  0 <= len -> 0 <= off ->
  exists d' q,
    MemDevice.WriteAt d p len off = (Ok (len, None), d') /\
    md_len d' = Z.max (md_len d) (off + len) /\
    (0 < len -> MemDevice.ReadAt d' len off = Ok (q, len, None)) /\
    (forall i, 0 <= i < len -> q i = p i) /\
    (forall i, ~ (off <= i < off + len) -> md_at d' i = md_at d i).
Proof.
  intros Hl Ho. destruct (MemDevice.WriteAt d p len off) as [r d'] eqn:E.
  pose proof (fun i => md_write_frame _ _ _ _ _ _ i Hl Ho E) as Hframe.
  assert (r = Ok (len, None)) as ->.
  { unfold MemDevice.WriteAt in E. repeat case_match; simplify_eq; bprop; try lia.
    all: unfold md_len in *; cbn in *; do 2 f_equal; lia. }
  destruct (md_write_data _ _ _ _ _ _ Hl Ho E) as [Hsz Hdat].
  exists d', (fun i => md_data d' (off + i)). split_and!; [done | lia | | | done].
  - intros Hpos. unfold MemDevice.ReadAt. repeat case_match; bprop; try lia.
    replace (len `min` (md_len d' - off)) with len by lia. done.
  - intros i Hi. specialize (Hdat (off + i) ltac:(lia)).
    replace (off + i - off) with i in Hdat by lia. rewrite <- Hdat.
    unfold md_at. case_match; [done | bprop; lia].
Qed.

Lemma MemDevice_read_after_write_witness :
  exists d', MemDevice.WriteAt NewMemDevice (fun _ => Byte.x41) 3 5 = (Ok (3, None), d') /\ md_len d' = 8.
Proof.
  destruct (MemDevice_read_after_write NewMemDevice (fun _ => Byte.x41) 3 5) as (d' & q & H1 & H2 & _);
    [lia | lia |].
  exists d'. split; [exact H1 | exact H2].
Defined.
