(* ===== verification/OSFile.v ===== *)
(** The file-backed block device (vfs.go section 1).  It forwards to an open file
    of the operating system, whose calls are a parameter of the shape of the
    block-device interface; what the file promises the device promises too, so
    the theorems on databases over a lawful device hold over such files. *)

From Stdlib Require Import Strings.Byte.
From S2P Require Import Common.
From S2P Require Import Prelude.
From S2P Require Import VFS.

Module OSFile.

Record OSFileDevice (F : Type) := mkOSFile { file : F; path : bytes }.
Arguments mkOSFile {_} _ _.
Arguments file {_} _.
Arguments path {_} _.

Section Device.
Context {F : Type} `{BlockDevice F}.

(** [os.OpenFile(path, O_RDWR|O_CREATE, 0666)]. *)
Variable OpenFile : bytes -> result F.

Definition NewOSFileDevice (p : bytes) : result (OSFileDevice F) :=
  f ← OpenFile p; Ok (mkOSFile f p).

(** The receiver may be nil. *)
Definition Path (d : option (OSFileDevice F)) : bytes := match d with None => [] | Some d => path d end.

(** A call on the file of a device. *)
Definition on_file {A} (call : A * F) (d : OSFileDevice F) : A * OSFileDevice F := (call.1, mkOSFile call.2 (path d)).

Definition ReadAt (d : OSFileDevice F) (len off : Z) : result (mem * Z * option error) := VFS.ReadAt (file d) len off.
Definition WriteAt (d : OSFileDevice F) (p : mem) (len off : Z) : result (Z * option error) * OSFileDevice F :=
  on_file (VFS.WriteAt (file d) p len off) d.
Definition Sync (d : OSFileDevice F) : option error * OSFileDevice F := on_file (VFS.Sync (file d)) d.
Definition Stat (d : OSFileDevice F) : result Z := StatSize (file d).
Definition Close (d : OSFileDevice F) : option error * OSFileDevice F := on_file (CloseDevice (file d)) d.
End Device.
End OSFile.

#[export] Instance OSFile_BlockDevice {F} `{BlockDevice F} : BlockDevice (OSFile.OSFileDevice F) := {|
  ReadAt := OSFile.ReadAt;
  WriteAt := OSFile.WriteAt;
  Sync := OSFile.Sync;
  StatSize := OSFile.Stat;
  CloseDevice := OSFile.Close
|}.

(** The device keeps the promises of its file. *)
#[export] Program Instance OSFile_BlockDeviceSpec {F} `{BlockDeviceSpec F} : BlockDeviceSpec (OSFile.OSFileDevice F) := {|
  dev_size d := dev_size (OSFile.file d);
  dev_at d := dev_at (OSFile.file d)
|}.
Next Obligation. intros F ? ? d. apply dev_size_nonneg. Qed.
Next Obligation. intros F ? ? d i. apply dev_past_end. Qed.
Next Obligation. intros F ? ? d len off. apply (ReadAt_returns (OSFile.file d)). Qed.
Next Obligation. intros F ? ? d len off p n e. apply (ReadAt_data (OSFile.file d)). Qed.
Next Obligation. intros F ? ? d len off p n. apply (ReadAt_full (OSFile.file d)). Qed.
Next Obligation. intros F ? ? d len off p n e. apply (ReadAt_eof (OSFile.file d)). Qed.
Next Obligation.
intros F ? ? d p len off Hoff. destruct (WriteAt_returns (OSFile.file d) p len off Hoff) as (n & e & f' & E).
exists n, e, (OSFile.mkOSFile f' (OSFile.path d)). cbn. unfold OSFile.WriteAt, OSFile.on_file. by rewrite E.
Qed.
Next Obligation.
intros F ? ? d p len off n d' Hl Ho E. cbn in E. unfold OSFile.WriteAt, OSFile.on_file in E.
destruct (WriteAt (OSFile.file d) p len off) as [r f'] eqn:Ef. injection E as -> <-. by apply (WriteAt_data (OSFile.file d) p len off n).
Qed.
Next Obligation.
intros F ? ? d p len off r d' i Hl Ho E. cbn in E. unfold OSFile.WriteAt, OSFile.on_file in E.
destruct (WriteAt (OSFile.file d) p len off) as [r' f'] eqn:Ef. injection E as -> <-. by apply (WriteAt_frame (OSFile.file d) p len off r).
Qed.
Next Obligation.
intros F ? ? d e d' E i. cbn in E. unfold OSFile.Sync, OSFile.on_file in E.
destruct (Sync (OSFile.file d)) as [e' f'] eqn:Ef. injection E as -> <-. by apply (Sync_frame (OSFile.file d) e).
Qed.
Next Obligation.
intros F ? ? d e d' E. cbn in E. unfold OSFile.Sync, OSFile.on_file in E.
destruct (Sync (OSFile.file d)) as [e' f'] eqn:Ef. injection E as -> <-. by apply (Sync_size (OSFile.file d) e).
Qed.
Next Obligation. intros F ? ? d z. apply (StatSize_spec (OSFile.file d)). Qed.
