(* ===== verification/LRU.v ===== *)
(** Cache replacement (interfaces.go section 2, lru_policy.go): the
    [EvictionPolicy] interface with its laws, and the LRU policy over a doubly
    linked list and an index map, refined to a recency list. *)

From S2P Require Import Common.
From S2P Require Import Prelude.

(** ** The interface *)

Class EvictionPolicy (P : Type) := {
  RecordAccess : P -> PageID -> P;
  Evict : P -> option PageID * P;
  Remove : P -> PageID -> P
}.

(** A policy tracks a finite set of pages: an access adds the page, an
    eviction hands out a tracked page and forgets it, and fails only when
    nothing is tracked. *)
Class EvictionPolicySpec (P : Type) `{EvictionPolicy P} := {
  policy_ok : P -> Prop;
  tracked : P -> gset PageID;
  RecordAccess_ok : forall p id, policy_ok p -> policy_ok (RecordAccess p id);
  Evict_ok : forall p o p', policy_ok p -> Evict p = (o, p') -> policy_ok p';
  Remove_ok : forall p id, policy_ok p -> policy_ok (Remove p id);
  RecordAccess_tracked : forall p id, policy_ok p ->
    tracked (RecordAccess p id) = {[id]} ∪ tracked p;
  Evict_Some : forall p id p', policy_ok p -> Evict p = (Some id, p') ->
    id ∈ tracked p /\ tracked p' = tracked p ∖ {[id]};
  Evict_None : forall p p', policy_ok p -> Evict p = (None, p') ->
    tracked p = ∅ /\ p' = p;
  Remove_tracked : forall p id, policy_ok p ->
    tracked (Remove p id) = tracked p ∖ {[id]}
}.

(** ** container/list *)

(** A list element is a handle (the pointer [*list.Element]) with its value. *)
Module GoList.

Abbreviation elem := nat (only parsing).
Abbreviation t := (list (nat * PageID)) (only parsing).

Definition Remove (e : elem) (l : t) : t := filter (fun x => x.1 <> e) l.

Definition find (e : elem) (l : t) : option (elem * PageID) :=
  head (filter (fun x => x.1 = e) l).

Definition MoveToFront (e : elem) (l : t) : t :=
  match find e l with Some x => x :: Remove e l | None => l end.

Definition Back (l : t) : option (elem * PageID) := last l.

End GoList.

(** ** LRUEvictionPolicy *)

(** [lruList], [pageMap] and the supply of fresh elements. *)
Record LRUEvictionPolicy := mkLRU {
  lruList : GoList.t;
  pageMap : gmap PageID GoList.elem;
  nextElem : nat
}.

Definition NewLRUEvictionPolicy : LRUEvictionPolicy := mkLRU [] ∅ 0.

Module LRU.

Definition RecordAccess (p : LRUEvictionPolicy) (id : PageID) : LRUEvictionPolicy :=
  match pageMap p !! id with
  | Some elem => mkLRU (GoList.MoveToFront elem (lruList p)) (pageMap p) (nextElem p)
  | None =>
      let elem := nextElem p in
      mkLRU ((elem, id) :: lruList p) (<[id := elem]> (pageMap p)) (S (nextElem p))
  end.

Definition Evict (p : LRUEvictionPolicy) : option PageID * LRUEvictionPolicy :=
  match GoList.Back (lruList p) with
  | None => (None, p)
  | Some (elem, id) =>
      (Some id, mkLRU (GoList.Remove elem (lruList p)) (delete id (pageMap p)) (nextElem p))
  end.

Definition Remove (p : LRUEvictionPolicy) (id : PageID) : LRUEvictionPolicy :=
  match pageMap p !! id with
  | Some elem => mkLRU (GoList.Remove elem (lruList p)) (delete id (pageMap p)) (nextElem p)
  | None => p
  end.

End LRU.

#[export] Instance LRU_EvictionPolicy : EvictionPolicy LRUEvictionPolicy := {|
  RecordAccess := LRU.RecordAccess;
  Evict := LRU.Evict;
  Remove := LRU.Remove
|}.

(** ** The abstract policy: a list of distinct pages, most recent first *)

Module RecencySpec.

Definition access (o : list PageID) (id : PageID) : list PageID :=
  id :: filter (fun x => x <> id) o.

Definition evict (o : list PageID) : option PageID * list PageID :=
  match last o with
  | None => (None, o)
  | Some id => (Some id, filter (fun x => x <> id) o)
  end.

Definition remove (o : list PageID) (id : PageID) : list PageID :=
  filter (fun x => x <> id) o.

End RecencySpec.

(** The recency list an LRU state stands for. *)
Definition order (p : LRUEvictionPolicy) : list PageID := (lruList p).*2.

(** The list and the index agree, with no duplicate element or page. *)
Record lru_inv (p : LRUEvictionPolicy) : Prop := {
  lru_elems_nodup : NoDup (lruList p).*1;
  lru_pages_nodup : NoDup (order p);
  lru_index : forall id e, pageMap p !! id = Some e <-> (e, id) ∈ lruList p;
  lru_fresh : forall e id, (e, id) ∈ lruList p -> (e < nextElem p)%nat
}.

(** ** Facts *)

(** Two pairs of a list without duplicate first components that agree on the
    first component are the same pair; likewise for second components. *)
Lemma pair_fst_unique {A B} (l : list (A * B)) x y :
  NoDup l.*1 -> x ∈ l -> y ∈ l -> x.1 = y.1 -> x = y.
Proof.
  induction l as [|z l IH]; cbn; [set_solver|].
  rewrite NoDup_cons, !elem_of_cons. intros [Hz Hl] [->|Hx] [->|Hy] E; try done; auto.
  - contradict Hz. rewrite E. by apply list_elem_of_fmap_2.
  - contradict Hz. rewrite <- E. by apply list_elem_of_fmap_2.
Qed.

Lemma pair_snd_unique {A B} (l : list (A * B)) x y :
  NoDup l.*2 -> x ∈ l -> y ∈ l -> x.2 = y.2 -> x = y.
Proof.
  induction l as [|z l IH]; cbn; [set_solver|].
  rewrite NoDup_cons, !elem_of_cons. intros [Hz Hl] [->|Hx] [->|Hy] E; try done; auto.
  - contradict Hz. rewrite E. by apply list_elem_of_fmap_2.
  - contradict Hz. rewrite <- E. by apply list_elem_of_fmap_2.
Qed.

Section ElemList.
Context (l : GoList.t) (e : GoList.elem) (id : PageID).
Hypothesis Hfst : NoDup l.*1.
Hypothesis Hsnd : NoDup l.*2.
Hypothesis Hin : (e, id) ∈ l.

Lemma elem_iff_page x : x ∈ l -> x.1 = e <-> x.2 = id.
Proof.
  intros Hx. split; intros E.
  - by rewrite (pair_fst_unique l x (e, id)).
  - by rewrite (pair_snd_unique l x (e, id)).
Qed.

(** Removing the element of a page removes the page from the order. *)
Lemma Remove_pages : (GoList.Remove e l).*2 = filter (fun x => x <> id) l.*2.
Proof.
  pose proof elem_iff_page as Hiff. unfold GoList.Remove. clear Hfst Hsnd Hin.
  induction l as [|y l' IH]; [done|].
  assert (y.1 = e <-> y.2 = id) by (apply Hiff; left).
  rewrite fmap_cons, !filter_cons. repeat case_decide; try tauto; rewrite ?fmap_cons.
  - f_equal. apply IH. intros x ?. apply Hiff. by right.
  - apply IH. intros x ?. apply Hiff. by right.
Qed.

Lemma find_elem : GoList.find e l = Some (e, id).
Proof.
  unfold GoList.find. destruct (filter _ l) as [|x r] eqn:F; cbn.
  - exfalso. assert ((e, id) ∈ filter (fun x : GoList.elem * PageID => x.1 = e) l)
      as Hf by by apply list_elem_of_filter.
    rewrite F in Hf. set_solver.
  - assert (x ∈ filter (fun x : GoList.elem * PageID => x.1 = e) l) as Hf
      by (rewrite F; left).
    apply list_elem_of_filter in Hf as [Hx Hl].
    f_equal. by apply (pair_fst_unique l).
Qed.
End ElemList.

Lemma elem_of_Remove e l x : x ∈ GoList.Remove e l <-> x.1 <> e /\ x ∈ l.
Proof. unfold GoList.Remove. by rewrite list_elem_of_filter. Qed.

Lemma NoDup_fmap_Remove {B} (f : GoList.elem * PageID -> B) e l :
  NoDup (f <$> l) -> NoDup (f <$> GoList.Remove e l).
Proof.
  intros H. eapply sublist_NoDup; [exact H|].
  apply fmap_sublist. unfold GoList.Remove. apply sublist_filter.
Qed.

(** ** The invariant *)

Lemma lru_inv_new : lru_inv NewLRUEvictionPolicy.
Proof. split; cbn; [constructor | constructor | | ]; set_solver. Qed.

(** Dropping the element of an indexed page. *)
Lemma lru_inv_drop p e id :
  lru_inv p -> (e, id) ∈ lruList p ->
  lru_inv (mkLRU (GoList.Remove e (lruList p)) (delete id (pageMap p)) (nextElem p)).
Proof.
  intros [He Hp Hidx Hfr] Hin.
  split; unfold order in *; cbn.
  - by apply NoDup_fmap_Remove.
  - by apply NoDup_fmap_Remove.
  - intros id' e'. rewrite elem_of_Remove, lookup_delete_Some, Hidx. cbn.
    split; intros [Hne Hin']; split; try done; contradict Hne.
    + subst. by pose proof (pair_fst_unique _ _ _ He Hin Hin' eq_refl); simplify_eq.
    + subst. by pose proof (pair_snd_unique _ _ _ Hp Hin Hin' eq_refl); simplify_eq.
  - intros e' id' [_ ?]%elem_of_Remove. by eapply Hfr.
Qed.

Lemma lru_inv_RecordAccess p id : lru_inv p -> lru_inv (LRU.RecordAccess p id).
Proof.
  intros Hp. pose proof Hp as [He Hpg Hidx Hfr]. unfold LRU.RecordAccess.
  destruct (pageMap p !! id) as [e|] eqn:Hid.
  - apply Hidx in Hid as Hin. unfold GoList.MoveToFront.
    rewrite (find_elem _ _ id) by done.
    split; unfold order in *; cbn.
    + constructor; [|by apply NoDup_fmap_Remove].
      rewrite list_elem_of_fmap. intros (x & ? & [? _]%elem_of_Remove). done.
    + constructor; [|by apply NoDup_fmap_Remove].
      rewrite (Remove_pages _ _ id), list_elem_of_filter by done. tauto.
    + intros id' e'. rewrite elem_of_cons, elem_of_Remove, Hidx. cbn. split.
      * intros Hin'. destruct (decide (e' = e)) as [->|]; [left | by right].
        by rewrite (pair_fst_unique _ _ _ He Hin Hin' eq_refl).
      * intros [[= -> ->]|[_ ?]]; done.
    + intros e' id' [[= -> ->]|[_ ?]%elem_of_Remove]%elem_of_cons; eauto.
  - split; unfold order in *; cbn.
    + constructor; [|done]. rewrite list_elem_of_fmap.
      intros ([e' id'] & E & Hx). apply Hfr in Hx. cbn in *. lia.
    + constructor; [|done]. rewrite list_elem_of_fmap.
      intros ([e' id'] & E & Hx). apply Hidx in Hx. cbn in *. congruence.
    + intros id' e'. rewrite lookup_insert_Some, elem_of_cons, Hidx.
      split; [intros [[-> ->]|[_ ?]]; [by left|by right]|].
      intros [[= -> ->]|Hin]; [by left|right].
      split; [|done]. intros <-. apply Hidx in Hin. congruence.
    + intros e' id' [[= -> ->]|Hx]%elem_of_cons; [lia|]. apply Hfr in Hx. lia.
Qed.

Lemma lru_inv_Evict p o p' : lru_inv p -> LRU.Evict p = (o, p') -> lru_inv p'.
Proof.
  intros Hp. unfold LRU.Evict, GoList.Back.
  destruct (last (lruList p)) as [[e id]|] eqn:El; intros [= <- <-]; [|done].
  apply lru_inv_drop; [done|]. apply last_Some in El as [l' ->]. set_solver.
Qed.

Lemma lru_inv_Remove p id : lru_inv p -> lru_inv (LRU.Remove p id).
Proof.
  intros Hp. unfold LRU.Remove. destruct (pageMap p !! id) eqn:E; [|done].
  apply lru_inv_drop; [done|]. by apply lru_index.
Qed.

(** ** Refinement: each operation acts on the recency list as specified *)

Lemma order_RecordAccess p id :
  lru_inv p -> order (LRU.RecordAccess p id) = RecencySpec.access (order p) id.
Proof.
  intros [He Hpg Hidx Hfr]. unfold LRU.RecordAccess, RecencySpec.access, order in *.
  destruct (pageMap p !! id) as [e|] eqn:Hid; cbn.
  - apply Hidx in Hid. unfold GoList.MoveToFront.
    rewrite (find_elem _ _ id) by done. cbn. f_equal. by apply Remove_pages.
  - f_equal. symmetry. apply filter_id. intros x Hx ->.
    apply list_elem_of_fmap in Hx as ([e' id'] & -> & Hx).
    apply Hidx in Hx. cbn in *. congruence.
Qed.

Lemma order_Evict p o p' :
  lru_inv p -> LRU.Evict p = (o, p') -> RecencySpec.evict (order p) = (o, order p').
Proof.
  intros [He Hpg Hidx Hfr]. unfold LRU.Evict, RecencySpec.evict, GoList.Back, order in *.
  rewrite fmap_last.
  destruct (last (lruList p)) as [[e id]|] eqn:El; intros [= <- <-]; cbn; [|done].
  f_equal. symmetry. apply Remove_pages; [done..|].
  apply last_Some in El as [l' ->]. set_solver.
Qed.

Lemma order_Remove p id :
  lru_inv p -> order (LRU.Remove p id) = RecencySpec.remove (order p) id.
Proof.
  intros [He Hpg Hidx Hfr]. unfold LRU.Remove, RecencySpec.remove, order in *.
  destruct (pageMap p !! id) as [e|] eqn:Hid; cbn.
  - apply Remove_pages; [done..|]. by apply Hidx.
  - symmetry. apply filter_id. intros x Hx ->.
    apply list_elem_of_fmap in Hx as ([e' id'] & -> & Hx).
    apply Hidx in Hx. cbn in *. congruence.
Qed.

(** ** The policy as a client sees it *)

#[export] Program Instance LRU_Spec : EvictionPolicySpec LRUEvictionPolicy := {|
  policy_ok := lru_inv;
  tracked := fun p => list_to_set (order p)
|}.
Next Obligation. apply lru_inv_RecordAccess. Qed.
Next Obligation. apply lru_inv_Evict. Qed.
Next Obligation. apply lru_inv_Remove. Qed.
Next Obligation.
  intros p id Hp. cbn. rewrite order_RecordAccess by done. unfold RecencySpec.access.
  cbn. apply set_eq. intros x. rewrite !elem_of_union, elem_of_singleton,
    !elem_of_list_to_set, list_elem_of_filter. destruct (decide (x = id)); tauto.
Qed.
Next Obligation.
  intros p id p' Hp E. cbn in *. apply order_Evict in E as E'; [|done].
  unfold RecencySpec.evict in E'. destruct (last (order p)) as [x|] eqn:El; [|done].
  injection E' as -> Ho. split.
  - apply last_Some in El as [l' ->]. rewrite list_to_set_app. set_solver.
  - apply set_eq. intros x. rewrite elem_of_difference, elem_of_singleton,
      !elem_of_list_to_set, <- Ho, list_elem_of_filter. tauto.
Qed.
Next Obligation.
  intros p p' Hp E. cbn in *. unfold LRU.Evict, GoList.Back, order in *.
  destruct (last (lruList p)) as [[e x]|] eqn:El; simplify_eq.
  by apply last_None in El as ->.
Qed.
Next Obligation.
  intros p id Hp. cbn. rewrite order_Remove by done. unfold RecencySpec.remove.
  apply set_eq. intros x. rewrite elem_of_difference, elem_of_singleton,
    !elem_of_list_to_set, list_elem_of_filter. tauto.
Qed.

(** Traces of client calls. *)
Inductive policy_call := CallAccess (id : PageID) | CallEvict | CallRemove (id : PageID).

Fixpoint run_lru (cs : list policy_call) (p : LRUEvictionPolicy) : list (option PageID) :=
  match cs with
  | [] => []
  | CallAccess id :: cs' => run_lru cs' (LRU.RecordAccess p id)
  | CallEvict :: cs' => let '(o, p') := LRU.Evict p in o :: run_lru cs' p'
  | CallRemove id :: cs' => run_lru cs' (LRU.Remove p id)
  end.

Fixpoint run_recency (cs : list policy_call) (o : list PageID) : list (option PageID) :=
  match cs with
  | [] => []
  | CallAccess id :: cs' => run_recency cs' (RecencySpec.access o id)
  | CallEvict :: cs' => let '(x, o') := RecencySpec.evict o in x :: run_recency cs' o'
  | CallRemove id :: cs' => run_recency cs' (RecencySpec.remove o id)
  end.

Lemma run_lru_recency cs p : lru_inv p -> run_lru cs p = run_recency cs (order p).
Proof.
  revert p. induction cs as [|[id| |id] cs IH]; intros p Hp; cbn; [done | | | ].
  - rewrite IH by by apply lru_inv_RecordAccess. by rewrite order_RecordAccess.
  - destruct (LRU.Evict p) as [o p'] eqn:E.
    rewrite (order_Evict _ _ _ Hp E), IH by by eapply lru_inv_Evict. done.
  - rewrite IH by by apply lru_inv_Remove. by rewrite order_Remove.
Qed.

(** C30: [LRUEvictionPolicy] is a least-recently-used policy: every trace of calls
    on a new policy evicts exactly the pages the recency-list specification
    evicts, in the same order. *)
Theorem lru_refines_recency cs :
  run_lru cs NewLRUEvictionPolicy = run_recency cs [].
Proof. apply (run_lru_recency cs NewLRUEvictionPolicy), lru_inv_new. Qed.
