(* ===== verification/Crc32.v ===== *)
(** hash/crc32: the IEEE CRC-32 (reflected polynomial 0xEDB88320), as the
    page checksum and the log frames use it.  Writing several buffers to the
    running hash is writing their concatenation. *)

From Stdlib Require Import Strings.Byte.
From S2P Require Import Prelude.

Definition crc_shift (c : Z) : Z :=
  if Z.testbit c 0 then Z.lxor (Z.shiftr c 1) 0xEDB88320 else Z.shiftr c 1.

Definition crc_update (c : Z) (b : byte) : Z := Nat.iter 8 crc_shift (Z.lxor c (b2z b)).

Definition ChecksumIEEE (bs : bytes) : Z :=
  Z.lxor (fold_left crc_update bs 0xFFFFFFFF) 0xFFFFFFFF.

(** The standard check value of the algorithm. *)
Example crc32_check : ChecksumIEEE (str "123456789") = 0xCBF43926.
Proof. vm_compute. reflexivity. Qed.

(** ** The checksum is a 32-bit value *)

Lemma lxor_range n a b :
  0 <= n -> 0 <= a < 2 ^ n -> 0 <= b < 2 ^ n -> 0 <= Z.lxor a b < 2 ^ n.
Proof.
  intros Hn Ha Hb.
  assert (0 <= Z.lxor a b) as H0 by (apply Z.lxor_nonneg; lia).
  split; [done|]. destruct (Z.eq_dec (Z.lxor a b) 0) as [->|Hne]; [lia|].
  apply Z.log2_lt_pow2; [lia|].
  pose proof (Z.log2_lxor a b ltac:(lia) ltac:(lia)) as Hl.
  destruct (Z.eq_dec n 0) as [->|].
  - assert (a = 0) as -> by lia. assert (b = 0) as -> by lia. done.
  - assert (forall x, 0 <= x < 2 ^ n -> Z.log2 x < n) as Hlog.
    { intros x Hx. destruct (Z.eq_dec x 0) as [->|]; [cbn; lia|].
      apply Z.log2_lt_pow2; lia. }
    pose proof (Hlog a Ha). pose proof (Hlog b Hb). lia.
Qed.

Lemma crc_shift_range c : 0 <= c < 2 ^ 32 -> 0 <= crc_shift c < 2 ^ 32.
Proof.
  intros Hc. unfold crc_shift. rewrite Z.shiftr_div_pow2 by lia.
  assert (0 <= c / 2 ^ 1 < 2 ^ 32).
  { split; [apply Z.div_pos; lia | apply Z.div_lt_upper_bound; lia]. }
  destruct (Z.testbit c 0); [apply lxor_range; lia | done].
Qed.

Lemma crc_update_range c b : 0 <= c < 2 ^ 32 -> 0 <= crc_update c b < 2 ^ 32.
Proof.
  intros Hc. unfold crc_update. cbn [Nat.iter nat_rect].
  do 8 apply crc_shift_range. apply lxor_range; [lia | done |].
  pose proof (b2z_range b). lia.
Qed.

Lemma crc_fold_range bs c :
  0 <= c < 2 ^ 32 -> 0 <= fold_left crc_update bs c < 2 ^ 32.
Proof.
  revert c. induction bs as [|b bs IH]; intros c H; cbn [fold_left]; [done|].
  apply IH, crc_update_range, H.
Qed.

Lemma ChecksumIEEE_range bs : 0 <= ChecksumIEEE bs < 2 ^ 32.
Proof.
  unfold ChecksumIEEE. apply lxor_range; [lia | | lia].
  apply crc_fold_range. lia.
Qed.

(** Proofs never unfold the checksum. *)
#[global] Opaque ChecksumIEEE.
