(* ===== verification/Page.v ===== *)
(** The slotted page (storage.go section 1): the 32-byte header, the slot
    directory that grows forward, the record area that grows backward, and the
    equivalence of page images up to the checksum field. *)

From Stdlib Require Import Strings.Byte.
From S2P Require Import Common.
From S2P Require Import Prelude.
From S2P Require Import Crc32.

(** ** Page *)

Record Page := mkPage {
  ID : PageID;
  Data : mem;
  PinCount : Z;
  IsDirty : bool;
  MemVersion : Z
}.

(** [&Page{}]. *)
Definition zero_page : Page := mkPage 0 zero_mem 0 false 0.

Definition set_Data (p : Page) (d : mem) : Page :=
  mkPage (ID p) d (PinCount p) (IsDirty p) (MemVersion p).

(** ** Header accessors *)

Definition GetChecksum (d : mem) : Z := Uint32 d 0.
Definition SetChecksum (d : mem) (v : Z) : mem := PutUint32 d 0 v.
Definition GetPageType (d : mem) : Z := Uint32 d 4.
Definition SetPageType (d : mem) (t : Z) : mem := PutUint32 d 4 t.
Definition GetSlotCount (d : mem) : Z := Uint32 d 8.
Definition SetSlotCount (d : mem) (count : Z) : mem := PutUint32 d 8 count.
Definition GetLowerBoundary (d : mem) : Z := Uint32 d 12.
Definition SetLowerBoundary (d : mem) (offset : Z) : mem := PutUint32 d 12 offset.
Definition GetUpperBoundary (d : mem) : Z := Uint32 d 16.
Definition SetUpperBoundary (d : mem) (offset : Z) : mem := PutUint32 d 16 offset.
Definition GetNextPageID (d : mem) : PageID := Uint64 d 24.
Definition SetNextPageID (d : mem) (id : PageID) : mem := PutUint64 d 24 id.

(** [Init]: the header fields, then the bytes from 32 on. *)
Definition Init (d : mem) : mem :=
  let d := SetChecksum d 0 in
  let d := SetPageType d 0 in
  let d := SetSlotCount d 0 in
  let d := SetLowerBoundary d PageHeaderSize in
  let d := SetUpperBoundary d PageSize in
  let d := SetNextPageID d 0 in
  clear d PageHeaderSize PageSize.

Definition ComputeChecksum (d : mem) : Z := ChecksumIEEE (slice d 4 PageSize).

(** ** Slots *)

Record Slot := mkSlot { Offset : Z; Length : Z }.

Definition slot_offset (idx : Z) : Z := u32 (PageHeaderSize + u32 (idx * 4)).

Definition GetSlot (d : mem) (idx : Z) : result Slot :=
  if GetSlotCount d <=? idx then Err (Msg "slot index out of range")
  else
    let slotOffset := slot_offset idx in
    off ← sliceR d PageSize slotOffset (u32 (slotOffset + 2));
    length ← sliceR d PageSize (u32 (slotOffset + 2)) (u32 (slotOffset + 4));
    Ok (mkSlot (le_val off) (le_val length)).

Definition WriteSlot (d : mem) (idx : Z) (s : Slot) : result mem :=
  let slotOffset := slot_offset idx in
  d ← storeR d PageSize slotOffset (u32 (slotOffset + 2)) (le_bytes 2 (Offset s));
  storeR d PageSize (u32 (slotOffset + 2)) (u32 (slotOffset + 4)) (le_bytes 2 (Length s)).

Definition IsSafeForInsert (d : mem) (requiredBytes : Z) : bool :=
  u32 (u32 (GetLowerBoundary d + 4) + requiredBytes) <=? GetUpperBoundary d.


(** ** Page images *)

(** A page image is compared on its [PageSize] bytes, from byte [from] on:
    the first four bytes of a slotted page hold the checksum, which the pool
    rewrites whenever it writes the page out. *)
Definition image_eq (from : Z) (d1 d2 : mem) : Prop :=
  forall i, from <= i < PageSize -> d1 i = d2 i.

#[export] Instance image_eq_equiv from : Equivalence (image_eq from).
Proof.
  split.
  - by intros d i Hi.
  - intros d1 d2 E i Hi. symmetry. by apply E.
  - intros d1 d2 d3 E1 E2 i Hi. by rewrite E1, E2.
Qed.

Lemma image_eq_SetChecksum from d v : 4 <= from -> image_eq from (SetChecksum d v) d.
Proof.
  intros Hf i Hi. unfold SetChecksum, PutUint32. apply store_out.
  rewrite zlen_le_bytes. lia.
Qed.

(** The header fields past the checksum, the slots and the room test are
    functions of the image. *)
#[export] Instance GetSlotCount_proper : Proper (image_eq 4 ==> eq) GetSlotCount.
Proof. intros d1 d2 E. apply Uint32_ext. intros. apply E. unfold PageSize. lia. Qed.
#[export] Instance GetLowerBoundary_proper : Proper (image_eq 4 ==> eq) GetLowerBoundary.
Proof. intros d1 d2 E. apply Uint32_ext. intros. apply E. unfold PageSize. lia. Qed.
#[export] Instance GetUpperBoundary_proper : Proper (image_eq 4 ==> eq) GetUpperBoundary.
Proof. intros d1 d2 E. apply Uint32_ext. intros. apply E. unfold PageSize. lia. Qed.
#[export] Instance IsSafeForInsert_proper : Proper (image_eq 4 ==> eq ==> eq) IsSafeForInsert.
Proof.
  intros d1 d2 E n ? <-. unfold IsSafeForInsert.
  by rewrite (GetLowerBoundary_proper _ _ E), (GetUpperBoundary_proper _ _ E).
Qed.
#[export] Instance ComputeChecksum_proper : Proper (image_eq 4 ==> eq) ComputeChecksum.
Proof. intros d1 d2 E. unfold ComputeChecksum. by rewrite (slice_ext d1 d2 4 PageSize E). Qed.

(** A checked slice of the page past the checksum is a function of the image. *)
Lemma sliceR_proper d1 d2 lo hi :
  image_eq 4 d1 d2 -> 4 <= lo -> sliceR d1 PageSize lo hi = sliceR d2 PageSize lo hi.
Proof.
  intros E Hlo. unfold sliceR, slice_ok. destruct (_ && _) eqn:B; [|done].
  bprop. f_equal. apply slice_ext. intros. apply E. lia.
Qed.

(** The stored checksum of a stamped page is the checksum of its bytes. *)
Lemma Checksum_stamped d :
  GetChecksum (SetChecksum d (ComputeChecksum d)) =
  ComputeChecksum (SetChecksum d (ComputeChecksum d)).
Proof.
  rewrite (ComputeChecksum_proper _ _ (image_eq_SetChecksum 4 d (ComputeChecksum d) ltac:(done))).
  unfold GetChecksum, SetChecksum. rewrite Uint32_Put. apply u32_small, ChecksumIEEE_range.
Qed.
