(* ===== verification/Slotted.v ===== *)
(** The records of a slotted page (db.go): the record format, the loop every
    reader runs over the slot directory, the insertion every writer performs,
    and the list of records a well-formed page stands for. *)

From Stdlib Require Import Strings.Byte.
From S2P Require Import Common.
From S2P Require Import Prelude.
From S2P Require Import Page.

(** ** Records *)

Record record := mkRecord {
  txnID : Z;
  expiresAt : Z;
  key : bytes;
  val : bytes
}.

#[export] Instance record_eq_decision : EqDecision record.
Proof. solve_decision. Defined.

Definition record_size (r : record) : Z := RecordHeaderSize + zlen (key r) + zlen (val r).

(** The bytes of a record: txn id, expiry, key length, value length, key,
    value. *)
Definition encode_record (r : record) : bytes :=
  le_bytes 8 (txnID r) ++ le_bytes 8 (expiresAt r) ++
  le_bytes 4 (zlen (key r)) ++ le_bytes 4 (zlen (val r)) ++ key r ++ val r.

(** [recordSlice := page.Data[slot.Offset : slot.Offset+slot.Length]] and the
    reads from it.  The sum is a [uint16]; a sub-slice of [recordSlice] is
    bounded by its capacity, the end of the page. *)
Definition parse_record (d : mem) (s : Slot) : result record :=
  let off := Offset s in
  if slice_ok PageSize off (u16 (off + Length s)) then
    recordTxnID ← sliceR d PageSize off (off + 8);
    expires ← sliceR d PageSize (off + 8) (off + 16);
    keyLen ← sliceR d PageSize (off + 16) (off + 20);
    valLen ← sliceR d PageSize (off + 20) (off + 24);
    k ← sliceR d PageSize (off + 24) (off + u32 (24 + le_val keyLen));
    v ← sliceR d PageSize (off + u32 (24 + le_val keyLen)) (off + u32 (u32 (24 + le_val keyLen) + le_val valLen));
    Ok (mkRecord (le_val recordTxnID) (le_val expires) k v)
  else Panic.

(** [for i := uint32(0); i < slotCount; i++] with its [continue] on a slot
    error or an empty slot; [body] is the rest of the loop body. *)
Fixpoint for_slots_from {S} (d : mem) (body : Z -> record -> S -> S) (fuel : nat) (i : Z)
    (s : S) : result S :=
  match fuel with
  | O => Ok s
  | Datatypes.S fuel =>
      match GetSlot d i with
      | Err _ => for_slots_from d body fuel (i + 1) s
      | Panic => Panic
      | Hang => Hang
      | Ok slot =>
          if Length slot =? 0 then for_slots_from d body fuel (i + 1) s
          else r ← parse_record d slot; for_slots_from d body fuel (i + 1) (body i r s)
      end
  end.

Definition for_slots {S} (d : mem) (body : Z -> record -> S -> S) (s : S) : result S :=
  for_slots_from d body (Z.to_nat (GetSlotCount d)) 0 s.

(** [targetSlice := page.Data[newOffset:upper]] and the writes into it. *)
Definition put_record (d : mem) (newOffset upper : Z) (r : record) : result mem :=
  if slice_ok PageSize newOffset upper then
    d ← storeR d PageSize newOffset (newOffset + 8) (le_bytes 8 (txnID r));
    d ← storeR d PageSize (newOffset + 8) (newOffset + 16) (le_bytes 8 (expiresAt r));
    d ← storeR d PageSize (newOffset + 16) (newOffset + 20) (le_bytes 4 (zlen (key r)));
    d ← storeR d PageSize (newOffset + 20) (newOffset + 24) (le_bytes 4 (zlen (val r)));
    d ← storeR d PageSize (newOffset + 24) (newOffset + 24 + zlen (key r)) (key r);
    storeR d PageSize (newOffset + 24 + zlen (key r)) upper (val r)
  else Panic.

(** Payload, slot entry and boundaries of one more record, the slot count
    aside. *)
Definition push_record (d : mem) (slotIdx : Z) (r : record) : result mem :=
  let recordSize := u32 (record_size r) in
  let upper := GetUpperBoundary d in
  let newOffset := u32 (upper - recordSize) in
  d ← put_record d newOffset upper r;
  d ← WriteSlot d slotIdx (mkSlot (u16 newOffset) (u16 recordSize));
  let d := SetLowerBoundary d (u32 (PageHeaderSize + u32 (u32 (slotIdx + 1) * 4))) in
  Ok (SetUpperBoundary d newOffset).

(** ** The list of records a page stands for *)

Definition total (rs : list record) : Z := foldr (fun r acc => record_size r + acc) 0 rs.

Definition rec_offset (rs : list record) (i : nat) : Z := PageSize - total (take (S i) rs).

Definition record_ok (r : record) : Prop :=
  0 <= txnID r < 2 ^ 64 /\ 0 <= expiresAt r < 2 ^ 64.

(** Slots and records of [rs] are laid out in [d] (the slot count aside):
    record [i] ends where record [i-1] begins, the last byte of the page being
    the first record's end, and the directory stays below the records. *)
Record layout (d : mem) (rs : list record) : Prop := {
  repr_lower : GetLowerBoundary d = PageHeaderSize + 4 * zlen rs;
  repr_upper : GetUpperBoundary d = PageSize - total rs;
  repr_fits : PageHeaderSize + 4 * zlen rs <= PageSize - total rs;
  repr_slot : forall i r, rs !! i = Some r ->
    Uint16 d (PageHeaderSize + 4 * Z.of_nat i) = rec_offset rs i /\
    Uint16 d (PageHeaderSize + 4 * Z.of_nat i + 2) = record_size r;
  repr_data : forall i r, rs !! i = Some r ->
    slice d (rec_offset rs i) (rec_offset rs i + record_size r) = encode_record r;
  repr_ok : Forall record_ok rs
}.

(** The page [d] holds exactly the records [rs], oldest first. *)
Definition page_repr (d : mem) (rs : list record) : Prop :=
  GetSlotCount d = zlen rs /\ layout d rs.

(** The reference meaning of the slot loop: a left fold with slot numbers. *)
Fixpoint fold_records {S} (body : Z -> record -> S -> S) (i : Z) (rs : list record) (s : S) : S :=
  match rs with [] => s | r :: rs' => fold_records body (i + 1) rs' (body i r s) end.

(** ** Sizes *)

Lemma record_size_pos r : RecordHeaderSize <= record_size r.
Proof. unfold record_size. pose proof (zlen_nonneg (key r)). pose proof (zlen_nonneg (val r)). lia. Qed.

Lemma zlen_encode r : zlen (encode_record r) = record_size r.
Proof.
  unfold encode_record, record_size, RecordHeaderSize.
  rewrite !zlen_app, !zlen_le_bytes. lia.
Qed.

Lemma total_app a b : total (a ++ b) = total a + total b.
Proof. induction a as [|r a IH]; cbn [total foldr app]; [done|]. fold (total (a ++ b)) (total a). lia. Qed.

Lemma total_nonneg rs : 0 <= total rs.
Proof.
  induction rs as [|r rs IH]; cbn [total foldr]; [lia|]. fold (total rs).
  pose proof (record_size_pos r). unfold RecordHeaderSize in *. lia.
Qed.

Lemma total_take_S rs i r :
  rs !! i = Some r -> total (take (S i) rs) = total (take i rs) + record_size r.
Proof.
  intros Hr. rewrite (take_S_r _ _ _ Hr), total_app. cbn. lia.
Qed.

Lemma total_take_le rs i : total (take i rs) <= total rs.
Proof.
  rewrite <- (take_drop i rs) at 2. rewrite total_app.
  pose proof (total_nonneg (drop i rs)). lia.
Qed.

(** ** Inserting a record *)

Lemma put_record_ok d o up r :
  0 <= o -> o + record_size r = up -> up <= PageSize ->
  exists d', put_record d o up r = Ok d' /\
             forall i, d' i = store d o (encode_record r) i.
Proof.
  intros Ho Hs Hup. unfold put_record, record_size, RecordHeaderSize in *.
  pose proof (zlen_nonneg (key r)). pose proof (zlen_nonneg (val r)).
  unfold slice_ok. rewrite !(proj2 (Z.leb_le _ _)) by lia.
  unfold mbind, result_bind, andb.
  do 6 (rewrite storeR_ok; [|lia|lia|rewrite ?zlen_le_bytes; lia]).
  eexists. split; [reflexivity|]. intros i.
  unfold encode_record. rewrite !store_app, !zlen_le_bytes.
  change (Z.of_nat 8) with 8. change (Z.of_nat 4) with 4.
  replace (o + 8 + 8) with (o + 16) by lia. replace (o + 16 + 4) with (o + 20) by lia.
  by replace (o + 20 + 4) with (o + 24) by lia.
Qed.

(** What [push_record] does to the bytes of a page with room for the record. *)
Lemma push_record_bytes d n r :
  let up := GetUpperBoundary d in
  let o := up - record_size r in
  let so := PageHeaderSize + 4 * n in
  0 <= n -> so + 4 <= o -> up <= PageSize ->
  exists d', push_record d n r = Ok d' /\
    (forall i, i < 12 \/ 20 <= i < so \/ so + 4 <= i < o \/ up <= i -> d' i = d i) /\
    GetLowerBoundary d' = so + 4 /\ GetUpperBoundary d' = o /\
    Uint16 d' so = o /\ Uint16 d' (so + 2) = record_size r /\
    slice d' o up = encode_record r.
Proof.
  intros up o so Hn Hroom Hup. pose proof (record_size_pos r).
  unfold PageSize, PageHeaderSize, RecordHeaderSize in *.
  destruct (put_record_ok d o up r) as (d1 & Hput & Hd1);
    [lia | unfold o; lia | unfold PageSize; lia |].
  unfold push_record. fold up.
  rewrite (u32_small (record_size r)), (u32_small (up - record_size r)) by lia.
  fold o. rewrite Hput. unfold mbind at 1, result_bind at 1. cbn beta iota.
  unfold WriteSlot, slot_offset, PageHeaderSize, PageSize.
  rewrite (u32_small (n * 4)), (u32_small (32 + n * 4)) by lia.
  replace (32 + n * 4) with so by (unfold so; lia).
  rewrite (u32_small (so + 2)), (u32_small (so + 4)) by lia.
  unfold mbind, result_bind. cbn [Offset Length].
  do 2 (rewrite storeR_ok; [|lia|lia|rewrite ?zlen_le_bytes; lia]).
  rewrite (u32_small (n + 1)), (u32_small ((n + 1) * 4)),
    (u32_small (32 + (n + 1) * 4)), (u16_small o), (u16_small (record_size r)) by lia.
  eexists. split; [reflexivity|].
  unfold GetLowerBoundary, GetUpperBoundary, SetLowerBoundary, SetUpperBoundary.
  fold (PutUint16 d1 so o). fold (PutUint16 (PutUint16 d1 so o) (so + 2) (record_size r)).
  split_and!.
  - intros i Hi. unfold PutUint32, PutUint16.
    rewrite !store_out by (rewrite zlen_le_bytes; lia). rewrite Hd1.
    apply store_out. rewrite zlen_encode. lia.
  - fields. rewrite u32_small; lia.
  - fields. rewrite u32_small; lia.
  - fields. rewrite u16_small; lia.
  - fields. rewrite u16_small; lia.
  - replace up with (o + zlen (encode_record r)) by (rewrite zlen_encode; unfold o; lia).
    rewrite <- (slice_store_same d o (encode_record r)) at 2.
    apply slice_ext. intros i Hi. unfold PutUint32, PutUint16.
    rewrite !store_out by (rewrite zlen_le_bytes; lia). apply Hd1.
Qed.

(** [layout] only looks at the boundaries, the directory and the records. *)
Lemma layout_ext d d' rs :
  (forall i, 12 <= i < 20 \/ PageHeaderSize <= i < PageSize -> d' i = d i) ->
  layout d rs -> layout d' rs.
Proof.
  unfold PageHeaderSize. intros E [Hl Hu Hf Hs Hd Ho].
  pose proof (total_nonneg rs).
  unfold GetLowerBoundary, GetUpperBoundary, PageHeaderSize in *. split.
  - unfold GetLowerBoundary. rewrite (Uint32_ext d' d) by (intros; apply E; lia). done.
  - unfold GetUpperBoundary. rewrite (Uint32_ext d' d) by (intros; apply E; lia). done.
  - done.
  - intros i r Hr. unfold PageHeaderSize in *. destruct (Hs i r Hr).
    apply lookup_lt_Some in Hr. unfold zlen, PageSize in *.
    rewrite !(Uint16_ext d' d) by (intros; apply E; lia). done.
  - intros i r Hr. rewrite <- (Hd i r Hr). apply slice_ext. intros j Hj. apply E.
    right. unfold rec_offset in *. pose proof (total_take_le rs (S i)). pose proof (zlen_nonneg rs).
    rewrite (total_take_S _ _ _ Hr) in *. pose proof (total_nonneg (take i rs)). lia.
  - done.
Qed.

Lemma rec_offset_app rs r i : (i < length rs)%nat -> rec_offset (rs ++ [r]) i = rec_offset rs i.
Proof. intros. unfold rec_offset. rewrite take_app_le by lia. done. Qed.

(** Appending a record to a page extends the record list. *)
Lemma push_record_layout d rs r :
  layout d rs -> record_ok r ->
  PageHeaderSize + 4 * zlen rs + 4 + record_size r <= PageSize - total rs ->
  exists d', push_record d (zlen rs) r = Ok d' /\ layout d' (rs ++ [r]) /\
    (forall i, i < 12 \/ 20 <= i < PageHeaderSize -> d' i = d i).
Proof.
  intros [Hl Hu Hf Hs Hd Ho] Hr Hroom. pose proof (total_nonneg rs). pose proof (zlen_nonneg rs).
  destruct (push_record_bytes d (zlen rs) r) as (d' & Hp & Hfr & Hl' & Hu' & Hso & Hsl & Hdat);
    [lia | rewrite Hu; lia | rewrite Hu; lia |].
  exists d'. split; [done|]. rewrite Hu in *. unfold PageHeaderSize in *. split; [|intros; apply Hfr; lia].
  assert (total (rs ++ [r]) = total rs + record_size r) as Ht by (rewrite total_app; cbn; lia).
  assert (zlen (rs ++ [r]) = zlen rs + 1) as Hz by (rewrite zlen_app; done).
  split; rewrite ?Ht, ?Hz; unfold PageHeaderSize in *; try lia.
  - intros i x Hx. apply lookup_app_Some in Hx as [Hx|[Hge Hx]].
    + apply lookup_lt_Some in Hx as Hlt. rewrite rec_offset_app by done.
      destruct (Hs i x Hx) as [<- <-].
      split; apply Uint16_ext; intros; apply Hfr; unfold zlen in *; lia.
    + apply list_lookup_singleton_Some in Hx as [Hi <-].
      replace (Z.of_nat i) with (zlen rs) by (unfold zlen; lia).
      rewrite Hso, Hsl. unfold rec_offset. rewrite take_ge by (rewrite length_app; cbn; lia). lia.
  - intros i x Hx. apply lookup_app_Some in Hx as [Hx|[Hge Hx]].
    + apply lookup_lt_Some in Hx as Hlt. rewrite rec_offset_app by done.
      rewrite <- (Hd i x Hx). apply slice_ext. intros j Hj. apply Hfr.
      unfold rec_offset in *. pose proof (total_take_le rs (S i)). lia.
    + apply list_lookup_singleton_Some in Hx as [Hi <-].
      unfold rec_offset. rewrite take_ge by (rewrite length_app; cbn; lia).
      rewrite Ht, <- Hdat. f_equal; lia.
  - apply Forall_app. auto.
Qed.

(** ** Reading the records back *)

Lemma rec_offset_bounds rs i r :
  rs !! i = Some r -> PageSize - total rs <= rec_offset rs i /\
  rec_offset rs i + record_size r <= PageSize.
Proof.
  intros Hr. unfold rec_offset. rewrite (total_take_S _ _ _ Hr).
  pose proof (total_nonneg (take i rs)). pose proof (total_take_le rs (S i)).
  rewrite (total_take_S _ _ _ Hr) in *. lia.
Qed.

(** The fields of an encoded record, read at its offset. *)
Lemma parse_encoded d o r :
  0 <= o -> o + record_size r <= PageSize -> record_ok r ->
  slice d o (o + record_size r) = encode_record r ->
  parse_record d (mkSlot o (record_size r)) = Ok r.
Proof.
  intros Ho Hb [Ht He] E. pose proof (record_size_pos r).
  unfold record_size, RecordHeaderSize, PageSize in *.
  pose proof (zlen_nonneg (key r)). pose proof (zlen_nonneg (val r)).
  set (kl := zlen (key r)) in *. set (vl := zlen (val r)) in *.
  rewrite (slice_app d o (o + 8)), (slice_app d (o + 8) (o + 16)),
    (slice_app d (o + 16) (o + 20)), (slice_app d (o + 20) (o + 24)),
    (slice_app d (o + 24) (o + (24 + kl))) in E by lia.
  unfold encode_record in E.
  apply app_inj_1 in E as [E1 E]; [|rewrite length_slice, length_le_bytes; lia].
  apply app_inj_1 in E as [E2 E]; [|rewrite length_slice, length_le_bytes; lia].
  apply app_inj_1 in E as [E3 E]; [|rewrite length_slice, length_le_bytes; lia].
  apply app_inj_1 in E as [E4 E]; [|rewrite length_slice, length_le_bytes; lia].
  apply app_inj_1 in E as [E5 E6]; [|rewrite length_slice; unfold kl, zlen; lia].
  unfold parse_record, PageSize. cbn [Offset Length].
  rewrite (u16_small (o + (24 + kl + vl))) by lia.
  unfold slice_ok. rewrite !(proj2 (Z.leb_le _ _)) by lia. cbn [andb].
  unfold mbind, result_bind.
  rewrite 4!sliceR_ok by lia. rewrite E1, E2, E3, E4, !le_val_bytes.
  fold kl vl. rewrite (Z.mod_small kl), (Z.mod_small vl) by lia.
  rewrite (u32_small (24 + kl)), (u32_small (24 + kl + vl)) by lia.
  rewrite !sliceR_ok by lia. rewrite E5.
  rewrite E6, !Z.mod_small by lia. by destruct r.
Qed.

Section Reading.
Context (d : mem) (rs : list record) (H : page_repr d rs).

Lemma repr_GetSlot i r :
  rs !! i = Some r -> GetSlot d (Z.of_nat i) = Ok (mkSlot (rec_offset rs i) (record_size r)).
Proof.
  intros Hr. destruct H as [Hc [Hl Hu Hf Hs Hd Ho]].
  apply lookup_lt_Some in Hr as Hlt. pose proof (total_nonneg rs).
  unfold GetSlot, slot_offset. destruct (_ <=? _) eqn:E; bprop; [unfold zlen in *; lia|].
  unfold PageHeaderSize, PageSize, zlen in *.
  rewrite (u32_small (Z.of_nat i * 4)), (u32_small (32 + Z.of_nat i * 4)),
    (u32_small (32 + Z.of_nat i * 4 + 2)), (u32_small (32 + Z.of_nat i * 4 + 4)) by lia.
  unfold mbind, result_bind. rewrite !sliceR_ok by lia.
  destruct (Hs i r Hr) as [E1 E2]. unfold Uint16, PageHeaderSize in *. do 2 f_equal.
  - rewrite <- E1. do 2 f_equal; lia.
  - rewrite <- E2. do 2 f_equal; lia.
Qed.

Lemma repr_parse i r :
  rs !! i = Some r -> parse_record d (mkSlot (rec_offset rs i) (record_size r)) = Ok r.
Proof.
  intros Hr. destruct H as [Hc [Hl Hu Hf Hs Hd Ho]].
  destruct (rec_offset_bounds rs i r Hr). pose proof (zlen_nonneg rs).
  apply parse_encoded; [unfold PageHeaderSize in *; lia | lia | | by apply Hd].
  by eapply Forall_lookup_1.
Qed.

(** The slot loop visits the records in slot order and never panics. *)
Lemma for_slots_from_repr {S} (body : Z -> record -> S -> S) fuel i s :
  (fuel + i = length rs)%nat ->
  for_slots_from d body fuel (Z.of_nat i) s = Ok (fold_records body (Z.of_nat i) (drop i rs) s).
Proof.
  revert i s. induction fuel as [|fuel IH]; intros i s Hn; cbn [for_slots_from].
  - by rewrite drop_ge by lia.
  - destruct (lookup_lt_is_Some_2 rs i ltac:(lia)) as [r Hr].
    rewrite (repr_GetSlot i r Hr). cbn [Length].
    pose proof (record_size_pos r). unfold RecordHeaderSize in *.
    rewrite (proj2 (Z.eqb_neq _ _)) by lia.
    unfold mbind, result_bind. rewrite (repr_parse i r Hr).
    replace (Z.of_nat i + 1) with (Z.of_nat (Datatypes.S i)) by lia.
    rewrite IH by lia. rewrite (drop_S _ _ _ Hr). cbn [fold_records].
    by replace (Z.of_nat i + 1) with (Z.of_nat (Datatypes.S i)) by lia.
Qed.

Lemma for_slots_repr {S} (body : Z -> record -> S -> S) s :
  for_slots d body s = Ok (fold_records body 0 rs s).
Proof.
  unfold for_slots. destruct H as [-> _]. change 0 with (Z.of_nat 0) at 1.
  rewrite for_slots_from_repr by (unfold zlen; lia). done.
Qed.
End Reading.

Lemma fold_records_app {S} (body : Z -> record -> S -> S) i a b s :
  fold_records body i (a ++ b) s = fold_records body (i + zlen a) b (fold_records body i a s).
Proof.
  revert i s. induction a as [|r a IH]; intros i s; cbn [fold_records app].
  - unfold zlen. cbn. by rewrite Z.add_0_r.
  - rewrite IH, zlen_cons. f_equal. lia.
Qed.

(** ** The empty page *)

Lemma Init_repr d : page_repr (Init d) [].
Proof.
  assert (forall a, a + 4 <= 32 -> Uint32 (Init d) a =
    Uint32 (SetNextPageID (SetUpperBoundary (SetLowerBoundary (SetSlotCount (SetPageType
      (SetChecksum d 0) 0) 0) PageHeaderSize) PageSize) 0) a) as E.
  { intros a Ha. apply Uint32_ext. intros i Hi. unfold Init.
    apply (field_clear_other 4 a); [left; unfold PageHeaderSize; lia | lia]. }
  assert (GetSlotCount (Init d) = 0 /\ GetLowerBoundary (Init d) = 32 /\
          GetUpperBoundary (Init d) = 32768) as (Hc & Hl & Hu).
  { unfold GetSlotCount, GetLowerBoundary, GetUpperBoundary.
    rewrite !E by lia. unfold SetNextPageID, SetUpperBoundary, SetLowerBoundary, SetSlotCount,
      SetPageType, SetChecksum. split_and!; fields; done. }
  by split; [done|]; split.
Qed.

(** ** Pages up to the checksum *)

#[export] Instance page_repr_proper : Proper (image_eq 4 ==> eq ==> iff) page_repr.
Proof.
  assert (forall d1 d2 rs, image_eq 4 d1 d2 -> page_repr d1 rs -> page_repr d2 rs) as Himp.
  { intros d1 d2 rs E [Hc Hl]. split; [by rewrite <- (GetSlotCount_proper _ _ E)|].
    eapply layout_ext; [|exact Hl]. intros i Hi. symmetry. apply E.
    unfold PageHeaderSize, PageSize in *. lia. }
  intros d1 d2 E rs ? <-. split; apply Himp; [done | by symmetry].
Qed.
