(* ===== verification/Telemetry.v ===== *)
(** Engine metrics (interfaces.go section 6, telemetry.go): the atomic
    counters as [uint64] values and the snapshot arithmetic. *)

From S2P Require Import Common.
From S2P Require Import Prelude.

Record AtomicMetrics := mkMetrics {
  bufferPoolHits : Z;
  bufferPoolMisses : Z;
  walFlushLatencies : Z;
  walFlushCount : Z;
  compactionTime : Z;
  compactionCount : Z;
  activeTxnsGauge : Z
}.

Definition NewAtomicMetrics : AtomicMetrics := mkMetrics 0 0 0 0 0 0 0.

Definition IncrBufferPoolHit (m : AtomicMetrics) : AtomicMetrics :=
  mkMetrics (u64 (bufferPoolHits m + 1)) (bufferPoolMisses m) (walFlushLatencies m)
    (walFlushCount m) (compactionTime m) (compactionCount m) (activeTxnsGauge m).

Definition IncrBufferPoolMiss (m : AtomicMetrics) : AtomicMetrics :=
  mkMetrics (bufferPoolHits m) (u64 (bufferPoolMisses m + 1)) (walFlushLatencies m)
    (walFlushCount m) (compactionTime m) (compactionCount m) (activeTxnsGauge m).

Definition RecordWalFlushLatency (d : Z) (m : AtomicMetrics) : AtomicMetrics :=
  mkMetrics (bufferPoolHits m) (bufferPoolMisses m) (u64 (walFlushLatencies m + u64 d))
    (u64 (walFlushCount m + 1)) (compactionTime m) (compactionCount m) (activeTxnsGauge m).

Definition RecordPageCompactionTime (d : Z) (m : AtomicMetrics) : AtomicMetrics :=
  mkMetrics (bufferPoolHits m) (bufferPoolMisses m) (walFlushLatencies m)
    (walFlushCount m) (u64 (compactionTime m + u64 d)) (u64 (compactionCount m + 1))
    (activeTxnsGauge m).

Definition SetActiveTransactions (count : Z) (m : AtomicMetrics) : AtomicMetrics :=
  mkMetrics (bufferPoolHits m) (bufferPoolMisses m) (walFlushLatencies m)
    (walFlushCount m) (compactionTime m) (compactionCount m) count.

(** ** Snapshots *)

(** The hit ratio is kept as the two operands of its floating-point division;
    durations are nanoseconds. *)
Record EngineMetricsSnapshot := mkSnapshot {
  BufferPoolHits : Z;
  BufferPoolMisses : Z;
  BufferPoolHitRatio : Z * Z;
  AvgWalFlushLatency : Z;
  AvgCompactionLatency : Z;
  ActiveTransactions : Z
}.

Definition Capture (m : AtomicMetrics) : EngineMetricsSnapshot :=
  let total := u64 (bufferPoolHits m + bufferPoolMisses m) in
  mkSnapshot (bufferPoolHits m) (bufferPoolMisses m)
    (if 0 <? total then (bufferPoolHits m, total) else (0, 1))
    (if 0 <? walFlushCount m then i64 (walFlushLatencies m / walFlushCount m) else 0)
    (if 0 <? compactionCount m then i64 (compactionTime m / compactionCount m) else 0)
    (activeTxnsGauge m).
