(* ===== verification/BufferPool.v ===== *)
(** The disk manager and the buffer pool (storage.go sections 2 and 3), over
    any [BlockDevice] and any [EvictionPolicy]: frames, page table, free list,
    pins and dirty flags; fetching, eviction with write-back, unpinning,
    allocation and the flush.  A [*Page] is the index of its frame, so callers
    mutate the pool's own frame.  Latches and the pool mutex are not modelled:
    every operation runs to completion. *)

From Stdlib Require Import Strings.Byte.
From S2P Require Import Common.
From S2P Require Import Prelude.
From S2P Require Import VFS.
From S2P Require Import LRU.
From S2P Require Import Page.
From S2P Require Import Telemetry.

(** Pages from 1000 on carry B-tree headers and no checksum
    ([BTreeRootPageID] is 1002). *)
Definition BTreeRootPageID : PageID := 1002.

Definition isBTreeKVPage (id : PageID) : bool := BTreeRootPageID - 2 <=? id.

(** ** DiskManager *)

Section Disk.
Context {D : Type} `{BlockDevice D}.

(** [int64(id) * PageSize], with both conversions wrapping. *)
Definition page_offset (id : PageID) : Z := i64 (i64 id * PageSize).

(** The error aside, [ReadPage] overwrites the bytes it read in [data]. *)
Definition ReadPage (dev : D) (id : PageID) (data : mem) : result (mem * option error) :=
  '(p, n, err) ← ReadAt dev PageSize (page_offset id);
  Ok ((fun i => if (0 <=? i) && (i <? n) then p i else data i), err).

Definition WritePage (dev : D) (id : PageID) (data : mem) : result (option error) * D :=
  let '(r, dev') := WriteAt dev data PageSize (page_offset id) in
  ('(n, err) ← r; Ok err, dev').
End Disk.

(** ** BufferPool *)

Record BufferPool (D P : Type) := mkPool {
  disk : D;
  frames : list Page;
  pageTable : gmap PageID nat;
  evictor : P;
  freeList : list nat;
  metrics : option AtomicMetrics
}.
Arguments mkPool {_ _}.
Arguments disk {_ _}.
Arguments frames {_ _}.
Arguments pageTable {_ _}.
Arguments evictor {_ _}.
Arguments freeList {_ _}.
Arguments metrics {_ _}.

Section Setters.
Context {D P : Type}.
Implicit Types bp : BufferPool D P.

Definition set_disk (x : D) bp := mkPool x (frames bp) (pageTable bp) (evictor bp) (freeList bp) (metrics bp).
Definition set_frames (x : list Page) bp := mkPool (disk bp) x (pageTable bp) (evictor bp) (freeList bp) (metrics bp).
Definition set_pageTable (x : gmap PageID nat) bp := mkPool (disk bp) (frames bp) x (evictor bp) (freeList bp) (metrics bp).
Definition set_evictor (x : P) bp := mkPool (disk bp) (frames bp) (pageTable bp) x (freeList bp) (metrics bp).
Definition set_freeList (x : list nat) bp := mkPool (disk bp) (frames bp) (pageTable bp) (evictor bp) x (metrics bp).
Definition set_metrics (x : option AtomicMetrics) bp := mkPool (disk bp) (frames bp) (pageTable bp) (evictor bp) (freeList bp) x.

(** Mutation through a [*Page]. *)
Definition update_frame (i : nat) (f : Page -> Page) bp := set_frames (alter f i (frames bp)) bp.
End Setters.

(** [PinCount.Add(n)], for fewer than 2^31 pins of a page (the counter has 32
    bits). *)
Definition add_pin (n : Z) (p : Page) : Page :=
  mkPage (ID p) (Data p) (PinCount p + n) (IsDirty p) (MemVersion p).
Definition set_dirty (b : bool) (p : Page) : Page :=
  mkPage (ID p) (Data p) (PinCount p) b (MemVersion p).
Definition reset_page (id : PageID) (p : Page) : Page :=
  mkPage id zero_mem 1 false (MemVersion p).

(** [if !isBTreeKVPage(p.ID) { p.SetChecksum(p.ComputeChecksum()) }]. *)
Definition stamp (p : Page) : Page :=
  if isBTreeKVPage (ID p) then p
  else set_Data p (SetChecksum (Data p) (ComputeChecksum (Data p))).

Definition isAllZero (d : mem) : bool :=
  forallb (fun i => bool_decide (d i = Byte.x00)) (seqZ 0 PageSize).

Section Pool.
Context {D P : Type} `{BlockDevice D} `{EvictionPolicy P} `{MapRange}.
Implicit Types bp : BufferPool D P.

Definition NewBufferPool (dev : D) (poolSize : nat) (ev : P) (m : option AtomicMetrics) :
    BufferPool D P :=
  mkPool dev (repeat zero_page poolSize) ∅ ev (seq 0 poolSize) m.

Definition UnpinPage bp (id : PageID) (isDirty : bool) : BufferPool D P :=
  match pageTable bp !! id with
  | Some frameIdx =>
      update_frame frameIdx
        (fun p => let p := add_pin (-1) p in if isDirty then set_dirty true p else p) bp
  | None => bp
  end.

(** [bp.frames[frameIdx].IsDirty], for an index the page table holds. *)
Definition frame_dirty bp (i : nat) : bool :=
  match frames bp !! i with Some p => IsDirty p | None => false end.

(** The frames [FlushAll] collects: the dirty pages in map order. *)
Definition dirty_frames bp : list nat :=
  filter (fun i => frame_dirty bp i = true) (range (pageTable bp)).*2.

(** The write-out loop of [FlushAll] over the collected pages. *)
Fixpoint flush_frames (l : list nat) (firstErr : option error) bp :
    result (option error) * BufferPool D P :=
  match l with
  | [] => (Ok firstErr, bp)
  | i :: l' =>
      let bp := update_frame i stamp bp in
      match frames bp !! i with
      | None => (Panic, bp)
      | Some page =>
          let '(r, dev) := WritePage (disk bp) (ID page) (Data page) in
          let bp := set_disk dev bp in
          match r with
          | Ok None => flush_frames l' firstErr
              (update_frame i (fun p => add_pin (-1) (set_dirty false p)) bp)
          | Ok (Some e) => flush_frames l' (match firstErr with None => Some e | _ => firstErr end)
              (update_frame i (add_pin (-1)) bp)
          | Err e => (Err e, bp)
          | Panic => (Panic, bp)
          | Hang => (Hang, bp)
          end
      end
  end.

Definition FlushAll bp : result unit * BufferPool D P :=
  let dirtyPages := dirty_frames bp in
  let bp := fold_left (fun bp i => update_frame i (add_pin 1) bp) dirtyPages bp in
  let '(r, bp) := flush_frames dirtyPages None bp in
  match r with
  | Ok firstErr =>
      let '(syncErr, dev) := Sync (disk bp) in
      let bp := set_disk dev bp in
      match (match firstErr with None => syncErr | _ => firstErr end) with
      | None => (Ok tt, bp)
      | Some e => (Err e, bp)
      end
  | Err e => (Err e, bp)
  | Panic => (Panic, bp)
  | Hang => (Hang, bp)
  end.

(** [dirtyCount]: how many entries of the page table point to dirty frames. *)
Definition dirty_count bp : Z := zlen (dirty_frames bp).

(** The victim loop of [getAvailableFrame].  [Hang] stands for a loop that
    has not ended within the given number of rounds. *)
Fixpoint evict_loop (fuel : nat) bp : result nat * BufferPool D P :=
  match fuel with
  | O => (Hang, bp)
  | S fuel =>
      match Evict (evictor bp) with
      | (None, ev) =>
          (Err (Msg "buffer pool completely exhausted: all tracking frames are pinned"),
           set_evictor ev bp)
      | (Some victimID, ev) =>
          let bp := set_evictor ev bp in
          match pageTable bp !! victimID with
          | None => evict_loop fuel bp
          | Some frameIdx =>
              match frames bp !! frameIdx with
              | None => (Panic, bp)
              | Some victimPage =>
                  if 0 <? PinCount victimPage
                  then evict_loop fuel (set_evictor (RecordAccess (evictor bp) victimID) bp)
                  else if IsDirty victimPage
                  then
                    let victimPage := stamp victimPage in
                    let bp := update_frame frameIdx (fun _ => victimPage) bp in
                    let '(r, dev) := WritePage (disk bp) (ID victimPage) (Data victimPage) in
                    let bp := set_disk dev bp in
                    match r with
                    | Ok None => (Ok frameIdx, set_pageTable (delete victimID (pageTable bp)) bp)
                    | Ok (Some e) | Err e =>
                        (Err e, set_evictor (RecordAccess (evictor bp) victimID) bp)
                    | Panic => (Panic, bp)
                    | Hang => (Hang, bp)
                    end
                  else (Ok frameIdx, set_pageTable (delete victimID (pageTable bp)) bp)
              end
          end
      end
  end.

(** [float64(dirty)/float64(n) >= 0.8] is [5*dirty >= 4*n] for every pool
    size below 2^50.  With the LRU policy one round more than there are frames is
    enough for the victim loop (see [evict_loop_progress] and [evict_loop_hangs]);
    for another policy [Hang] only says that it has not ended by then. *)
Definition getAvailableFrame bp : result nat * BufferPool D P :=
  let n := zlen (frames bp) in
  let '(r, bp) :=
    if (0 <? n) && (4 * n <=? 5 * dirty_count bp)
    then let '(r, bp) := FlushAll bp in (if returns r then Ok tt else Panic, bp)
    else (Ok tt, bp) in
  match r with
  | Ok _ =>
      match freeList bp with
      | idx :: rest => (Ok idx, set_freeList rest bp)
      | [] => evict_loop (S (length (frames bp))) bp
      end
  | _ => (Panic, bp)
  end.

Definition FetchPage bp (id : PageID) : result nat * BufferPool D P :=
  match pageTable bp !! id with
  | Some frameIdx =>
      let bp := set_metrics (IncrBufferPoolHit <$> metrics bp) bp in
      let bp := set_evictor (RecordAccess (evictor bp) id) bp in
      (Ok frameIdx, update_frame frameIdx (add_pin 1) bp)
  | None =>
      let bp := set_metrics (IncrBufferPoolMiss <$> metrics bp) bp in
      let '(r, bp) := getAvailableFrame bp in
      match r with
      | Ok frameIdx =>
          let bp := update_frame frameIdx (reset_page id) bp in
          match ReadPage (disk bp) id zero_mem with
          | Ok (data, err) =>
              let bp := update_frame frameIdx (fun p => set_Data p data) bp in
              let release bp := set_freeList (freeList bp ++ [frameIdx]) bp in
              let readErr := match err with
                             | Some e => if errors_Is e EOF then None else Some e
                             | None => None end in
              match readErr with
              | Some e => (Err e, release bp)
              | None =>
                  if (if isAllZero data then false
                      else if isBTreeKVPage id then false
                      else if GetChecksum data =? 0 then false
                      else negb (GetChecksum data =? ComputeChecksum data))
                  then (Err (Msg "CRITICAL BIT ROT CORRUPTION"), release bp)
                  else
                    let bp := set_pageTable (<[id := frameIdx]> (pageTable bp)) bp in
                    (Ok frameIdx, set_evictor (RecordAccess (evictor bp) id) bp)
              end
          | Err e => (Err e, bp)
          | Panic => (Panic, bp)
          | Hang => (Hang, bp)
          end
      | Err e => (Err e, bp)
      | Panic => (Panic, bp)
      | Hang => (Hang, bp)
      end
  end.

(** When [getAvailableFrame] flushes all dirty pages first. *)
Definition flush_due bp : bool :=
  (0 <? zlen (frames bp)) && (4 * zlen (frames bp) <=? 5 * dirty_count bp).

(** [FetchPage] called while the latches of the frames [latches] are held: the
    flush takes the latch of every dirty page, and waits forever for one that
    its own caller holds. *)
Definition FetchLatched (latches : list nat) bp (id : PageID) : result nat * BufferPool D P :=
  if existsb (fun i => bool_decide (i ∈ dirty_frames bp)) latches &&
     bool_decide (pageTable bp !! id = None) && flush_due bp
  then (Hang, bp) else FetchPage bp id.

(** [NewPage] appends a zeroed page to the device, fetches it and formats the
    frame; [Size()/PageSize] is an [int64] division.  The caller holds the
    latches of [latches]. *)
Definition NewPage (latches : list nat) bp : result nat * BufferPool D P :=
  match StatSize (disk bp) with
  | Ok size =>
      let newID := u64 (Z.quot size PageSize) in
      let '(r, dev) := WritePage (disk bp) newID zero_mem in
      let bp := set_disk dev bp in
      match r with
      | Ok None =>
          let '(r, bp) := FetchLatched latches bp newID in
          match r with
          | Ok i => (Ok i, update_frame i (fun p => set_Data p (Init (Data p))) bp)
          | _ => (r, bp)
          end
      | Ok (Some e) | Err e => (Err e, bp)
      | Panic => (Panic, bp)
      | Hang => (Hang, bp)
      end
  | Err e => (Err e, bp)
  | Panic => (Panic, bp)
  | Hang => (Hang, bp)
  end.
End Pool.

(** * Correctness *)

(** ** The contents of pages *)

(** Page ids whose byte offset fits an [int64]. *)
Definition page_id_ok (id : PageID) : Prop := 0 <= id < 2 ^ 48.

(** Two images of page [id] are the same page: for a slotted page, up to the
    checksum field. *)
Definition page_eqv (id : PageID) : relation mem :=
  image_eq (if isBTreeKVPage id then 0 else 4).

#[export] Instance page_eqv_equiv id : Equivalence (page_eqv id).
Proof. unfold page_eqv. apply _. Qed.

Lemma page_offset_ok id : page_id_ok id -> page_offset id = id * PageSize.
Proof.
  intros Hid. unfold page_id_ok, page_offset, PageSize in *.
  rewrite (i64_small id), i64_small; lia.
Qed.

Lemma stamp_ID p : ID (stamp p) = ID p.
Proof. unfold stamp. by destruct (isBTreeKVPage (ID p)). Qed.
Lemma stamp_PinCount p : PinCount (stamp p) = PinCount p.
Proof. unfold stamp. by destruct (isBTreeKVPage (ID p)). Qed.
Lemma stamp_IsDirty p : IsDirty (stamp p) = IsDirty p.
Proof. unfold stamp. by destruct (isBTreeKVPage (ID p)). Qed.
Lemma stamp_Data p : page_eqv (ID p) (Data (stamp p)) (Data p).
Proof.
  unfold stamp, page_eqv. destruct (isBTreeKVPage (ID p)); [done|].
  by apply image_eq_SetChecksum.
Qed.

Section DiskFacts.
Context {D : Type} `{BlockDeviceSpec D}.

(** The page a device stores for an id. *)
Definition disk_page (dev : D) (id : PageID) : mem := fun i => dev_at dev (id * PageSize + i).

Lemma WritePage_spec dev id data r dev' :
  page_id_ok id -> WritePage dev id data = (r, dev') ->
  (exists e, r = Ok e) /\
  (r = Ok None -> image_eq 0 (disk_page dev' id) data) /\
  (forall id', id' <> id -> image_eq 0 (disk_page dev' id') (disk_page dev id')).
Proof.
  intros Hid. unfold WritePage. rewrite page_offset_ok by done.
  assert (0 <= id * PageSize) as Hoff by (unfold page_id_ok, PageSize in *; lia).
  destruct (WriteAt_returns dev data PageSize _ Hoff) as (n & e & dev1 & E).
  rewrite E. cbn. intros [= <- <-]. split_and!.
  - eauto.
  - intros [= ->] i Hi. unfold disk_page.
    assert (0 <= PageSize) as Hps by (unfold PageSize; lia).
    destruct (WriteAt_data _ _ _ _ _ _ Hps Hoff E) as [_ Hd].
    rewrite Hd by lia. f_equal. lia.
  - intros id' Hne i Hi. unfold disk_page.
    eapply (WriteAt_frame dev data PageSize (id * PageSize)); [unfold PageSize; lia | done | done |].
    unfold PageSize in *. nia.
Qed.

Lemma ReadPage_spec dev id :
  page_id_ok id ->
  exists data e, ReadPage dev id zero_mem = Ok (data, e) /\
    (match e with None => True | Some e => errors_Is e EOF = true end ->
     image_eq 0 data (disk_page dev id)).
Proof.
  intros Hid. unfold ReadPage. rewrite page_offset_ok by done.
  assert (0 <= id * PageSize) as Hoff by (unfold page_id_ok, PageSize in *; lia).
  destruct (ReadAt_returns dev PageSize _ Hoff) as (p & n & e & E).
  rewrite E. cbn. eexists _, e. split; [done|].
  assert (0 <= PageSize) as Hps by (unfold PageSize; lia).
  destruct (ReadAt_data _ _ _ _ _ _ Hps Hoff E) as [Hn Hp].
  intros He i Hi. unfold disk_page.
  destruct ((0 <=? i) && (i <? n)) eqn:B; bprop; [apply Hp; lia | lia |].
  destruct e as [e|].
  - symmetry. apply dev_past_end.
    pose proof (ReadAt_eof _ _ _ _ _ _ Hps Hoff E He). lia.
  - pose proof (ReadAt_full _ _ _ _ _ Hps Hoff E). lia.
Qed.
End DiskFacts.

(** ** Checksums *)

(** What [FetchPage] accepts from the device without reporting bit rot. *)
Inductive checksum_ok (id : PageID) (d : mem) : Prop :=
  | sum_btree : isBTreeKVPage id = true -> checksum_ok id d
  | sum_zero : isAllZero d = true -> checksum_ok id d
  | sum_unset : GetChecksum d = 0 -> checksum_ok id d
  | sum_match : GetChecksum d = ComputeChecksum d -> checksum_ok id d.

Lemma isAllZero_ext d1 d2 : image_eq 0 d1 d2 -> isAllZero d1 = isAllZero d2.
Proof.
  intros E. unfold isAllZero. apply eq_true_iff_eq. rewrite !forallb_forall.
  split; intros Hall i Hi; specialize (Hall i Hi); apply list_elem_of_In, elem_of_seqZ in Hi;
    [rewrite <- E by lia | rewrite E by lia]; done.
Qed.

#[export] Instance image_eq_weaken : subrelation (image_eq 0) (image_eq 4).
Proof. intros d1 d2 E i Hi. apply E. lia. Qed.

Lemma GetChecksum_ext d1 d2 : image_eq 0 d1 d2 -> GetChecksum d1 = GetChecksum d2.
Proof. intros E. apply Uint32_ext. intros. apply E. unfold PageSize. lia. Qed.

Lemma checksum_ok_ext id d1 d2 : image_eq 0 d1 d2 -> checksum_ok id d2 -> checksum_ok id d1.
Proof.
  intros E. destruct 1 as [Hb|Hz|Hu|Hm].
  - by apply sum_btree.
  - apply sum_zero. by rewrite (isAllZero_ext d1 d2 E).
  - apply sum_unset. by rewrite (GetChecksum_ext d1 d2 E).
  - apply sum_match. rewrite (GetChecksum_ext d1 d2 E), Hm. symmetry.
    apply ComputeChecksum_proper. by apply image_eq_weaken.
Qed.

Lemma checksum_ok_stamp p : checksum_ok (ID p) (Data (stamp p)).
Proof.
  unfold stamp. destruct (isBTreeKVPage (ID p)) eqn:E; [by apply sum_btree|].
  apply sum_match, Checksum_stamped.
Qed.

(** Kept folded in later proofs: both walk over 32768 bytes. *)
#[global] Opaque isAllZero ComputeChecksum.

(** The check of [FetchPage] passes exactly then. *)
Lemma checksum_ok_check id d :
  checksum_ok id d <->
  (if isAllZero d then false else if isBTreeKVPage id then false
   else if GetChecksum d =? 0 then false
   else negb (GetChecksum d =? ComputeChecksum d)) = false.
Proof.
  split.
  - destruct 1 as [E|E|E|E]; rewrite E.
    + by destruct (isAllZero d).
    + reflexivity.
    + by destruct (isAllZero d), (isBTreeKVPage id).
    + rewrite Z.eqb_refl. cbn [negb].
      by destruct (isAllZero d), (isBTreeKVPage id), (ComputeChecksum d =? 0).
  - destruct (isAllZero d) eqn:E1; [by intros _; apply sum_zero|].
    destruct (isBTreeKVPage id) eqn:E2; [by intros _; apply sum_btree|].
    destruct (GetChecksum d =? 0) eqn:E3; bprop; [by intros _; apply sum_unset|].
    intros E4%negb_false_iff%Z.eqb_eq. by apply sum_match.
Qed.

