(* ===== verification/PoolInv.v ===== *)
(** The buffer pool's invariant and its transparency: whatever the pool does
    with its frames, every page keeps its contents, and a successful flush puts
    the contents of every page on the device.  Proved against the
    [BlockDeviceSpec] and [EvictionPolicySpec] interfaces. *)

From Stdlib Require Import Strings.Byte.
From S2P Require Import Common.
From S2P Require Import Prelude.
From S2P Require Import VFS.
From S2P Require Import LRU.
From S2P Require Import Page.
From S2P Require Import Telemetry.
From S2P Require Import BufferPool.

Section PoolInv.
Context {D P : Type} `{DS : BlockDeviceSpec D} `{PS : EvictionPolicySpec P} `{MR : MapRange}.
Implicit Types bp : BufferPool D P.

(** The contents of a page as the rest of the program sees it: its frame when
    it is cached, the device otherwise. *)
Definition view bp (id : PageID) : mem :=
  match pageTable bp !! id with
  | Some i => match frames bp !! i with Some p => Data p | None => zero_mem end
  | None => disk_page (disk bp) id
  end.

(** [X] is the set of pages a caller has pinned and is modifying; every other
    clean frame agrees with the device.  A page that has no dirty frame carries a
    checksum on the device that passes the fetch check. *)
Record pool_inv (X : gset PageID) bp : Prop := {
  inv_table : forall id i, pageTable bp !! id = Some i ->
    page_id_ok id /\ exists p, frames bp !! i = Some p /\ ID p = id;
  inv_free_nodup : NoDup (freeList bp);
  inv_free : forall i, i ∈ freeList bp ->
    (i < length (frames bp))%nat /\ forall id, pageTable bp !! id <> Some i;
  inv_cover : (size (pageTable bp) + length (freeList bp) = length (frames bp))%nat;
  inv_policy : policy_ok (evictor bp);
  inv_tracked : tracked (evictor bp) = dom (pageTable bp);
  inv_pins : forall i p, frames bp !! i = Some p -> 0 <= PinCount p;
  inv_clean : forall id i p, pageTable bp !! id = Some i -> frames bp !! i = Some p ->
    IsDirty p = false -> id ∉ X -> page_eqv id (Data p) (disk_page (disk bp) id);
  inv_busy : forall id, id ∈ X ->
    exists i p, pageTable bp !! id = Some i /\ frames bp !! i = Some p /\ 0 < PinCount p;
  inv_sum : forall id, page_id_ok id ->
    (forall i p, pageTable bp !! id = Some i -> frames bp !! i = Some p -> IsDirty p = false) ->
    checksum_ok id (disk_page (disk bp) id)
}.

(** Every page has the same contents in both pools. *)
Definition same_view bp bp' : Prop := forall id, page_eqv id (view bp' id) (view bp id).

#[export] Instance same_view_equiv : Equivalence same_view.
Proof.
  split.
  - by intros bp id.
  - intros bp bp' E id. symmetry. apply E.
  - intros a b c E1 E2 id. by rewrite (E2 id), (E1 id).
Qed.

Lemma table_inj X bp id1 id2 i :
  pool_inv X bp -> pageTable bp !! id1 = Some i -> pageTable bp !! id2 = Some i -> id1 = id2.
Proof.
  intros Hi T1 T2. apply (inv_table _ _ Hi) in T1 as (_ & p1 & E1 & <-).
  apply (inv_table _ _ Hi) in T2 as (_ & p2 & E2 & <-). congruence.
Qed.

Lemma view_cached bp id i p :
  pageTable bp !! id = Some i -> frames bp !! i = Some p -> view bp id = Data p.
Proof. unfold view. by intros -> ->. Qed.

Lemma frames_update_frame i f bp : frames (update_frame i f bp) = alter f i (frames bp).
Proof. done. Qed.

Lemma lookup_update_frame i f bp j :
  frames (update_frame i f bp) !! j =
  if decide (i = j) then f <$> frames bp !! j else frames bp !! j.
Proof.
  cbn. case_decide as E; [subst; apply list_lookup_alter_eq | by apply list_lookup_alter_ne].
Qed.

Lemma image_eqv id d1 d2 : image_eq 0 d1 d2 -> page_eqv id d1 d2.
Proof. intros E i Hi. apply E. destruct (isBTreeKVPage id); lia. Qed.

(** ** Updating a frame in place *)

(** An update that keeps the page and its image, does not hide a dirty flag
    and keeps busy pages pinned. *)
Lemma inv_update_frame X bp i f :
  pool_inv X bp ->
  (forall p, frames bp !! i = Some p -> ID (f p) = ID p /\ 0 <= PinCount (f p)) ->
  (forall p, frames bp !! i = Some p -> pageTable bp !! ID p = Some i ->
     page_eqv (ID p) (Data (f p)) (Data p) /\
     (IsDirty (f p) = false -> IsDirty p = false) /\
     (ID p ∈ X -> 0 < PinCount (f p))) ->
  pool_inv X (update_frame i f bp) /\ same_view bp (update_frame i f bp).
Proof.
  intros Hinv Hf Hg. pose proof Hinv as [Ht Hfn Hfr Hcov Hpo Htr Hpi Hcl Hbu Hsu]. split.
  - split; cbn; try done.
    + intros id j Hj. destruct (Ht id j Hj) as (Hok & p & Hp & Hid). split; [done|].
      destruct (decide (i = j)) as [->|].
      * rewrite list_lookup_alter_eq, Hp. cbn. eexists; split; [done|].
        destruct (Hf p Hp). congruence.
      * rewrite list_lookup_alter_ne by done. eauto.
    + intros j Hj. rewrite length_alter. by apply Hfr.
    + by rewrite length_alter.
    + intros j q Hq. destruct (decide (i = j)) as [->|].
      * rewrite list_lookup_alter_eq in Hq. destruct (frames bp !! j) eqn:E; simplify_eq/=.
        by apply Hf.
      * rewrite list_lookup_alter_ne in Hq by done. by eapply Hpi.
    + intros id j q Hj Hq Hd HX. destruct (decide (i = j)) as [->|].
      * rewrite list_lookup_alter_eq in Hq. destruct (frames bp !! j) as [p|] eqn:E; simplify_eq/=.
        destruct (Ht id j Hj) as (_ & p' & Hp' & Hid). simplify_eq.
        destruct (Hg p eq_refl Hj) as (Hdat & Hdir & _). rewrite Hdat. eauto.
      * rewrite list_lookup_alter_ne in Hq by done. eauto.
    + intros id HX. destruct (Hbu id HX) as (j & p & Hj & Hp & Hpin).
      destruct (decide (i = j)) as [->|].
      * exists j, (f p). rewrite list_lookup_alter_eq, Hp. split_and!; try done.
        destruct (Ht id j Hj) as (_ & p' & Hp' & Hid). simplify_eq. by apply Hg.
      * exists j, p. rewrite list_lookup_alter_ne by done. done.
    + intros id Hok Hc. apply Hsu; [done|]. intros j p Hj Hp.
      destruct (Ht id j Hj) as (_ & p' & Hp' & Hid). simplify_eq.
      destruct (decide (i = j)) as [->|].
      * apply (Hg p Hp Hj). apply (Hc j (f p) Hj). by rewrite list_lookup_alter_eq, Hp.
      * apply (Hc j p Hj). by rewrite list_lookup_alter_ne.
  - intros id. unfold view. cbn. destruct (pageTable bp !! id) as [j|] eqn:Hj; [|done].
    destruct (Ht id j Hj) as (_ & p & Hp & Hid). subst id.
    destruct (decide (i = j)) as [->|].
    + rewrite list_lookup_alter_eq, Hp. cbn. by apply Hg.
    + by rewrite list_lookup_alter_ne by done.
Qed.

(** A frame of the free list may be changed at will. *)
Lemma inv_update_free X bp i f :
  pool_inv X bp -> i ∈ freeList bp ->
  (forall p, frames bp !! i = Some p -> 0 <= PinCount (f p)) ->
  pool_inv X (update_frame i f bp) /\
  (forall id, view (update_frame i f bp) id = view bp id).
Proof.
  intros Hinv Hin Hf. pose proof Hinv as [Ht Hfn Hfr Hcov Hpo Htr Hpi Hcl Hbu Hsu].
  destruct (Hfr i Hin) as [Hlt Hno].
  assert (forall id j, pageTable bp !! id = Some j -> alter f i (frames bp) !! j = frames bp !! j)
    as Hsame.
  { intros id j Hj. apply list_lookup_alter_ne. intros <-. by eapply Hno. }
  split.
  - split; cbn; try done.
    + intros id j Hj. rewrite (Hsame id j Hj). by apply Ht.
    + intros j Hj. rewrite length_alter. by apply Hfr.
    + by rewrite length_alter.
    + intros j q Hq. destruct (decide (i = j)) as [->|].
      * rewrite list_lookup_alter_eq in Hq. destruct (frames bp !! j) eqn:E; simplify_eq/=.
        by apply Hf.
      * rewrite list_lookup_alter_ne in Hq by done. by eapply Hpi.
    + intros id j q Hj. rewrite (Hsame id j Hj). by apply Hcl.
    + intros id HX. destruct (Hbu id HX) as (j & p & Hj & Hp & Hpin).
      exists j, p. by rewrite (Hsame id j Hj).
    + intros id Hok Hc. apply Hsu; [done|]. intros j p Hj Hp.
      apply (Hc j p Hj). by rewrite (Hsame id j Hj).
  - intros id. unfold view. cbn. destruct (pageTable bp !! id) as [j|] eqn:Hj; [|done].
    by rewrite (Hsame id j Hj).
Qed.

(** ** Other fields *)

Lemma inv_set_metrics X bp m : pool_inv X bp -> pool_inv X (set_metrics m bp).
Proof. intros []. by split. Qed.

Lemma inv_set_evictor X bp ev :
  pool_inv X bp -> policy_ok ev -> tracked ev = dom (pageTable bp) ->
  pool_inv X (set_evictor ev bp).
Proof. intros [] ??. by split. Qed.

(** The order of the free list is immaterial. *)
Lemma inv_set_freeList X bp l :
  pool_inv X bp -> l ≡ₚ freeList bp -> pool_inv X (set_freeList l bp).
Proof.
  intros [Ht Hfn Hfr Hcov Hpo Htr Hpi Hcl Hbu Hsu] Hl. split; cbn; try done.
  - by rewrite Hl.
  - intros i. rewrite Hl. apply Hfr.
  - by rewrite Hl.
Qed.

(** Replacing the device by one with the same pages. *)
Lemma inv_set_disk X bp dev :
  pool_inv X bp ->
  (forall id i p, pageTable bp !! id = Some i -> frames bp !! i = Some p ->
     IsDirty p = false -> id ∉ X -> page_eqv id (disk_page dev id) (disk_page (disk bp) id)) ->
  (forall id, image_eq 0 (disk_page dev id) (disk_page (disk bp) id)) ->
  pool_inv X (set_disk dev bp).
Proof.
  intros [Ht Hfn Hfr Hcov Hpo Htr Hpi Hcl Hbu Hsu] Hd Hi0. split; cbn; try done.
  - intros id i p Hi Hp Hc HX. rewrite (Hd id i p) by done. eauto.
  - intros id Hok Hc. exact (checksum_ok_ext id _ _ (Hi0 id) (Hsu id Hok Hc)).
Qed.
(** Replacing the frame of a cached page, and possibly the device's copy of
    that page, by an equivalent one. *)
Lemma inv_replace X bp i id p q dev :
  pool_inv X bp -> pageTable bp !! id = Some i -> frames bp !! i = Some p ->
  ID q = id -> 0 <= PinCount q -> (id ∈ X -> 0 < PinCount q) ->
  page_eqv id (Data q) (Data p) ->
  (IsDirty q = false -> id ∉ X -> page_eqv id (Data q) (disk_page dev id)) ->
  (IsDirty q = false -> checksum_ok id (disk_page dev id)) ->
  (forall id', id' <> id -> image_eq 0 (disk_page dev id') (disk_page (disk bp) id')) ->
  let bp' := set_disk dev (set_frames (<[i := q]> (frames bp)) bp) in
  pool_inv X bp' /\ same_view bp bp'.
Proof.
  intros Hinv Hi Hp Hid Hpin HX Hdat Hcl' Hsum Hdev0 bp'.
  pose proof (fun id' Hne => image_eqv id' _ _ (Hdev0 id' Hne)) as Hdev.
  pose proof Hinv as [Ht Hfn Hfr Hcov Hpo Htr Hpi Hcl Hbu Hsu].
  apply lookup_lt_Some in Hp as Hlt.
  assert (forall j, frames bp' !! j = if decide (j = i) then Some q else frames bp !! j) as Hfs.
  { intros j. cbn. case_decide as E; [subst; by apply list_lookup_insert_eq |
      by apply list_lookup_insert_ne]. }
  assert (forall id' j, pageTable bp !! id' = Some j -> j = i -> id' = id) as Hinj.
  { intros id' j Hj ->. by eapply table_inj. }
  split.
  - split; unfold bp'; cbn; try done.
    + intros id' j Hj. destruct (Ht id' j Hj) as (Hok & p' & Hp' & Hid'). split; [done|].
      fold (frames bp'). rewrite Hfs. case_decide; [|by eauto].
      exists q. split; [done|]. rewrite Hid. symmetry. eauto.
    + intros j Hj. rewrite length_insert. by apply Hfr.
    + by rewrite length_insert.
    + intros j r Hr. fold (frames bp') in Hr. rewrite Hfs in Hr.
      case_decide; simplify_eq; [done | by eapply Hpi].
    + intros id' j r Hj Hr Hd HX'. fold (frames bp') in Hr. rewrite Hfs in Hr.
      case_decide as Ej.
      * simplify_eq. rewrite (Hinj id' i Hj eq_refl) in *. auto.
      * assert (id' <> id) by congruence. rewrite Hdev by done. eauto.
    + intros id' HX'. destruct (Hbu id' HX') as (j & r & Hj & Hr & Hpr).
      exists j. fold (frames bp'). rewrite Hfs. case_decide as Ej; [|by eauto].
      exists q. split_and!; try done. apply HX. by rewrite <- (Hinj id' j Hj Ej).
    + intros id' Hok Hc. destruct (decide (id' = id)) as [->|Hne].
      * apply Hsum, (Hc i q Hi). fold (frames bp'). by rewrite Hfs, decide_True.
      * eapply checksum_ok_ext; [by apply Hdev0|]. apply Hsu; [done|].
        intros j r Hj Hr. apply (Hc j r Hj). fold (frames bp'). rewrite Hfs, decide_False; [done|].
        intros Ej. by apply Hne, (Hinj id' j).
  - intros id'. unfold view, bp'. cbn. fold (frames bp').
    destruct (pageTable bp !! id') as [j|] eqn:Hj.
    + destruct (Ht id' j Hj) as (_ & p' & Hp' & Hid').
      rewrite Hfs. case_decide as Ej; [|done].
      rewrite (Hinj id' j Hj Ej). subst j. rewrite Hp in Hp'. simplify_eq. by rewrite Hp.
    + apply Hdev. intros ->. congruence.
Qed.

(** ** Flushing *)

Lemma alter_insert (f : Page -> Page) i (l : list Page) p :
  l !! i = Some p -> alter f i l = <[i := f p]> l.
Proof.
  intros Hp. apply list_eq. intros j. apply lookup_lt_Some in Hp as Hlt.
  destruct (decide (i = j)) as [->|].
  - by rewrite list_lookup_alter_eq, list_lookup_insert_eq, Hp.
  - by rewrite list_lookup_alter_ne, list_lookup_insert_ne.
Qed.

(** What flushing leaves alone. *)
Record same_shape bp bp' : Prop := {
  shape_table : pageTable bp' = pageTable bp;
  shape_free : freeList bp' = freeList bp;
  shape_evictor : evictor bp' = evictor bp;
  shape_frames : length (frames bp') = length (frames bp)
}.

#[export] Instance same_shape_trans : Transitive same_shape.
Proof. intros a b c [] []. split; congruence. Qed.

(** A frame in state [q] after the flush of a frame in state [p]. *)
Definition flushed (p q : Page) : Prop := ID q = ID p /\ PinCount q = PinCount p - 1.

(** One round of the write-out loop. *)
Lemma flush_step X bp i id p :
  pool_inv X bp -> pageTable bp !! id = Some i -> frames bp !! i = Some p ->
  IsDirty p = true -> 1 <= PinCount p -> (id ∈ X -> 2 <= PinCount p) ->
  exists e dev bp' q,
    WritePage (disk bp) id (Data (stamp p)) = (Ok e, dev) /\
    bp' = set_disk dev (set_frames (<[i := q]> (frames bp)) bp) /\
    q = add_pin (-1) (match e with None => set_dirty false (stamp p) | Some _ => stamp p end) /\
    pool_inv X bp' /\ same_view bp bp' /\ flushed p q /\
    (e = None -> IsDirty q = false /\ page_eqv id (disk_page dev id) (Data p)) /\
    (forall id', id' <> id -> page_eqv id' (disk_page dev id') (disk_page (disk bp) id')).
Proof.
  intros Hinv Hi Hp Hdirty Hpin HX.
  destruct (inv_table _ _ Hinv id i Hi) as (Hok & p0 & Hp0 & Hid). simplify_eq.
  destruct (WritePage (disk bp) (ID p) (Data (stamp p))) as [r dev] eqn:Hw.
  destruct (WritePage_spec _ _ _ _ _ Hok Hw) as ((e & ->) & Hsame & Hoth).
  assert (forall id', id' <> ID p -> page_eqv id' (disk_page dev id') (disk_page (disk bp) id'))
    as Hoth'.
  { intros id' Hne. by apply image_eqv, Hoth. }
  assert (e = None -> page_eqv (ID p) (disk_page dev (ID p)) (Data p)) as Hdisk.
  { intros ->. transitivity (Data (stamp p)); [|apply stamp_Data].
    by apply image_eqv, Hsame. }
  exists e, dev. eexists. exists (add_pin (-1)
    (match e with None => set_dirty false (stamp p) | Some _ => stamp p end)).
  split; [done|]. split; [done|]. split; [done|].
  assert (flushed p (add_pin (-1)
    (match e with None => set_dirty false (stamp p) | Some _ => stamp p end))) as [Hfi Hfp].
  { split; destruct e; cbn; rewrite ?stamp_ID, ?stamp_PinCount; lia || done. }
  destruct (inv_replace X bp i (ID p) p (add_pin (-1)
    (match e with None => set_dirty false (stamp p) | Some _ => stamp p end)) dev)
    as [Hinv' Hview]; try done.
  - lia.
  - intros HX'. specialize (HX HX'). lia.
  - destruct e; apply stamp_Data.
  - intros Hc HnX. destruct e; cbn in *; [rewrite stamp_IsDirty in Hc; congruence|].
    rewrite stamp_Data. symmetry. by apply Hdisk.
  - intros Hc. destruct e; cbn in *; [rewrite stamp_IsDirty in Hc; congruence|].
    eapply checksum_ok_ext; [by apply Hsame | apply checksum_ok_stamp].
  - split_and!; try done. intros ->. split; [done|]. auto.
Qed.

Lemma flush_frames_cons X i l fe bp id p :
  pool_inv X bp -> pageTable bp !! id = Some i -> frames bp !! i = Some p ->
  IsDirty p = true -> 1 <= PinCount p -> (id ∈ X -> 2 <= PinCount p) ->
  exists e dev q,
    let bp' := set_disk dev (set_frames (<[i := q]> (frames bp)) bp) in
    let fe' := match e, fe with Some _, None => e | _, _ => fe end in
    flush_frames (i :: l) fe bp = flush_frames l fe' bp' /\
    pool_inv X bp' /\ same_view bp bp' /\ flushed p q /\
    (e = None -> IsDirty q = false /\ page_eqv id (disk_page dev id) (Data p)) /\
    (forall id', id' <> id -> page_eqv id' (disk_page dev id') (disk_page (disk bp) id')).
Proof.
  intros Hinv Hi Hp Hdirty Hpin HX.
  destruct (flush_step X bp i id p) as (e & dev & bp' & q & Hw & -> & -> & Hinv' & Hrest); try done.
  destruct (inv_table _ _ Hinv id i Hi) as (_ & p0 & Hp0 & Hid). simplify_eq.
  apply lookup_lt_Some in Hp as Hlt.
  eexists e, dev, _. split; [|by split].
  cbn [flush_frames]. rewrite lookup_update_frame, decide_True, Hp by done. cbn [fmap option_fmap option_map].
  rewrite stamp_ID. change (disk (update_frame i stamp bp)) with (disk bp). rewrite Hw.
  assert (forall f, update_frame i f (set_disk dev (update_frame i stamp bp)) =
    set_disk dev (set_frames (<[i := f (stamp p)]> (frames bp)) bp)) as Hup.
  { intros f. unfold update_frame, set_frames, set_disk. cbn. f_equal.
    rewrite (alter_insert stamp i _ p Hp), (alter_insert f i _ (stamp p)).
    - by rewrite list_insert_insert_eq.
    - by apply list_lookup_insert_eq. }
  destruct e as [e|]; rewrite Hup; [by destruct fe | done].
Qed.

Lemma flush_frames_spec X l bp fe :
  pool_inv X bp -> NoDup l ->
  (forall i, i ∈ l -> exists id p, pageTable bp !! id = Some i /\ frames bp !! i = Some p /\
     IsDirty p = true /\ 1 <= PinCount p /\ (id ∈ X -> 2 <= PinCount p)) ->
  exists fe' bp', flush_frames l fe bp = (Ok fe', bp') /\
    pool_inv X bp' /\ same_view bp bp' /\ same_shape bp bp' /\
    (forall j, j ∉ l -> frames bp' !! j = frames bp !! j) /\
    (forall j p, j ∈ l -> frames bp !! j = Some p ->
       exists q, frames bp' !! j = Some q /\ flushed p q) /\
    (fe' = None -> fe = None /\ forall id j, j ∈ l -> pageTable bp !! id = Some j ->
       (exists q, frames bp' !! j = Some q /\ IsDirty q = false) /\
       page_eqv id (disk_page (disk bp') id) (view bp id)) /\
    (forall id, (forall j, pageTable bp !! id = Some j -> j ∉ l) ->
       page_eqv id (disk_page (disk bp') id) (disk_page (disk bp) id)).
Proof.
  revert bp fe. induction l as [|i l IH]; intros bp fe Hinv Hnd Hl.
  { exists fe, bp. cbn. split_and!; try done; intros; set_solver. }
  apply NoDup_cons in Hnd as [Hil Hnd].
  destruct (Hl i ltac:(left)) as (id & p & Hi & Hp & Hdirty & Hpin & HX).
  destruct (flush_frames_cons X i l fe bp id p) as (e & dev & q & Heq & Hinv1 & Hview1 & Hfl & Hdone & Hoth);
    try done.
  set (bp1 := set_disk dev (set_frames (<[i := q]> (frames bp)) bp)) in *.
  apply lookup_lt_Some in Hp as Hlt.
  assert (forall j, j <> i -> frames bp1 !! j = frames bp !! j) as Hne.
  { intros j Hj. cbn. by apply list_lookup_insert_ne. }
  assert (frames bp1 !! i = Some q) as Heqi by (cbn; by apply list_lookup_insert_eq).
  destruct (IH bp1 (match e, fe with Some _, None => e | _, _ => fe end))
    as (fe' & bp' & E & Hinv' & Hview' & Hsh & Hout & Hin & Hnone & Hdisk); try done.
  { intros j Hj. destruct (Hl j ltac:(by right)) as (idj & pj & ? & Hpj & ?).
    exists idj, pj. rewrite Hne by (intros ->; done). done. }
  assert (frames bp' !! i = Some q) as Hqi by by rewrite Hout.
  exists fe', bp'. rewrite Heq. split_and!; try done.
  - by transitivity bp1.
  - destruct Hsh as [? ? ? Hlen]. split; try done. rewrite Hlen. cbn. by rewrite length_insert.
  - intros j [? ?]%not_elem_of_cons. by rewrite Hout, Hne.
  - intros j pj [->|Hj]%elem_of_cons Hpj; [simplify_eq; eauto|].
    apply Hin; [done|]. rewrite Hne; [done|]. by intros ->.
  - intros ->. destruct (Hnone eq_refl) as [Hfe Hrest].
    destruct e as [e|]; [by destruct fe|]. split; [done|].
    intros id' j [->|Hj]%elem_of_cons Hj'.
    + assert (id' = id) as -> by by apply (table_inj X bp id' id i). destruct (Hdone eq_refl) as [Hqd Hqe].
      split; [by eauto|]. rewrite (view_cached bp id i p) by done.
      rewrite <- Hqe. apply Hdisk. intros j' Hj''. cbn in Hj''. congruence.
    + destruct (Hrest id' j Hj Hj') as [? Hd]. split; [done|]. rewrite Hd. apply Hview1.
  - intros id' Hno. rewrite Hdisk; [|intros j Hj; by apply Hno, not_elem_of_cons in Hj as [_ ?]].
    apply Hoth. intros ->. apply (Hno i) in Hi. apply Hi. left.
Qed.

(** Pinning the pages to flush. *)
Lemma pin_all_spec X l bp :
  pool_inv X bp -> NoDup l ->
  let bp' := fold_left (fun bp i => update_frame i (add_pin 1) bp) l bp in
  pool_inv X bp' /\ same_view bp bp' /\ same_shape bp bp' /\ disk bp' = disk bp /\
  (forall j, frames bp' !! j =
     if decide (j ∈ l) then add_pin 1 <$> frames bp !! j else frames bp !! j).
Proof.
  revert bp. induction l as [|i l IH]; intros bp Hinv Hnd; cbn [fold_left].
  { split_and!; try done. }
  apply NoDup_cons in Hnd as [Hil Hnd].
  destruct (inv_update_frame X bp i (add_pin 1)) as [Hinv1 Hview1]; [done | | |].
  { intros p Hp. split; [done|]. cbn. pose proof (inv_pins _ _ Hinv _ _ Hp). lia. }
  { intros p Hp _. split_and!; [done | done |]. intros _. cbn.
    pose proof (inv_pins _ _ Hinv _ _ Hp). lia. }
  destruct (IH _ Hinv1 Hnd) as (Hinv2 & Hview2 & [Ht Hf He Hn] & Hd & Hfr).
  split_and!; try done.
  - by transitivity (update_frame i (add_pin 1) bp).
  - split; try done. rewrite Hn. cbn. by rewrite length_alter.
  - intros j. rewrite Hfr, lookup_update_frame.
    destruct (decide (j = i)) as [->|Hne].
    + rewrite decide_False, decide_True, (decide_True (P := i ∈ i :: l)) by (done || left). done.
    + rewrite (decide_False (P := i = j)) by done.
      destruct (decide (j ∈ l)); [rewrite decide_True by by right | rewrite decide_False by
        by rewrite not_elem_of_cons]; done.
Qed.

Lemma NoDup_dirty_frames X bp : pool_inv X bp -> NoDup (dirty_frames bp).
Proof.
  intros Hinv. apply NoDup_filter. apply NoDup_fmap_2_strong.
  - intros [id1 i1] [id2 i2] T1 T2 E. cbn in E. subst.
    apply elem_of_range in T1, T2. f_equal. by apply (table_inj X bp _ _ i2).
  - apply (NoDup_fmap_1 fst), NoDup_range_keys.
Qed.

Lemma elem_of_dirty_frames bp i :
  i ∈ dirty_frames bp <-> frame_dirty bp i = true /\ exists id, pageTable bp !! id = Some i.
Proof.
  unfold dirty_frames. rewrite list_elem_of_filter, list_elem_of_fmap.
  split; intros [Hd Hi]; (split; [done|]).
  - destruct Hi as ([id j] & -> & Hr). exists id. by apply elem_of_range.
  - destruct Hi as [id Hi]. exists (id, i). split; [done|]. by apply elem_of_range.
Qed.

Lemma not_dirty_frame bp id i p :
  pageTable bp !! id = Some i -> frames bp !! i = Some p -> i ∉ dirty_frames bp -> IsDirty p = false.
Proof.
  intros Hi Hp Hni. destruct (IsDirty p) eqn:Hd; [|done]. contradict Hni.
  apply elem_of_dirty_frames. unfold frame_dirty. rewrite Hp. eauto.
Qed.

(** The pages to flush, once they are pinned for it. *)
Lemma dirty_frame_pinned X bp i :
  pool_inv X bp -> i ∈ dirty_frames bp ->
  exists id p, pageTable bp !! id = Some i /\ frames bp !! i = Some p /\ ID p = id /\ IsDirty p = true /\
    0 <= PinCount p /\ (id ∈ X -> 0 < PinCount p).
Proof.
  intros Hinv [Hdi [id Hid]]%elem_of_dirty_frames. destruct (inv_table _ _ Hinv id i Hid) as (Hok & p & Hp & Hpid).
  unfold frame_dirty in Hdi. rewrite Hp in Hdi. exists id, p. split_and!; try done; [exact (inv_pins _ _ Hinv _ _ Hp)|].
  intros HX. destruct (inv_busy _ _ Hinv _ HX) as (i' & p' & ? & ? & ?). by simplify_eq.
Qed.

(** [device.Sync]. *)
Lemma sync_pool X bp se dev :
  pool_inv X bp -> Sync (disk bp) = (se, dev) ->
  pool_inv X (set_disk dev bp) /\ same_view bp (set_disk dev bp) /\
  forall id, page_eqv id (disk_page dev id) (disk_page (disk bp) id).
Proof.
  intros Hinv Hs. pose proof (Sync_frame _ _ _ Hs) as Hsync.
  assert (forall id, page_eqv id (disk_page dev id) (disk_page (disk bp) id)) as Hsync'
    by (intros id i _; unfold disk_page; apply Hsync).
  split; [apply inv_set_disk; [done | intros; apply Hsync' | intros id i _; apply Hsync]|]. split; [|done].
  intros id. unfold view. cbn. destruct (pageTable bp !! id); [done | apply Hsync'].
Qed.

(** A flush keeps the invariant and every page; when it reports success, the
    device holds every page that nobody is modifying. *)
Lemma FlushAll_spec X bp r bp' :
  pool_inv X bp -> FlushAll bp = (r, bp') ->
  returns r = true /\ pool_inv X bp' /\ same_view bp bp' /\ same_shape bp bp' /\
  (forall j p, frames bp !! j = Some p ->
     exists q, frames bp' !! j = Some q /\ ID q = ID p /\ PinCount q = PinCount p) /\
  (r = Ok tt -> forall id, id ∉ X -> page_eqv id (disk_page (disk bp') id) (view bp id)) /\
  (r = Ok tt -> forall id j p, pageTable bp' !! id = Some j -> frames bp' !! j = Some p ->
     IsDirty p = false).
Proof.
  intros Hinv. unfold FlushAll.
  pose proof (NoDup_dirty_frames X bp Hinv) as Hnd.
  pose proof (pin_all_spec X _ bp Hinv Hnd) as (Hinv1 & Hview1 & Hsh1 & Hd1 & Hfr1).
  set (bp1 := fold_left _ _ bp) in *. pose proof Hsh1 as [Ht1 Hf1 He1 Hn1].
  destruct (flush_frames_spec X (dirty_frames bp) bp1 None)
    as (fe & bp2 & E & Hinv2 & Hview2 & Hsh2 & Hout & Hin & Hnone & Hdisk); try done.
  { intros i Hi. destruct (dirty_frame_pinned X bp i Hinv Hi) as (id & p & Hid & Hp & Hpid & Hdp & Hpos & HX).
    exists id, (add_pin 1 p). rewrite Ht1, Hfr1, decide_True, Hp by done. split_and!; try done; cbn; [lia|]. intros Hx.
    specialize (HX Hx). lia. }
  rewrite E. destruct (Sync (disk bp2)) as [se dev] eqn:Hs.
  destruct (sync_pool X bp2 se dev Hinv2 Hs) as (Hinv3 & Hview3 & Hsync').
  assert (same_view bp (set_disk dev bp2)) by (transitivity bp2; [by transitivity bp1|done]).
  assert (same_shape bp (set_disk dev bp2)) as Hsh3.
  { transitivity bp1; [done|]. destruct Hsh2. by split. }
  assert (forall j p, frames bp !! j = Some p ->
     exists q, frames bp2 !! j = Some q /\ ID q = ID p /\ PinCount q = PinCount p) as Hpins.
  { intros j p Hp. destruct (decide (j ∈ dirty_frames bp)) as [Hj|Hj].
    - destruct (Hin j (add_pin 1 p) Hj) as (q & Hq & Hqi & Hqp).
      { by rewrite Hfr1, decide_True, Hp. }
      exists q. split_and!; try done. rewrite Hqp. cbn. lia.
    - exists p. by rewrite (Hout j Hj), Hfr1, decide_False. }
  intros Hres.
  assert (bp' = set_disk dev bp2 /\ returns r = true /\ (r = Ok tt -> fe = None)) as (-> & Hr & Hfe).
  { destruct fe as [fe|], se as [se|]; simplify_eq; done. }
  split_and!; try done.
  - intros ->. specialize (Hfe eq_refl). destruct (Hnone Hfe) as [_ Hall].
    intros id HX. cbn. rewrite Hsync'. rewrite <- (Hview1 id).
    destruct (pageTable bp !! id) as [j|] eqn:Hj.
    + destruct (decide (j ∈ dirty_frames bp)) as [Hjd|Hjd].
      * apply (Hall id j Hjd). by rewrite Ht1.
      * rewrite Hdisk by (rewrite Ht1; congruence). rewrite Hd1.
        destruct (inv_table _ _ Hinv id j Hj) as (_ & p & Hp & _).
        symmetry. rewrite (Hview1 id), (view_cached bp id j p) by done.
        apply (inv_clean _ _ Hinv id j p); try done. by eapply not_dirty_frame.
    + rewrite Hdisk by (rewrite Ht1; congruence). rewrite Hd1, (Hview1 id).
      unfold view. by rewrite Hj.
  - intros ->. specialize (Hfe eq_refl). destruct (Hnone Hfe) as [_ Hall].
    intros id j p. cbn. rewrite (shape_table _ _ Hsh2), Ht1. intros Hj Hp.
    destruct (decide (j ∈ dirty_frames bp)) as [Hjd|Hjd].
    + destruct (Hall id j Hjd) as [(q & Hq & Hqd) _]; [by rewrite Ht1 | congruence].
    + rewrite (Hout j Hjd), Hfr1, decide_False in Hp by done. by eapply not_dirty_frame.
Qed.

(** ** Eviction *)

(** What a call that hands out a frame guarantees: with the frame put back on
    the free list the pool is well formed; an error leaves it well formed; no
    page changes either way. *)
Definition frame_given (X : gset PageID) bp (r : result nat) bp' : Prop :=
  match r with
  | Ok i => pool_inv X (set_freeList (i :: freeList bp') bp') /\ same_view bp bp' /\
      pageTable bp' ⊆ pageTable bp
  | Err _ => pool_inv X bp' /\ same_view bp bp'
  | Panic => False
  | Hang => True
  end.

Lemma view_set_evictor ev bp id : view (set_evictor ev bp) id = view bp id.
Proof. done. Qed.

(** Dropping an unpinned page whose contents the device holds. *)
Lemma inv_drop X bp id i p ev :
  pool_inv X bp -> pageTable bp !! id = Some i -> frames bp !! i = Some p ->
  PinCount p <= 0 -> page_eqv id (Data p) (disk_page (disk bp) id) ->
  checksum_ok id (disk_page (disk bp) id) ->
  policy_ok ev -> tracked ev = dom (pageTable bp) ∖ {[id]} ->
  frame_given X bp (Ok i) (set_pageTable (delete id (pageTable bp)) (set_evictor ev bp)).
Proof.
  intros Hinv Hi Hp Hpin Hdat Hsum Hpo' Htr'.
  pose proof Hinv as [Ht Hfn Hfr Hcov Hpo Htr Hpi Hcl Hbu Hsu].
  assert (id ∉ X) as HX.
  { intros HX. destruct (Hbu id HX) as (j & q & Hj & Hq & Hqp). simplify_eq. lia. }
  split_and!.
  - split; cbn; try done.
    + intros id' j [_ Hj]%lookup_delete_Some. eauto.
    + constructor; [|done]. intros Hin. by apply (Hfr i Hin) in Hi.
    + intros j [->|Hj]%elem_of_cons.
      * split; [by eapply lookup_lt_Some|]. intros id' [Hne Hid']%lookup_delete_Some.
        by apply Hne, (table_inj X bp _ _ i).
      * destruct (Hfr j Hj) as [? Hno]. split; [done|].
        intros id' [_ Hid']%lookup_delete_Some. by apply (Hno id').
    + rewrite map_size_delete_Some by eauto.
      assert (size (pageTable bp) <> 0%nat); [|lia].
      intros E0%map_size_empty_iff. rewrite E0 in Hi. by rewrite lookup_empty in Hi.
    + by rewrite dom_delete_L.
    + intros id' j q [_ Hj]%lookup_delete_Some. by apply Hcl.
    + intros id' HX'. destruct (Hbu id' HX') as (j & q & Hj & Hq). exists j, q.
      rewrite lookup_delete_ne by (intros ->; done). done.
    + intros id' Hok Hc. destruct (decide (id' = id)) as [->|Hne]; [done|].
      apply Hsu; [done|]. intros j q Hj. apply Hc. by rewrite lookup_delete_ne.
  - intros id'. unfold view. cbn. destruct (decide (id' = id)) as [->|Hne].
    + rewrite lookup_delete_eq, Hi, Hp. by symmetry.
    + by rewrite lookup_delete_ne by done.
  - apply delete_subseteq.
Qed.

(** Writing a dirty victim out; the frame keeps the stamped image. *)
Lemma inv_write_back X bp id i p r dev :
  pool_inv X bp -> pageTable bp !! id = Some i -> frames bp !! i = Some p ->
  IsDirty p = true -> WritePage (disk bp) id (Data (stamp p)) = (r, dev) ->
  let bp' := set_disk dev (update_frame i (fun _ => stamp p) bp) in
  (exists e, r = Ok e) /\ pool_inv X bp' /\ same_view bp bp' /\
  (r = Ok None -> page_eqv id (Data (stamp p)) (disk_page dev id) /\
                  checksum_ok id (disk_page dev id)).
Proof.
  intros Hinv Hi Hp Hdirty Hw.
  destruct (inv_table _ _ Hinv id i Hi) as (Hok & p0 & Hp0 & Hid). simplify_eq.
  destruct (WritePage_spec _ _ _ _ _ Hok Hw) as (Hr & Hsame & Hoth).
  unfold update_frame. rewrite (alter_insert _ i _ p Hp).
  destruct (inv_replace X bp i (ID p) p (stamp p) dev) as [Hinv' Hview']; try done.
  - apply stamp_ID.
  - rewrite stamp_PinCount. by eapply inv_pins.
  - rewrite stamp_PinCount. intros HX.
    destruct (inv_busy _ _ Hinv _ HX) as (j & q & Hj & Hq & Hqp). by simplify_eq.
  - apply stamp_Data.
  - rewrite stamp_IsDirty. congruence.
  - rewrite stamp_IsDirty. congruence.
  - split_and!; try done. intros ->. specialize (Hsame eq_refl). split.
    + symmetry. by apply image_eqv.
    + eapply checksum_ok_ext; [apply Hsame | apply checksum_ok_stamp].
Qed.

Lemma same_view_set_evictor ev bp bp' :
  same_view (set_evictor ev bp) bp' <-> same_view bp bp'.
Proof. done. Qed.

(** The victim loop keeps the invariant and every page. *)
Lemma evict_loop_spec X fuel bp r bp' :
  pool_inv X bp -> evict_loop fuel bp = (r, bp') -> frame_given X bp r bp'.
Proof.
  revert bp. induction fuel as [|fuel IH]; intros bp Hinv; cbn [evict_loop].
  { by intros [= <- <-]. }
  pose proof Hinv as [Ht Hfn Hfr Hcov Hpo Htr Hpi Hcl Hbu Hsu].
  destruct (Evict (evictor bp)) as [[victim|] ev] eqn:Hev.
  2:{ apply Evict_None in Hev as [_ ->]; [|done]. intros [= <- <-]. split; [|done].
      by apply inv_set_evictor. }
  apply Evict_Some in Hev as Hev'; [|done]. destruct Hev' as [Hvin Hvtr].
  apply Evict_ok in Hev as Hevok; [|done].
  rewrite Htr in Hvin, Hvtr. apply elem_of_dom in Hvin as [i Hi].
  change (pageTable (set_evictor ev bp)) with (pageTable bp). rewrite Hi.
  destruct (Ht _ _ Hi) as (Hok & p & Hp & Hpid).
  change (frames (set_evictor ev bp)) with (frames bp). rewrite Hp.
  assert (forall bp0, pool_inv X bp0 -> pageTable bp0 = pageTable bp ->
    pool_inv X (set_evictor (RecordAccess ev victim) bp0)) as Hrec.
  { intros bp0 Hinv0 Et. apply inv_set_evictor; [done | by apply RecordAccess_ok |].
    rewrite RecordAccess_tracked, Hvtr, Et by done.
    apply elem_of_dom_2 in Hi. rewrite <- union_difference_singleton_L; done. }
  destruct (0 <? PinCount p) eqn:Hpin; bprop.
  { intros E. apply (IH _ (Hrec bp Hinv eq_refl)) in E. by destruct r. }
  destruct (IsDirty p) eqn:Hdirty.
  - rewrite stamp_ID, Hpid. change (disk (update_frame i _ _)) with (disk bp).
    destruct (WritePage (disk bp) victim (Data (stamp p))) as [rw dev] eqn:Hw.
    destruct (inv_write_back X bp victim i p rw dev) as ((e & ->) & Hinv' & Hview' & Hdat); try done.
    destruct e as [e|]; intros [= <- <-].
    + split; [|done]. apply (Hrec _ Hinv'). done.
    + set (bp1 := set_disk dev (update_frame i (fun _ => stamp p) bp)) in *.
      destruct (inv_drop X bp1 victim i (stamp p) ev) as (Hi1 & Hv1 & Hs1); try done.
      * cbn. rewrite list_lookup_alter_eq, Hp. done.
      * by rewrite stamp_PinCount.
      * by apply Hdat.
      * by apply Hdat.
      * split_and!; [done | by transitivity bp1 | done].
  - intros [= <- <-]. eapply inv_drop; try done.
    + eapply Hcl; try done. intros HX.
      destruct (Hbu _ HX) as (j & q & Hj & Hq & Hqp). simplify_eq. lia.
    + apply Hsu; [done|]. intros j q Hj Hq. by simplify_eq.
Qed.

(** ** Getting a frame *)

Lemma getAvailableFrame_spec X bp r bp' :
  pool_inv X bp -> getAvailableFrame bp = (r, bp') -> frame_given X bp r bp'.
Proof.
  intros Hinv. unfold getAvailableFrame.
  set (c := (_ <? _) && _). destruct c.
  - destruct (FlushAll bp) as [rf bp1] eqn:Hf.
    destruct (FlushAll_spec X bp rf bp1 Hinv Hf) as (-> & Hinv1 & Hview1 & Hsh1 & _).
    destruct (freeList bp1) as [|idx rest] eqn:Hfree.
    + intros E. apply (evict_loop_spec X) in E; [|done].
      destruct r; cbn in *; try done; destruct_and! E; split_and!; try done;
        try (by transitivity bp1). by rewrite <- (shape_table _ _ Hsh1).
    + intros [= <- <-]. split_and!; [| exact Hview1 | cbn; by rewrite (shape_table _ _ Hsh1)]. cbn. apply (inv_set_freeList X bp1); [done|].
      cbn. by rewrite Hfree.
  - destruct (freeList bp) as [|idx rest] eqn:Hfree.
    + by apply evict_loop_spec.
    + intros [= <- <-]. split_and!; [| done | done]. cbn. apply (inv_set_freeList X bp); [done|].
      cbn. by rewrite Hfree.
Qed.

(** ** Fetching *)

(** Entering a loaded frame into the page table. *)
Lemma inv_install X bp id i p :
  pool_inv X (set_freeList (i :: freeList bp) bp) ->
  pageTable bp !! id = None -> page_id_ok id -> frames bp !! i = Some p -> ID p = id ->
  page_eqv id (Data p) (disk_page (disk bp) id) ->
  let bp' := set_evictor (RecordAccess (evictor bp) id)
               (set_pageTable (<[id := i]> (pageTable bp)) bp) in
  pool_inv X bp' /\ same_view bp bp'.
Proof.
  intros Hinv Hnone Hok Hp Hid Hdat bp'.
  pose proof Hinv as [Ht Hfn Hfr Hcov Hpo Htr Hpi Hcl Hbu Hsu]. cbn in *.
  apply NoDup_cons in Hfn as [Hni Hfn].
  assert (forall id' j, pageTable bp !! id' = Some j -> id' <> id) as Hne by congruence.
  split.
  - split; cbn; try done.
    + intros id' j [[<- <-]|[? Hj]]%lookup_insert_Some; [by eauto|]. by apply (Ht id' j).
    + intros j Hj. destruct (Hfr j ltac:(by right)) as [? Hno]. split; [done|].
      intros id' [[<- <-]|[? Hj']]%lookup_insert_Some; [done|]. by apply (Hno id').
    + rewrite map_size_insert_None by done. lia.
    + by apply RecordAccess_ok.
    + rewrite RecordAccess_tracked by done. by rewrite Htr, dom_insert_L.
    + intros id' j q [[<- <-]|[? Hj]]%lookup_insert_Some Hq; [by simplify_eq|]. by apply (Hcl id' j).
    + intros id' HX. destruct (Hbu id' HX) as (j & q & Hj & Hq). exists j, q.
      rewrite lookup_insert_ne by (intros <-; by apply (Hne id j)). done.
    + intros id' Hok' Hc. apply Hsu; [done|]. intros j q Hj. apply Hc.
      rewrite lookup_insert_ne by (intros <-; by apply (Hne id j)). done.
  - intros id'. unfold view. cbn. destruct (decide (id' = id)) as [->|Hne'].
    + by rewrite lookup_insert_eq, Hnone, Hp.
    + by rewrite lookup_insert_ne by done.
Qed.

(** Outcome of [FetchPage]: the invariant and every page are kept, and a
    frame that is returned is pinned and holds the page. *)
Definition fetched (X : gset PageID) bp (id : PageID) (r : result nat) bp' : Prop :=
  match r with
  | Ok i => pool_inv X bp' /\ same_view bp bp' /\ pageTable bp' !! id = Some i /\
      exists p, frames bp' !! i = Some p /\ 0 < PinCount p /\ page_eqv id (Data p) (view bp id)
  | Err _ => pool_inv X bp' /\ same_view bp bp'
  | Panic => False
  | Hang => True
  end.

Lemma fetch_hit X bp id i :
  pool_inv X bp -> pageTable bp !! id = Some i ->
  fetched X bp id (Ok i) (update_frame i (add_pin 1) (set_evictor (RecordAccess (evictor bp) id)
    (set_metrics (IncrBufferPoolHit <$> metrics bp) bp))).
Proof.
  intros Hinv Hi. pose proof Hinv as [Ht Hfn Hfr Hcov Hpo Htr Hpi Hcl Hbu Hsu].
  destruct (Ht id i Hi) as (Hok & p & Hp & Hid).
  assert (pool_inv X (set_evictor (RecordAccess (evictor bp) id)
    (set_metrics (IncrBufferPoolHit <$> metrics bp) bp))) as Hinv1.
  { apply inv_set_evictor; [by apply inv_set_metrics | by apply RecordAccess_ok |].
    rewrite RecordAccess_tracked, Htr by done. apply elem_of_dom_2 in Hi. cbn. clear -Hi. set_solver. }
  destruct (inv_update_frame X _ i (add_pin 1) Hinv1) as [Hinv2 Hview2].
  { intros q Hq. split; [done|]. cbn in *. pose proof (Hpi _ _ Hq). lia. }
  { intros q Hq _. split_and!; try done. intros _. cbn in *. pose proof (Hpi _ _ Hq). lia. }
  split_and!; try done. exists (add_pin 1 p). cbn. rewrite list_lookup_alter_eq, Hp.
  split_and!; try done; [cbn; pose proof (Hpi _ _ Hp); lia |].
  by rewrite (view_cached bp id i p).
Qed.

(** Loading a page into a frame taken from the pool. *)
Lemma load_frame X bp id i data :
  pool_inv X (set_freeList (i :: freeList bp) bp) ->
  let bp' := update_frame i (fun p => set_Data p data) (update_frame i (reset_page id) bp) in
  pool_inv X (set_freeList (i :: freeList bp') bp') /\ same_view bp bp' /\
  exists p, frames bp' !! i = Some p /\ ID p = id /\ Data p = data /\ PinCount p = 1 /\
    IsDirty p = false.
Proof.
  intros Hinv bp'.
  destruct (inv_update_free X _ i (reset_page id) Hinv) as [Hinv1 Hv1]; [by left | done |].
  destruct (inv_update_free X _ i (fun p => set_Data p data) Hinv1) as [Hinv2 Hv2]; [by left | |].
  { intros p Hp. cbn in *. by apply (inv_pins _ _ Hinv1 i p). }
  split_and!; [done | |].
  - intros id'. specialize (Hv1 id'). specialize (Hv2 id').
    change (view bp' id') with (view (update_frame i (fun p => set_Data p data)
      (update_frame i (reset_page id) (set_freeList (i :: freeList bp) bp))) id').
    by rewrite Hv2, Hv1.
  - destruct (inv_free _ _ Hinv i ltac:(by left)) as [Hlt _]. cbn in Hlt.
    apply lookup_lt_is_Some in Hlt as [p Hp].
    cbn. rewrite !list_lookup_alter_eq, Hp. eexists. done.
Qed.

(** The pool gives back a frame it could not load. *)
Lemma release_frame X bp i :
  pool_inv X (set_freeList (i :: freeList bp) bp) ->
  pool_inv X (set_freeList (freeList bp ++ [i]) bp).
Proof.
  intros Hinv.
  apply (inv_set_freeList X _ (freeList bp ++ [i])) in Hinv; [done|].
  cbn. by rewrite Permutation_app_comm.
Qed.

Lemma FetchPage_spec X bp id r bp' :
  pool_inv X bp -> page_id_ok id -> FetchPage bp id = (r, bp') -> fetched X bp id r bp'.
Proof.
  intros Hinv Hok. unfold FetchPage. destruct (pageTable bp !! id) as [i|] eqn:Hi.
  { intros [= <- <-]. by apply fetch_hit. }
  set (bp0 := set_metrics _ bp).
  assert (pool_inv X bp0) as Hinv0 by by apply inv_set_metrics.
  destruct (getAvailableFrame bp0) as [rg bp1] eqn:Hg.
  apply (getAvailableFrame_spec X) in Hg; [|done].
  destruct rg as [i|e| |]; [|by intros [= <- <-] | done | by intros [= <- <-]].
  destruct Hg as (Hinv1 & Hview1 & Hsub).
  assert (pageTable bp1 !! id = None) as Hnone by by eapply lookup_weaken_None.
  change (disk (update_frame i (reset_page id) bp1)) with (disk bp1).
  destruct (ReadPage_spec (disk bp1) id Hok) as (data & e & Er & Hdata). rewrite Er.
  destruct (load_frame X bp1 id i data Hinv1) as (Hinv2 & Hview2 & p & Hp & Hpid & Hpd & Hpp & _).
  set (bp2 := update_frame i (fun p => set_Data p data) (update_frame i (reset_page id) bp1)) in *.
  assert (same_view bp bp2) as Hview by by transitivity bp1.
  set (readErr := match e with Some _ => _ | None => _ end).
  destruct readErr as [e'|] eqn:Ere.
  { intros [= <- <-]. split; [|done]. exact (release_frame X bp2 i Hinv2). }
  assert (image_eq 0 data (disk_page (disk bp1) id)) as Hdat.
  { apply Hdata. unfold readErr in Ere. destruct e as [e|]; [|done].
    by destruct (errors_Is e EOF). }
  assert (page_eqv id data (disk_page (disk bp1) id)) as Hdat'.
  { intros j Hj. apply Hdat. destruct (isBTreeKVPage id); lia. }
  set (bad := if isAllZero data then _ else _). destruct bad.
  { intros [= <- <-]. split; [|done]. exact (release_frame X bp2 i Hinv2). }
  intros [= <- <-].
  destruct (inv_install X bp2 id i p) as [Hinv3 Hview3]; try done.
  { by rewrite Hpd. }
  split_and!; [done | by transitivity bp2 | cbn; apply lookup_insert_eq |].
  exists p. split_and!; [done | lia |]. rewrite Hpd, Hdat'.
  transitivity (view bp1 id); [unfold view; by rewrite Hnone | apply (Hview1 id)].
Qed.
End PoolInv.
