(* ===== verification/PoolOps.v ===== *)
(** What clients of the buffer pool do with it: modify a pinned page, unpin it,
    flush and reopen, and when a fetch ends.  The lemmas on modification and
    unpinning are the ones the database layer is verified with. *)

From Stdlib Require Import Strings.Byte.
From S2P Require Import Common.
From S2P Require Import Prelude.
From S2P Require Import VFS.
From S2P Require Import LRU.
From S2P Require Import Page.
From S2P Require Import Telemetry.
From S2P Require Import BufferPool.
From S2P Require Import PoolInv.

(** ** Modifying and unpinning a page *)

Section Clients.
Context {D P : Type} `{DS : BlockDeviceSpec D} `{PS : EvictionPolicySpec P} `{MR : MapRange}.
Implicit Types bp : BufferPool D P.

(** The set of pages being modified may shrink to those whose frame is dirty
    or unchanged, and grow to any pinned page. *)
Lemma inv_start X bp id i p :
  pool_inv X bp -> pageTable bp !! id = Some i -> frames bp !! i = Some p -> 0 < PinCount p ->
  pool_inv ({[id]} ∪ X) bp.
Proof.
  intros [Ht Hfn Hfr Hcov Hpo Htr Hpi Hcl Hbu Hsu] Hi Hp Hpin. split; try done.
  - intros id' j q Hj Hq Hd HX. eapply Hcl; set_solver.
  - intros id' [->%elem_of_singleton|HX]%elem_of_union; eauto.
Qed.

Lemma inv_stop X bp id i p :
  pool_inv X bp -> pageTable bp !! id = Some i -> frames bp !! i = Some p -> IsDirty p = true ->
  pool_inv (X ∖ {[id]}) bp.
Proof.
  intros [Ht Hfn Hfr Hcov Hpo Htr Hpi Hcl Hbu Hsu] Hi Hp Hd. split; try done.
  - intros id' j q Hj Hq Hdq HX. destruct (decide (id' = id)) as [->|Hne]; [congruence|].
    eapply Hcl; set_solver.
  - intros id' HX. apply Hbu. set_solver.
Qed.

(** Changing the bytes of a page under modification. *)
Lemma inv_modify X bp id i d :
  pool_inv X bp -> pageTable bp !! id = Some i -> id ∈ X ->
  let bp' := update_frame i (fun p => set_Data p d) bp in
  pool_inv X bp' /\ view bp' id = d /\ (forall id', id' <> id -> view bp' id' = view bp id').
Proof.
  intros Hinv Hi HX bp'. pose proof Hinv as [Ht Hfn Hfr Hcov Hpo Htr Hpi Hcl Hbu Hsu].
  destruct (Ht id i Hi) as (Hok & p & Hp & Hid).
  assert (forall id' j, pageTable bp !! id' = Some j -> id' <> id ->
    frames bp' !! j = frames bp !! j) as Hoth.
  { intros id' j Hj Hne. unfold bp'. rewrite lookup_update_frame, decide_False; [done|].
    intros <-. by apply Hne, (table_inj X bp _ _ i). }
  assert (frames bp' !! i = Some (set_Data p d)) as Hnew.
  { unfold bp'. by rewrite lookup_update_frame, decide_True, Hp. }
  assert (forall id' j q, pageTable bp !! id' = Some j -> frames bp' !! j = Some q ->
    exists q0, frames bp !! j = Some q0 /\ ID q = ID q0 /\ PinCount q = PinCount q0 /\
      IsDirty q = IsDirty q0) as Hback.
  { intros id' j q Hj Hq. destruct (decide (id' = id)) as [->|Hne].
    - assert (j = i) as -> by congruence. exists p. rewrite Hnew in Hq. by simplify_eq.
    - exists q. by rewrite <- (Hoth id' j). }
  split_and!.
  - split; change (pageTable bp') with (pageTable bp); try done.
    + intros id' j Hj. destruct (Ht id' j Hj) as (Hok' & q & Hq & Hqid). split; [done|].
      destruct (decide (id' = id)) as [->|Hne]; [|by rewrite (Hoth id' j); eauto].
      assert (j = i) as -> by congruence. eexists. split; [done|]. cbn. congruence.
    + intros j Hj. cbn. rewrite length_alter. by apply Hfr.
    + cbn. by rewrite length_alter.
    + intros j q. unfold bp'. rewrite lookup_update_frame. case_decide; [subst j|by apply Hpi].
      rewrite Hp. cbn. intros [= <-]. by apply (Hpi i p).
    + intros id' j q Hj Hq Hd HX'. assert (id' <> id) by by intros ->.
      rewrite (Hoth id' j) in Hq by done. by apply (Hcl id' j).
    + intros id' HX'. destruct (Hbu id' HX') as (j & q & Hj & Hq & Hqp).
      destruct (decide (id' = id)) as [->|Hne]; [|exists j, q; by rewrite (Hoth id' j)].
      simplify_eq. by exists i, (set_Data p d).
    + intros id' Hok' Hc. apply Hsu; [done|]. intros j q Hj Hq.
      destruct (decide (id' = id)) as [->|Hne]; [|by apply (Hc j q Hj); rewrite (Hoth id' j)].
      simplify_eq. exact (Hc i _ Hi Hnew).
  - by rewrite (view_cached bp' id i _ Hi Hnew).
  - intros id' Hne. unfold view. change (pageTable bp') with (pageTable bp).
    destruct (pageTable bp !! id') as [j|] eqn:Hj; [|done]. by rewrite (Hoth id' j).
Qed.

(** Giving a pin back.  The page stays pinned while a caller modifies it. *)
Lemma inv_unpin X bp id i p b :
  pool_inv X bp -> pageTable bp !! id = Some i -> frames bp !! i = Some p ->
  1 <= PinCount p -> (id ∈ X -> 2 <= PinCount p) ->
  pool_inv X (UnpinPage bp id b) /\ same_view bp (UnpinPage bp id b).
Proof.
  intros Hinv Hi Hp Hpin HX. unfold UnpinPage. rewrite Hi. apply inv_update_frame; [done| |].
  - intros q Hq. simplify_eq. destruct b; cbn; split; done || lia.
  - intros q Hq _. simplify_eq. destruct (inv_table _ _ Hinv id i Hi) as (_ & q & Hq' & <-). simplify_eq.
    split_and!; [by destruct b | by destruct b |]. intros HX'. specialize (HX HX').
    destruct b; cbn; lia.
Qed.

(** The last caller of a page it has modified gives it back dirty: the page
    is no longer being modified. *)
Lemma inv_finish X bp id i p :
  pool_inv X bp -> pageTable bp !! id = Some i -> frames bp !! i = Some p -> 1 <= PinCount p ->
  pool_inv (X ∖ {[id]}) (UnpinPage bp id true) /\ same_view bp (UnpinPage bp id true).
Proof.
  intros Hinv Hi Hp Hpin.
  destruct (inv_table _ _ Hinv id i Hi) as (_ & q & Hq & Hid). simplify_eq.
  destruct (inv_update_frame X bp i (set_dirty true)) as [Hinv1 Hv1]; [done| | |].
  { intros q Hq. simplify_eq. by split; [|apply (inv_pins _ _ Hinv _ _ Hp)]. }
  { intros q Hq _. simplify_eq. split_and!; [done..|]. intros HX.
    destruct (inv_busy _ _ Hinv _ HX) as (j & r & Hj & Hr & ?). by simplify_eq. }
  apply (inv_stop X _ (ID p) i (set_dirty true p)) in Hinv1; [|done| |done].
  2:{ by rewrite lookup_update_frame, decide_True, Hp. }
  destruct (inv_unpin _ _ (ID p) i (set_dirty true p) true Hinv1) as [Hinv2 Hv2];
    [done | by rewrite lookup_update_frame, decide_True, Hp | done | set_solver |].
  replace (UnpinPage bp (ID p) true) with
    (UnpinPage (update_frame i (set_dirty true) bp) (ID p) true).
  { split; [done|]. by transitivity (update_frame i (set_dirty true) bp). }
  unfold UnpinPage. cbn. rewrite Hi. unfold update_frame, set_frames. cbn. f_equal.
  by rewrite (alter_insert (set_dirty true) i _ p Hp), !(alter_insert _ i _ _ (list_lookup_insert_eq _ _ _ (lookup_lt_Some _ _ _ Hp))),
    list_insert_insert_eq, (alter_insert _ i _ p Hp).
Qed.

(** The client's pattern: a pinned page gets new bytes and is given back
    dirty.  Afterwards the page has these bytes and no other page changed. *)
Lemma modify_unpin X bp id i p d :
  pool_inv X bp -> pageTable bp !! id = Some i -> frames bp !! i = Some p ->
  1 <= PinCount p -> id ∉ X ->
  let bp' := UnpinPage (update_frame i (fun p => set_Data p d) bp) id true in
  pool_inv X bp' /\ page_eqv id (view bp' id) d /\
  (forall id', id' <> id -> page_eqv id' (view bp' id') (view bp id')).
Proof.
  intros Hinv Hi Hp Hpin HX bp'.
  pose proof (inv_start X bp id i p Hinv Hi Hp ltac:(lia)) as Hinv1.
  destruct (inv_modify _ bp id i d Hinv1 Hi ltac:(set_solver)) as (Hinv2 & Hv & Ho).
  destruct (inv_finish _ _ id i (set_Data p d) Hinv2) as [Hinv3 Hv3]; [done| |done|].
  { by rewrite lookup_update_frame, decide_True, Hp. }
  split_and!.
  - by replace X with (({[id]} ∪ X) ∖ {[id]}) by set_solver.
  - transitivity (view (update_frame i (fun p => set_Data p d) bp) id); [apply Hv3 | by rewrite Hv].
  - intros id' Hne. rewrite <- (Ho id' Hne). apply Hv3.
Qed.

(** ** Opening *)

Lemma inv_new dev n ev m :
  policy_ok ev -> tracked ev = ∅ -> (forall id, page_id_ok id -> checksum_ok id (disk_page dev id)) ->
  pool_inv ∅ (NewBufferPool dev n ev m).
Proof.
  intros Hpo Htr Hsum. split; cbn.
  - intros id i. by rewrite lookup_empty.
  - apply NoDup_seq.
  - intros i Hi%elem_of_seq. rewrite repeat_length. split; [lia|].
    intros id. by rewrite lookup_empty.
  - rewrite map_size_empty, length_seq, repeat_length. lia.
  - done.
  - by rewrite Htr, dom_empty_L.
  - intros i p Hp. apply list_elem_of_lookup_2, list_elem_of_In, repeat_spec in Hp as ->. done.
  - intros id i p. by rewrite lookup_empty.
  - set_solver.
  - auto.
Qed.

(** After a flush that reports success, a new pool over the device shows the
    same pages. *)
Lemma flush_reopen bp bp' n ev m :
  pool_inv ∅ bp -> FlushAll bp = (Ok tt, bp') -> policy_ok ev -> tracked ev = ∅ ->
  pool_inv ∅ (NewBufferPool (disk bp') n ev m) /\
  forall id, page_eqv id (view (NewBufferPool (disk bp') n ev m) id) (view bp id).
Proof.
  intros Hinv Hf Hpo Htr.
  destruct (FlushAll_spec ∅ bp _ bp' Hinv Hf) as (_ & Hinv' & _ & _ & _ & Hdisk & Hclean).
  split; [|intros id; unfold view at 1; cbn; rewrite lookup_empty; by apply Hdisk].
  apply inv_new; [done..|]. intros id Hok. apply (inv_sum _ _ Hinv'); [done|]. eauto.
Qed.

(** ** A fetch of a page that is not cached *)

Lemma FetchPage_miss X bp id i bp1 :
  pool_inv X bp -> page_id_ok id -> pageTable bp !! id = None ->
  getAvailableFrame (set_metrics (IncrBufferPoolMiss <$> metrics bp) bp) = (Ok i, bp1) ->
  (forall data e, ReadPage (disk bp1) id zero_mem = Ok (data, Some e) -> errors_Is e EOF = true) ->
  exists bp', FetchPage bp id = (Ok i, bp').
Proof.
  intros Hinv Hok Hnone Hg Hread. unfold FetchPage. rewrite Hnone, Hg.
  apply (getAvailableFrame_spec X) in Hg; [|by apply inv_set_metrics].
  destruct Hg as (Hinv1 & _ & Hsub).
  assert (pageTable bp1 !! id = None) as Hnone1 by by eapply lookup_weaken_None.
  change (disk (update_frame i (reset_page id) bp1)) with (disk bp1).
  destruct (ReadPage_spec (disk bp1) id Hok) as (data & e & Er & Hdata). rewrite Er.
  assert (match e with None => True | Some e => errors_Is e EOF = true end) as He
    by (destruct e; [by eapply Hread | done]).
  destruct (match e with Some e => _ | None => None end) eqn:Ere.
  { destruct e; [rewrite He in Ere|]; done. }
  assert (checksum_ok id data) as Hsum.
  { eapply checksum_ok_ext; [by apply Hdata|].
    apply (inv_sum _ _ Hinv1); [done|]. cbn. congruence. }
  apply checksum_ok_check in Hsum. rewrite Hsum. eauto.
Qed.

(** ** The victim loop *)

Definition pinned bp (id : PageID) : Prop :=
  exists i p, pageTable bp !! id = Some i /\ frames bp !! i = Some p /\ 0 < PinCount p.

(** When every cached page is pinned (and there is one) the loop goes round
    forever: no number of rounds ends it. *)
Lemma evict_loop_hangs X fuel bp :
  pool_inv X bp -> pageTable bp <> ∅ ->
  (forall id i, pageTable bp !! id = Some i -> pinned bp id) ->
  (evict_loop fuel bp).1 = Hang.
Proof.
  revert bp. induction fuel as [|fuel IH]; intros bp Hinv Hne Hall; [done|]. cbn [evict_loop].
  destruct (Evict (evictor bp)) as [[v|] ev] eqn:Hev.
  2:{ apply Evict_None in Hev as [Htr _]; [|apply Hinv]. rewrite (inv_tracked _ _ Hinv) in Htr.
      by apply dom_empty_iff_L in Htr. }
  pose proof (Evict_ok _ _ _ (inv_policy _ _ Hinv) Hev) as Hevok.
  apply Evict_Some in Hev as [Hv Hvt]; [|apply Hinv].
  rewrite (inv_tracked _ _ Hinv) in Hv, Hvt. apply elem_of_dom in Hv as [i Hi].
  cbn. rewrite Hi. destruct (Hall v i Hi) as (j & p & Hj & Hp & Hpin). simplify_eq.
  rewrite Hp. destruct (0 <? PinCount p) eqn:E; bprop; [|lia].
  apply IH; cbn; [|done|done].
  apply (inv_set_evictor X bp); [done | by apply RecordAccess_ok |].
  rewrite RecordAccess_tracked, Hvt by done. apply elem_of_dom_2 in Hi.
  by rewrite <- union_difference_singleton_L.
Qed.
End Clients.

(** ** Progress with the LRU policy *)

(** A device without I/O errors: every write is complete, the only read error is
    the end of the file, and the size can be read. *)
Class ReliableDevice (D : Type) `{BlockDevice D} := {
  write_reliable : forall (d : D) p len off, 0 <= off ->
    exists n d', WriteAt d p len off = (Ok (n, None), d');
  read_reliable : forall (d : D) len off p n e, 0 <= off ->
    ReadAt d len off = Ok (p, n, Some e) -> errors_Is e EOF = true;
  stat_reliable : forall d : D, exists z, StatSize d = Ok z
}.

#[export] Instance MemDevice_Reliable : ReliableDevice MemDevice.
Proof.
  split.
  - intros d p len off Ho. cbn. unfold MemDevice.WriteAt. repeat case_match; bprop; try lia; eauto.
  - intros d len off p n e Ho. cbn. unfold MemDevice.ReadAt. intros. repeat case_match; by simplify_eq.
  - intros d. by eexists.
Qed.

Section Progress.
Context {D : Type} `{DS : BlockDeviceSpec D} `{RD : !ReliableDevice D} `{MR : MapRange}.
Implicit Types bp : BufferPool D LRUEvictionPolicy.

Lemma WritePage_reliable (dev : D) id data :
  page_id_ok id -> exists dev', WritePage dev id data = (Ok None, dev').
Proof.
  intros Hok. unfold WritePage. rewrite page_offset_ok by done.
  destruct (write_reliable dev data PageSize (id * PageSize)) as (n & dev' & E);
    [unfold page_id_ok, PageSize in *; lia|]. rewrite E. by exists dev'.
Qed.

Lemma ReadPage_reliable (dev : D) id data e :
  page_id_ok id -> ReadPage dev id zero_mem = Ok (data, Some e) -> errors_Is e EOF = true.
Proof.
  intros Hok. unfold ReadPage. rewrite page_offset_ok by done.
  assert (0 <= id * PageSize) as Hoff by (unfold page_id_ok, PageSize in *; lia).
  destruct (ReadAt_returns dev PageSize _ Hoff) as (p & n & e' & E). rewrite E. cbn.
  intros [= _ ->]. by eapply read_reliable.
Qed.

(** A cached page nobody holds. *)
Definition unpinned bp (id : PageID) : Prop :=
  exists i p, pageTable bp !! id = Some i /\ frames bp !! i = Some p /\ PinCount p <= 0.

(** Putting the least recently used page back makes it the most recent. *)
Lemma order_rotate (ev ev' : LRUEvictionPolicy) l v :
  lru_inv ev -> order ev = l ++ [v] -> LRU.Evict ev = (Some v, ev') ->
  order (LRU.RecordAccess ev' v) = v :: l.
Proof.
  intros Hev Ho E. pose proof (lru_inv_Evict _ _ _ Hev E) as Hev'.
  rewrite order_RecordAccess by done. apply order_Evict in E; [|done].
  pose proof (lru_pages_nodup _ Hev) as Hnd. rewrite Ho in E, Hnd.
  unfold RecencySpec.evict in E. rewrite last_snoc in E. injection E as <-.
  unfold RecencySpec.access. f_equal. apply NoDup_app in Hnd as (_ & Hnd & _).
  assert (filter (fun x => x <> v) (l ++ [v]) = l) as ->.
  { rewrite filter_app, filter_cons_False, app_nil_r by tauto.
    apply filter_id. intros x Hx ->. apply (Hnd v Hx). by left. }
  apply filter_id. intros x Hx ->. apply (Hnd v Hx). by left.
Qed.

Lemma evict_order (ev : LRUEvictionPolicy) l v :
  lru_inv ev -> order ev = l ++ [v] -> exists ev', LRU.Evict ev = (Some v, ev') /\ lru_inv ev'.
Proof.
  intros Hev Ho. destruct (LRU.Evict ev) as [o ev'] eqn:E.
  pose proof (lru_inv_Evict _ _ _ Hev E) as Hev'. apply order_Evict in E; [|done].
  rewrite Ho in E. unfold RecencySpec.evict in E. rewrite last_snoc in E. simplify_eq. eauto.
Qed.

(** The loop ends after one round more than the pinned pages behind an
    unpinned one in the recency order. *)
Lemma evict_loop_progress X l2 l1 u fuel bp :
  pool_inv X bp -> order (evictor bp) = l1 ++ u :: l2 -> unpinned bp u ->
  (length l2 < fuel)%nat -> exists i bp', evict_loop fuel bp = (Ok i, bp').
Proof.
  revert l1 fuel bp. induction l2 as [|v l2 IH] using rev_ind; intros l1 fuel bp Hinv Ho Hu Hf;
    (destruct fuel as [|fuel]; [cbn in Hf; lia|]); cbn [evict_loop];
    pose proof Hinv as [Ht Hfn Hfr Hcov Hpo Htr Hpi Hcl Hbu Hsu].
  - destruct (evict_order _ _ _ Hpo Ho) as (ev & Hev & Hevok).
    change (Evict (evictor bp)) with (LRU.Evict (evictor bp)). rewrite Hev. cbn.
    destruct Hu as (i & p & Hi & Hp & Hpin). rewrite Hi, Hp.
    destruct (0 <? PinCount p) eqn:E; bprop; [lia|].
    destruct (Ht _ _ Hi) as (Hok & q & Hq & Hid). simplify_eq.
    destruct (IsDirty p); [|by eauto]. rewrite stamp_ID.
    destruct (WritePage_reliable (disk bp) (ID p) (Data (stamp p)) Hok) as [dev ->]. eauto.
  - rewrite app_comm_cons, app_assoc in Ho.
    destruct (evict_order _ _ _ Hpo Ho) as (ev & Hev & Hevok).
    change (Evict (evictor bp)) with (LRU.Evict (evictor bp)). rewrite Hev. cbn.
    assert (v ∈ dom (pageTable bp)) as [i Hi]%elem_of_dom.
    { rewrite <- Htr. cbn. rewrite Ho, elem_of_list_to_set. set_solver. }
    destruct (Ht _ _ Hi) as (Hok & p & Hp & Hid). rewrite Hi, Hp.
    destruct (0 <? PinCount p) eqn:E; bprop.
    + apply (IH (v :: l1)); [|cbn; by rewrite (order_rotate _ _ _ _ Hpo Ho Hev)|done|].
      * apply (inv_set_evictor X bp); [done | by apply lru_inv_RecordAccess|].
        cbn. rewrite (order_rotate _ _ _ _ Hpo Ho Hev), <- Htr. cbn. rewrite Ho.
        rewrite !list_to_set_app_L. cbn. set_solver.
      * rewrite length_app in Hf. cbn in Hf. lia.
    + destruct (IsDirty p); [|by eauto]. rewrite stamp_ID, Hid.
      destruct (WritePage_reliable (disk bp) v (Data (stamp p)) Hok) as [dev ->]. eauto.
Qed.

Lemma length_order X bp : pool_inv X bp -> (length (order (evictor bp)) <= length (frames bp))%nat.
Proof.
  intros [Ht Hfn Hfr Hcov Hpo Htr Hpi Hcl Hbu Hsu].
  rewrite <- (size_list_to_set (C := gset PageID)) by apply Hpo.
  change (list_to_set (order (evictor bp))) with (tracked (evictor bp)).
  rewrite Htr, size_dom. lia.
Qed.

Lemma getAvailableFrame_progress X bp :
  pool_inv X bp -> freeList bp <> [] \/ (exists u, unpinned bp u) ->
  exists i bp', getAvailableFrame bp = (Ok i, bp').
Proof.
  assert (forall bp0, pool_inv X bp0 -> freeList bp0 <> [] \/ (exists u, unpinned bp0 u) ->
    exists i bp', (match freeList bp0 with
      | idx :: rest => (Ok idx, set_freeList rest bp0)
      | [] => evict_loop (S (length (frames bp0))) bp0 end) = (Ok i, bp')) as Hgo.
  { intros bp0 Hinv0 Hav. destruct (freeList bp0) as [|i l]; [|by eauto].
    destruct Hav as [?|[u Hu]]; [done|]. pose proof Hu as (i & p & Hi & _).
    assert (u ∈ order (evictor bp0)) as Hin.
    { rewrite <- (elem_of_list_to_set (C := gset PageID)).
      change (list_to_set (order (evictor bp0))) with (tracked (evictor bp0)).
      rewrite (inv_tracked _ _ Hinv0). by apply elem_of_dom_2 in Hi. }
    apply list_elem_of_split in Hin as (l1 & l2 & Ho).
    eapply evict_loop_progress; [done..|]. pose proof (length_order X bp0 Hinv0) as Hlen.
    rewrite Ho, length_app in Hlen. cbn in Hlen. lia. }
  intros Hinv Hav. unfold getAvailableFrame. set (c := (_ <? _) && _). destruct c; [|by apply Hgo].
  destruct (FlushAll bp) as [rf bp1] eqn:Hf.
  destruct (FlushAll_spec X bp rf bp1 Hinv Hf) as (-> & Hinv1 & _ & [Hst Hsf _ _] & Hp & _).
  apply Hgo; [done|]. destruct Hav as [?|(u & i & p & Hi & Hpi & Hpin)]; [left; congruence|right].
  destruct (Hp i p Hpi) as (q & Hq & _ & Hqp). exists u, i, q. rewrite Hst, Hqp. done.
Qed.

(** A fetch succeeds whenever the page is cached, a frame is free or some
    cached page is unpinned. *)
Lemma FetchPage_progress X bp id :
  pool_inv X bp -> page_id_ok id ->
  is_Some (pageTable bp !! id) \/ freeList bp <> [] \/ (exists u, unpinned bp u) ->
  exists i bp', FetchPage bp id = (Ok i, bp').
Proof.
  intros Hinv Hok Hav. destruct (pageTable bp !! id) as [i|] eqn:Hi.
  { unfold FetchPage. rewrite Hi. eauto. }
  destruct Hav as [[? ?]|Hav]; [done|].
  destruct (getAvailableFrame_progress X (set_metrics (IncrBufferPoolMiss <$> metrics bp) bp))
    as (i & bp1 & Hg); [by apply inv_set_metrics | done |].
  destruct (FetchPage_miss X bp id i bp1) as [bp' E]; try done; [|by eauto].
  intros data e. by apply ReadPage_reliable.
Qed.
End Progress.

(** ** Pins *)

Section Pins.
Context {D P : Type} `{DS : BlockDeviceSpec D} `{PS : EvictionPolicySpec P} `{MR : MapRange}.
Implicit Types bp : BufferPool D P.

(** Pages that are still cached are in the same frame with the same pins. *)
Definition pins_kept bp bp' : Prop :=
  forall id i p', pageTable bp' !! id = Some i -> frames bp' !! i = Some p' ->
    exists p, pageTable bp !! id = Some i /\ frames bp !! i = Some p /\ PinCount p' = PinCount p.

#[export] Instance pins_kept_preorder : PreOrder pins_kept.
Proof.
  split.
  - intros bp id i p Hi Hp. eauto.
  - intros a b c H1 H2 id i p Hi Hp. destruct (H2 id i p Hi Hp) as (q & Hqi & Hq & ->).
    destruct (H1 id i q Hqi Hq) as (q' & ? & ? & ->). eauto.
Qed.

Lemma pins_same bp bp' :
  pageTable bp' ⊆ pageTable bp -> frames bp' = frames bp -> pins_kept bp bp'.
Proof.
  intros Ht Hf id i p Hi Hp. exists p. rewrite <- Hf. split_and!; try done. by eapply lookup_weaken.
Qed.

Lemma pins_kept_shrink bp i p q id dev ev :
  frames bp !! i = Some p -> PinCount q = PinCount p ->
  pins_kept bp (set_pageTable (delete id (pageTable bp))
    (set_disk dev (update_frame i (fun _ => q) (set_evictor ev bp)))) /\
  pins_kept bp (set_disk dev (update_frame i (fun _ => q) (set_evictor ev bp))).
Proof.
  intros Hp Hq.
  assert (pins_kept bp (set_disk dev (update_frame i (fun _ => q) (set_evictor ev bp)))) as Hk.
  { intros id' j p' Hj. cbn. destruct (decide (i = j)) as [->|].
    - rewrite list_lookup_alter_eq, Hp. cbn. intros [= <-]. eauto.
    - rewrite list_lookup_alter_ne by done. eauto. }
  split; [|done]. intros id' j p' Hj Hp'. cbn in Hj. apply lookup_delete_Some in Hj as [_ Hj].
  by apply (Hk id' j p').
Qed.

Lemma evict_loop_pins fuel bp r bp' : evict_loop fuel bp = (r, bp') -> pins_kept bp bp'.
Proof.
  revert bp. induction fuel as [|fuel IH]; intros bp; cbn [evict_loop]; [by intros [= _ <-]|].
  destruct (Evict (evictor bp)) as [[v|] ev]; [|by intros [= _ <-]; apply pins_same]. cbn.
  destruct (pageTable bp !! v) as [i|] eqn:Hi.
  2:{ intros E%IH. etransitivity; [|exact E]. by apply pins_same. }
  destruct (frames bp !! i) as [p|] eqn:Hp; [|by intros [= _ <-]; apply pins_same].
  destruct (0 <? PinCount p).
  { intros E%IH. etransitivity; [|exact E]. by apply pins_same. }
  destruct (IsDirty p).
  - destruct (WritePage (disk bp) (ID (stamp p)) (Data (stamp p))) as [rw dev].
    destruct (pins_kept_shrink bp i p (stamp p) v dev ev Hp (stamp_PinCount p)) as [Hk1 Hk2].
    destruct rw as [[e|]|e| |]; intros [= _ <-]; first [exact Hk1 | exact Hk2].
  - intros [= _ <-]. apply pins_same; [apply delete_subseteq | done].
Qed.

Lemma getAvailableFrame_pins X bp r bp' :
  pool_inv X bp -> getAvailableFrame bp = (r, bp') -> pins_kept bp bp'.
Proof.
  intros Hinv. unfold getAvailableFrame.
  assert (forall bp0, (match freeList bp0 with
      | idx :: rest => (Ok idx, set_freeList rest bp0)
      | [] => evict_loop (S (length (frames bp0))) bp0 end) = (r, bp') -> pins_kept bp0 bp') as Hgo.
  { intros bp0. destruct (freeList bp0) as [|j l]; [by apply evict_loop_pins|].
    intros [= _ <-]. by apply pins_same. }
  set (c := (_ <? _) && _). destruct c; [|by apply Hgo].
  destruct (FlushAll bp) as [rf bp1] eqn:Hf.
  destruct (FlushAll_spec X bp rf bp1 Hinv Hf) as (-> & Hinv1 & _ & [Hst _ _ Hlen] & Hp & _).
  intros E%Hgo. etransitivity; [|exact E]. intros id i q Hi Hq. rewrite Hst in Hi.
  destruct (inv_table _ _ Hinv id i Hi) as (_ & p & Hpi & _).
  destruct (Hp i p Hpi) as (q' & Hq' & _ & Hqp). simplify_eq. eauto.
Qed.

(** No cached page is pinned: the state between operations. *)
Definition idle bp : Prop :=
  forall id i p, pageTable bp !! id = Some i -> frames bp !! i = Some p -> PinCount p = 0.

(** Only [id] is pinned, once. *)
Definition holding bp (id : PageID) : Prop :=
  forall id' i p, pageTable bp !! id' = Some i -> frames bp !! i = Some p ->
    PinCount p = if decide (id' = id) then 1 else 0.

Lemma idle_kept bp bp' : idle bp -> pins_kept bp bp' -> idle bp'.
Proof. intros Hi Hk id i p Ht Hp. destruct (Hk id i p Ht Hp) as (q & ? & ? & ->). eauto. Qed.

Lemma FetchPage_idle X bp id r bp' :
  pool_inv X bp -> idle bp -> page_id_ok id -> FetchPage bp id = (r, bp') ->
  match r with Ok _ => holding bp' id | Err _ => idle bp' | _ => True end.
Proof.
  intros Hinv Hidle Hok. unfold FetchPage. destruct (pageTable bp !! id) as [i|] eqn:Hi.
  { intros [= <- <-] id' j p Hj. cbn in *. destruct (decide (i = j)) as [->|Hne].
    - rewrite list_lookup_alter_eq. destruct (frames bp !! j) as [q|] eqn:Hq; [|done].
      cbn. intros [= <-]. cbn. rewrite (Hidle _ _ _ Hj Hq), decide_True; [done|].
      by apply (table_inj X bp _ _ j).
    - rewrite list_lookup_alter_ne by done. intros Hp.
      rewrite decide_False; [by eapply Hidle|]. intros ->. congruence. }
  set (bp0 := set_metrics _ bp).
  destruct (getAvailableFrame bp0) as [rg bp1] eqn:Hg.
  assert (pool_inv X bp0) as Hinv0 by by apply inv_set_metrics.
  pose proof (getAvailableFrame_pins X _ _ _ Hinv0 Hg) as Hk.
  apply (getAvailableFrame_spec X) in Hg; [|done].
  assert (idle bp1) as Hidle1 by by eapply idle_kept.
  destruct rg as [i|e| |]; [|by intros [= <- <-] | done | by intros [= <- <-]].
  destruct Hg as (Hinv1 & Hview1 & Hsub).
  change (disk (update_frame i (reset_page id) bp1)) with (disk bp1).
  destruct (ReadPage_spec (disk bp1) id Hok) as (data & e & -> & _).
  set (bp2 := update_frame i (fun p => set_Data p data) (update_frame i (reset_page id) bp1)).
  assert (forall id' j, pageTable bp1 !! id' = Some j -> j <> i) as Hne.
  { intros id' j Hj ->. destruct (inv_free _ _ Hinv1 i ltac:(left)) as [_ Hno]. by apply (Hno id'). }
  assert (forall id' j, pageTable bp1 !! id' = Some j -> frames bp2 !! j = frames bp1 !! j) as Hfr.
  { intros id' j Hj. cbn. specialize (Hne id' j Hj). by rewrite !list_lookup_alter_ne by done. }
  assert (idle bp2) as Hidle2.
  { intros id' j p Hj. cbn in Hj. rewrite (Hfr id' j Hj). by eapply Hidle1. }
  destruct (match e with Some _ => _ | None => _ end); [by intros [= <- <-]|].
  destruct (if isAllZero data then _ else _); [by intros [= <- <-]|].
  intros [= <- <-] id' j p. cbn [pageTable set_evictor set_pageTable].
  intros [[<- <-]|[Hne' Hj]]%lookup_insert_Some; cbn [frames set_evictor set_pageTable].
  - rewrite decide_True by done. unfold bp2. rewrite !lookup_update_frame, !decide_True by done.
    destruct (frames bp1 !! i); [|done]. cbn. by intros [= <-].
  - rewrite decide_False by done. by apply Hidle2 with id'.
Qed.

(** The number of frames is fixed. *)
Lemma evict_loop_length fuel bp r bp' :
  evict_loop fuel bp = (r, bp') -> length (frames bp') = length (frames bp).
Proof.
  revert bp. induction fuel as [|fuel IH]; intros bp; cbn [evict_loop]; [by intros [= _ <-]|].
  destruct (Evict (evictor bp)) as [[v|] ev]; [|by intros [= _ <-]]. cbn.
  destruct (pageTable bp !! v) as [i|]; [|by intros E%IH].
  destruct (frames bp !! i) as [p|]; [|by intros [= _ <-]].
  destruct (0 <? PinCount p); [by intros E%IH|].
  destruct (IsDirty p); [|by intros [= _ <-]].
  destruct (WritePage _ _ _) as [[[e|]|e| |] dev]; intros [= _ <-]; cbn; by rewrite length_alter.
Qed.

Lemma FetchPage_length X bp id r bp' :
  pool_inv X bp -> FetchPage bp id = (r, bp') -> length (frames bp') = length (frames bp).
Proof.
  intros Hinv. unfold FetchPage.
  destruct (pageTable bp !! id); [intros [= _ <-]; cbn; by rewrite length_alter|].
  set (bp0 := set_metrics _ bp). destruct (getAvailableFrame bp0) as [rg bp1] eqn:Hg.
  assert (length (frames bp1) = length (frames bp)) as Hlen.
  { unfold getAvailableFrame in Hg. revert Hg. set (c := (_ <? _) && _).
    assert (forall b0 : BufferPool D P, (match freeList b0 with
      | idx :: rest => (Ok idx, set_freeList rest b0)
      | [] => evict_loop (S (length (frames b0))) b0 end) = (rg, bp1) ->
      length (frames bp1) = length (frames b0)) as Hgo.
    { intros b0. destruct (freeList b0); [apply evict_loop_length | by intros [= _ <-]]. }
    destruct c; [|by intros ->%Hgo].
    destruct (FlushAll bp0) as [rf bp2] eqn:Hf.
    destruct (FlushAll_spec X bp0 rf bp2) as (-> & _ & _ & Hsh & _); [by apply inv_set_metrics | done|].
    intros ->%Hgo. by rewrite (shape_frames _ _ Hsh). }
  destruct rg as [i|e| |]; try (by intros [= _ <-]).
  destruct (ReadPage _ _ _) as [[data e]|e| |];
    [| by intros [= _ <-]; cbn; rewrite length_alter ..].
  destruct (match e with Some _ => _ | None => _ end);
    [by intros [= _ <-]; cbn; rewrite !length_alter|].
  destruct (if isAllZero data then _ else _); intros [= _ <-]; cbn; by rewrite !length_alter.
Qed.

(** Giving the only pin back. *)
Lemma unpin_idle X bp id b :
  pool_inv X bp -> holding bp id -> is_Some (pageTable bp !! id) -> idle (UnpinPage bp id b).
Proof.
  intros Hinv Hh [i Hi]. unfold UnpinPage. rewrite Hi. intros id' j p Hj. cbn in *.
  destruct (decide (i = j)) as [->|Hne].
  - rewrite list_lookup_alter_eq. destruct (frames bp !! j) as [q|] eqn:Hq; [|done].
    assert (id' = id) as -> by by apply (table_inj X bp _ _ j).
    pose proof (Hh id j q Hj Hq) as Hp. rewrite decide_True in Hp by done.
    cbn. intros [= <-]. destruct b; cbn; lia.
  - rewrite list_lookup_alter_ne by done. intros Hp. rewrite (Hh id' j p Hj Hp).
    rewrite decide_False; [done|]. intros ->. congruence.
Qed.

Lemma holding_update bp id i f :
  (forall p, PinCount (f p) = PinCount p) -> holding bp id -> holding (update_frame i f bp) id.
Proof.
  intros Hf Hh id' j p Hj. rewrite lookup_update_frame. case_decide; [|by apply Hh].
  destruct (frames bp !! j) as [q|] eqn:Hq; [|done]. cbn. intros [= <-]. rewrite Hf. by apply (Hh id' j).
Qed.
End Pins.

(** Between operations a pool with at least one frame can serve any fetch. *)
Lemma idle_available {D P} `{DS : BlockDeviceSpec D} `{PS : EvictionPolicySpec P} X (bp : BufferPool D P) :
  pool_inv X bp -> idle bp -> (0 < length (frames bp))%nat ->
  freeList bp <> [] \/
  exists u i p, pageTable bp !! u = Some i /\ frames bp !! i = Some p /\ PinCount p <= 0.
Proof.
  intros [Ht Hfn Hfr Hcov Hpo Htr Hpi Hcl Hbu Hsu] Hidle Hlen.
  destruct (freeList bp) as [|i l] eqn:Hf; [right|by left].
  cbn in Hcov. assert (pageTable bp <> ∅) as Hne.
  { intros E. rewrite E, map_size_empty in Hcov. lia. }
  apply map_choose in Hne as (u & i & Hu). destruct (Ht u i Hu) as (_ & p & Hp & _).
  exists u, i, p. rewrite (Hidle u i p Hu Hp). done.
Qed.

(** ** An empty in-memory device *)

Lemma empty_disk_page id i : disk_page NewMemDevice id i = zero_mem i.
Proof. unfold disk_page. cbn. unfold md_at, md_len. cbn. case_match; [bprop; lia | done]. Qed.

Lemma empty_disk_sum id : checksum_ok id (disk_page NewMemDevice id).
Proof.
  apply sum_unset. unfold GetChecksum. rewrite (Uint32_ext _ zero_mem); [reflexivity|].
  intros i _. apply empty_disk_page.
Qed.

Definition demo_pool : BufferPool MemDevice LRUEvictionPolicy :=
  NewBufferPool NewMemDevice 2 NewLRUEvictionPolicy None.

Lemma demo_pool_inv : pool_inv ∅ demo_pool.
Proof. apply inv_new; [apply lru_inv_new | done | intros id _; apply empty_disk_sum]. Qed.
