(* ===== verification/PoolProps.v ===== *)
(** Properties of the storage layer: the in-memory device, the LRU policy, and
    the buffer pool over any device and policy. *)

From Stdlib Require Import Strings.Byte.
From S2P Require Import Common.
From S2P Require Import Prelude.
From S2P Require Import VFS.
From S2P Require Import LRU.
From S2P Require Import Page.
From S2P Require Import Telemetry.
From S2P Require Import BufferPool.
From S2P Require Import PoolInv.
From S2P Require Import PoolOps.

(** ** The buffer pool over any device and any policy *)

Section AnyPool.
Context {D P : Type} `{DS : BlockDeviceSpec D} `{PS : EvictionPolicySpec P} `{MR : MapRange}.
Implicit Types bp : BufferPool D P.

(** C4: The pool is transparent.  Whatever [FetchPage] does - hit, load,
    eviction with write-back, emergency flush, I/O error - it keeps the pool
    well formed and the contents of every page (frame if cached, device
    otherwise, up to the checksum field); when it returns a frame, the frame is
    pinned, entered under the page and holds its contents.  It never panics. *)
Theorem FetchPage_transparent X bp id r bp' :
  pool_inv X bp -> page_id_ok id -> FetchPage bp id = (r, bp') ->
  match r with
  | Ok i => pool_inv X bp' /\ same_view bp bp' /\ pageTable bp' !! id = Some i /\
      exists p, frames bp' !! i = Some p /\ 0 < PinCount p /\ page_eqv id (Data p) (view bp id)
  | Err _ => pool_inv X bp' /\ same_view bp bp'
  | Panic => False
  | Hang => True
  end.
Proof. intros Hinv Hok Hf. exact (FetchPage_spec X bp id r bp' Hinv Hok Hf). Qed.

(** Changing a pinned page and unpinning it dirty changes that page to the
    new bytes and no other page, and keeps the pool well formed, so the change
    will be written back before the frame is reused. *)
Theorem UnpinPage_dirty_update X bp id i p d :
  pool_inv X bp -> pageTable bp !! id = Some i -> frames bp !! i = Some p ->
  1 <= PinCount p -> id ∉ X ->
  let bp' := UnpinPage (update_frame i (fun p => set_Data p d) bp) id true in
  pool_inv X bp' /\ page_eqv id (view bp' id) d /\
  (forall id', id' <> id -> page_eqv id' (view bp' id') (view bp id')).
Proof. by apply modify_unpin. Qed.

(** C5: [FlushAll] keeps every page, pin and table entry; when it reports
    success no cached page is dirty any more and a pool opened on the device
    afterwards shows the same contents for every page. *)
Theorem FlushAll_durable bp r bp' :
  pool_inv ∅ bp -> FlushAll bp = (r, bp') ->
  returns r = true /\ pool_inv ∅ bp' /\ same_view bp bp' /\ pageTable bp' = pageTable bp /\
  (forall j p, frames bp !! j = Some p ->
     exists q, frames bp' !! j = Some q /\ ID q = ID p /\ PinCount q = PinCount p) /\
  (r = Ok tt ->
    (forall id j p, pageTable bp' !! id = Some j -> frames bp' !! j = Some p -> IsDirty p = false) /\
    forall n ev m, policy_ok ev -> tracked ev = ∅ ->
      pool_inv ∅ (NewBufferPool (disk bp') n ev m) /\
      forall id, page_eqv id (view (NewBufferPool (disk bp') n ev m) id) (view bp id)).
Proof.
  intros Hinv Hf.
  destruct (FlushAll_spec ∅ bp r bp' Hinv Hf) as (H1 & H2 & H3 & Hsh & H5 & _ & H7).
  split_and!; try done; [apply Hsh|]. intros ->. split; [by apply H7|].
  intros n ev m Hpo Htr. by apply (flush_reopen bp bp').
Qed.

(** When every cached page is pinned and no frame is free, the victim loop
    never ends, whatever the policy: pinned victims are put back and tried again,
    so the "all tracking frames are pinned" error is unreachable and a fetch of
    an uncached page hangs while it holds the pool lock. *)
Theorem evict_all_pinned_never_returns X bp id :
  pool_inv X bp -> pageTable bp <> ∅ -> freeList bp = [] ->
  (forall id i, pageTable bp !! id = Some i -> pinned bp id) ->
  pageTable bp !! id = None -> dirty_frames bp = [] ->
  (forall fuel, (evict_loop fuel bp).1 = Hang) /\ (FetchPage bp id).1 = Hang.
Proof.
  intros Hinv Hne Hfree Hall Hid Hclean.
  split; [intros fuel; by eapply evict_loop_hangs|].
  unfold FetchPage. rewrite Hid. set (bp0 := set_metrics _ bp).
  assert (pool_inv X bp0) as Hinv0 by by apply inv_set_metrics.
  unfold getAvailableFrame, dirty_count. change (dirty_frames bp0) with (dirty_frames bp).
  rewrite Hclean. change (zlen (@nil nat)) with 0.
  assert (zlen (frames bp0) <> 0) as Hn.
  { change (frames bp0) with (frames bp). intros E. apply map_choose in Hne as (u & i & Hu).
    destruct (inv_table _ _ Hinv u i Hu) as (_ & p & Hp & _). apply lookup_lt_Some in Hp.
    unfold zlen in E. lia. }
  replace ((0 <? zlen (frames bp0)) && (4 * zlen (frames bp0) <=? 5 * 0)) with false.
  - cbv beta iota zeta. change (freeList bp0) with (freeList bp). rewrite Hfree.
    pose proof (evict_loop_hangs X (S (length (frames bp0))) bp0 Hinv0 Hne Hall) as Hh.
    destruct (evict_loop _ bp0) as [r bp1]. cbn in Hh. by subst.
  - symmetry. apply andb_false_iff. right. apply Z.leb_gt. pose proof (zlen_nonneg (frames bp0)). lia.
Qed.
End AnyPool.

(** ** Progress with the LRU policy *)

(** C29: With the LRU policy on a device without I/O errors, a fetch succeeds
    whenever the page is cached, a frame is free, or some cached page is
    unpinned: the victim loop reaches an unpinned page within one round per
    frame, and no checksum error is reported for a page the pool wrote. *)
Theorem FetchPage_succeeds {D} `{DS : BlockDeviceSpec D} `{RD : !ReliableDevice D} `{MR : MapRange}
    X (bp : BufferPool D LRUEvictionPolicy) id :
  pool_inv X bp -> page_id_ok id ->
  is_Some (pageTable bp !! id) \/ freeList bp <> [] \/ (exists u, unpinned bp u) ->
  exists i bp', FetchPage bp id = (Ok i, bp').
Proof. by apply FetchPage_progress. Qed.

(** ** Witnesses *)

#[local] Existing Instance canonical_range.

Lemma FetchPage_transparent_witness :
  exists i bp', FetchPage demo_pool 7 = (Ok i, bp') /\ pool_inv ∅ bp' /\ same_view demo_pool bp'.
Proof.
  destruct (FetchPage_progress ∅ demo_pool 7 demo_pool_inv ltac:(unfold page_id_ok; lia)
    ltac:(right; left; discriminate)) as (i & bp' & E).
  pose proof (FetchPage_transparent ∅ demo_pool 7 (Ok i) bp' demo_pool_inv ltac:(unfold page_id_ok; lia) E)
    as (H1 & H2 & _).
  exists i, bp'. split; [exact E | split; [exact H1 | exact H2]].
Defined.

Lemma FetchPage_succeeds_witness : exists i bp', FetchPage demo_pool 7 = (Ok i, bp').
Proof.
  apply (FetchPage_succeeds ∅ demo_pool 7 demo_pool_inv); [unfold page_id_ok; lia|].
  right. left. discriminate.
Defined.

(** A pool in which page 7 has been fetched. *)
Lemma demo_fetched : exists i bp p, FetchPage demo_pool 7 = (Ok i, bp) /\ pool_inv ∅ bp /\
  pageTable bp !! 7 = Some i /\ frames bp !! i = Some p /\ 1 <= PinCount p.
Proof.
  destruct (FetchPage_progress ∅ demo_pool 7 demo_pool_inv ltac:(unfold page_id_ok; lia)
    ltac:(right; left; discriminate)) as (i & bp' & E).
  pose proof (FetchPage_spec ∅ demo_pool 7 (Ok i) bp' demo_pool_inv ltac:(unfold page_id_ok; lia) E)
    as (H1 & _ & H3 & p & Hp & Hpin & _).
  exists i, bp', p. split; [exact E|]. split; [exact H1|]. split; [exact H3|].
  split; [exact Hp | lia].
Qed.

Lemma UnpinPage_dirty_update_witness :
  exists i bp, FetchPage demo_pool 7 = (Ok i, bp) /\
    page_eqv 7 (view (UnpinPage (update_frame i (fun p => set_Data p (fun _ => Byte.x41)) bp) 7 true) 7)
      (fun _ => Byte.x41).
Proof.
  destruct demo_fetched as (i & bp & p & E & Hinv & Ht & Hp & Hpin).
  destruct (UnpinPage_dirty_update ∅ bp 7 i p (fun _ => Byte.x41) Hinv Ht Hp Hpin (not_elem_of_empty 7))
    as (_ & Hv & _).
  exists i, bp. split; [exact E | exact Hv].
Defined.

Lemma FlushAll_durable_witness :
  exists r bp', FlushAll demo_pool = (r, bp') /\ returns r = true /\ pool_inv ∅ bp'.
Proof.
  destruct (FlushAll demo_pool) as [r bp'] eqn:E.
  destruct (FlushAll_durable demo_pool r bp' demo_pool_inv E) as (H1 & H2 & _).
  exists r, bp'. split; [reflexivity | split; [exact H1 | exact H2]].
Defined.

(** A pool of one frame whose page is pinned. *)
Definition full_pool : BufferPool MemDevice LRUEvictionPolicy :=
  mkPool NewMemDevice [mkPage 7 zero_mem 1 false 0] {[7 := 0%nat]}
    (mkLRU [(0%nat, 7)] {[7 := 0%nat]} 1) [] None.

Lemma full_pool_inv : pool_inv ∅ full_pool.
Proof.
  split; cbn.
  - intros id i [<- <-]%lookup_singleton_Some. split; [unfold page_id_ok; lia|]. by eexists.
  - constructor.
  - set_solver.
  - by rewrite map_size_singleton.
  - split; cbn.
    + apply NoDup_singleton.
    + apply NoDup_singleton.
    + intros id e. rewrite lookup_singleton_Some, list_elem_of_singleton.
      split; [by intros [<- <-] | by intros [= -> ->]].
    + intros e id [= -> ->]%list_elem_of_singleton. lia.
  - rewrite dom_singleton_L. unfold order. cbn. set_solver.
  - intros [|i] p; cbn; [|done]. intros [= <-]. done.
  - intros id i p [<- <-]%lookup_singleton_Some. cbn. intros [= <-] _ _ j _. cbn.
    symmetry. apply empty_disk_page.
  - set_solver.
  - intros id _ _. apply empty_disk_sum.
Qed.

Lemma evict_all_pinned_never_returns_witness :
  (forall fuel, (evict_loop fuel full_pool).1 = Hang) /\ (FetchPage full_pool 8).1 = Hang.
Proof.
  apply (evict_all_pinned_never_returns ∅ full_pool 8).
  - exact full_pool_inv.
  - intros E. apply (f_equal (fun m => m !! 7)) in E. rewrite lookup_empty in E. discriminate.
  - reflexivity.
  - intros id i Hi. cbn in Hi. apply lookup_singleton_Some in Hi as [<- <-].
    exists 0%nat, (mkPage 7 zero_mem 1 false 0). split_and!; reflexivity.
  - reflexivity.
  - reflexivity.
Defined.
