(* ===== verification/WAL.v ===== *)
(** The write-ahead log (wal.go): the log record frame, the LSN bookkeeping of
    [Append], the group-commit flusher from receive to receive and the checkpoint,
    as steps of the goroutines that run them, and the reader's side of the frame
    format (the loops of recovery.go share it). *)

From Stdlib Require Import Strings.Byte.
From S2P Require Import Common.
From S2P Require Import Prelude.
From S2P Require Import Crc32.

(** ** Log records *)

(** [errCh], the channel a waiting [Append] listens on, is modelled by the list
    of replies of the log. *)
Record walEntry := mkEntry {
  e_lsn : LogSequenceNumber;
  e_txnID : Z;
  e_prevLSN : LogSequenceNumber;
  e_logType : Z;
  e_pageID : PageID;
  e_key : bytes;
  e_oldValue : bytes;
  e_newValue : bytes
}.

#[export] Instance walEntry_eq_decision : EqDecision walEntry.
Proof. solve_decision. Defined.

(** [buf[4:49]]. *)
Definition entry_header (e : walEntry) : bytes :=
  le_bytes 8 (e_lsn e) ++ le_bytes 8 (e_txnID e) ++ le_bytes 8 (e_prevLSN e) ++
  [z2b (e_logType e)] ++ le_bytes 8 (e_pageID e) ++
  le_bytes 4 (zlen (e_key e)) ++ le_bytes 4 (zlen (e_oldValue e)) ++
  le_bytes 4 (zlen (e_newValue e)).

Definition entry_payload (e : walEntry) : bytes := e_key e ++ e_oldValue e ++ e_newValue e.

(** The bytes [writeEntry] hands to the buffered writer. *)
Definition writeEntry (e : walEntry) : bytes :=
  le_bytes 4 (ChecksumIEEE (entry_header e ++ entry_payload e)) ++ entry_header e ++
  entry_payload e.

Definition write_entries (es : list walEntry) : bytes := mjoin (writeEntry <$> es).

(** ** The log *)

Inductive walMsg := MsgEntry (e : walEntry) | MsgTruncate.

(** Where the flusher goroutine stands: at its [select], in the drain loop with
    the pending records, putting a truncation request it met back into the queue,
    about to write the pending records, or returned. *)
Inductive flusher_state :=
| Selecting
| Draining (pending : list walEntry)
| Requeueing (pending : list walEntry)
| Writing (pending : list walEntry)
| Stopped.

(** [wal_file] is the contents of the file, [wal_open] tells whether [w.file] is
    one (it is nil when the log could not be opened again), [bw_err] is the sticky
    error of the [bufio.Writer] (which is empty between batches otherwise),
    [inflight] the entries of [Append] calls that left the critical section and have
    not sent yet, [replies] what the flusher answered so far, [wal_quit] whether
    [quit] is closed, [wal_closed] whether [Close] has closed the file. *)
Record BatchingWAL := mkWAL {
  wal_file : bytes;
  wal_open : bool;
  bw_err : option error;
  queue : list walMsg;
  fl : flusher_state;
  currentLSN : Z;
  txnPrevLSN : gmap Z LogSequenceNumber;
  inflight : list walEntry;
  replies : list (walEntry * option error);
  wal_quit : bool;
  wal_closed : bool
}.

Definition queue_capacity : nat := 4096.

Definition set_queue (q : list walMsg) (f : flusher_state) (w : BatchingWAL) : BatchingWAL :=
  mkWAL (wal_file w) (wal_open w) (bw_err w) q f (currentLSN w) (txnPrevLSN w) (inflight w) (replies w) (wal_quit w) (wal_closed w).

Definition set_inflight (l : list walEntry) (w : BatchingWAL) : BatchingWAL :=
  mkWAL (wal_file w) (wal_open w) (bw_err w) (queue w) (fl w) (currentLSN w) (txnPrevLSN w) l (replies w) (wal_quit w) (wal_closed w).

(** [NewBatchingWAL] on a file with the given contents. *)
Definition NewBatchingWAL (contents : bytes) : BatchingWAL :=
  mkWAL contents true None [] Selecting (u64 (zlen contents)) ∅ [] [] false false.

(** The critical section of [Append]. *)
Definition append_assign (w : BatchingWAL) (txnID logType : Z) (pageID : PageID)
    (key oldValue newValue : bytes) : walEntry * BatchingWAL :=
  let pLSN := default 0 (txnPrevLSN w !! txnID) in
  let recordSize := u64 (49 + zlen key + zlen oldValue + zlen newValue) in
  let assignedLSN := currentLSN w in
  let entry := mkEntry assignedLSN txnID pLSN logType pageID key oldValue newValue in
  let prev := if (logType =? LogTypeCommit) || (logType =? LogTypeAbort)
              then delete txnID (txnPrevLSN w)
              else <[txnID := assignedLSN]> (txnPrevLSN w) in
  (entry, mkWAL (wal_file w) (wal_open w) (bw_err w) (queue w) (fl w) (u64 (currentLSN w + recordSize)) prev
            (inflight w ++ [entry]) (replies w) (wal_quit w) (wal_closed w)).

(** [w.queue <- msg]: blocks (here: is not enabled) while the queue is full. *)
Definition send (w : BatchingWAL) (msg : walMsg) : option BatchingWAL :=
  if decide (length (queue w) < queue_capacity)%nat
  then Some (set_queue (queue w ++ [msg]) (fl w) w)
  else None.

(** The send of the [i]-th in-flight entry: goroutines that left the critical
    section reach the queue in any order. *)
Definition append_send (w : BatchingWAL) (i : nat) : option BatchingWAL :=
  match inflight w !! i with
  | Some entry => send (set_inflight (delete i (inflight w)) w) (MsgEntry entry)
  | None => None
  end.

(** ** The flusher *)

(** What the operating system does with a batch: it takes all of it and syncs,
    takes the first [n] bytes and fails, or takes all and fails to sync. *)
Inductive batch_outcome := BatchOk | FlushFails (n : nat) (e : error) | SyncFails (e : error).

(** The outcomes of a step of the flusher: of a batch, and of [os.Truncate] and
    [os.OpenFile] at a truncation. *)
Record io_outcome := mkIo { io_batch : batch_outcome; io_truncated : bool; io_reopened : bool }.

Definition IoOk : io_outcome := mkIo BatchOk true true.

(** [os.ErrInvalid], the error of every method of a nil file. *)
Definition ErrInvalid : error := Msg "invalid argument".

(** [bw.Flush()] and, when it succeeds, [w.file.Sync()]: the new file, the
    writer's sticky error and the error reported. *)
Definition flush_batch (w : BatchingWAL) (bs : bytes) (io : batch_outcome) :
    bytes * option error * option error :=
  match bw_err w with
  | Some e => (wal_file w, Some e, Some e)
  | None =>
      if negb (wal_open w) then (wal_file w, Some ErrInvalid, Some ErrInvalid)
      else
        match io with
        | BatchOk => (wal_file w ++ bs, None, None)
        | FlushFails n e => (wal_file w ++ take n bs, Some e, Some e)
        | SyncFails e => (wal_file w ++ bs, None, Some e)
        end
  end.

(** The pending records are written, flushed, synced and answered. *)
Definition write_batch (pending : list walEntry) (io : batch_outcome) (w : BatchingWAL) : BatchingWAL :=
  let '(f, bwe, err) := flush_batch w (write_entries pending) io in
  mkWAL f (wal_open w) bwe (queue w) Selecting (currentLSN w) (txnPrevLSN w) (inflight w)
    (replies w ++ ((fun e => (e, err)) <$> pending)) (wal_quit w) (wal_closed w).

(** The case of a truncation request: errors are ignored, the request is
    answered, and the transactions' back pointers stay. *)
Definition truncate_log (io : io_outcome) (w : BatchingWAL) : BatchingWAL :=
  mkWAL (if io_truncated io then [] else wal_file w) (io_reopened io) None (queue w) Selecting 0 (txnPrevLSN w)
    (inflight w) (replies w) (wal_quit w) (wal_closed w).

(** One step of the flusher; [None] when it waits for a message, is blocked on the
    full queue or has returned.  The drain loop takes records while there are fewer
    than 1000 pending ones; a truncation request it takes goes back to the end of
    the queue, as soon as there is room. *)
Definition flusher (io : io_outcome) (w : BatchingWAL) : option BatchingWAL :=
  match fl w with
  | Selecting =>
      match queue w with
      | [] => None
      | MsgEntry req :: q => Some (set_queue q (Draining [req]) w)
      | MsgTruncate :: q => Some (truncate_log io (set_queue q Selecting w))
      end
  | Draining pending =>
      if decide (length pending < 1000)%nat
      then
        match queue w with
        | [] => Some (write_batch pending (io_batch io) w)
        | MsgEntry e :: q => Some (set_queue q (Draining (pending ++ [e])) w)
        | MsgTruncate :: q => Some (set_queue q (Requeueing pending) w)
        end
      else Some (write_batch pending (io_batch io) w)
  | Requeueing pending =>
      if decide (length (queue w) < queue_capacity)%nat
      then Some (set_queue (queue w ++ [MsgTruncate]) (Writing pending) w)
      else None
  | Writing pending => Some (write_batch pending (io_batch io) w)
  | Stopped => None
  end.

(** [Close]: [quit] is closed once, ... *)
Definition close_quit (w : BatchingWAL) : BatchingWAL :=
  mkWAL (wal_file w) (wal_open w) (bw_err w) (queue w) (fl w) (currentLSN w) (txnPrevLSN w) (inflight w) (replies w) true (wal_closed w).

(** ... the flusher returns from its [select], which may also choose a message, ... *)
Definition flusher_stop (w : BatchingWAL) : option BatchingWAL :=
  match fl w with
  | Selecting => if wal_quit w then Some (set_queue (queue w) Stopped w) else None
  | _ => None
  end.

(** ... and when it has, the file is closed; a file that is closed already or nil
    is an error. *)
Definition close_file (w : BatchingWAL) : option error * BatchingWAL :=
  (if wal_closed w then Some (Msg "file already closed") else if negb (wal_open w) then Some ErrInvalid else None,
   mkWAL (wal_file w) (wal_open w) (bw_err w) (queue w) (fl w) (currentLSN w) (txnPrevLSN w) (inflight w) (replies w)
     (wal_quit w) true).

(** ** Calls that run alone *)

(** The number of steps the flusher still has to make. *)
Definition work (w : BatchingWAL) : nat :=
  sum_list_with (fun m => match m with MsgEntry _ => 4 | MsgTruncate => 1 end)%nat (queue w) +
  match fl w with Draining _ | Requeueing _ => 3 | Writing _ => 1 | Selecting | Stopped => 0 end.

Fixpoint flusher_run (fuel : nat) (io : io_outcome) (w : BatchingWAL) : BatchingWAL :=
  match fuel with
  | O => w
  | S fuel => match flusher io w with Some w => flusher_run fuel io w | None => w end
  end.

(** The flusher runs until it waits; [None] when it does not get there. *)
Definition settle (io : io_outcome) (w : BatchingWAL) : option BatchingWAL :=
  let w := flusher_run (work w) io w in
  match fl w, queue w with Selecting, [] => Some w | _, _ => None end.

(** An [Append] that nothing runs concurrently with: the critical section, the
    send and the steps of the flusher that answer it. *)
Definition Append (w : BatchingWAL) (txnID logType : Z) (pageID : PageID)
    (key oldValue newValue : bytes) (io : io_outcome) :
    option (LogSequenceNumber * option error * BatchingWAL) :=
  let '(entry, w) := append_assign w txnID logType pageID key oldValue newValue in
  w ← append_send w (length (inflight w) - 1);
  w ← settle io w;
  r ← last (replies w);
  Some (e_lsn entry, r.2, w).

(** A [Checkpoint] on its own. *)
Definition Checkpoint (w : BatchingWAL) (io : io_outcome) : option BatchingWAL :=
  w ← send w MsgTruncate; settle io w.

(** A [Close] on its own: [None] when the flusher does not return. *)
Definition WAL_Close (w : BatchingWAL) : option (option error * BatchingWAL) :=
  let w := close_quit w in
  match fl w with
  | Stopped => Some (close_file w)
  | _ => w ← flusher_stop w; Some (close_file w)
  end.

(** ** Interleavings *)

(** The steps of callers and flusher; a step is labelled with the record it
    creates. *)
Inductive wal_step : BatchingWAL -> list walEntry -> BatchingWAL -> Prop :=
| step_assign w txnID logType pageID key oldValue newValue e w' :
    append_assign w txnID logType pageID key oldValue newValue = (e, w') -> wal_step w [e] w'
| step_send w i w' : append_send w i = Some w' -> wal_step w [] w'
| step_checkpoint w w' : send w MsgTruncate = Some w' -> wal_step w [] w'
| step_flusher w io w' : flusher io w = Some w' -> wal_step w [] w'
| step_quit w : wal_step w [] (close_quit w)
| step_stop w w' : flusher_stop w = Some w' -> wal_step w [] w'
| step_close w e w' : fl w = Stopped -> close_file w = (e, w') -> wal_step w [] w'.

(** States reached from [w0], with the records created on the way. *)
Inductive wal_reach (w0 : BatchingWAL) : list walEntry -> BatchingWAL -> Prop :=
| reach_start : wal_reach w0 [] w0
| reach_step hist w es w' :
    wal_reach w0 hist w -> wal_step w es w' -> wal_reach w0 (hist ++ es) w'.

(** ** Reading frames *)

(** [io.ReadFull] on the bytes that are left. *)
Definition ReadFull (n : Z) (bs : bytes) : result (bytes * bytes) :=
  if n <=? 0 then Ok ([], bs)
  else if zlen bs =? 0 then Err EOF
  else if zlen bs <? n then Err ErrUnexpectedEOF
  else Ok (take (Z.to_nat n) bs, drop (Z.to_nat n) bs).

Definition sub (bs : bytes) (lo hi : nat) : bytes := take (hi - lo) (drop lo bs).

(** The fields recovery decodes from [headerBuf] and the payload that follows
    it. *)
Record frame := mkFrame {
  f_crc : Z;
  f_lsn : LogSequenceNumber;
  f_txnID : Z;
  f_prevLSN : LogSequenceNumber;
  f_logType : Z;
  f_pageID : PageID;
  f_kLen : Z;
  f_oldLen : Z;
  f_newLen : Z;
  f_header : bytes
}.

Definition decode_header (h : bytes) : frame :=
  mkFrame (le_val (sub h 0 4)) (le_val (sub h 4 12)) (le_val (sub h 12 20))
    (le_val (sub h 20 28)) (le_val (sub h 28 29)) (le_val (sub h 29 37))
    (le_val (sub h 37 41)) (le_val (sub h 41 45)) (le_val (sub h 45 49)) (sub h 4 49).

(** [make([]byte, kLen+oldLen+newLen)]: a [uint32] sum. *)
Definition payload_len (f : frame) : Z := u32 (u32 (f_kLen f + f_oldLen f) + f_newLen f).

(** [payload[lo:hi]], within the payload's capacity. *)
Definition payload_slice (payload : bytes) (lo hi : Z) : result bytes :=
  if slice_ok (zlen payload) lo hi then Ok (sub payload (Z.to_nat lo) (Z.to_nat hi)) else Panic.

(** * Correctness *)

(** ** The frame format round-trips *)

(** What fits the fields of a frame. *)
Definition entry_ok (e : walEntry) : Prop :=
  0 <= e_lsn e < 2 ^ 64 /\ 0 <= e_txnID e < 2 ^ 64 /\ 0 <= e_prevLSN e < 2 ^ 64 /\
  0 <= e_logType e < 2 ^ 8 /\ 0 <= e_pageID e < 2 ^ 64 /\ zlen (entry_payload e) < 2 ^ 32.

Definition entry_size (e : walEntry) : Z := 49 + zlen (entry_payload e).

Lemma zlen_header e : zlen (entry_header e) = 45.
Proof. unfold entry_header. rewrite !zlen_app, !zlen_le_bytes. done. Qed.

Lemma zlen_writeEntry e : zlen (writeEntry e) = entry_size e.
Proof.
  unfold writeEntry, entry_size. rewrite !zlen_app, zlen_le_bytes, zlen_header. lia.
Qed.

Lemma zlen_payload e :
  zlen (entry_payload e) = zlen (e_key e) + zlen (e_oldValue e) + zlen (e_newValue e).
Proof. unfold entry_payload. rewrite !zlen_app. lia. Qed.

Lemma ReadFull_app n (a b : bytes) : 0 <= n -> zlen a = n -> ReadFull n (a ++ b) = Ok (a, b).
Proof.
  intros Hn Ha. unfold ReadFull. pose proof (zlen_nonneg b). rewrite zlen_app.
  destruct (n <=? 0) eqn:E1; bprop.
  { unfold zlen in Ha. destruct a; cbn in Ha; [done|lia]. }
  destruct (zlen a + zlen b =? 0) eqn:E2; bprop; [lia|].
  destruct (zlen a + zlen b <? n) eqn:E3; bprop; [lia|].
  unfold zlen in *. rewrite take_app_length', drop_app_length' by lia. done.
Qed.

Lemma sub_app (a b c : bytes) lo hi :
  length a = lo -> (lo + length b = hi)%nat -> sub (a ++ b ++ c) lo hi = b.
Proof.
  intros Ha Hb. unfold sub. rewrite drop_app_length' by lia. by rewrite take_app_length' by lia.
Qed.

Lemma sub_app_last (a b : bytes) lo hi :
  length a = lo -> (lo + length b = hi)%nat -> sub (a ++ b) lo hi = b.
Proof. intros. rewrite <- (app_nil_r b) at 1. by apply sub_app. Qed.

(** Skip the first field when looking at a later one. *)
Lemma sub_skip (a b : bytes) lo hi :
  (length a <= lo)%nat -> sub (a ++ b) lo hi = sub b (lo - length a) (hi - length a).
Proof.
  intros. unfold sub. rewrite drop_app_ge by lia. f_equal. lia.
Qed.

Lemma sub_first (b c : bytes) hi : length b = hi -> sub (b ++ c) 0 hi = b.
Proof. intros. by apply (sub_app []). Qed.

Lemma sub_all (b : bytes) hi : length b = hi -> sub b 0 hi = b.
Proof. intros. by apply (sub_app_last []). Qed.

Ltac field_of_header :=
  repeat (rewrite sub_skip by (rewrite ?length_le_bytes; cbn [length]; lia);
          rewrite ?length_le_bytes; cbn [length Nat.sub]);
  (rewrite sub_first || rewrite sub_all); [reflexivity | apply length_le_bytes || reflexivity].

Lemma decode_writeEntry e :
  entry_ok e ->
  let f := decode_header (le_bytes 4 (ChecksumIEEE (entry_header e ++ entry_payload e)) ++
                          entry_header e) in
  f_crc f = ChecksumIEEE (entry_header e ++ entry_payload e) /\ f_lsn f = e_lsn e /\
  f_txnID f = e_txnID e /\ f_prevLSN f = e_prevLSN e /\ f_logType f = e_logType e /\
  f_pageID f = e_pageID e /\ f_kLen f = zlen (e_key e) /\ f_oldLen f = zlen (e_oldValue e) /\
  f_newLen f = zlen (e_newValue e) /\ f_header f = entry_header e /\
  payload_len f = zlen (entry_payload e).
Proof.
  intros (H1 & H2 & H3 & H4 & H5 & H6). rewrite zlen_payload in H6.
  pose proof (zlen_nonneg (e_key e)). pose proof (zlen_nonneg (e_oldValue e)).
  pose proof (zlen_nonneg (e_newValue e)).
  set (crc := ChecksumIEEE (entry_header e ++ entry_payload e)).
  pose proof (ChecksumIEEE_range (entry_header e ++ entry_payload e)) as Hc. fold crc in Hc.
  assert (forall f : frame, f_kLen f = zlen (e_key e) -> f_oldLen f = zlen (e_oldValue e) ->
    f_newLen f = zlen (e_newValue e) -> payload_len f = zlen (entry_payload e)) as Hp.
  { intros f E1 E2 E3. unfold payload_len. rewrite E1, E2, E3, zlen_payload.
    rewrite (u32_small (zlen (e_key e) + zlen (e_oldValue e))) by lia. apply u32_small. lia. }
  assert (forall n z bs, bs = le_bytes n z -> 0 <= z < 2 ^ (8 * Z.of_nat n) -> le_val bs = z) as Hv.
  { intros n z bs -> Hz. rewrite le_val_bytes. by apply Z.mod_small. }
  assert (f_header (decode_header (le_bytes 4 crc ++ entry_header e)) = entry_header e) as Hh.
  { cbn [f_header decode_header]. apply sub_app_last; [apply length_le_bytes|]. pose proof (zlen_header e). unfold zlen in *. lia. }
  cbn [f_header decode_header] in Hh. unfold entry_header in *.
  split_and!; try (apply Hp); cbn [decode_header f_crc f_lsn f_txnID f_prevLSN f_logType f_pageID
    f_kLen f_oldLen f_newLen f_header].
  all: first [ exact Hh
             | eapply Hv; [field_of_header | change (2 ^ (8 * Z.of_nat 8)) with (2 ^ 64); change (2 ^ (8 * Z.of_nat 4)) with (2 ^ 32); lia]
             | apply (Hv 1%nat); [field_of_header | exact H4] ].
Qed.

(** A frame at the head of the bytes left to read is read back, header and
    payload. *)
Lemma read_entry e rest :
  entry_ok e ->
  exists h, ReadFull 49 (writeEntry e ++ rest) = Ok (h, entry_payload e ++ rest) /\
    decode_header h = mkFrame (ChecksumIEEE (entry_header e ++ entry_payload e)) (e_lsn e)
      (e_txnID e) (e_prevLSN e) (e_logType e) (e_pageID e) (zlen (e_key e)) (zlen (e_oldValue e))
      (zlen (e_newValue e)) (entry_header e) /\
    payload_len (decode_header h) = zlen (entry_payload e) /\
    ReadFull (payload_len (decode_header h)) (entry_payload e ++ rest) = Ok (entry_payload e, rest).
Proof.
  intros Hok. exists (le_bytes 4 (ChecksumIEEE (entry_header e ++ entry_payload e)) ++ entry_header e).
  destruct (decode_writeEntry e Hok) as (E1 & E2 & E3 & E4 & E5 & E6 & E7 & E8 & E9 & E10 & E11).
  split_and!.
  - unfold writeEntry. rewrite app_assoc, <- app_assoc. apply ReadFull_app; [done|].
    rewrite zlen_app, zlen_le_bytes, zlen_header. done.
  - revert E1 E2 E3 E4 E5 E6 E7 E8 E9 E10.
    generalize (decode_header (le_bytes 4 (ChecksumIEEE (entry_header e ++ entry_payload e)) ++
      entry_header e)). intros []; cbn. congruence.
  - done.
  - rewrite E11. apply ReadFull_app; [apply zlen_nonneg | done].
Qed.

(** The slices recovery takes of a payload. *)
Lemma payload_slices e :
  let kl := zlen (e_key e) in let ol := zlen (e_oldValue e) in let p := entry_payload e in
  payload_slice p 0 kl = Ok (e_key e) /\ payload_slice p kl (kl + ol) = Ok (e_oldValue e) /\
  payload_slice p (kl + ol) (zlen p) = Ok (e_newValue e).
Proof.
  cbn. unfold payload_slice, slice_ok. rewrite zlen_payload.
  pose proof (zlen_nonneg (e_key e)). pose proof (zlen_nonneg (e_oldValue e)).
  pose proof (zlen_nonneg (e_newValue e)).
  rewrite !(proj2 (Z.leb_le _ _)) by lia. cbn [andb]. unfold entry_payload, zlen.
  split_and!; f_equal.
  - apply sub_first. lia.
  - apply sub_app; lia.
  - rewrite app_assoc. apply sub_app_last; rewrite ?length_app; lia.
Qed.

#[local] Arguments writeEntry : simpl never.
#[local] Arguments write_entries : simpl never.
#[local] Arguments queue_capacity : simpl never.

Lemma write_entries_app a b : write_entries (a ++ b) = write_entries a ++ write_entries b.
Proof. unfold write_entries. by rewrite fmap_app, join_app. Qed.

Lemma write_entries_cons e es : write_entries (e :: es) = writeEntry e ++ write_entries es.
Proof. done. Qed.

(** ** LSNs and backward chains of appends that run one after the other *)

(** [txnPrevLSN] after the given records. *)
Definition chain_step (prev : gmap Z Z) (e : walEntry) : gmap Z Z :=
  if (e_logType e =? LogTypeCommit) || (e_logType e =? LogTypeAbort)
  then delete (e_txnID e) prev else <[e_txnID e := e_lsn e]> prev.

Definition chain (prev : gmap Z Z) (es : list walEntry) : gmap Z Z := fold_left chain_step es prev.

(** The LSN of every record is its byte offset, and its [prevLSN] is the LSN of
    the previous record of its transaction (0 when it is the first). *)
Fixpoint log_ok (off : Z) (prev : gmap Z Z) (es : list walEntry) : Prop :=
  match es with
  | [] => True
  | e :: es' =>
      entry_ok e /\ e_lsn e = off /\ e_prevLSN e = default 0 (prev !! e_txnID e) /\
      log_ok (off + entry_size e) (chain_step prev e) es'
  end.

(** Nothing is under way, and the file is [base] followed by the records [es]
    appended since the log was opened. *)
Record wal_rep (base : bytes) (es : list walEntry) (w : BatchingWAL) : Prop := {
  rep_file : wal_file w = base ++ write_entries es;
  rep_log : log_ok (zlen base) ∅ es;
  rep_prev : txnPrevLSN w = chain ∅ es;
  rep_lsn : currentLSN w = zlen (wal_file w);
  rep_small : zlen (wal_file w) < 2 ^ 64;
  rep_queue : queue w = [];
  rep_inflight : inflight w = [];
  rep_bw : bw_err w = None;
  rep_open : wal_open w = true;
  rep_idle : fl w = Selecting
}.

Lemma log_ok_app off prev a b :
  log_ok off prev (a ++ b) <->
  log_ok off prev a /\ log_ok (off + zlen (write_entries a)) (chain prev a) b.
Proof.
  revert off prev. induction a as [|e a IH]; intros off prev.
  { cbn [app log_ok]. change (write_entries []) with (@nil byte).
    replace (off + zlen (@nil byte)) with off by (unfold zlen; cbn; lia). tauto. }
  cbn [app log_ok]. rewrite IH, write_entries_cons, zlen_app, zlen_writeEntry.
  replace (off + (entry_size e + zlen (write_entries a)))
    with (off + entry_size e + zlen (write_entries a)) by lia. cbn. tauto.
Qed.

Lemma chain_prev_range prev es off :
  (forall t l, prev !! t = Some l -> 0 <= l < 2 ^ 64) -> log_ok off prev es ->
  forall t l, chain prev es !! t = Some l -> 0 <= l < 2 ^ 64.
Proof.
  revert prev off. induction es as [|e es IH]; intros prev off Hp; cbn; [done|].
  intros (Hok & _ & _ & Hl). eapply IH; [|exact Hl]. intros t l. unfold chain_step.
  case_match; [intros [_ ?]%lookup_delete_Some; eauto|].
  intros [[_ <-]|[_ ?]]%lookup_insert_Some; [apply Hok | eauto].
Qed.

(** The flusher alone with one record. *)
Lemma settle_one io e w :
  queue w = [MsgEntry e] -> fl w = Selecting -> settle io w = Some (write_batch [e] (io_batch io) (set_queue [] (Draining [e]) w)).
Proof.
  intros Hq Hf. unfold settle, work. rewrite Hq, Hf. cbn [sum_list_with Nat.add flusher_run].
  assert (flusher io w = Some (set_queue [] (Draining [e]) w)) as -> by (unfold flusher; by rewrite Hq, Hf).
  assert (flusher io (set_queue [] (Draining [e]) w) = Some (write_batch [e] (io_batch io) (set_queue [] (Draining [e]) w))) as ->
    by (unfold flusher; cbn [fl queue set_queue]; by rewrite decide_True by (cbn [length]; lia)).
  assert (fl (write_batch [e] (io_batch io) (set_queue [] (Draining [e]) w)) = Selecting /\
    queue (write_batch [e] (io_batch io) (set_queue [] (Draining [e]) w)) = []) as [E1 E2]
    by (unfold write_batch; by destruct (flush_batch _ _ _) as [[f bwe] err]).
  assert (flusher io (write_batch [e] (io_batch io) (set_queue [] (Draining [e]) w)) = None) as -> by (unfold flusher; by rewrite E1, E2).
  by rewrite E1, E2.
Qed.

(** An append that runs alone puts one record at the end of the file, whose
    LSN is the offset it is written at and whose [prevLSN] continues the
    transaction's chain. *)
Lemma Append_rep base es w t ty pg k ov nv :
  wal_rep base es w ->
  0 <= t < 2 ^ 64 -> 0 <= ty < 2 ^ 8 -> 0 <= pg < 2 ^ 64 ->
  zlen k + zlen ov + zlen nv < 2 ^ 32 ->
  zlen (wal_file w) + 49 + zlen k + zlen ov + zlen nv < 2 ^ 64 ->
  exists e w', Append w t ty pg k ov nv IoOk = Some (zlen (wal_file w), None, w') /\
    e = mkEntry (zlen (wal_file w)) t (default 0 (chain ∅ es !! t)) ty pg k ov nv /\
    wal_rep base (es ++ [e]) w' /\ wal_closed w' = wal_closed w.
Proof.
  intros [Hf Hl Hp Hlsn Hs Hq Hi Hb Ho Hidle] Ht Hty Hpg Hlen Hsz.
  set (e := mkEntry (zlen (wal_file w)) t (default 0 (chain ∅ es !! t)) ty pg k ov nv).
  pose proof (zlen_nonneg k). pose proof (zlen_nonneg ov). pose proof (zlen_nonneg nv).
  pose proof (zlen_nonneg (wal_file w)).
  assert (entry_ok e) as Hok.
  { unfold entry_ok. rewrite zlen_payload. cbn. split_and!; try lia;
    (destruct (chain ∅ es !! t) as [l|] eqn:E; cbn; [|lia];
     eapply (chain_prev_range ∅ es) in E; [lia | set_solver | exact Hl]). }
  exists e. eexists. split_and!; [| done | | ].
  - unfold Append, append_assign, append_send, send.
    rewrite Hp, Hlsn, Hi, Hq. cbn [inflight app length Nat.sub set_inflight lookup list_lookup delete list_delete queue mbind option_bind].
    rewrite decide_True by (unfold queue_capacity; cbn; lia). cbn [mbind option_bind]. rewrite (settle_one IoOk e) by done.
    unfold write_batch, flush_batch. cbn [set_queue bw_err wal_open]. rewrite Hb, Ho. cbn. rewrite last_snoc. cbn. done.
  - assert (entry_size e = 49 + zlen k + zlen ov + zlen nv) as Hes.
    { unfold entry_size. rewrite zlen_payload. cbn. lia. }
    split; cbn; try done.
    + fold e. rewrite Hf at 1. by rewrite write_entries_app, app_assoc.
    + apply log_ok_app. split; [done|]. cbn. rewrite Hf, zlen_app in *. split_and!; done.
    + unfold chain. by rewrite fold_left_app.
    + fold e. rewrite zlen_app, (write_entries_cons e []), zlen_app, zlen_writeEntry, Hes.
      rewrite (u64_small (49 + _ + _ + _)), u64_small by lia. change (zlen (write_entries [])) with 0. lia.
    + fold e. rewrite zlen_app, (write_entries_cons e []), zlen_app, zlen_writeEntry, Hes.
      change (zlen (write_entries [])) with 0. lia.
  - done.
Qed.

Lemma NewBatchingWAL_rep contents :
  zlen contents < 2 ^ 64 -> wal_rep contents [] (NewBatchingWAL contents).
Proof.
  intros Hs. pose proof (zlen_nonneg contents). split; cbn; try done.
  - unfold write_entries. cbn. by rewrite app_nil_r.
  - by rewrite u64_small by lia.
Qed.

(** ** Interleavings and conservation *)

Definition msg_entries (q : list walMsg) : list walEntry :=
  omap (fun m => match m with MsgEntry e => Some e | MsgTruncate => None end) q.

(** The records the flusher has taken and not answered. *)
Definition in_hand (f : flusher_state) : list walEntry :=
  match f with Draining l | Requeueing l | Writing l => l | Selecting | Stopped => [] end.

(** Every record [Append] has created and its place. *)
Definition held (w : BatchingWAL) : list walEntry :=
  inflight w ++ msg_entries (queue w) ++ in_hand (fl w) ++ (replies w).*1.

Lemma fst_replies (err : option error) (es : list walEntry) : ((fun e => (e, err)) <$> es).*1 = es.
Proof. induction es as [|e es IH]; [done|]. cbn. by f_equal. Qed.

Lemma msg_entries_snoc q m : msg_entries (q ++ [m]) = msg_entries q ++ msg_entries [m].
Proof. apply omap_app. Qed.

Lemma send_held w m w' : send w m = Some w' -> held w' ≡ₚ held w ++ msg_entries [m].
Proof.
  unfold send. case_decide; [|done]. intros [= <-]. unfold held. cbn [inflight queue fl replies set_queue].
  rewrite msg_entries_snoc. solve_Permutation.
Qed.

Lemma write_batch_held pending io w : in_hand (fl w) = pending -> held (write_batch pending io w) ≡ₚ held w.
Proof.
  intros <-. unfold write_batch, held. destruct (flush_batch _ _ _) as [[f bwe] err]. cbn [inflight queue fl replies in_hand].
  rewrite fmap_app, fst_replies. solve_Permutation.
Qed.

Lemma flusher_held io w w' : flusher io w = Some w' -> held w' ≡ₚ held w.
Proof.
  unfold flusher. destruct (fl w) as [|l|l|l|] eqn:Ef; [| | |intros [= <-]; by apply write_batch_held; rewrite Ef|done].
  - destruct (queue w) as [|[e|] q] eqn:Eq; [done| |]; intros [= <-]; unfold held; cbn; rewrite Eq, Ef; cbn; solve_Permutation.
  - case_decide; [|intros [= <-]; by apply write_batch_held; rewrite Ef].
    destruct (queue w) as [|[e|] q] eqn:Eq; intros [= <-]; [by apply write_batch_held; rewrite Ef| |];
      unfold held; cbn; rewrite Eq, Ef; cbn; solve_Permutation.
  - case_decide; [|done]. intros [= <-]. unfold held. cbn [inflight queue fl replies set_queue in_hand].
    rewrite Ef, msg_entries_snoc. cbn. by rewrite app_nil_r.
Qed.

(** Records that are nowhere or in two places do not exist. *)
Lemma step_held w es w' : wal_step w es w' -> held w' ≡ₚ held w ++ es.
Proof.
  destruct 1 as [w t ty pg k ov nv e w' E|w i w' E|w w' E|w io w' E|w|w w' E|w e w' _ E].
  - injection E as <- <-. unfold held. cbn. solve_Permutation.
  - unfold append_send in E. destruct (inflight w !! i) as [e|] eqn:Hin; [|done]. rewrite (send_held _ _ _ E), app_nil_r.
    unfold held. cbn. rewrite (delete_Permutation _ _ _ Hin) at 2. generalize (delete i (inflight w)). intros l. solve_Permutation.
  - by rewrite (send_held _ _ _ E).
  - by rewrite (flusher_held _ _ _ E), app_nil_r.
  - by rewrite app_nil_r.
  - unfold flusher_stop in E. destruct (fl w) eqn:Ef; try done. destruct (wal_quit w); simplify_eq.
    unfold held. cbn. by rewrite Ef, app_nil_r.
  - injection E as <- <-. unfold held. cbn. by rewrite app_nil_r.
Qed.

Lemma reach_held w0 hist w : wal_reach w0 hist w -> held w ≡ₚ held w0 ++ hist.
Proof.
  induction 1 as [|hist w es w' _ IH Hstep]; [by rewrite app_nil_r|].
  by rewrite (step_held _ _ _ Hstep), IH, app_assoc.
Qed.

(** ** Progress of the flusher *)

(** The flusher waits for a request it has put aside, on a queue without room. *)
Definition wedged (w : BatchingWAL) : Prop :=
  exists pending, fl w = Requeueing pending /\ (queue_capacity <= length (queue w))%nat.

Lemma flusher_waits io w :
  flusher io w = None -> fl w = Selecting /\ queue w = [] \/ fl w = Stopped \/ wedged w.
Proof.
  unfold flusher. destruct (fl w) as [|l|l|l|] eqn:Ef; [| | |done|tauto].
  - destruct (queue w) as [|[e|] q]; [tauto|done..].
  - case_decide; [|done]. by destruct (queue w) as [|[e|] q].
  - case_decide; [done|]. intros _. right. right. exists l. split; [done|lia].
Qed.

(** Nothing wakes it. *)
Lemma wedged_step w es w' : wedged w -> wal_step w es w' -> wedged w' /\ replies w' = replies w.
Proof.
  intros (l & Ef & Hq). assert (forall w m w', queue w = queue w -> (queue_capacity <= length (queue w))%nat -> send w m <> Some w') as Hsend
    by (intros ? ? ? _ ?; unfold send; rewrite decide_False by lia; done).
  destruct 1 as [w t ty pg k ov nv e w' E|w i w' E|w w' E|w io w' E|w|w w' E|w e w' Hs E].
  - injection E as <- <-. split; [by exists l|done].
  - unfold append_send in E. destruct (inflight w !! i); [|done]. by apply Hsend in E.
  - by apply Hsend in E.
  - unfold flusher in E. rewrite Ef, decide_False in E by lia. done.
  - split; [by exists l|done].
  - unfold flusher_stop in E. by rewrite Ef in E.
  - congruence.
Qed.

Lemma wedged_reach w hist w' : wedged w -> wal_reach w hist w' -> wedged w' /\ replies w' = replies w.
Proof.
  intros Hw. induction 1 as [|hist w1 es w2 _ IH Hstep]; [done|]. destruct IH as [Hw1 <-]. by apply wedged_step in Hstep.
Qed.

(** A step uses up work, so a flusher that runs alone ends. *)
Lemma flusher_work io w w' : flusher io w = Some w' -> (work w' < work w)%nat.
Proof.
  unfold flusher, work. destruct (fl w) as [|l|l|l|] eqn:Ef; [| | | |done].
  - destruct (queue w) as [|[e|] q]; [done| |]; intros [= <-]; cbn; lia.
  - unfold write_batch. destruct (flush_batch _ _ _) as [[f bwe] err].
    case_decide; [destruct (queue w) as [|[e|] q] eqn:Eq|]; intros [= <-]; cbn; rewrite ?Eq; cbn; lia.
  - case_decide; [|done]. intros [= <-]. cbn. rewrite sum_list_with_app. cbn. lia.
  - unfold write_batch. destruct (flush_batch _ _ _) as [[f bwe] err]. intros [= <-]. cbn. lia.
Qed.

Lemma flusher_run_ends io w fuel : (work w <= fuel)%nat -> flusher io (flusher_run fuel io w) = None.
Proof.
  revert w. induction fuel as [|fuel IH]; intros w Hf; cbn [flusher_run].
  - destruct (flusher io w) eqn:E; [|done]. apply flusher_work in E. lia.
  - destruct (flusher io w) as [w'|] eqn:E; [|done]. apply IH. apply flusher_work in E. lia.
Qed.

Lemma write_entries_elem e es :
  e ∈ es -> exists a b, write_entries es = a ++ writeEntry e ++ b.
Proof.
  intros (l1 & l2 & ->)%list_elem_of_split.
  exists (write_entries l1), (write_entries l2). by rewrite write_entries_app.
Qed.

(** ** Properties *)

(** C18: A log frame round-trips: reading at the start of what [writeEntry]
    wrote for a record whose fields fit gives back every field, a checksum that
    verifies, and the payload from which recovery cuts exactly the key, the
    before-image and the after-image, leaving the following bytes unread. *)
Theorem wal_frame_roundtrip e rest :
  entry_ok e ->
  exists h p, ReadFull 49 (writeEntry e ++ rest) = Ok (h, p ++ rest) /\
    let f := decode_header h in
    ReadFull (payload_len f) (p ++ rest) = Ok (p, rest) /\
    ChecksumIEEE (f_header f ++ p) = f_crc f /\
    f_lsn f = e_lsn e /\ f_txnID f = e_txnID e /\ f_prevLSN f = e_prevLSN e /\
    f_logType f = e_logType e /\ f_pageID f = e_pageID e /\
    payload_slice p 0 (f_kLen f) = Ok (e_key e) /\
    payload_slice p (f_kLen f) (f_kLen f + f_oldLen f) = Ok (e_oldValue e) /\
    payload_slice p (f_kLen f + f_oldLen f) (zlen p) = Ok (e_newValue e).
Proof.
  intros Hok. destruct (read_entry e rest Hok) as (h & Hh & Hd & Hl & Hp).
  destruct (payload_slices e) as (P1 & P2 & P3).
  exists h, (entry_payload e). rewrite Hd in *. by split_and!.
Qed.

Definition sample_entry : walEntry :=
  mkEntry 98 7 49 LogTypeUpdate 3 (str "key") (str "old") (str "new!").

Lemma wal_frame_roundtrip_witness :
  exists h p, ReadFull 49 (writeEntry sample_entry ++ str "tail") = Ok (h, p ++ str "tail") /\
    payload_slice p 0 (f_kLen (decode_header h)) = Ok (str "key").
Proof.
  destruct (wal_frame_roundtrip sample_entry (str "tail")) as (h & p & H1 & _ & _ & _ & _ & _ & _ & _ & H2 & _).
  - vm_compute. intuition discriminate.
  - exists h, p. split; [exact H1 | exact H2].
Defined.

(** An append that runs on its own (no other caller between its steps)
    writes one record at the end of the file and reports no error; the LSN it
    returns is the record's byte offset, and the record's back pointer is the
    LSN of the previous record of its transaction.  The log stays in the state
    this describes, so it holds for any sequence of such appends. *)
Theorem Append_lsn_is_offset base es w t ty pg k ov nv :
  wal_rep base es w ->
  0 <= t < 2 ^ 64 -> 0 <= ty < 2 ^ 8 -> 0 <= pg < 2 ^ 64 ->
  zlen k + zlen ov + zlen nv < 2 ^ 32 ->
  zlen (wal_file w) + 49 + zlen k + zlen ov + zlen nv < 2 ^ 64 ->
  exists w', Append w t ty pg k ov nv IoOk = Some (zlen (wal_file w), None, w') /\
    let e := mkEntry (zlen (wal_file w)) t (default 0 (chain ∅ es !! t)) ty pg k ov nv in
    wal_file w' = wal_file w ++ writeEntry e /\ wal_rep base (es ++ [e]) w'.
Proof.
  intros Hrep Ht Hty Hpg Hlen Hsz.
  destruct (Append_rep base es w t ty pg k ov nv) as (e & w' & HA & -> & Hrep' & _); try done.
  exists w'. split; [done|]. split; [|done].
  rewrite (rep_file _ _ _ Hrep'), (rep_file _ _ _ Hrep), write_entries_app, app_assoc.
  by rewrite (write_entries_cons _ []), app_nil_r.
Qed.

Lemma Append_lsn_is_offset_witness :
  exists w', Append (NewBatchingWAL (str "xyz")) 7 LogTypeUpdate 3 (str "k") [] (str "v") IoOk =
    Some (3, None, w').
Proof.
  destruct (Append_lsn_is_offset (str "xyz") [] (NewBatchingWAL (str "xyz")) 7 LogTypeUpdate 3
    (str "k") [] (str "v")) as (w' & H & _).
  1: apply NewBatchingWAL_rep; reflexivity.
  1-5: vm_compute; intuition discriminate.
  exists w'. exact H.
Defined.

(** C28: Under every interleaving of callers, checkpoints, close and the steps of
    the flusher, and whatever the file system answers, each record that [Append]
    created is in exactly one place: not yet sent, queued, in the flusher's batch,
    or answered once; none is lost, duplicated or answered twice.  The flusher can
    always make a step except when it waits with an empty queue, when it was
    stopped, or when it has taken a truncation request out of the queue and callers
    have filled the queue before it could put the request back: then it is stuck,
    and no record is answered ever again. *)
Theorem wal_no_request_lost contents hist w :
  wal_reach (NewBatchingWAL contents) hist w ->
  hist ≡ₚ inflight w ++ msg_entries (queue w) ++ in_hand (fl w) ++ (replies w).*1 /\
  (forall io, flusher io w = None -> fl w = Selecting /\ queue w = [] \/ fl w = Stopped \/ wedged w) /\
  (wedged w -> forall hist' w', wal_reach w hist' w' -> replies w' = replies w).
Proof.
  intros Hr. split; [|split].
  - symmetry. exact (reach_held _ _ _ Hr).
  - intros io. apply flusher_waits.
  - intros Hw hist' w' Hr'. by apply (wedged_reach w hist' w').
Qed.

Lemma wal_no_request_lost_witness :
  exists e w, wal_reach (NewBatchingWAL []) [e] w /\ fl w = Draining [e] /\
    [e] ≡ₚ inflight w ++ msg_entries (queue w) ++ in_hand (fl w) ++ (replies w).*1.
Proof.
  set (s1 := append_assign (NewBatchingWAL []) 7 LogTypeUpdate 3 (str "k") [] (str "v")).
  set (s2 := default s1.2 (append_send s1.2 0)). set (s3 := default s1.2 (flusher IoOk s2)).
  assert (wal_reach (NewBatchingWAL []) ((([] ++ [s1.1]) ++ []) ++ []) s3) as Hr.
  { eapply (reach_step _ _ s2); [|apply (step_flusher _ IoOk); vm_compute; reflexivity].
    eapply (reach_step _ _ s1.2); [|apply (step_send _ 0); vm_compute; reflexivity].
    eapply reach_step; [apply reach_start|]. apply (step_assign _ 7 LogTypeUpdate 3 (str "k") [] (str "v")). vm_compute. reflexivity. }
  exists s1.1, s3. split; [exact Hr|]. split; [vm_compute; reflexivity|].
  exact (proj1 (wal_no_request_lost [] _ s3 Hr)).
Defined.

(** Callers can fill the queue whatever the flusher does. *)
Lemma reach_full w0 hist w n :
  wal_reach w0 hist w -> (length (queue w) + n = queue_capacity)%nat ->
  exists hist' w', wal_reach w0 hist' w' /\ fl w' = fl w /\ length (queue w') = queue_capacity.
Proof.
  revert hist w. induction n as [|n IH]; intros hist w Hr Hn.
  { exists hist, w. split; [done|]. split; [done|]. lia. }
  destruct (send w MsgTruncate) as [w'|] eqn:E; [|unfold send in E; rewrite decide_True in E by lia; done].
  destruct (IH (hist ++ []) w') as (h2 & w2 & Hr2 & Ef & Hl).
  - eapply reach_step; [exact Hr|by apply step_checkpoint].
  - unfold send in E. rewrite decide_True in E by lia. injection E as <-. cbn. rewrite length_app. cbn. lia.
  - exists h2, w2. split; [done|]. split; [|done]. rewrite Ef. unfold send in E. rewrite decide_True in E by lia. by injection E as <-.
Qed.

(** It happens: the flusher takes a record and then the request of a checkpoint
    out of the queue, other callers fill the queue, and the flusher, which is the
    only reader of the queue, waits for room in it. *)
Theorem checkpoint_can_wedge_log : exists hist w, wal_reach (NewBatchingWAL []) hist w /\ wedged w.
Proof.
  set (s1 := append_assign (NewBatchingWAL []) 1 LogTypeBegin 0 [] [] []).
  set (s2 := default s1.2 (append_send s1.2 0)). set (s3 := default s1.2 (send s2 MsgTruncate)).
  set (s4 := default s1.2 (flusher IoOk s3)). set (s5 := default s1.2 (flusher IoOk s4)).
  destruct (reach_full (NewBatchingWAL []) ((((([] ++ [s1.1]) ++ []) ++ []) ++ []) ++ []) s5 queue_capacity) as (hist & w & Hr & Ef & Hl).
  - eapply (reach_step _ _ s4); [|apply (step_flusher _ IoOk); vm_compute; reflexivity].
    eapply (reach_step _ _ s3); [|apply (step_flusher _ IoOk); vm_compute; reflexivity].
    eapply (reach_step _ _ s2); [|apply step_checkpoint; vm_compute; reflexivity].
    eapply (reach_step _ _ s1.2); [|apply (step_send _ 0); vm_compute; reflexivity].
    eapply reach_step; [apply reach_start|]. apply (step_assign _ 1 LogTypeBegin 0 [] [] []). vm_compute. reflexivity.
  - vm_compute. reflexivity.
  - exists hist, w. split; [done|]. exists [s1.1]. split; [rewrite Ef; vm_compute; reflexivity|]. by rewrite Hl.
Qed.

(** The flusher acknowledges a record without error only after it is in the
    file: in any step, with any I/O outcome, every record newly answered with
    no error is a whole frame behind the old contents of the file. *)
Theorem flusher_ack_durable w io w' :
  flusher io w = Some w' ->
  exists new, replies w' = replies w ++ new /\
    forall e, (e, None) ∈ new ->
      exists a b, wal_file w' = wal_file w ++ a ++ writeEntry e ++ b.
Proof.
  assert (forall w1 w2 : BatchingWAL, replies w2 = replies w1 -> exists new, replies w2 = replies w1 ++ new /\
    forall e, (e, None) ∈ new -> exists a b, wal_file w2 = wal_file w1 ++ a ++ writeEntry e ++ b) as Hsame.
  { intros w1 w2 E. exists []. rewrite app_nil_r. split; [done|]. intros e He. by apply not_elem_of_nil in He. }
  assert (forall es, exists new, replies (write_batch es (io_batch io) w) = replies w ++ new /\
    forall e, (e, None) ∈ new -> exists a b, wal_file (write_batch es (io_batch io) w) = wal_file w ++ a ++ writeEntry e ++ b) as Hw.
  { intros es. unfold write_batch. destruct (flush_batch w (write_entries es) (io_batch io)) as [[f bwe] err] eqn:Ef.
    eexists. split; [reflexivity|]. intros e Hin. apply (list_elem_of_fmap (fun e => (e, err)) es) in Hin as (e' & [= <- <-] & Hin).
    destruct (write_entries_elem e es Hin) as (a & b & E). exists a, b. cbn [wal_file]. rewrite <- E. unfold flush_batch in Ef.
    destruct (bw_err w); [done|]. destruct (wal_open w); [|done]. cbn in Ef. destruct (io_batch io); by simplify_eq. }
  unfold flusher. destruct (fl w) as [|l|l|l|]; [| | |by intros [= <-]|done].
  - destruct (queue w) as [|[e|] q]; [done|intros [= <-]; by apply Hsame..].
  - case_decide; [|by intros [= <-]]. destruct (queue w) as [|[e|] q]; intros [= <-]; [done|by apply Hsame..].
  - case_decide; [|done]. intros [= <-]. by apply Hsame.
Qed.

Lemma flusher_ack_durable_witness :
  let w := mkWAL (str "old") true None [] (Writing [sample_entry]) 0 ∅ [] [] false false in
  exists w', flusher IoOk w = Some w' /\ replies w' = [(sample_entry, None)] /\
    exists a b, wal_file w' = str "old" ++ a ++ writeEntry sample_entry ++ b.
Proof.
  intros w. destruct (flusher IoOk w) as [w'|] eqn:E; [|vm_compute in E; discriminate].
  destruct (flusher_ack_durable w IoOk w' E) as (new & Hr & H).
  exists w'. assert (replies w' = [(sample_entry, None)]) as Hw'.
  { unfold w, flusher in E. injection E as <-. reflexivity. }
  split; [reflexivity|]. split; [exact Hw'|]. apply H. rewrite Hw' in Hr. cbn in Hr. rewrite <- Hr.
  left.
Defined.

(** LSNs are not file offsets when callers overlap.  [Append] assigns the
    LSN under the mutex but sends the record after releasing it; from a fresh
    log, two callers can reach a state where both were answered without error,
    nothing is under way, and the record at offset 0 carries LSN 49 while the
    record with LSN 0 sits at offset 49.  The undo pass, which seeks to an LSN,
    then reads the wrong record. *)
Theorem concurrent_append_lsn_not_offset :
  exists e1 e2 w,
    wal_reach (NewBatchingWAL []) [e1; e2] w /\ e_lsn e1 = 0 /\ e_lsn e2 = 49 /\
    queue w = [] /\ inflight w = [] /\ replies w = [(e2, None); (e1, None)] /\
    wal_file w = writeEntry e2 ++ writeEntry e1.
Proof.
  set (e1 := mkEntry 0 1 0 LogTypeBegin 0 [] [] []).
  set (e2 := mkEntry 49 2 0 LogTypeBegin 0 [] [] []).
  set (s1 := append_assign (NewBatchingWAL []) 1 LogTypeBegin 0 [] [] []).
  set (s2 := append_assign s1.2 2 LogTypeBegin 0 [] [] []).
  set (s3 := default s1.2 (append_send s2.2 1)). set (s4 := default s1.2 (append_send s3 0)).
  set (s5 := default s1.2 (flusher IoOk s4)). set (s6 := default s1.2 (flusher IoOk s5)).
  set (s7 := default s1.2 (flusher IoOk s6)).
  exists e1, e2, s7. split; [|split_and!; vm_compute; reflexivity].
  change [e1; e2] with ((((((([] ++ [e1]) ++ [e2]) ++ []) ++ []) ++ []) ++ []) ++ []).
  eapply (reach_step _ _ s6); [|apply (step_flusher _ IoOk); vm_compute; reflexivity].
  eapply (reach_step _ _ s5); [|apply (step_flusher _ IoOk); vm_compute; reflexivity].
  eapply (reach_step _ _ s4); [|apply (step_flusher _ IoOk); vm_compute; reflexivity].
  eapply (reach_step _ _ s3); [|apply (step_send _ 0); vm_compute; reflexivity].
  eapply (reach_step _ _ s2.2); [|apply (step_send _ 1); vm_compute; reflexivity].
  eapply (reach_step _ _ s1.2);
    [|apply (step_assign _ 2 LogTypeBegin 0 [] [] []); vm_compute; reflexivity].
  eapply reach_step; [apply reach_start|].
  apply (step_assign _ 1 LogTypeBegin 0 [] [] []). vm_compute. reflexivity.
Qed.

(** A checkpoint does not reset the transactions' back pointers.  After
    [Checkpoint] the log is empty and LSNs restart at 0, but the next record of
    a transaction that was active before still points to its old LSN, which is
    now past the end of the log. *)
Theorem checkpoint_keeps_stale_prevLSN :
  exists w1 w2 w3 w4,
    Append (NewBatchingWAL []) 1 LogTypeBegin 0 [] [] [] IoOk = Some (0, None, w1) /\
    Append w1 2 LogTypeBegin 0 [] [] [] IoOk = Some (49, None, w2) /\
    Checkpoint w2 IoOk = Some w3 /\ wal_file w3 = [] /\ currentLSN w3 = 0 /\
    Append w3 2 LogTypeUpdate 0 (str "k") [] (str "v") IoOk = Some (0, None, w4) /\
    wal_file w4 = writeEntry (mkEntry 0 2 49 LogTypeUpdate 0 (str "k") [] (str "v")).
Proof.
  set (get := fun o : option (Z * option error * BatchingWAL) =>
    match o with Some (_, w) => w | None => NewBatchingWAL [] end).
  set (w1 := get (Append (NewBatchingWAL []) 1 LogTypeBegin 0 [] [] [] IoOk)).
  set (w2 := get (Append w1 2 LogTypeBegin 0 [] [] [] IoOk)).
  set (w3 := default w2 (Checkpoint w2 IoOk)).
  exists w1, w2, w3, (get (Append w3 2 LogTypeUpdate 0 (str "k") [] (str "v") IoOk)).
  split_and!; vm_compute; reflexivity.
Qed.
