(* ===== verification/DBPage.v ===== *)
(** The slotted-page operations of the database (db.go), on the bytes of one
    page: compaction, insertion, lookup and scan, and the recovery write.  Each
    is related to a function on the list of records the page holds. *)

From Stdlib Require Import Strings.Byte.
From S2P Require Import Common.
From S2P Require Import Prelude.
From S2P Require Import Page.
From S2P Require Import Slotted.
From S2P Require Import Telemetry.

(** ** Time *)

(** The readings of the clock a write makes: [nowNano], the reading the TTL is
    added to, and the one compaction compares expiries with; [elapsed] is what
    the compaction timer reports. *)
Record clock := mkClock { nowNano : Z; nowTTL : Z; nowCompact : Z; elapsed : Z }.

(** ** Visibility *)

Definition isRecordVisible (recordTxnID readTxnID : Z) (isActive : bool) : bool :=
  if isActive then recordTxnID <=? readTxnID else true.

(** ** compactPage *)

(** The loop body that collects the latest live record of each key. *)
Definition compact_body (now : Z) (i : Z) (r : record) (latestRecords : gmap bytes record) :
    gmap bytes record :=
  if (match latestRecords !! key r with
      | None => true
      | Some existing => txnID existing <? txnID r
      end)
  then if now <? i64 (expiresAt r) then <[key r := r]> latestRecords else latestRecords
  else latestRecords.

(** The loop that packs the collected records into the fresh page. *)
Fixpoint repack (rs : list record) (d : mem) (slotIdx : Z) : result (mem * Z) :=
  match rs with
  | [] => Ok (d, slotIdx)
  | rec :: rs' => d ← push_record d slotIdx rec; repack rs' d (u32 (slotIdx + 1))
  end.

Section PageOps.
Context `{MR : MapRange}.

Definition compactPage (now dt : Z) (d : mem) (m : option AtomicMetrics) :
    result (mem * option AtomicMetrics) :=
  latestRecords ← for_slots d (compact_body now) ∅;
  '(d, slotIdx) ← repack (range latestRecords).*2 (Init d) 0;
  Ok (SetSlotCount d slotIdx, RecordPageCompactionTime dt <$> m).

(** ** Write *)

(** [mixParam interface{}] by its dynamic type. *)
Inductive MixParam := MixDuration (v : Z) | MixInt64 (v : Z) | MixInt (v : Z) | MixOther.

Definition default_ttl : Z := 100 * 365 * 24 * 3600 * 1000000000.

Definition write_expiry (c : clock) (mixParam : MixParam) : Z :=
  let far := u64 (i64 (nowNano c + default_ttl)) in
  match mixParam with
  | MixDuration v | MixInt64 v | MixInt v => if 0 <? v then u64 (i64 (nowTTL c + v)) else far
  | MixOther => far
  end.

(** Step 4 and 5 of [Write], and the end of [restoreWrite]: payload, slot,
    boundaries, slot count. *)
Definition insert_record (d : mem) (r : record) : result mem :=
  let recordSize := u32 (record_size r) in
  let currentUpper := GetUpperBoundary d in
  let newOffset := u32 (currentUpper - recordSize) in
  d ← put_record d newOffset currentUpper r;
  let currentSlots := GetSlotCount d in
  d ← WriteSlot d currentSlots (mkSlot (u16 newOffset) (u16 recordSize));
  let d := SetLowerBoundary d (u32 (PageHeaderSize + u32 (u32 (currentSlots + 1) * 4))) in
  let d := SetUpperBoundary d newOffset in
  Ok (SetSlotCount d (u32 (currentSlots + 1))).

Definition ErrPageOverflow : error :=
  Msg "slotted storage page overflowed: frame full after complete compression pass".
Definition ErrRecoveryOverflow : error := Msg "page overflow during recovery operations".

(** The body of [Write] between the fetch and the deferred unpin: the error it
    returns, the page it leaves and the metrics. *)
Definition write_page (c : clock) (d : mem) (m : option AtomicMetrics) (r : record) :
    result (option error * mem * option AtomicMetrics) :=
  let d := if (GetUpperBoundary d =? 0) || (32768 <? GetUpperBoundary d) then Init d else d in
  let recordSize := u32 (record_size r) in
  '(d, m) ← (if negb (IsSafeForInsert d recordSize)
             then compactPage (nowCompact c) (elapsed c) d m else Ok (d, m));
  if negb (IsSafeForInsert d recordSize)
  then Ok (Some ErrPageOverflow, d, m)
  else
    let newOffset := u32 (GetUpperBoundary d - recordSize) in
    if (newOffset <? GetLowerBoundary d) || (32768 <? newOffset)
    then Ok (Some (Msg "critical slotted calculation pointer anomaly"), d, m)
    else d ← insert_record d r; Ok (None, d, m).

(** The body of [restoreWrite]. *)
Definition restore_page (c : clock) (d : mem) (m : option AtomicMetrics) (r : record) :
    result (option error * mem * option AtomicMetrics) :=
  let recordSize := u32 (record_size r) in
  '(d, m) ← (if negb (IsSafeForInsert d recordSize)
             then compactPage (nowCompact c) (elapsed c) d m else Ok (d, m));
  if negb (IsSafeForInsert d recordSize)
  then Ok (Some ErrRecoveryOverflow, d, m)
  else d ← insert_record d r; Ok (None, d, m).

(** ** Read *)

(** [latestValue] ([None] for nil), [highestTxnID] and [highestSlot]. *)
Definition read_body (now : Z) (activeTxns : gset Z) (readTxnID : Z) (k : bytes) (i : Z)
    (r : record) (st : option bytes * Z * Z) : option bytes * Z * Z :=
  let '(latestValue, highestTxnID, highestSlot) := st in
  let isActive := bool_decide (txnID r ∈ activeTxns) in
  let isCommitted := negb isActive || (txnID r =? readTxnID) in
  if bytes_equal (key r) k && isRecordVisible (txnID r) readTxnID isActive && isCommitted
  then
    let better := (highestSlot <? i) || ((i =? highestSlot) && (highestTxnID <=? txnID r)) in
    if negb better then st
    else (if now <? i64 (expiresAt r) then Some (val r) else None, txnID r, i)
  else st.

Definition ErrKeyNotFound : error := Msg "key not found or expired within slotted scope".

Definition read_page (now : Z) (activeTxns : gset Z) (readTxnID : Z) (k : bytes) (d : mem) :
    result bytes :=
  '(latestValue, _, _) ← for_slots d (read_body now activeTxns readTxnID k) (None, 0, -1);
  match latestValue with Some v => Ok v | None => Err ErrKeyNotFound end.

(** ** Scan *)

(** [scanRecord]: transaction, slot, value. *)
Definition scan_body (now : Z) (activeTxns : gset Z) (readTxnID : Z) (prefix : bytes) (i : Z)
    (r : record) (latest : gmap bytes (Z * Z * bytes)) : gmap bytes (Z * Z * bytes) :=
  let isActive := bool_decide (txnID r ∈ activeTxns) in
  if (negb isActive || (txnID r =? readTxnID)) && has_prefix (key r) prefix &&
     isRecordVisible (txnID r) readTxnID isActive
  then
    let better := match latest !! key r with
                  | None => true
                  | Some (t, slot, _) => (slot <? i) || ((i =? slot) && (t <=? txnID r))
                  end in
    if better
    then if now <? i64 (expiresAt r) then <[key r := (txnID r, i, val r)]> latest
         else delete (key r) latest
    else latest
  else latest.

(** [for k, rec := range latest { if !iter(k, rec.val) { break } }] over a
    callback with its own state. *)
Fixpoint iterate {S} (iter : bytes -> bytes -> S -> bool * S) (l : list (bytes * (Z * Z * bytes)))
    (s : S) : S :=
  match l with
  | [] => s
  | (k, (_, v)) :: l' => let '(b, s) := iter k v s in if b then iterate iter l' s else s
  end.

Definition scan_page {S} (now : Z) (activeTxns : gset Z) (readTxnID : Z) (prefix : bytes) (d : mem)
    (iter : bytes -> bytes -> S -> bool * S) (s : S) : result S :=
  latest ← for_slots d (scan_body now activeTxns readTxnID prefix) ∅;
  Ok (iterate iter (range latest) s).
End PageOps.

(** * What the operations mean on lists of records *)

Definition visible (active : gset Z) (readTxnID : Z) (r : record) : bool :=
  negb (bool_decide (txnID r ∈ active)) || (txnID r =? readTxnID).

Definition live (now : Z) (r : record) : bool := now <? i64 (expiresAt r).

(** The newest visible record of the key decides; an expired one hides the
    older ones. *)
Definition read_spec (now : Z) (active : gset Z) (readTxnID : Z) (k : bytes) (rs : list record) :
    option bytes :=
  match last (filter (fun r => key r = k /\ visible active readTxnID r = true) rs) with
  | Some r => if live now r then Some (val r) else None
  | None => None
  end.

(** The record compaction keeps for a key: among the live ones, the first
    with the highest transaction id. *)
Definition compact_pick (now : Z) (k : bytes) (rs : list record) : option record :=
  fold_left (fun best r =>
    if bool_decide (key r = k) && live now r
    then match best with
         | Some b => if txnID b <? txnID r then Some r else best
         | None => Some r
         end
    else best) rs None.

Definition compact_map (now : Z) (rs : list record) : gmap bytes record :=
  fold_records (compact_body now) 0 rs ∅.

(** The records of a compacted page, in the order the map is ranged over. *)
Definition compacted `{MapRange} (now : Z) (rs : list record) : list record :=
  (range (compact_map now rs)).*2.

(** Room for one more record. *)
Definition room (rs : list record) (r : record) : Prop :=
  PageHeaderSize + 4 * (zlen rs + 1) + total rs + record_size r <= PageSize.

#[export] Instance room_dec rs r : Decision (room rs r).
Proof. unfold room. apply _. Defined.

(** A page the database may meet: formatted with records, or never written. *)
Definition page_holds (d : mem) (rs : list record) : Prop :=
  page_repr d rs \/
  (rs = [] /\ GetSlotCount d = 0 /\ GetLowerBoundary d = 0 /\ GetUpperBoundary d = 0).

#[export] Instance page_holds_proper : Proper (image_eq 4 ==> eq ==> iff) page_holds.
Proof.
  intros d1 d2 E rs ? <-. unfold page_holds. rewrite (page_repr_proper _ _ E rs rs eq_refl).
  by rewrite (GetSlotCount_proper _ _ E), (GetLowerBoundary_proper _ _ E),
    (GetUpperBoundary_proper _ _ E).
Qed.

(** ** Loops over the slots *)

Lemma for_slots_holds {S} d rs (body : Z -> record -> S -> S) s :
  page_holds d rs -> for_slots d body s = Ok (fold_records body 0 rs s).
Proof.
  intros [H|(-> & Hc & _)]; [by apply for_slots_repr|]. unfold for_slots. by rewrite Hc.
Qed.

Lemma visible_read active readTxn r :
  isRecordVisible (txnID r) readTxn (bool_decide (txnID r ∈ active)) &&
  (negb (bool_decide (txnID r ∈ active)) || (txnID r =? readTxn)) = visible active readTxn r.
Proof.
  unfold visible, isRecordVisible. destruct (bool_decide (txnID r ∈ active)); cbn; [|done].
  destruct (txnID r =? readTxn) eqn:E; bprop; [|by rewrite andb_false_r].
  rewrite andb_true_r. apply Z.leb_le. lia.
Qed.

Lemma last_cons_default {A} (x : A) l : last (x :: l) = Some (default x (last l)).
Proof. rewrite last_cons. by destruct (last l). Qed.

Lemma read_fold now active readTxn k rs i v t s :
  s < i ->
  (fold_records (read_body now active readTxn k) i rs (v, t, s)).1.1 =
  match last (filter (fun r => key r = k /\ visible active readTxn r = true) rs) with
  | Some r => if live now r then Some (val r) else None
  | None => v
  end.
Proof.
  revert i v t s. induction rs as [|r rs IH]; intros i v t s Hs; [done|]. cbn [fold_records].
  unfold read_body at 2. rewrite <- andb_assoc, visible_read. unfold bytes_equal.
  rewrite filter_cons. destruct (decide (key r = k /\ visible active readTxn r = true)) as [[Hk Hv]|Hn].
  - rewrite bool_decide_eq_true_2, Hv by done. cbn [andb].
    rewrite (proj2 (Z.ltb_lt s i)) by done. cbn [orb negb]. rewrite IH by lia.
    rewrite last_cons_default. by destruct (last _).
  - replace (bool_decide (key r = k) && visible active readTxn r) with false.
    + apply IH. lia.
    + symmetry. apply andb_false_iff. destruct (decide (key r = k)).
      * right. destruct (visible active readTxn r); naive_solver.
      * left. by apply bool_decide_eq_false_2.
Qed.

(** [Read] on a page returns what the newest visible record says. *)
Lemma read_page_spec now active readTxn k d rs :
  page_holds d rs ->
  read_page now active readTxn k d =
  match read_spec now active readTxn k rs with Some v => Ok v | None => Err ErrKeyNotFound end.
Proof.
  intros H. unfold read_page. rewrite (for_slots_holds d rs) by done.
  pose proof (read_fold now active readTxn k rs 0 None 0 (-1) ltac:(lia)) as E.
  destruct (fold_records _ 0 rs _) as [[v t] s]. cbn in *. unfold read_spec. by rewrite E.
Qed.

Lemma scan_fold now active readTxn pre rs i m k :
  (forall k t s v, m !! k = Some (t, s, v) -> s < i) ->
  snd <$> fold_records (scan_body now active readTxn pre) i rs m !! k =
  match last (filter (fun r => key r = k /\ visible active readTxn r = true) rs) with
  | Some r => if has_prefix k pre then if live now r then Some (val r) else None
              else snd <$> m !! k
  | None => snd <$> m !! k
  end.
Proof.
  revert i m. induction rs as [|r rs IH]; intros i m Hm; [done|]. cbn [fold_records].
  unfold scan_body at 2. rewrite (andb_comm (_ || _)), <- andb_assoc, (andb_comm (_ || _)), visible_read.
  rewrite filter_cons.
  destruct (has_prefix (key r) pre) eqn:Hp, (visible active readTxn r) eqn:Hv; cbn [andb].
  2,4: rewrite decide_False by naive_solver; apply IH; intros; apply Hm in H; lia.
  2:{ rewrite IH by (intros ???? Hx; apply Hm in Hx; lia).
      destruct (decide _) as [[<- _]|]; [|done]. rewrite last_cons_default, Hp.
      by destruct (last _). }
  assert (match m !! key r with Some (t, slot, _) => (slot <? i) || ((i =? slot) && (t <=? txnID r))
    | None => true end = true) as ->.
  { destruct (m !! key r) as [[[t s] v]|] eqn:E; [|done].
    by rewrite (proj2 (Z.ltb_lt s i)) by by eapply Hm. }
  rewrite IH.
  2:{ intros k' t s v. destruct (now <? _).
      - intros [[_ [= <- <- <-]]|[_ E]]%lookup_insert_Some; [lia|]. apply Hm in E. lia.
      - intros [_ E]%lookup_delete_Some. apply Hm in E. lia. }
  destruct (decide (key r = k /\ true = true)) as [[<- _]|Hn].
  - rewrite last_cons_default, Hp. fold (live now r). destruct (last _) as [r'|] eqn:El; cbn; [done|].
    destruct (live now r); [by rewrite lookup_insert_eq | by rewrite lookup_delete_eq].
  - assert (key r <> k) as Hne by naive_solver. fold (live now r).
    replace ((if live now r then <[key r:=(txnID r, i, val r)]> m else delete (key r) m) !! k)
      with (m !! k); [done|].
    destruct (live now r); [by rewrite lookup_insert_ne | by rewrite lookup_delete_ne].
Qed.

(** The map [Scan] ranges over holds the value [Read] would return, for
    exactly the keys with the prefix that [Read] finds. *)
Lemma scan_map_spec now active readTxn pre rs k :
  snd <$> fold_records (scan_body now active readTxn pre) 0 rs ∅ !! k =
  if has_prefix k pre then read_spec now active readTxn k rs else None.
Proof.
  rewrite scan_fold by set_solver. rewrite lookup_empty. unfold read_spec. cbn.
  destruct (last _); by destruct (has_prefix k pre).
Qed.

(** ** Compaction on lists *)

Lemma compact_lookup_from now k rs i m :
  fold_records (compact_body now) i rs m !! k =
  fold_left (fun best r =>
    if bool_decide (key r = k) && live now r
    then match best with
         | Some b => if txnID b <? txnID r then Some r else best
         | None => Some r
         end
    else best) rs (m !! k).
Proof.
  revert i m. induction rs as [|r rs IH]; intros i m; [done|]. cbn [fold_records fold_left].
  rewrite IH. f_equal. unfold compact_body, live.
  destruct (decide (key r = k)) as [<-|Hne].
  - rewrite (bool_decide_eq_true_2 (key r = key r)) by done. cbn [andb].
    destruct (m !! key r) as [b|] eqn:Em.
    + destruct (txnID b <? txnID r); [|by rewrite Em; case_match].
      case_match; [by rewrite lookup_insert_eq | done].
    + case_match; [by rewrite lookup_insert_eq | done].
  - rewrite (bool_decide_eq_false_2 (key r = k)) by done. cbn [andb].
    repeat case_match; try done; by rewrite lookup_insert_ne.
Qed.

Lemma compact_lookup now k rs : compact_map now rs !! k = compact_pick now k rs.
Proof. unfold compact_map, compact_pick. by rewrite compact_lookup_from. Qed.

(** Records come from the page, under their own key. *)
Lemma compact_map_from (P : record -> Prop) now rs i m :
  Forall P rs -> map_Forall (fun k r => key r = k /\ P r /\ live now r = true) m ->
  map_Forall (fun k r => key r = k /\ P r /\ live now r = true) (fold_records (compact_body now) i rs m).
Proof.
  revert i m. induction rs as [|r rs IH]; intros i m Hrs Hm; [done|].
  apply Forall_cons in Hrs as [Hr Hrs]. cbn [fold_records]. apply IH; [done|].
  unfold compact_body. fold (live now r). case_match; [|done]. destruct (live now r) eqn:El; [|done].
  intros k r'. intros [[<- <-]|[_ E]]%lookup_insert_Some; [done|]. by apply Hm.
Qed.

(** Space used by the records of a map. *)
Definition map_space (m : gmap bytes record) : Z := map_fold (fun _ r acc => record_size r + acc) 0 m.

Lemma map_space_insert k r m :
  map_space (<[k := r]> m) <= record_size r + map_space m /\
  Z.of_nat (size (<[k := r]> m)) <= 1 + Z.of_nat (size m).
Proof.
  pose proof (record_size_pos r). unfold RecordHeaderSize in *.
  assert (forall k r m, m !! k = None -> map_space (<[k := r]> m) = record_size r + map_space m) as Hins.
  { intros. unfold map_space. rewrite map_fold_insert_L; [done | intros; lia | done]. }
  destruct (m !! k) as [r0|] eqn:E.
  - rewrite <- (insert_delete_id m k r0 E) at 2. rewrite <- insert_delete_eq.
    rewrite !Hins by apply lookup_delete_eq. pose proof (record_size_pos r0).
    unfold RecordHeaderSize in *.
    split; [lia|]. rewrite map_size_insert_None by apply lookup_delete_eq.
    rewrite map_size_delete_Some by eauto.
    assert (size m <> 0%nat); [|lia]. intros E0%map_size_empty_iff. subst. done.
  - rewrite Hins, map_size_insert_None by done. split; lia.
Qed.

Lemma compact_space now rs i m :
  map_space (fold_records (compact_body now) i rs m) <= total rs + map_space m /\
  Z.of_nat (size (fold_records (compact_body now) i rs m)) <= zlen rs + Z.of_nat (size m).
Proof.
  revert i m. induction rs as [|r rs IH]; intros i m; [unfold zlen; cbn; lia|].
  cbn [fold_records total foldr]. fold (total rs).
  destruct (IH (i + 1) (compact_body now i r m)) as [H1 H2]. rewrite zlen_cons.
  pose proof (record_size_pos r). unfold RecordHeaderSize in *.
  destruct (map_space_insert (key r) r m) as [H3 H4].
  unfold compact_body in *. repeat case_match; lia.
Qed.

Lemma total_perm a b : a ≡ₚ b -> total a = total b.
Proof. induction 1; unfold total in *; cbn [foldr] in *; lia. Qed.

Lemma map_space_total m : total (map_to_list m).*2 = map_space m.
Proof.
  induction m as [|k r m Hk Hfst IH] using map_first_key_ind.
  - rewrite map_to_list_empty. done.
  - rewrite map_to_list_insert_first_key, fmap_cons by done. cbn [total foldr].
    fold (total (map_to_list m).*2). rewrite IH. unfold map_space.
    rewrite map_fold_insert_L; [done | intros; lia | done].
Qed.

Section Compacted.
Context `{MR : MapRange}.

(** A compacted page never needs more room than the page it came from. *)
Lemma compacted_fits now rs :
  total (compacted now rs) <= total rs /\ zlen (compacted now rs) <= zlen rs.
Proof.
  destruct (compact_space now rs 0 ∅) as [H1 H2].
  fold (compact_map now rs) in *. unfold compacted, zlen in *.
  rewrite (total_perm _ (map_to_list (compact_map now rs)).*2), map_space_total.
  - rewrite length_fmap, length_range, map_size_empty in *. change (map_space ∅) with 0 in H1. split; lia.
  - apply fmap_Permutation, range_perm.
Qed.

Lemma elem_of_compacted now rs r :
  r ∈ compacted now rs <-> compact_pick now (key r) rs = Some r.
Proof.
  pose proof (compact_map_from (fun _ => True) now rs 0 ∅ ltac:(by apply Forall_true)
    ltac:(by apply map_Forall_empty)) as Hkeys. fold (compact_map now rs) in Hkeys.
  unfold compacted. rewrite list_elem_of_fmap. split.
  - intros ([k r'] & -> & Hin). apply elem_of_range in Hin. cbn.
    destruct (Hkeys k r' Hin) as (<- & _). by rewrite <- compact_lookup.
  - intros E. exists (key r, r). split; [done|]. apply elem_of_range. by rewrite compact_lookup.
Qed.

Lemma compacted_ok (P : record -> Prop) now rs : Forall P rs -> Forall P (compacted now rs).
Proof.
  intros HP. pose proof (compact_map_from P now rs 0 ∅ HP ltac:(by apply map_Forall_empty)) as Hm.
  fold (compact_map now rs) in Hm. apply Forall_forall. intros r Hr. unfold compacted in Hr.
  apply list_elem_of_fmap in Hr as ([k r'] & -> & Hin). apply elem_of_range in Hin.
  by apply Hm in Hin as (_ & ? & _).
Qed.

(** Compaction leaves one record per key. *)
Lemma NoDup_compacted now rs : NoDup (key <$> compacted now rs).
Proof.
  pose proof (compact_map_from (fun _ => True) now rs 0 ∅ ltac:(by apply Forall_true)
    ltac:(by apply map_Forall_empty)) as Hkeys. fold (compact_map now rs) in Hkeys.
  unfold compacted. rewrite <- list_fmap_compose.
  replace (key ∘ snd <$> range (compact_map now rs)) with (range (compact_map now rs)).*1;
    [apply NoDup_range_keys|].
  apply list_fmap_ext. intros i [k r] Hi. apply list_elem_of_lookup_2, elem_of_range in Hi.
  cbn. by destruct (Hkeys k r Hi).
Qed.
End Compacted.

(** ** Compaction and insertion on pages *)

Lemma SetSlotCount_repr d rs :
  layout d rs -> zlen rs < 2 ^ 32 -> page_repr (SetSlotCount d (zlen rs)) rs.
Proof.
  intros Hl Hn. pose proof (zlen_nonneg rs). split.
  - unfold GetSlotCount, SetSlotCount. rewrite Uint32_Put. apply u32_small. lia.
  - eapply layout_ext; [|done]. intros i Hi. unfold SetSlotCount, PutUint32. apply store_out.
    rewrite zlen_le_bytes. unfold PageHeaderSize, PageSize in *. lia.
Qed.

(** Packing records behind those a page already has. *)
Lemma repack_layout cs d rs :
  layout d rs -> Forall record_ok cs ->
  PageHeaderSize + 4 * (zlen rs + zlen cs) + total rs + total cs <= PageSize ->
  exists d', repack cs d (zlen rs) = Ok (d', zlen (rs ++ cs)) /\ layout d' (rs ++ cs).
Proof.
  revert d rs. induction cs as [|r cs IH]; intros d rs Hl Hok Hroom.
  { exists d. rewrite app_nil_r. done. }
  apply Forall_cons in Hok as [Hr Hok]. rewrite zlen_cons in Hroom.
  unfold total in Hroom. cbn [foldr] in Hroom. fold (total rs) (total cs) in Hroom.
  pose proof (zlen_nonneg cs). pose proof (total_nonneg cs).
  destruct (push_record_layout d rs r Hl Hr) as (d1 & Hp & Hl1 & _);
    [unfold PageHeaderSize, PageSize in *; lia|].
  cbn [repack]. rewrite Hp. unfold mbind, result_bind.
  pose proof (total_nonneg rs). pose proof (zlen_nonneg rs). pose proof (record_size_pos r).
  unfold PageHeaderSize, PageSize, RecordHeaderSize in *.
  rewrite u32_small by lia. replace (zlen rs + 1) with (zlen (rs ++ [r])) by (rewrite zlen_app; done).
  destruct (IH d1 (rs ++ [r]) Hl1 Hok) as (d' & Hd' & Hl').
  { rewrite zlen_app, total_app. change (zlen [r]) with 1. cbn [total foldr]. lia. }
  exists d'. rewrite <- app_assoc in *. done.
Qed.

Lemma layout_room d rs : layout d rs -> PageHeaderSize + 4 * zlen rs + total rs <= PageSize.
Proof. intros [_ _ Hf _ _ _]. lia. Qed.

Lemma holds_room d rs : page_holds d rs -> PageHeaderSize + 4 * zlen rs + total rs <= PageSize.
Proof. intros [[_ H]|(-> & _)]; [by eapply layout_room | done]. Qed.

Lemma holds_ok d rs : page_holds d rs -> Forall record_ok rs.
Proof. intros [[_ []]|(-> & _)]; [done | constructor]. Qed.

Section PageSpecs.
Context `{MR : MapRange}.

(** Compaction succeeds on every page that holds records and leaves exactly
    the compacted list. *)
Lemma compactPage_spec now dt d m rs :
  page_holds d rs ->
  exists d', compactPage now dt d m = Ok (d', RecordPageCompactionTime dt <$> m) /\
    page_repr d' (compacted now rs).
Proof.
  intros H. unfold compactPage. rewrite (for_slots_holds d rs) by done.
  fold (compact_map now rs). unfold mbind, result_bind. fold (compacted now rs).
  destruct (compacted_fits now rs) as [Ht Hz]. pose proof (holds_room d rs H).
  destruct (repack_layout (compacted now rs) (Init d) []) as (d' & Hr & Hl).
  - apply (Init_repr d).
  - eapply compacted_ok, holds_ok, H.
  - change (zlen []) with 0. change (total []) with 0. lia.
  - change (zlen []) with 0 in Hr. cbn [app] in *. rewrite Hr. eexists. split; [done|].
    apply SetSlotCount_repr; [done|]. unfold PageHeaderSize, PageSize in *.
    pose proof (total_nonneg rs). lia.
Qed.

(** The room test is exact. *)
Lemma IsSafeForInsert_spec d rs r :
  page_repr d rs -> record_size r < 2 ^ 31 ->
  IsSafeForInsert d (u32 (record_size r)) = true <-> room rs r.
Proof.
  intros [_ [Hl Hu Hf _ _ _]] Hr. unfold IsSafeForInsert, room. rewrite Hl, Hu.
  pose proof (record_size_pos r). pose proof (total_nonneg rs). pose proof (zlen_nonneg rs).
  unfold PageHeaderSize, PageSize, RecordHeaderSize in *.
  rewrite (u32_small (record_size r)) by lia.
  rewrite (u32_small (32 + 4 * zlen rs + 4)) by lia.
  rewrite (u32_small (32 + 4 * zlen rs + 4 + record_size r)) by lia.
  rewrite Z.leb_le. lia.
Qed.

Lemma insert_record_push d rs r :
  layout d rs -> room rs r ->
  insert_record d r =
  (d' ← push_record d (GetSlotCount d) r; Ok (SetSlotCount d' (u32 (GetSlotCount d + 1)))).
Proof.
  intros [Hl Hu Hf _ _ _] Hroom. unfold insert_record, push_record, room in *. rewrite Hu.
  pose proof (record_size_pos r). pose proof (total_nonneg rs). pose proof (zlen_nonneg rs).
  unfold PageHeaderSize, PageSize, RecordHeaderSize in *.
  rewrite (u32_small (record_size r)), (u32_small (32768 - total rs - record_size r)) by lia.
  destruct (put_record_ok d (32768 - total rs - record_size r) (32768 - total rs) r)
    as (d1 & -> & Hd1); [lia | lia | unfold PageSize; lia|].
  unfold mbind, result_bind.
  replace (GetSlotCount d1) with (GetSlotCount d); [by destruct (WriteSlot _ _ _)|].
  unfold GetSlotCount. symmetry. apply Uint32_ext. intros i Hi. rewrite Hd1. apply store_out.
  rewrite zlen_encode. lia.
Qed.

(** Inserting where there is room appends to the record list. *)
Lemma insert_record_repr d rs r :
  page_repr d rs -> record_ok r -> room rs r ->
  exists d', insert_record d r = Ok d' /\ page_repr d' (rs ++ [r]).
Proof.
  intros [Hc Hl] Hr Hroom. rewrite (insert_record_push d rs r) by done.
  destruct (push_record_layout d rs r Hl Hr) as (d1 & Hp & Hl1 & _); [unfold room in *; lia|].
  rewrite Hc, Hp. unfold mbind, result_bind. eexists. split; [done|].
  pose proof (record_size_pos r). pose proof (total_nonneg rs). pose proof (zlen_nonneg rs).
  unfold room, PageHeaderSize, PageSize, RecordHeaderSize in *.
  rewrite u32_small by lia. replace (zlen rs + 1) with (zlen (rs ++ [r])) by (rewrite zlen_app; done).
  apply SetSlotCount_repr; [done|]. rewrite zlen_app. change (zlen [r]) with 1. lia.
Qed.

(** The guard of [Write] step 4 never fires on a page with room. *)
Lemma write_guard d rs r :
  page_repr d rs -> room rs r -> record_size r < 2 ^ 31 ->
  (u32 (GetUpperBoundary d - u32 (record_size r)) <? GetLowerBoundary d) ||
  (32768 <? u32 (GetUpperBoundary d - u32 (record_size r))) = false.
Proof.
  intros [_ [Hl Hu Hf _ _ _]] Hroom Hr. rewrite Hl, Hu. unfold room in *.
  pose proof (record_size_pos r). pose proof (total_nonneg rs). pose proof (zlen_nonneg rs).
  unfold PageHeaderSize, PageSize, RecordHeaderSize in *.
  rewrite (u32_small (record_size r)), u32_small by lia.
  apply orb_false_iff. split; apply Z.ltb_ge; lia.
Qed.

(** What a write does to the records of a page. *)
Definition write_spec (now : Z) (rs : list record) (r : record) : bool * list record :=
  if decide (room rs r) then (true, rs ++ [r])
  else if decide (room (compacted now rs) r) then (true, compacted now rs ++ [r])
  else (false, compacted now rs).

(** The part [Write] and [restoreWrite] share, on a formatted page. *)
Lemma make_room c d m rs r :
  page_repr d rs -> record_size r < 2 ^ 31 ->
  exists d' m' rs', (if negb (IsSafeForInsert d (u32 (record_size r)))
      then compactPage (nowCompact c) (elapsed c) d m else Ok (d, m)) = Ok (d', m') /\
    page_repr d' rs' /\
    rs' = (if decide (room rs r) then rs else compacted (nowCompact c) rs) /\
    write_spec (nowCompact c) rs r = (if IsSafeForInsert d' (u32 (record_size r))
      then (true, rs' ++ [r]) else (false, rs')).
Proof.
  intros Hd Hr. unfold write_spec.
  pose proof (IsSafeForInsert_spec d rs r Hd Hr) as Hsafe.
  destruct (IsSafeForInsert d (u32 (record_size r))) eqn:E; cbn [negb].
  - rewrite !decide_True by by apply Hsafe. exists d, m, rs. rewrite E. done.
  - assert (~ room rs r) as Hn by (rewrite <- Hsafe; done).
    rewrite !(decide_False (P := room rs r)) by done.
    destruct (compactPage_spec (nowCompact c) (elapsed c) d m rs ltac:(by left)) as (d' & Hc & Hd').
    eexists d', _, _. rewrite Hc. split_and!; [done | done | done |].
    pose proof (IsSafeForInsert_spec d' _ r Hd' Hr) as Hsafe'.
    destruct (IsSafeForInsert d' _).
    + rewrite decide_True by by apply Hsafe'. done.
    + rewrite decide_False; [done|]. rewrite <- Hsafe'. done.
Qed.

Lemma write_page_spec c d m rs r :
  page_holds d rs -> record_ok r -> record_size r < 2 ^ 31 ->
  exists d' m', write_page c d m r =
      Ok (if (write_spec (nowCompact c) rs r).1 then None else Some ErrPageOverflow, d', m') /\
    page_repr d' (write_spec (nowCompact c) rs r).2.
Proof.
  intros Hd Hok Hr. unfold write_page.
  set (d0 := if (_ || _) then Init d else d).
  assert (page_repr d0 rs) as Hd0.
  { unfold d0. destruct Hd as [[Hc Hl]|(-> & _ & _ & ->)]; [|apply Init_repr].
    pose proof Hl as [Hlo Hu Hf _ _ _]. rewrite Hu. pose proof (total_nonneg rs).
    pose proof (zlen_nonneg rs). unfold PageHeaderSize, PageSize in *.
    rewrite (proj2 (Z.eqb_neq _ _)), (proj2 (Z.ltb_ge _ _)) by lia. by split. }
  destruct (make_room c d0 m rs r Hd0 Hr) as (d1 & m1 & rs1 & -> & Hd1 & _ & Hs).
  unfold mbind, result_bind. rewrite Hs.
  pose proof (IsSafeForInsert_spec d1 rs1 r Hd1 Hr) as Hsafe.
  destruct (IsSafeForInsert d1 _); cbn [negb].
  - assert (room rs1 r) as Hroom by by apply Hsafe. rewrite (write_guard d1 rs1 r) by done.
    destruct (insert_record_repr d1 rs1 r) as (d2 & -> & Hd2); [done..|].
    eexists _, _. by split.
  - eexists _, _. by split.
Qed.

Lemma restore_page_spec c d m rs r :
  page_holds d rs -> record_ok r -> record_size r < 2 ^ 31 ->
  exists d' m', restore_page c d m r =
      Ok (if (write_spec (nowCompact c) rs r).1 then None else Some ErrRecoveryOverflow, d', m') /\
    page_repr d' (write_spec (nowCompact c) rs r).2.
Proof.
  intros [Hd|(-> & Hc & Hlo & Hu)] Hok Hr; unfold restore_page.
  - destruct (make_room c d m rs r Hd Hr) as (d1 & m1 & rs1 & -> & Hd1 & _ & Hs).
    unfold mbind, result_bind. rewrite Hs.
    pose proof (IsSafeForInsert_spec d1 rs1 r Hd1 Hr) as Hsafe.
    destruct (IsSafeForInsert d1 _); cbn [negb].
    + destruct (insert_record_repr d1 rs1 r) as (d2 & -> & Hd2); [done | done | by apply Hsafe|].
      eexists _, _. by split.
    + eexists _, _. by split.
  - assert (IsSafeForInsert d (u32 (record_size r)) = false) as ->.
    { unfold IsSafeForInsert. rewrite Hlo, Hu. pose proof (record_size_pos r).
      unfold RecordHeaderSize in *. rewrite (u32_small (record_size r)) by lia.
      rewrite (u32_small (0 + 4)), u32_small by lia. apply Z.leb_gt. lia. }
    cbn [negb].
    destruct (compactPage_spec (nowCompact c) (elapsed c) d m [] ltac:(by right)) as (d1 & -> & Hd1).
    change (compacted (nowCompact c) []) with ((range (K := bytes) (V := record) ∅).*2) in Hd1.
    assert (range (K := bytes) (V := record) ∅ = []) as Hnil.
    { apply Permutation_nil_r. rewrite range_perm. by rewrite map_to_list_empty. }
    unfold mbind, result_bind. rewrite Hnil in Hd1. cbn in Hd1.
    pose proof (IsSafeForInsert_spec d1 [] r Hd1 Hr) as Hsafe.
    unfold write_spec. assert (compacted (nowCompact c) [] = []) as Hcn.
    { unfold compacted. change (compact_map (nowCompact c) []) with (∅ : gmap bytes record). by rewrite Hnil. }
    rewrite Hcn. destruct (IsSafeForInsert d1 _); cbn [negb].
    + assert (room [] r) as Hroom by by apply Hsafe. rewrite decide_True by done.
      destruct (insert_record_repr d1 [] r) as (d2 & -> & Hd2); [done..|].
      eexists _, _. by split.
    + assert (~ room [] r) as Hroom by (rewrite <- Hsafe; done). rewrite !decide_False by done.
      eexists _, _. by split.
Qed.
End PageSpecs.

(** ** Reading a compacted page *)

Lemma compact_pick_filter now k rs :
  compact_pick now k rs =
  fold_left (fun best r => match best with
    | Some b => if txnID b <? txnID r then Some r else best
    | None => Some r end) (filter (fun r => key r = k /\ live now r = true) rs) None.
Proof.
  unfold compact_pick. generalize (@None record). induction rs as [|r rs IH]; intros b; [done|].
  cbn [fold_left]. rewrite IH, filter_cons. clear IH.
  destruct (decide (key r = k /\ live now r = true)) as [[-> ->]|Hn].
  - by rewrite (bool_decide_eq_true_2 (k = k)).
  - f_equal. destruct (bool_decide (key r = k)) eqn:E; [|done]. apply bool_decide_eq_true in E.
    destruct (live now r); [tauto|done].
Qed.

(** The pick is a live record of the key that no live record of the key beats. *)
Lemma compact_pick_Some now k rs r :
  compact_pick now k rs = Some r ->
  r ∈ rs /\ key r = k /\ live now r = true /\
  forall r', r' ∈ rs -> key r' = k -> live now r' = true -> txnID r' <= txnID r.
Proof.
  rewrite compact_pick_filter.
  set (step := fun (best : option record) r => _).
  assert (forall l b r, fold_left step l b = Some r ->
    (r ∈ l \/ b = Some r) /\ forall r', (r' ∈ l \/ b = Some r') -> txnID r' <= txnID r) as Hf.
  { induction l as [|x l IH]; intros b y; cbn [fold_left].
    - intros ->. split; [by right|]. intros r' [[]%not_elem_of_nil|[= ->]]; lia.
    - intros E. apply IH in E as [Hin Hmax]. unfold step in Hin, Hmax.
      destruct b as [b|]; [destruct (txnID b <? txnID x) eqn:Ec; bprop|]; split.
      all: try (destruct Hin as [?|[= <-]]; [left; by right | set_solver]).
      + intros r' [[->|?]%elem_of_cons|[= <-]]; [apply Hmax; by right | apply Hmax; by left |].
        specialize (Hmax x (or_intror eq_refl)). lia.
      + intros r' [[->|?]%elem_of_cons|[= <-]]; [| apply Hmax; by left | apply Hmax; by right].
        specialize (Hmax b (or_intror eq_refl)). lia.
      + intros r' [[->|?]%elem_of_cons|[=]]; [apply Hmax; by right | apply Hmax; by left]. }
  intros E. apply Hf in E as [[Hin|[=]] Hmax]. apply list_elem_of_filter in Hin as [[Hk Hl] Hin].
  split_and!; try done. intros r' Hr' Hk' Hl'. apply Hmax. left. apply list_elem_of_filter. done.
Qed.

Lemma compact_pick_None now k rs :
  compact_pick now k rs = None <-> forall r, r ∈ rs -> key r = k -> live now r = false.
Proof.
  rewrite compact_pick_filter. set (step := fun (best : option record) r => _).
  assert (forall l b, is_Some b -> is_Some (fold_left step l b)) as Hs.
  { induction l as [|x l IH]; intros b [y ->]; [by eauto|]. cbn [fold_left]. apply IH.
    unfold step. case_match; eauto. }
  split.
  - intros E r Hr Hk. destruct (live now r) eqn:El; [|done]. exfalso.
    assert (r ∈ filter (fun r => key r = k /\ live now r = true) rs) as Hin
      by (apply list_elem_of_filter; done).
    destruct (filter _ rs) as [|x l]; [set_solver|]. cbn [fold_left] in E.
    destruct (Hs l (Some x)) as [y Hy]; [by eauto|]. unfold step at 2 in E. congruence.
  - intros Hd. replace (filter _ rs) with (@nil record); [done|]. symmetry.
    destruct (filter _ rs) as [|x l] eqn:Ef; [done|].
    assert (x ∈ filter (fun r => key r = k /\ live now r = true) rs) as Hin by (rewrite Ef; left).
    apply list_elem_of_filter in Hin as [[Hk Hl] Hx]. rewrite (Hd x Hx Hk) in Hl. done.
Qed.

Section ReadCompacted.
Context `{MR : MapRange}.

Lemma filter_key_compacted now k rs :
  filter (fun r => key r = k) (compacted now rs) = option_list (compact_pick now k rs).
Proof.
  pose proof (NoDup_compacted now rs) as Hnd.
  assert (forall r, r ∈ compacted now rs -> key r = k -> compact_pick now k rs = Some r) as Hin.
  { intros r Hr <-. by apply elem_of_compacted. }
  assert (forall r, compact_pick now k rs = Some r -> r ∈ compacted now rs) as Hback.
  { intros r Hr. apply elem_of_compacted. by apply compact_pick_Some in Hr as Hr'; destruct Hr' as (_ & -> & _). }
  destruct (compact_pick now k rs) as [r|] eqn:Ep; cbn.
  - assert (key r = k) as Hk by by apply compact_pick_Some in Ep as (_ & ? & _).
    specialize (Hback r eq_refl). apply list_elem_of_split in Hback as (l1 & l2 & E).
    rewrite E in *. rewrite fmap_app, fmap_cons in Hnd.
    apply NoDup_app in Hnd as (_ & Hl1 & [Hl2 _]%NoDup_cons).
    rewrite filter_app, filter_cons_True by done.
    assert (forall l : list record, k ∉ key <$> l -> filter (fun r => key r = k) l = []) as Hnil.
    { intros l Hl. destruct (filter _ l) as [|x l'] eqn:Ef; [done|]. exfalso.
      assert (x ∈ filter (fun r => key r = k) l) as [<- Hx]%list_elem_of_filter by (rewrite Ef; left).
      apply Hl. by apply list_elem_of_fmap_2. }
    rewrite !Hnil; [done| by rewrite <- Hk |]. intros Hx. apply (Hl1 k Hx). rewrite Hk. left.
  - destruct (filter _ _) as [|x l'] eqn:Ef; [done|].
    assert (x ∈ filter (fun r => key r = k) (compacted now rs)) as [Hk Hx]%list_elem_of_filter
      by (rewrite Ef; left).
    by specialize (Hin x Hx Hk).
Qed.

Lemma filter_and {A} (P Q : A -> Prop) `{!forall x, Decision (P x), !forall x, Decision (Q x)} (l : list A) :
  filter (fun x => P x /\ Q x) l = filter Q (filter P l).
Proof.
  induction l as [|x l IH]; [done|]. rewrite !filter_cons.
  destruct (decide (P x)) as [HP|HP].
  - rewrite filter_cons. destruct (decide (Q x)) as [HQ|HQ].
    + rewrite decide_True by done. by f_equal.
    + rewrite decide_False by tauto. done.
  - rewrite decide_False by tauto. done.
Qed.

(** Reading a key after compaction looks at the picked record only. *)
Lemma read_compacted now now' active t k rs :
  read_spec now' active t k (compacted now rs) =
  match compact_pick now k rs with
  | Some r => if visible active t r && live now' r then Some (val r) else None
  | None => None
  end.
Proof.
  unfold read_spec. rewrite filter_and, filter_key_compacted.
  destruct (compact_pick now k rs) as [r|]; [|done].
  change (option_list (Some r)) with [r]. rewrite filter_cons. destruct (visible active t r); cbn.
  - by rewrite decide_True by done.
  - by rewrite decide_False by done.
Qed.

(** Compaction keeps what a reader sees of a key when the key's newest record
    has a higher transaction id than its older ones, is visible to the reader,
    and either is live or every record of the key has expired. *)
Lemma compaction_keeps_read now now' active t k rs l r :
  filter (fun r => key r = k) rs = l ++ [r] ->
  Forall (fun r' => txnID r' < txnID r) l ->
  visible active t r = true ->
  live now r = true \/ (now <= now' /\ Forall (fun r => live now r = false) (l ++ [r])) ->
  read_spec now' active t k (compacted now rs) = read_spec now' active t k rs.
Proof.
  intros Hf Hl Hv Hlive. rewrite read_compacted. unfold read_spec.
  rewrite (filter_and (fun r => key r = k)), Hf, filter_app, (filter_cons_True _ r), filter_nil, last_snoc by done.
  assert (forall x, x ∈ rs -> key x = k -> x ∈ l ++ [r]) as Hin.
  { intros x Hx Hk. rewrite <- Hf. by apply list_elem_of_filter. }
  assert (r ∈ rs /\ key r = k) as [Hr Hk].
  { assert (r ∈ filter (fun r => key r = k) rs) as [? ?]%list_elem_of_filter; [|done].
    rewrite Hf. set_solver. }
  destruct Hlive as [Hlr|[Hnow Hdead]].
  - destruct (compact_pick now k rs) as [x|] eqn:Ep.
    + apply compact_pick_Some in Ep as (Hx & Hxk & _ & Hmax). specialize (Hmax r Hr Hk Hlr).
      specialize (Hin x Hx Hxk). apply elem_of_app in Hin as [Hin|Hin%list_elem_of_singleton]; [|subst x].
      * rewrite Forall_forall in Hl. specialize (Hl x Hin). lia.
      * by rewrite Hv.
    + rewrite compact_pick_None in Ep. rewrite (Ep r Hr Hk) in Hlr. done.
  - assert (compact_pick now k rs = None) as ->.
    { apply compact_pick_None. intros x Hx Hxk. rewrite Forall_forall in Hdead. auto. }
    replace (live now' r) with false; [done|]. symmetry.
    assert (live now r = false) as Hd by (rewrite Forall_forall in Hdead; apply Hdead; set_solver).
    unfold live in *. bprop. apply Z.ltb_ge. lia.
Qed.
End ReadCompacted.
