(* ===== verification/DB.v ===== *)
(** The database (db.go): transactions, and the slotted-page operations run
    through the buffer pool - fetch, work on the page's bytes under its latch,
    unpin.  Each operation is one atomic step. *)

From Stdlib Require Import Strings.Byte.
From S2P Require Import Common.
From S2P Require Import Prelude.
From S2P Require Import VFS.
From S2P Require Import LRU.
From S2P Require Import Page.
From S2P Require Import Slotted.
From S2P Require Import Telemetry.
From S2P Require Import BufferPool.
From S2P Require Import PoolInv.
From S2P Require Import PoolOps.
From S2P Require Import WAL.
From S2P Require Import DBPage.

(** ** Codec (interfaces.go section 4) *)

Record Codec := mkCodec {
  codec_ID : byte;
  Encode : bytes -> error + bytes;
  Decode : bytes -> error + bytes
}.

Definition PrefixHash : bytes := str "H:".

(** ** The database *)

(** [activeTxns] is a [sync.Map] used as a set; [db_closed] records that
    [closeOnce] has run. *)
Record DB (D P : Type) := mkDB {
  bp : BufferPool D P;
  wal : BatchingWAL;
  nextTxnID : Z;
  activeTxns : gset Z;
  db_closed : bool;
  db_metrics : option AtomicMetrics
}.
Arguments mkDB {_ _}.
Arguments bp {_ _}.
Arguments wal {_ _}.
Arguments nextTxnID {_ _}.
Arguments activeTxns {_ _}.
Arguments db_closed {_ _}.
Arguments db_metrics {_ _}.

Section DBOps.
Context {D P : Type} `{BlockDevice D} `{EvictionPolicy P} `{MapRange}.
Implicit Types db : DB D P.

Definition set_bp (x : BufferPool D P) db : DB D P :=
  mkDB x (wal db) (nextTxnID db) (activeTxns db) (db_closed db) (db_metrics db).
Definition set_wal (x : BatchingWAL) db : DB D P :=
  mkDB (bp db) x (nextTxnID db) (activeTxns db) (db_closed db) (db_metrics db).
Definition set_db_metrics (x : option AtomicMetrics) db : DB D P :=
  mkDB (bp db) (wal db) (nextTxnID db) (activeTxns db) (db_closed db) x.

Definition NewDB (pool : BufferPool D P) (w : BatchingWAL) (m : option AtomicMetrics) : DB D P :=
  mkDB pool w 0 ∅ false m.

(** The checkpointer's tick; its goroutine ignores both errors. *)
Definition checkpoint_tick db (io : io_outcome) : DB D P :=
  let '(_, pool) := FlushAll (bp db) in
  let db := set_bp pool db in
  match Checkpoint (wal db) io with Some w => set_wal w db | None => db end.

(** *** Transactions *)

Definition countActiveTransactions db : Z := Z.of_nat (size (activeTxns db)).

Definition report_active db : DB D P :=
  set_db_metrics (SetActiveTransactions (countActiveTransactions db) <$> db_metrics db) db.

Definition BeginTxn db : Z * DB D P :=
  let id := u64 (nextTxnID db + 1) in
  (id, report_active (mkDB (bp db) (wal db) id ({[id]} ∪ activeTxns db) (db_closed db) (db_metrics db))).

Definition CommitTxn db (txnID : Z) : DB D P :=
  report_active (mkDB (bp db) (wal db) (nextTxnID db) (activeTxns db ∖ {[txnID]}) (db_closed db)
    (db_metrics db)).

(** *** Pages *)

(** [FetchPage], a body under the page's write latch, [UnpinPage(_, true)].  The
    state after a panic is not described further. *)
Definition latched_write {A} db (pageID : PageID) (unpinID : Page -> PageID)
    (body : mem -> option AtomicMetrics -> result (A * mem * option AtomicMetrics)) :
    result A * DB D P :=
  match FetchPage (bp db) pageID with
  | (Ok i, pool) =>
      match frames pool !! i with
      | None => (Panic, set_bp pool db)
      | Some page =>
          match body (Data page) (db_metrics db) with
          | Ok (a, d, m) =>
              let pool := update_frame i (fun p => set_Data p d) pool in
              (Ok a, set_db_metrics m (set_bp (UnpinPage pool (unpinID page) true) db))
          | Err e => (Err e, set_bp pool db)
          | Panic => (Panic, set_bp pool db)
          | Hang => (Hang, set_bp pool db)
          end
      end
  | (Err e, pool) => (Err e, set_bp pool db)
  | (Panic, pool) => (Panic, set_bp pool db)
  | (Hang, pool) => (Hang, set_bp pool db)
  end.

(** The same under the read latch, with [UnpinPage(_, false)]. *)
Definition latched_read {A} db (pageID : PageID) (body : mem -> result A) : result A * DB D P :=
  match FetchPage (bp db) pageID with
  | (Ok i, pool) =>
      match frames pool !! i with
      | None => (Panic, set_bp pool db)
      | Some page => (body (Data page), set_bp (UnpinPage pool pageID false) db)
      end
  | (Err e, pool) => (Err e, set_bp pool db)
  | (Panic, pool) => (Panic, set_bp pool db)
  | (Hang, pool) => (Hang, set_bp pool db)
  end.

(** An [error] result, nil as [None]. *)
Definition return_error (x : result (option error) * DB D P) : result unit * DB D P :=
  (match x.1 with
   | Ok None => Ok tt
   | Ok (Some e) | Err e => Err e
   | Panic => Panic
   | Hang => Hang
   end, x.2).

Definition SlottedPageSlotCount db (pageID : PageID) : result Z * DB D P :=
  latched_read db pageID (fun d => Ok (GetSlotCount d)).

Definition ResetSlottedPage db (pageID : PageID) : result unit * DB D P :=
  match latched_write db pageID (fun _ => pageID) (fun d m => Ok (tt, Init d, m)) with
  | (Ok _, db) => let '(r, pool) := FlushAll (bp db) in (r, set_bp pool db)
  | x => x
  end.

Definition CompactSlottedPage db (pageID : PageID) (now dt : Z) : result unit * DB D P :=
  latched_write db pageID (fun _ => pageID) (fun d m =>
    '(d, m) ← compactPage now dt d m; Ok (tt, d, m)).

Definition Write db (pageID : PageID) (txnID : Z) (key value : bytes) (mixParam : MixParam)
    (c : clock) : result unit * DB D P :=
  return_error (latched_write db pageID ID (fun d m =>
    write_page c d m (mkRecord txnID (write_expiry c mixParam) key value))).

Definition Read db (pageID : PageID) (readTxnID : Z) (key : bytes) (now : Z) : result bytes * DB D P :=
  latched_read db pageID (read_page now (activeTxns db) readTxnID key).

Definition Scan {S} db (pageID : PageID) (readTxnID : Z) (prefix : bytes) (now : Z)
    (iter : bytes -> bytes -> S -> bool * S) (s : S) : result S * DB D P :=
  latched_read db pageID (fun d => scan_page now (activeTxns db) readTxnID prefix d iter s).

Definition restoreWrite db (txnID expiresAt : Z) (pageID : PageID) (key value : bytes) (c : clock) :
    result unit * DB D P :=
  return_error (latched_write db pageID (fun _ => pageID) (fun d m =>
    restore_page c d m (mkRecord txnID (u64 expiresAt) key value))).

(** *** Compressed values and hashes *)

Definition WriteCompressed db (pageID : PageID) (txnID : Z) (key value : bytes) (ttl : Z)
    (codec : Codec) (c : clock) : result unit * DB D P :=
  match Encode codec value with
  | inl e => (Err (Wrap "codec write failure" e), db)
  | inr compressed => Write db pageID txnID key (codec_ID codec :: compressed) (MixDuration ttl) c
  end.

(** What [ReadCompressed] does with the payload. *)
Definition open_payload (codec : Codec) (payload : bytes) : result bytes :=
  match payload with
  | id :: rest =>
      if zlen payload <? 2 then Err (Msg "corrupted layout payload envelope tracking flags")
      else if negb (bool_decide (id = codec_ID codec))
      then Err (Msg "mismatched compression codec boundary ID")
      else match Decode codec rest with inl e => Err e | inr v => Ok v end
  | [] => Err (Msg "corrupted layout payload envelope tracking flags")
  end.

Definition ReadCompressed db (pageID : PageID) (readTxnID : Z) (key : bytes) (codec : Codec)
    (now : Z) : result bytes * DB D P :=
  let '(r, db) := Read db pageID readTxnID key now in
  (payload ← r; open_payload codec payload, db).

Definition decompressingIter {S} (codec : Codec) (iter : bytes -> bytes -> S -> bool * S)
    (key payload : bytes) (s : S) : bool * S :=
  match payload with
  | id :: rest =>
      if (zlen payload <? 2) || negb (bool_decide (id = codec_ID codec)) then iter key payload s
      else match Decode codec rest with
           | inl _ => (false, s)
           | inr decompressed => iter key decompressed s
           end
  | [] => iter key payload s
  end.

Definition ScanCompressed {S} db (pageID : PageID) (readTxnID : Z) (prefix : bytes) (codec : Codec)
    (now : Z) (iter : bytes -> bytes -> S -> bool * S) (s : S) : result S * DB D P :=
  Scan db pageID readTxnID prefix now (decompressingIter codec iter) s.

Definition hash_key (hashKey field : bytes) : bytes := PrefixHash ++ hashKey ++ [Byte.x3a] ++ field.

Definition HSet db (pageID : PageID) (txnID : Z) (hashKey field value : bytes) (ttl : Z) (c : clock) :
    result unit * DB D P :=
  Write db pageID txnID (hash_key hashKey field) value (MixDuration ttl) c.

(** *** Close *)

Definition mark_closed db : DB D P :=
  mkDB (bp db) (wal db) (nextTxnID db) (activeTxns db) true (db_metrics db).

Definition Close db : result unit * DB D P :=
  if db_closed db then (Ok tt, db)
  else
    let db := mark_closed db in
    let '(r, pool) := FlushAll (bp db) in
    let db := set_bp pool db in
    match r with
    | Ok _ =>
        match WAL_Close (wal db) with
        | None => (Hang, db)
        | Some (Some e, w) => (Err e, set_wal w db)
        | Some (None, w) =>
            let db := set_wal w db in
            let '(e, dev) := CloseDevice (disk (bp db)) in
            (match e with Some e => Err e | None => Ok tt end, set_bp (set_disk dev (bp db)) db)
        end
    | _ => (r, db)
    end.
End DBOps.
