(* ===== verification/DBSpec.v ===== *)
(** What the database promises: each slotted page is a list of records, and
    the operations of db.go act on these lists whatever the buffer pool does
    underneath. *)

From Stdlib Require Import Strings.Byte.
From S2P Require Import Common.
From S2P Require Import Prelude.
From S2P Require Import VFS.
From S2P Require Import LRU.
From S2P Require Import Page.
From S2P Require Import Slotted.
From S2P Require Import Telemetry.
From S2P Require Import BufferPool.
From S2P Require Import PoolInv.
From S2P Require Import PoolOps.
From S2P Require Import WAL.
From S2P Require Import DBPage.
From S2P Require Import DB.

Lemma page_eqv_image id d1 d2 : page_eqv id d1 d2 -> image_eq 4 d1 d2.
Proof. intros E i Hi. apply E. destruct (isBTreeKVPage id); lia. Qed.

Section Spec.
Context {D P : Type} `{DS : BlockDeviceSpec D} `{PS : EvictionPolicySpec P} `{MR : MapRange}.
Implicit Types db : DB D P.
Implicit Types ps : gmap PageID (list record).

(** The database holds the record lists [ps] on the slotted pages in its
    domain, and no operation is under way. *)
Record db_rep ps db : Prop := {
  rep_inv : pool_inv ∅ (bp db);
  rep_idle : idle (bp db);
  rep_frames : (0 < length (frames (bp db)))%nat;
  rep_pages : forall id rs, ps !! id = Some rs ->
    page_id_ok id /\ page_holds (view (bp db) id) rs
}.

(** The transaction state is untouched. *)
Definition same_txns db db' : Prop :=
  activeTxns db' = activeTxns db /\ nextTxnID db' = nextTxnID db.

(** A fetch of a slotted page: its frame holds the records. *)
Lemma fetch_records ps db pg rs r pool :
  db_rep ps db -> ps !! pg = Some rs -> FetchPage (bp db) pg = (r, pool) ->
  match r with
  | Ok i => exists p, frames pool !! i = Some p /\ pageTable pool !! pg = Some i /\ ID p = pg /\
      PinCount p = 1 /\ page_holds (Data p) rs /\ pool_inv ∅ pool /\ holding pool pg /\
      same_view (bp db) pool /\ length (frames pool) = length (frames (bp db))
  | Err _ => db_rep ps (set_bp pool db)
  | Panic => False
  | Hang => True
  end.
Proof.
  intros [Hinv Hidle Hlen Hpg] Hrs Hf. destruct (Hpg pg rs Hrs) as [Hok Hh].
  pose proof (FetchPage_length ∅ _ _ _ _ Hinv Hf) as Hlen'.
  pose proof (FetchPage_idle ∅ _ _ _ _ Hinv Hidle Hok Hf) as Hi.
  apply (FetchPage_spec ∅) in Hf; [|done|done]. destruct r as [i|e| |]; try done.
  - destruct Hf as (Hinv' & Hv & Ht & p & Hp & Hpin & Hd).
    destruct (inv_table _ _ Hinv' pg i Ht) as (_ & q & Hq & Hid). simplify_eq.
    exists p. split_and!; try done.
    + rewrite (Hi _ i p Ht Hp). by rewrite decide_True.
    + by rewrite (page_eqv_image _ _ _ Hd).
  - destruct Hf as [Hinv' Hv]. split; try done; [cbn; lia|]. intros id rs' Hrs'. cbn.
    destruct (Hpg id rs' Hrs') as [? ?]. split; [done|]. by rewrite (page_eqv_image _ _ _ (Hv id)).
Qed.

(** The write pattern: whatever the body does to the page's records happens to
    that page only. *)
Lemma latched_write_spec {A} ps db pg rs rs' u (Q : A -> Prop) body r db' :
  db_rep ps db -> ps !! pg = Some rs -> (forall p, ID p = pg -> u p = pg) ->
  (forall d m, page_holds d rs ->
     exists a d' m', body d m = Ok (a, d', m') /\ Q a /\ page_holds d' rs') ->
  latched_write db pg u body = (r, db') ->
  same_txns db db' /\
  match r with
  | Ok a => Q a /\ db_rep (<[pg := rs']> ps) db'
  | Err _ => db_rep ps db'
  | Panic => False
  | Hang => True
  end.
Proof.
  intros Hrep Hrs Hu Hbody. unfold latched_write.
  destruct (FetchPage (bp db) pg) as [rf pool] eqn:Hf.
  apply (fetch_records ps db pg rs) in Hf; [|done|done].
  destruct rf as [i|e| |]; [|by intros [= <- <-] |done | by intros [= <- <-]].
  destruct Hf as (p & Hp & Ht & Hid & Hpin & Hh & Hinv & Hhold & Hv & Hlen). rewrite Hp.
  destruct (Hbody (Data p) (db_metrics db) Hh) as (a & d' & m' & -> & HQ & Hh').
  intros [= <- <-]. split; [done|]. split; [done|]. rewrite (Hu p Hid).
  destruct (modify_unpin ∅ pool pg i p d') as (Hinv' & Hd & Hoth); [done..|lia|set_solver|].
  split; [done| | |].
  - destruct (inv_modify {[pg]} pool pg i d') as (Hinv2 & _); [|done|set_solver|].
    + replace ({[pg]}) with ({[pg]} ∪ ∅ : gset PageID) by set_solver.
      apply (inv_start ∅ pool pg i p); try done. lia.
    + apply (unpin_idle {[pg]}); [done | by apply holding_update | by eauto].
  - unfold UnpinPage. cbn. rewrite Ht. cbn. rewrite !length_alter, Hlen. by eapply rep_frames.
  - intros id rs0 [[<- <-]|[Hne Hrs0]]%lookup_insert_Some.
    + split; [by eapply rep_pages|]. by rewrite (page_eqv_image _ _ _ Hd).
    + destruct (rep_pages _ _ Hrep id rs0 Hrs0) as [Hok Hh0]. split; [done|].
      cbn. rewrite (page_eqv_image _ _ _ (Hoth id ltac:(done))).
      by rewrite (page_eqv_image _ _ _ (Hv id)).
Qed.

(** The read pattern: the body sees the page's records and nothing changes. *)
Lemma latched_read_spec {A} ps db pg rs (body : mem -> result A) x r db' :
  db_rep ps db -> ps !! pg = Some rs ->
  (forall d, page_holds d rs -> body d = x) ->
  latched_read db pg body = (r, db') ->
  same_txns db db' /\
  ((r = x /\ db_rep ps db') \/ (exists e, r = Err e /\ db_rep ps db') \/ r = Hang).
Proof.
  intros Hrep Hrs Hbody. unfold latched_read.
  destruct (FetchPage (bp db) pg) as [rf pool] eqn:Hf.
  apply (fetch_records ps db pg rs) in Hf; [|done|done].
  destruct rf as [i|e| |]; [|intros [= <- <-]; split; [done|]; right; left; by eauto|done|
    intros [= <- <-]; split; [done|]; by right; right].
  destruct Hf as (p & Hp & Ht & Hid & Hpin & Hh & Hinv & Hhold & Hv & Hlen). rewrite Hp.
  intros [= <- <-]. split; [done|]. left. split; [by apply Hbody|].
  destruct (inv_unpin ∅ pool pg i p false) as [Hinv' Hv']; [done..|lia|set_solver|].
  split; [done | by apply (unpin_idle ∅); eauto | |].
  { unfold UnpinPage. cbn. rewrite Ht. cbn. rewrite length_alter, Hlen. by eapply rep_frames. }
  intros id rs0 Hrs0. destruct (rep_pages _ _ Hrep id rs0 Hrs0) as [Hok Hh0]. split; [done|].
  cbn. rewrite (page_eqv_image _ _ _ (Hv' id)). by rewrite (page_eqv_image _ _ _ (Hv id)).
Qed.

(** ** Opening *)

Lemma db_rep_new ps (dev : D) n ev m w m' :
  (0 < n)%nat -> policy_ok ev -> tracked ev = ∅ ->
  (forall id, page_id_ok id -> checksum_ok id (disk_page dev id)) ->
  (forall id rs, ps !! id = Some rs -> page_id_ok id /\ page_holds (disk_page dev id) rs) ->
  db_rep ps (NewDB (NewBufferPool dev n ev m) w m').
Proof.
  intros Hn Hpo Htr Hsum Hps. split; [by apply inv_new| | |].
  - intros id i p. cbn. by rewrite lookup_empty.
  - cbn. by rewrite repeat_length.
  - intros id rs Hrs. destruct (Hps id rs Hrs). split; [done|]. unfold view. cbn. by rewrite lookup_empty.
Qed.
End Spec.

(** ** With the LRU policy on a device without I/O errors every operation returns *)

Section Total.
Context {D : Type} `{DS : BlockDeviceSpec D} `{RD : !ReliableDevice D} `{MR : MapRange}.
Implicit Types db : DB D LRUEvictionPolicy.
Implicit Types ps : gmap PageID (list record).

Lemma fetch_total ps db pg rs :
  db_rep ps db -> ps !! pg = Some rs ->
  exists i pool, FetchPage (bp db) pg = (Ok i, pool).
Proof.
  intros [Hinv Hidle Hn Hpg] Hrs. destruct (Hpg pg rs Hrs) as [Hok _].
  apply (FetchPage_progress ∅); [done..|]. right. by apply (idle_available ∅).
Qed.

Lemma latched_write_total {A} ps db pg rs rs' u (a : A) body :
  db_rep ps db -> ps !! pg = Some rs ->
  (forall p, ID p = pg -> u p = pg) ->
  (forall d m, page_holds d rs ->
     exists d' m', body d m = Ok (a, d', m') /\ page_holds d' rs') ->
  exists db', latched_write db pg u body = (Ok a, db') /\ same_txns db db' /\
    db_rep (<[pg := rs']> ps) db'.
Proof.
  intros Hrep Hrs Hu Hbody.
  assert (forall d m, page_holds d rs -> exists a0 d' m', body d m = Ok (a0, d', m') /\ a0 = a /\
    page_holds d' rs') as Hbody'.
  { intros d m Hh. destruct (Hbody d m Hh) as (d' & m' & ? & ?). eauto 6. }
  destruct (latched_write db pg u body) as [r db'] eqn:E.
  destruct (latched_write_spec ps db pg rs rs' u (fun x => x = a) body r db') as [Hsame Hr]; try done.
  unfold latched_write in E. destruct (fetch_total ps db pg rs) as (i & pool & Hf); try done.
  rewrite Hf in E. apply (fetch_records ps db pg rs) in Hf; [|done|done].
  destruct Hf as (p & Hp & _ & _ & _ & Hh & _). rewrite Hp in E.
  destruct (Hbody (Data p) (db_metrics db) Hh) as (d' & m' & Eb & _). rewrite Eb in E.
  injection E as <- <-. eexists. split; [done|]. split; [done|]. by destruct Hr as [_ ?].
Qed.

Lemma latched_read_total {A} ps db pg rs (body : mem -> result A) x :
  db_rep ps db -> ps !! pg = Some rs ->
  (forall d, page_holds d rs -> body d = x) ->
  exists db', latched_read db pg body = (x, db') /\ same_txns db db' /\ db_rep ps db'.
Proof.
  intros Hrep Hrs Hbody. unfold latched_read.
  destruct (fetch_total ps db pg rs) as (i & pool & Hf); try done. rewrite Hf.
  apply (fetch_records ps db pg rs) in Hf; [|done|done].
  destruct Hf as (p & Hp & Ht & Hid & Hpin & Hh & Hinv & Hhold & Hv & Hlen). rewrite Hp, (Hbody _ Hh).
  eexists. split; [done|]. split; [done|].
  destruct (inv_unpin ∅ pool pg i p false) as [Hinv' Hv']; [done..|lia|set_solver|].
  split; [done | by apply (unpin_idle ∅); eauto | |].
  { unfold UnpinPage. cbn. rewrite Ht. cbn. rewrite length_alter, Hlen. by eapply rep_frames. }
  intros id rs0 Hrs0. destruct (rep_pages _ _ Hrep id rs0 Hrs0) as [Hok Hh0]. split; [done|].
  cbn. rewrite (page_eqv_image _ _ _ (Hv' id)). by rewrite (page_eqv_image _ _ _ (Hv id)).
Qed.
End Total.

(** ** Lemmas on reads *)

Lemma read_spec_snoc now active t k rs r :
  read_spec now active t k (rs ++ [r]) =
  if bool_decide (key r = k) && visible active t r
  then if live now r then Some (val r) else None
  else read_spec now active t k rs.
Proof.
  unfold read_spec. rewrite filter_app, filter_cons, filter_nil.
  destruct (decide (key r = k /\ visible active t r = true)) as [[Hk ->]|Hn].
  - rewrite bool_decide_eq_true_2 by done. cbn [andb]. by rewrite last_snoc.
  - rewrite app_nil_r. destruct (bool_decide (key r = k)) eqn:E; [|done].
    apply bool_decide_eq_true in E. destruct (visible active t r); [tauto|done].
Qed.

Lemma read_spec_key now active t k rs v : read_spec now active t k rs = Some v -> exists r, r ∈ rs /\ key r = k.
Proof.
  unfold read_spec. destruct (last _) as [r|] eqn:El; [|done]. intros _. apply last_Some_elem_of in El.
  apply list_elem_of_filter in El as [[Hk _] Hin]. by exists r.
Qed.

Lemma visible_self active t e k v : visible active t (mkRecord t e k v) = true.
Proof. unfold visible. cbn. rewrite Z.eqb_refl. apply orb_true_r. Qed.

Lemma u64_ok z : 0 <= u64 z < 2 ^ 64.
Proof. unfold u64. apply Z.mod_pos_bound. lia. Qed.

Lemma write_record_ok t c mix k v : 0 <= t < 2 ^ 64 -> record_ok (mkRecord t (write_expiry c mix) k v).
Proof.
  intros Ht. split; [done|]. cbn. unfold write_expiry.
  destruct mix; try case_match; apply u64_ok.
Qed.

(** Collecting the pairs a scan visits. *)
Definition collect (k v : bytes) (acc : list (bytes * bytes)) : bool * list (bytes * bytes) :=
  (true, acc ++ [(k, v)]).

Lemma iterate_collect l acc :
  iterate collect l acc = acc ++ ((fun x => (x.1, x.2.2)) <$> l).
Proof.
  revert acc. induction l as [|[k [ts v]] l IH]; intros acc; cbn; [by rewrite app_nil_r|].
  rewrite IH. by rewrite <- app_assoc.
Qed.

Section Operations.
Context {D : Type} `{DS : BlockDeviceSpec D} `{RD : !ReliableDevice D} `{MR : MapRange}.
Implicit Types db : DB D LRUEvictionPolicy.
Implicit Types ps : gmap PageID (list record).

Lemma Write_run ps db pg rs t k v mix c :
  db_rep ps db -> ps !! pg = Some rs ->
  0 <= t < 2 ^ 64 -> zlen k + zlen v < 2 ^ 30 ->
  let r := mkRecord t (write_expiry c mix) k v in
  let '(fits, rs') := write_spec (nowCompact c) rs r in
  exists db', Write db pg t k v mix c = (if fits then Ok tt else Err ErrPageOverflow, db') /\
    same_txns db db' /\ db_rep (<[pg := rs']> ps) db'.
Proof.
  intros Hrep Hrs Ht Hlen r. destruct (write_spec (nowCompact c) rs r) as [fits rs'] eqn:Ew.
  destruct (latched_write_total ps db pg rs rs' ID (if fits then None else Some ErrPageOverflow)
    (fun d m => write_page c d m r)) as (db' & E & Hsame & Hrep'); try done.
  - intros d m Hh. destruct (write_page_spec c d m rs r Hh) as (d' & m' & E & Hd').
    + by apply write_record_ok.
    + unfold record_size, RecordHeaderSize. cbn. lia.
    + rewrite Ew in *. exists d', m'. split; [done|]. by left.
  - exists db'. unfold Write, return_error. fold r. rewrite E. by destruct fits.
Qed.

Lemma Read_run ps db pg rs t k now :
  db_rep ps db -> ps !! pg = Some rs ->
  exists db', Read db pg t k now =
    (match read_spec now (activeTxns db) t k rs with Some v => Ok v | None => Err ErrKeyNotFound end, db') /\
    same_txns db db' /\ db_rep ps db'.
Proof.
  intros Hrep Hrs. apply (latched_read_total ps db pg rs); try done.
  intros d Hh. by apply read_page_spec.
Qed.

End Operations.

(** ** A concrete database, for the witnesses *)

#[local] Existing Instance canonical_range.

Definition demo_db : DB MemDevice LRUEvictionPolicy :=
  NewDB demo_pool (NewBatchingWAL []) None.

Definition demo_pages : gmap PageID (list record) := {[5 := []]}.

Definition demo_clock : clock := mkClock 1000 1000 1000 0.

Lemma demo_rep : db_rep demo_pages demo_db.
Proof.
  apply db_rep_new.
  - lia.
  - apply lru_inv_new.
  - reflexivity.
  - intros id _. apply empty_disk_sum.
  - intros id rs Hrs. unfold demo_pages in Hrs. apply lookup_singleton_Some in Hrs as [<- <-]. split; [done|].
    right. split_and!; reflexivity.
Qed.

(** ** Properties *)

Section Claims.
Context {D : Type} `{DS : BlockDeviceSpec D} `{RD : !ReliableDevice D} `{MR : MapRange}.
Implicit Types db : DB D LRUEvictionPolicy.
Implicit Types ps : gmap PageID (list record).

(** C1: [Write] on a slotted page, through the buffer pool with its evictions and
    write-backs, returns and does exactly this to the page's records: it appends
    the new record when there is room; otherwise it compacts the page and
    appends; when even the compacted page has no room it reports the overflow
    and leaves the compacted page.  No other page and no transaction state
    changes. *)
Theorem Write_correct ps db pg rs t k v mix c :
  db_rep ps db -> ps !! pg = Some rs -> 0 <= t < 2 ^ 64 -> zlen k + zlen v < 2 ^ 30 ->
  let r := mkRecord t (write_expiry c mix) k v in
  let '(fits, rs') := write_spec (nowCompact c) rs r in
  exists db', Write db pg t k v mix c = (if fits then Ok tt else Err ErrPageOverflow, db') /\
    same_txns db db' /\ db_rep (<[pg := rs']> ps) db'.
Proof. intros. by apply Write_run. Qed.

(** C2: [Read] returns the value of the newest record of the key that the
    reader may see (committed, or its own), the not-found error when there is
    none or when that record has expired, and changes no page.  A live record with
    an empty value is no exception: the empty value is returned without an error,
    although usage.md calls such a record a tombstone that [Read] reports as an
    error. *)
Theorem Read_correct ps db pg rs t k now :
  db_rep ps db -> ps !! pg = Some rs ->
  exists db', Read db pg t k now =
    (match read_spec now (activeTxns db) t k rs with Some v => Ok v | None => Err ErrKeyNotFound end, db') /\
    same_txns db db' /\ db_rep ps db'.
Proof. intros. by apply Read_run. Qed.

(** A transaction reads its own writes: after a successful [Write], [Read]
    by the same transaction at any time before the expiry returns the value just
    written, whatever the page held before. *)
Theorem Read_your_own_write ps db pg rs t k v mix c now db1 :
  db_rep ps db -> ps !! pg = Some rs -> 0 <= t < 2 ^ 64 -> zlen k + zlen v < 2 ^ 30 ->
  now < i64 (write_expiry c mix) ->
  Write db pg t k v mix c = (Ok tt, db1) ->
  exists db2, Read db1 pg t k now = (Ok v, db2).
Proof.
  intros Hrep Hrs Ht Hlen Hnow Hw. set (r := mkRecord t (write_expiry c mix) k v).
  pose proof (Write_run ps db pg rs t k v mix c Hrep Hrs Ht Hlen) as Hrun. cbn zeta in Hrun. fold r in Hrun.
  destruct (write_spec (nowCompact c) rs r) as [fits rs'] eqn:Ew.
  destruct Hrun as (db' & E & _ & Hrep'). rewrite E in Hw. destruct fits; [|done]. injection Hw as ->.
  destruct (Read_run _ db1 pg rs' t k now Hrep') as (db2 & Er & _); [apply lookup_insert_eq|].
  exists db2. rewrite Er.
  assert (exists rs0, rs' = rs0 ++ [r]) as [rs0 ->].
  { unfold write_spec in Ew. repeat case_decide; simplify_eq; eauto. }
  rewrite read_spec_snoc, bool_decide_eq_true_2 by done. unfold r at 1. rewrite visible_self.
  cbn [andb]. unfold live. cbn. by rewrite (proj2 (Z.ltb_lt _ _)).
Qed.

(** C20: Uncommitted writes stay private: when the page has room (no compaction),
    a successful [Write] by an active transaction leaves what every other
    transaction reads of every key of the page unchanged. *)
Theorem Write_isolated ps db pg rs t k v mix c db1 t' k' now :
  db_rep ps db -> ps !! pg = Some rs -> 0 <= t < 2 ^ 64 -> zlen k + zlen v < 2 ^ 30 ->
  room rs (mkRecord t (write_expiry c mix) k v) -> t ∈ activeTxns db -> t' <> t ->
  Write db pg t k v mix c = (Ok tt, db1) ->
  (Read db1 pg t' k' now).1 = (Read db pg t' k' now).1.
Proof.
  intros Hrep Hrs Ht Hlen Hroom Hact Hne Hw. set (r := mkRecord t (write_expiry c mix) k v) in *.
  pose proof (Write_run ps db pg rs t k v mix c Hrep Hrs Ht Hlen) as Hrun. cbn zeta in Hrun. fold r in Hrun.
  unfold write_spec in Hrun. rewrite decide_True in Hrun by done.
  destruct Hrun as (db' & E & [Ha _] & Hrep'). rewrite E in Hw. injection Hw as ->.
  destruct (Read_run _ db1 pg (rs ++ [r]) t' k' now Hrep') as (db2 & -> & _); [apply lookup_insert_eq|].
  destruct (Read_run _ db pg rs t' k' now Hrep Hrs) as (db3 & -> & _). cbn [fst].
  rewrite Ha, read_spec_snoc. replace (visible (activeTxns db) t' r) with false.
  - by rewrite andb_false_r.
  - unfold visible. cbn. rewrite bool_decide_eq_true_2 by done. symmetry. apply Z.eqb_neq. lia.
Qed.

(** [Scan] visits each key with the prefix at most once, in the order of
    the map, and exactly those that [Read] would find, with the value [Read]
    would return. *)
Theorem Scan_agrees_with_Read ps db pg rs t pre now :
  db_rep ps db -> ps !! pg = Some rs ->
  exists l db', Scan db pg t pre now collect [] = (Ok l, db') /\ same_txns db db' /\ db_rep ps db' /\
    NoDup l.*1 /\
    forall k v, (k, v) ∈ l <->
      has_prefix k pre = true /\ (Read db pg t k now).1 = Ok v.
Proof.
  intros Hrep Hrs.
  set (m := fold_records (scan_body now (activeTxns db) t pre) 0 rs ∅).
  destruct (latched_read_total ps db pg rs
    (fun d => scan_page now (activeTxns db) t pre d collect [])
    (Ok (iterate collect (range m) []))) as (db' & E & Hsame & Hrep'); [done | done | |].
  { intros d Hh. unfold scan_page. by rewrite (for_slots_holds d rs). }
  exists (iterate collect (range m) []), db'. split; [exact E|]. split; [done|]. split; [done|].
  rewrite iterate_collect. cbn [app]. split.
  - rewrite <- list_fmap_compose. apply (NoDup_range_keys m).
  - intros k v. destruct (Read_run ps db pg rs t k now Hrep Hrs) as (db2 & -> & _). cbn [fst].
    pose proof (scan_map_spec now (activeTxns db) t pre rs k) as Hm. fold m in Hm.
    rewrite list_elem_of_fmap. split.
    + intros ([k' [ts v']] & [= -> ->] & Hin%elem_of_range). rewrite Hin in Hm. cbn in Hm.
      destruct (has_prefix k' pre); [|done]. split; [done|]. by rewrite <- Hm.
    + intros [Hp Hv]. rewrite Hp in Hm. destruct (read_spec _ _ _ _ _) as [v'|]; [|done].
      injection Hv as ->. destruct (m !! k) as [[ts v']|] eqn:Ek; [|done]. cbn in Hm. simplify_eq.
      exists (k, (ts, v)). split; [done|]. by apply elem_of_range.
Qed.
End Claims.

(** A write to the demonstration page fits. *)
Lemma demo_write (db : DB MemDevice LRUEvictionPolicy) t :
  db_rep demo_pages db -> 0 <= t < 2 ^ 64 ->
  exists db1, Write db 5 t (str "k") (str "v") MixOther demo_clock = (Ok tt, db1) /\
    same_txns db db1 /\
    db_rep {[5 := [mkRecord t (write_expiry demo_clock MixOther) (str "k") (str "v")]]} db1.
Proof.
  intros Hrep Ht.
  pose proof (Write_run demo_pages db 5 [] t (str "k") (str "v") MixOther demo_clock
    Hrep eq_refl Ht ltac:(reflexivity)) as H.
  cbn zeta in H. unfold write_spec in H. rewrite decide_True in H by (vm_compute; discriminate).
  unfold demo_pages in H. by rewrite insert_singleton_eq in H.
Qed.

Lemma demo_rep_begin : db_rep demo_pages (BeginTxn demo_db).2.
Proof. destruct demo_rep as [H1 H2 H3 H4]. by split. Qed.

(** Witnesses on the demonstration database. *)
Lemma Write_correct_witness :
  exists db', Write demo_db 5 1 (str "k") (str "v") MixOther demo_clock = (Ok tt, db') /\
    db_rep {[5 := [mkRecord 1 (write_expiry demo_clock MixOther) (str "k") (str "v")]]} db'.
Proof.
  pose proof (Write_correct demo_pages demo_db 5 [] 1 (str "k") (str "v") MixOther demo_clock
    demo_rep eq_refl ltac:(lia) ltac:(vm_compute; reflexivity)) as H.
  cbn zeta in H. unfold write_spec in H. rewrite decide_True in H by (vm_compute; discriminate).
  destruct H as (db' & E & _ & Hrep). exists db'. split; [exact E|].
  unfold demo_pages in Hrep. rewrite insert_singleton_eq in Hrep. exact Hrep.
Defined.

Lemma Read_correct_witness :
  exists db', Read demo_db 5 1 (str "k") 1000 = (Err ErrKeyNotFound, db') /\ db_rep demo_pages db'.
Proof.
  destruct (Read_correct demo_pages demo_db 5 [] 1 (str "k") 1000 demo_rep eq_refl)
    as (db' & E & _ & Hrep).
  exists db'. split; [exact E | exact Hrep].
Defined.

Lemma Read_your_own_write_witness :
  exists db1 db2, Write demo_db 5 1 (str "k") (str "v") MixOther demo_clock = (Ok tt, db1) /\
    Read db1 5 1 (str "k") 2000 = (Ok (str "v"), db2).
Proof.
  destruct (demo_write demo_db 1 demo_rep ltac:(lia)) as (db1 & E & _).
  destruct (Read_your_own_write demo_pages demo_db 5 [] 1 (str "k") (str "v") MixOther demo_clock 2000
    db1 demo_rep eq_refl ltac:(lia) ltac:(vm_compute; reflexivity) ltac:(vm_compute; reflexivity) E)
    as (db2 & E2).
  exists db1, db2. split; [exact E | exact E2].
Defined.

Lemma Write_isolated_witness :
  exists db1, Write (BeginTxn demo_db).2 5 1 (str "k") (str "v") MixOther demo_clock = (Ok tt, db1) /\
    (Read db1 5 2 (str "k") 2000).1 = (Read (BeginTxn demo_db).2 5 2 (str "k") 2000).1.
Proof.
  destruct (demo_write (BeginTxn demo_db).2 1 demo_rep_begin ltac:(lia)) as (db1 & E & _).
  exists db1. split; [exact E|].
  apply (Write_isolated demo_pages (BeginTxn demo_db).2 5 [] 1 (str "k") (str "v") MixOther demo_clock).
  - exact demo_rep_begin.
  - reflexivity.
  - lia.
  - vm_compute; reflexivity.
  - vm_compute; discriminate.
  - cbn. set_solver.
  - lia.
  - exact E.
Defined.

Lemma Scan_agrees_with_Read_witness :
  exists l db', Scan demo_db 5 1 (str "k") 1000 collect [] = (Ok l, db') /\ db_rep demo_pages db'.
Proof.
  destruct (Scan_agrees_with_Read demo_pages demo_db 5 [] 1 (str "k") 1000 demo_rep eq_refl)
    as (l & db' & E & _ & Hrep & _).
  exists l, db'. split; [exact E | exact Hrep].
Defined.
