(* ===== verification/DBProps.v ===== *)
(** Further properties of the database: any device and any policy, compaction
    and what it does to readers, durability across a reopen, transaction ids,
    compressed values and hash keys. *)

From Stdlib Require Import Strings.Byte.
From S2P Require Import Common.
From S2P Require Import Prelude.
From S2P Require Import VFS.
From S2P Require Import LRU.
From S2P Require Import Page.
From S2P Require Import Slotted.
From S2P Require Import Telemetry.
From S2P Require Import BufferPool.
From S2P Require Import PoolInv.
From S2P Require Import PoolOps.
From S2P Require Import WAL.
From S2P Require Import DBPage.
From S2P Require Import DB.
From S2P Require Import DBSpec.

#[local] Existing Instance canonical_range.

(** ** Any device, any eviction policy *)

Section AnyDevice.
Context {D P : Type} `{DS : BlockDeviceSpec D} `{PS : EvictionPolicySpec P} `{MR : MapRange}.
Implicit Types db : DB D P.

(** On any block device (I/O errors included) and under any eviction policy,
    [Write] never panics; success means the page's records are those of the
    specification; an error leaves either every page as it was (the fetch
    failed) or the compacted page (overflow); other pages and the transaction
    state never change. *)
Theorem Write_any_device ps db pg rs t k v mix c res db' :
  db_rep ps db -> ps !! pg = Some rs -> 0 <= t < 2 ^ 64 -> zlen k + zlen v < 2 ^ 30 ->
  Write db pg t k v mix c = (res, db') ->
  let '(fits, rs') := write_spec (nowCompact c) rs (mkRecord t (write_expiry c mix) k v) in
  same_txns db db' /\
  match res with
  | Ok _ => fits = true /\ db_rep (<[pg := rs']> ps) db'
  | Err e => db_rep ps db' \/ (e = ErrPageOverflow /\ fits = false /\ db_rep (<[pg := rs']> ps) db')
  | Panic => False
  | Hang => True
  end.
Proof.
  intros Hrep Hrs Ht Hlen. set (r := mkRecord t (write_expiry c mix) k v). unfold Write, return_error.
  fold r. destruct (latched_write db pg ID (fun d m => write_page c d m r)) as [x db1] eqn:E.
  destruct (write_spec (nowCompact c) rs r) as [fits rs'] eqn:Ew.
  apply (latched_write_spec ps db pg rs rs' ID
    (fun e => e = if fits then None else Some ErrPageOverflow)) in E; try done.
  - cbn. intros [= <- <-]. destruct E as [Hs E]. split; [done|].
    destruct x as [[e|]|e| |]; try done; [right | | by left].
    + destruct E as [E ?]. destruct fits; simplify_eq. done.
    + destruct E as [E ?]. by destruct fits.
  - intros d m Hh. destruct (write_page_spec c d m rs r Hh) as (d' & m' & E' & Hd').
    + by apply write_record_ok.
    + unfold record_size, RecordHeaderSize. cbn. lia.
    + rewrite Ew in *. eexists _, _, _. split; [done|]. split; [done|]. by left.
Qed.

(** Whatever the pool has cached, a flush that reports success makes the
    slotted pages durable: a database opened afterwards on the device, with an
    empty cache, holds the same records on every page. *)
Theorem flush_then_reopen ps db pool n ev m w m' :
  db_rep ps db -> FlushAll (bp db) = (Ok tt, pool) ->
  (0 < n)%nat -> policy_ok ev -> tracked ev = ∅ ->
  db_rep ps (NewDB (NewBufferPool (disk pool) n ev m) w m').
Proof.
  intros Hrep Hf Hn Hpo Htr.
  destruct (flush_reopen (bp db) pool n ev m (rep_inv _ _ Hrep) Hf Hpo Htr) as [Hinv Hv].
  split; [exact Hinv | | | ].
  - intros id i p. cbn. by rewrite lookup_empty.
  - cbn. by rewrite repeat_length.
  - intros id rs Hrs. destruct (rep_pages _ _ Hrep id rs Hrs) as [Hok Hh]. split; [done|].
    cbn. by rewrite (page_eqv_image _ _ _ (Hv id)).
Qed.
End AnyDevice.

Lemma Write_any_device_witness :
  exists db', Write demo_db 5 1 (str "k") (str "v") MixOther demo_clock = (Ok tt, db') /\
    db_rep {[5 := [mkRecord 1 (write_expiry demo_clock MixOther) (str "k") (str "v")]]} db'.
Proof.
  destruct (demo_write demo_db 1 demo_rep ltac:(lia)) as (db1 & E & _).
  pose proof (Write_any_device demo_pages demo_db 5 [] 1 (str "k") (str "v") MixOther demo_clock
    (Ok tt) db1 demo_rep eq_refl ltac:(lia) ltac:(reflexivity) E) as H.
  unfold write_spec in H. rewrite decide_True in H by (vm_compute; discriminate).
  destruct H as (_ & _ & Hrep). exists db1. split; [exact E|].
  unfold demo_pages in Hrep. rewrite insert_singleton_eq in Hrep. exact Hrep.
Defined.

Lemma flush_then_reopen_witness :
  exists pool, FlushAll (bp demo_db) = (Ok tt, pool) /\
    db_rep demo_pages (NewDB (NewBufferPool (disk pool) 3 NewLRUEvictionPolicy None)
      (NewBatchingWAL []) None).
Proof.
  destruct (FlushAll (bp demo_db)) as [r pool] eqn:E.
  assert (r = Ok tt) as Hr by (apply (f_equal fst) in E; vm_compute in E; symmetry; exact E).
  rewrite Hr in E. exists pool. rewrite Hr. split; [reflexivity|].
  apply (flush_then_reopen demo_pages demo_db pool 3 NewLRUEvictionPolicy None (NewBatchingWAL []) None
    demo_rep E ltac:(lia) lru_inv_new eq_refl).
Defined.

(** ** Compaction *)

Section Compaction.
Context `{MR : MapRange}.

(** C19: Compaction of a page never fails and never overflows: the result is a
    well-formed page that holds one record per key that has a live record,
    namely a live record of the old page with the highest transaction id among
    the key's live records, and takes no more space. *)
Theorem compactPage_correct now dt d m rs :
  page_holds d rs ->
  exists d' cs, compactPage now dt d m = Ok (d', RecordPageCompactionTime dt <$> m) /\
    page_repr d' cs /\ NoDup (key <$> cs) /\ total cs <= total rs /\ zlen cs <= zlen rs /\
    (forall r, r ∈ cs -> r ∈ rs /\ live now r = true /\
       forall r', r' ∈ rs -> key r' = key r -> live now r' = true -> txnID r' <= txnID r) /\
    (forall r, r ∈ rs -> live now r = true -> key r ∈ key <$> cs).
Proof.
  intros H. destruct (compactPage_spec now dt d m rs H) as (d' & E & Hd').
  exists d', (compacted now rs). destruct (compacted_fits now rs) as [Ht Hz].
  split_and!; try done; [apply NoDup_compacted | |].
  - intros r Hr. apply elem_of_compacted, compact_pick_Some in Hr as (? & _ & ? & ?). done.
  - intros r Hr Hl. destruct (compact_pick now (key r) rs) as [x|] eqn:Ex.
    + apply compact_pick_Some in Ex as Ex'. destruct Ex' as (_ & Hk & _). rewrite <- Hk.
      apply list_elem_of_fmap_2, elem_of_compacted. by rewrite Hk.
    + rewrite compact_pick_None in Ex. by rewrite (Ex r Hr eq_refl) in Hl.
Qed.

(** Compaction keeps what a reader sees of a key, at compaction time and
    later, when the transaction ids of the key's records increase to the newest
    one, the reader may see the newest one, and it is live or all of the key's
    records have expired. *)
Theorem compactPage_preserves_reads now dt now' d m rs d' m' active t k l r :
  page_holds d rs -> compactPage now dt d m = Ok (d', m') ->
  filter (fun r => key r = k) rs = l ++ [r] -> Forall (fun r' => txnID r' < txnID r) l ->
  visible active t r = true ->
  live now r = true \/ (now <= now' /\ Forall (fun r => live now r = false) (l ++ [r])) ->
  read_page now' active t k d' = read_page now' active t k d.
Proof.
  intros H Hc Hf Hl Hv Hlive. destruct (compactPage_spec now dt d m rs H) as (d1 & E & Hd').
  rewrite E in Hc. injection Hc as <- <-.
  rewrite (read_page_spec _ _ _ _ d1 (compacted now rs)) by by left.
  rewrite (read_page_spec _ _ _ _ d rs) by done. by rewrite (compaction_keeps_read now now' active t k rs l r).
Qed.

(** Rewrite with what is known of the records' visibility and lifetime. *)
Ltac flags :=
  repeat (cbn [andb negb]; match goal with
    | H : live _ _ = _ |- _ => rewrite H
    | H : visible _ _ _ = _ |- _ => rewrite H
    end); try done.

(** The situation of the next theorem: a page with two records of a
    key, the first one live and committed. *)
Lemma compaction_two now dt now' d m rs d' m' active t k r1 r2 :
  page_holds d rs -> compactPage now dt d m = Ok (d', m') ->
  filter (fun r => key r = k) rs = [r1; r2] ->
  read_page now' active t k d =
    (match (if visible active t r2 then if live now' r2 then Some (val r2) else None
            else if visible active t r1 then if live now' r1 then Some (val r1) else None else None)
     with Some v => Ok v | None => Err ErrKeyNotFound end) /\
  read_page now' active t k d' =
    (match (match (if live now r1 then if live now r2 && (txnID r1 <? txnID r2) then Some r2 else Some r1
                   else if live now r2 then Some r2 else None) with
            | Some r => if visible active t r && live now' r then Some (val r) else None
            | None => None end)
     with Some v => Ok v | None => Err ErrKeyNotFound end).
Proof.
  intros H Hc Hf. destruct (compactPage_spec now dt d m rs H) as (d1 & E & Hd').
  rewrite E in Hc. injection Hc as <- <-.
  rewrite (read_page_spec _ _ _ _ d1 (compacted now rs)) by by left.
  rewrite (read_page_spec _ _ _ _ d rs) by done. rewrite read_compacted, compact_pick_filter.
  rewrite (filter_and (fun r => key r = k) (fun r => live now r = true)), Hf.
  unfold read_spec. rewrite (filter_and (fun r => key r = k)), Hf. rewrite !filter_cons, !filter_nil.
  destruct (live now r1), (live now r2), (visible active t r1) eqn:V1, (visible active t r2) eqn:V2,
    (txnID r1 <? txnID r2) eqn:Et; repeat case_decide; try done; cbn; rewrite ?Et; cbn;
    rewrite ?V1, ?V2; done.
Qed.

(** Compaction can change what readers see, in three ways, on a page with two
    records of a key the first of which is live and visible. A deleted key comes
    back: when the second record has expired (a delete is a write that expires at
    once), the key is absent before and has the old value after, since expired
    records are skipped before transaction ids are compared. A transaction's
    second write is undone: of two live records with the same id the older one is
    kept (the comparison is strict). A committed value disappears for other
    readers: an uncommitted record with a higher id replaces it. *)
Theorem compaction_anomalies now dt now' d m rs d' m' active t k r1 r2 :
  page_holds d rs -> compactPage now dt d m = Ok (d', m') ->
  filter (fun r => key r = k) rs = [r1; r2] ->
  visible active t r1 = true -> live now r1 = true -> live now' r1 = true ->
  (visible active t r2 = true -> live now r2 = false -> live now' r2 = false ->
   read_page now' active t k d = Err ErrKeyNotFound /\ read_page now' active t k d' = Ok (val r1)) /\
  (txnID r1 = txnID r2 -> visible active t r2 = true -> live now' r2 = true ->
   read_page now' active t k d = Ok (val r2) /\ read_page now' active t k d' = Ok (val r1)) /\
  (txnID r1 < txnID r2 -> visible active t r2 = false -> live now r2 = true ->
   read_page now' active t k d = Ok (val r1) /\ read_page now' active t k d' = Err ErrKeyNotFound).
Proof.
  intros H Hc Hf V1 L1 L1'.
  destruct (compaction_two now dt now' d m rs d' m' active t k r1 r2 H Hc Hf) as [-> ->].
  split_and!.
  - intros V2 L2 L2'. flags.
  - intros Ht V2 L2'. rewrite Ht, Z.ltb_irrefl, andb_false_r. flags.
  - intros Ht V2 L2. rewrite (proj2 (Z.ltb_lt _ _) Ht). flags.
Qed.
End Compaction.

(** Every list of records that fits is the contents of some page. *)
Lemma page_exists rs :
  Forall record_ok rs -> PageHeaderSize + 4 * zlen rs + total rs <= PageSize ->
  exists d, page_holds d rs.
Proof.
  intros Hok Hfit. destruct (repack_layout rs (Init zero_mem) []) as (d & _ & Hl).
  - apply (Init_repr zero_mem).
  - done.
  - change (zlen []) with 0. change (total []) with 0. lia.
  - exists (SetSlotCount d (zlen rs)). left. apply SetSlotCount_repr; [done|].
    unfold PageHeaderSize, PageSize in *. pose proof (total_nonneg rs). lia.
Qed.

(** Two records of one key: written by the given transactions, with the given
    expiries. *)
Definition two_records (t1 e1 t2 e2 : Z) : list record :=
  [mkRecord t1 e1 (str "k") (str "old"); mkRecord t2 e2 (str "k") (str "new")].

Lemma two_records_page t1 e1 t2 e2 :
  0 <= t1 < 2 ^ 64 -> 0 <= e1 < 2 ^ 64 -> 0 <= t2 < 2 ^ 64 -> 0 <= e2 < 2 ^ 64 ->
  exists d d' m, page_holds d (two_records t1 e1 t2 e2) /\ compactPage 1000 0 d None = Ok (d', m).
Proof.
  intros. destruct (page_exists (two_records t1 e1 t2 e2)) as [d Hd].
  - apply Forall_cons; split; [by split|]. apply Forall_cons; split; [by split|]. apply Forall_nil_2.
  - vm_compute. discriminate.
  - destruct (compactPage_spec 1000 0 d None _ Hd) as (d' & E & _). eauto.
Qed.

Lemma compactPage_correct_witness :
  exists d d' m, page_holds d (two_records 1 9999 2 9999) /\ compactPage 1000 0 d None = Ok (d', m) /\
    exists cs, page_repr d' cs /\ NoDup (key <$> cs).
Proof.
  destruct (two_records_page 1 9999 2 9999) as (d & d' & m & Hd & E); try lia.
  destruct (compactPage_correct 1000 0 d None _ Hd) as (d1 & cs & E1 & Hr & Hn & _).
  exists d, d1, (RecordPageCompactionTime 0 <$> None). split; [exact Hd|]. split; [exact E1|].
  exists cs. split; [exact Hr | exact Hn].
Defined.

Lemma compactPage_preserves_reads_witness :
  exists d d', page_holds d (two_records 1 9999 2 9999) /\
    read_page 1000 ∅ 7 (str "k") d' = read_page 1000 ∅ 7 (str "k") d.
Proof.
  destruct (two_records_page 1 9999 2 9999) as (d & d' & m & Hd & E); try lia.
  exists d, d'. split; [exact Hd|].
  apply (compactPage_preserves_reads 1000 0 1000 d None (two_records 1 9999 2 9999) d' m ∅ 7 (str "k")
    [mkRecord 1 9999 (str "k") (str "old")] (mkRecord 2 9999 (str "k") (str "new"))).
  - exact Hd.
  - exact E.
  - reflexivity.
  - repeat constructor.
  - reflexivity.
  - left. reflexivity.
Defined.

Lemma compaction_anomalies_witness :
  (exists d d', page_holds d (two_records 1 9999 2 500) /\
     read_page 1000 ∅ 7 (str "k") d = Err ErrKeyNotFound /\ read_page 1000 ∅ 7 (str "k") d' = Ok (str "old")) /\
  (exists d d', page_holds d (two_records 3 9999 3 9999) /\
     read_page 1000 ∅ 7 (str "k") d = Ok (str "new") /\ read_page 1000 ∅ 7 (str "k") d' = Ok (str "old")) /\
  (exists d d', page_holds d (two_records 1 9999 2 9999) /\
     read_page 1000 {[2]} 7 (str "k") d = Ok (str "old") /\
     read_page 1000 {[2]} 7 (str "k") d' = Err ErrKeyNotFound).
Proof.
  split; [|split].
  - destruct (two_records_page 1 9999 2 500) as (d & d' & m & Hd & E); try lia.
    exists d, d'. split; [exact Hd|].
    apply (compaction_anomalies 1000 0 1000 d None (two_records 1 9999 2 500) d' m ∅ 7 (str "k")
      (mkRecord 1 9999 (str "k") (str "old")) (mkRecord 2 500 (str "k") (str "new")));
      first [exact Hd | exact E | reflexivity].
  - destruct (two_records_page 3 9999 3 9999) as (d & d' & m & Hd & E); try lia.
    exists d, d'. split; [exact Hd|].
    apply (compaction_anomalies 1000 0 1000 d None (two_records 3 9999 3 9999) d' m ∅ 7 (str "k")
      (mkRecord 3 9999 (str "k") (str "old")) (mkRecord 3 9999 (str "k") (str "new")));
      first [exact Hd | exact E | reflexivity].
  - destruct (two_records_page 1 9999 2 9999) as (d & d' & m & Hd & E); try lia.
    exists d, d'. split; [exact Hd|].
    apply (compaction_anomalies 1000 0 1000 d None (two_records 1 9999 2 9999) d' m {[2]} 7 (str "k")
      (mkRecord 1 9999 (str "k") (str "old")) (mkRecord 2 9999 (str "k") (str "new")));
      first [exact Hd | exact E | reflexivity].
Defined.

(** ** Transactions *)

(** Active transactions have been issued. *)
Definition txns_ok {D P} (db : DB D P) : Prop :=
  0 <= nextTxnID db /\ forall t, t ∈ activeTxns db -> 0 < t <= nextTxnID db.

(** Calls on the transaction table. *)
Inductive txn_call := CallBegin | CallCommit (t : Z).

Fixpoint run_txns {D P} (cs : list txn_call) (db : DB D P) : list Z * DB D P :=
  match cs with
  | [] => ([], db)
  | CallBegin :: cs' =>
      let '(id, db) := BeginTxn db in
      let '(ids, db) := run_txns cs' db in (id :: ids, db)
  | CallCommit t :: cs' => run_txns cs' (CommitTxn db t)
  end.

Lemma run_txns_spec {D P} cs (db : DB D P) :
  txns_ok db -> nextTxnID db + zlen cs < 2 ^ 64 ->
  txns_ok (run_txns cs db).2 /\ StronglySorted Z.lt (run_txns cs db).1 /\
  Forall (fun t => nextTxnID db < t) (run_txns cs db).1 /\
  nextTxnID db <= nextTxnID (run_txns cs db).2.
Proof.
  revert db. induction cs as [|[|t] cs IH]; intros db [Hn Hact] Hlt; cbn [run_txns].
  { split_and!; [done | constructor | constructor | cbn; lia]. }
  - rewrite zlen_cons in Hlt. pose proof (zlen_nonneg cs).
    destruct (BeginTxn db) as [id db1] eqn:E. injection E as Hid Hdb.
    rewrite u64_small in Hid by lia.
    assert (nextTxnID db1 = id) as Hn1 by (rewrite <- Hdb; cbn; rewrite u64_small by lia; done).
    assert (txns_ok db1) as Hok1.
    { split; [lia|]. intros t. rewrite <- Hdb. cbn. rewrite u64_small by lia.
      intros [->%elem_of_singleton|Ht]%elem_of_union; [lia|]. apply Hact in Ht. lia. }
    destruct (IH db1 Hok1 ltac:(lia)) as (I1 & I2 & I3 & I4).
    destruct (run_txns cs db1) as [ids db2]. cbn in *. split_and!; [done| | |lia].
    + constructor; [done|]. by rewrite Hn1 in I3.
    + constructor; [lia|]. eapply Forall_impl; [exact I3|]. cbn. intros. lia.
  - rewrite zlen_cons in Hlt. apply (IH (CommitTxn db t)); [|cbn; lia]. split; [done|]. cbn.
    intros t' Ht'. apply Hact. set_solver.
Qed.

(** Transaction ids are issued in strictly increasing order and are never
    reused, whatever is committed in between (until 2^64 of them): in every run
    of begins and commits the issued ids increase and lie above the ids issued
    before, and every active transaction has been issued. *)
Theorem txn_ids_fresh {D P} cs (db : DB D P) :
  txns_ok db -> nextTxnID db + zlen cs < 2 ^ 64 ->
  txns_ok (run_txns cs db).2 /\ StronglySorted Z.lt (run_txns cs db).1 /\
  Forall (fun t => nextTxnID db < t /\ t ∉ activeTxns db) (run_txns cs db).1.
Proof.
  intros Hok Hlt. destruct (run_txns_spec cs db Hok Hlt) as (H1 & H2 & H3 & _).
  split_and!; try done. eapply Forall_impl; [exact H3|]. cbn. intros t Ht. split; [done|].
  intros Hin. destruct Hok as [_ Hact]. apply Hact in Hin. lia.
Qed.

Lemma txn_ids_fresh_witness :
  (run_txns [CallBegin; CallBegin; CallCommit 1; CallBegin] demo_db).1 = [1; 2; 3] /\
  StronglySorted Z.lt (run_txns [CallBegin; CallBegin; CallCommit 1; CallBegin] demo_db).1.
Proof.
  split; [reflexivity|].
  apply (txn_ids_fresh [CallBegin; CallBegin; CallCommit 1; CallBegin] demo_db).
  - split; [cbn; lia|]. intros t Ht. cbn in Ht. set_solver.
  - reflexivity.
Defined.

(** ** Compressed values and hash keys *)

(** A value stored with [WriteCompressed] is read back by [ReadCompressed]
    with the same codec, before it expires, by the writing transaction, provided
    the codec decodes what it encoded and never encodes to nothing (a one-byte
    envelope is rejected). *)
Theorem compressed_roundtrip {D} `{DS : BlockDeviceSpec D} `{RD : !ReliableDevice D} `{MR : MapRange}
    ps (db : DB D LRUEvictionPolicy) pg rs t k v ttl codec c now enc db1 :
  db_rep ps db -> ps !! pg = Some rs -> 0 <= t < 2 ^ 64 ->
  Encode codec v = inr enc -> enc <> [] -> Decode codec enc = inr v -> zlen k + zlen enc < 2 ^ 29 ->
  now < i64 (write_expiry c (MixDuration ttl)) ->
  WriteCompressed db pg t k v ttl codec c = (Ok tt, db1) ->
  exists db2, ReadCompressed db1 pg t k codec now = (Ok v, db2).
Proof.
  intros Hrep Hrs Ht Henc Hne Hdec Hlen Hnow. unfold WriteCompressed. rewrite Henc. intros Hw.
  set (payload := codec_ID codec :: enc) in *.
  assert (zlen k + zlen payload < 2 ^ 30) as Hlen' by (unfold payload; rewrite zlen_cons; lia).
  pose proof (Write_run ps db pg rs t k payload (MixDuration ttl) c Hrep Hrs Ht Hlen') as Hrun.
  cbn zeta in Hrun. set (r := mkRecord t (write_expiry c (MixDuration ttl)) k payload) in *.
  destruct (write_spec (nowCompact c) rs r) as [fits rs'] eqn:Ew.
  destruct Hrun as (db' & E & _ & Hrep'). rewrite E in Hw. destruct fits; [|done]. injection Hw as ->.
  destruct (Read_run _ db1 pg rs' t k now Hrep') as (db2 & Er & _); [apply lookup_insert_eq|].
  exists db2. unfold ReadCompressed. rewrite Er.
  assert (exists rs0, rs' = rs0 ++ [r]) as [rs0 ->].
  { unfold write_spec in Ew. repeat case_decide; simplify_eq; eauto. }
  rewrite read_spec_snoc, bool_decide_eq_true_2 by done. unfold r at 1. rewrite visible_self.
  cbn [andb]. unfold live. cbn [expiresAt r]. rewrite (proj2 (Z.ltb_lt _ _)) by done.
  cbn -[zlen]. destruct (zlen payload <? 2) eqn:E2; bprop.
  - destruct enc as [|x enc]; [done|]. unfold payload in E2. rewrite !zlen_cons in E2.
    pose proof (zlen_nonneg enc). lia.
  - rewrite bool_decide_eq_true_2 by done. cbn. by rewrite Hdec.
Qed.

Definition identity_codec : Codec := mkCodec Byte.x01 inr inr.

Lemma compressed_roundtrip_witness :
  exists db1 db2, WriteCompressed demo_db 5 1 (str "k") (str "v") 0 identity_codec demo_clock = (Ok tt, db1) /\
    ReadCompressed db1 5 1 (str "k") identity_codec 2000 = (Ok (str "v"), db2).
Proof.
  assert (exists db1, WriteCompressed demo_db 5 1 (str "k") (str "v") 0 identity_codec demo_clock = (Ok tt, db1))
    as [db1 E].
  { pose proof (Write_run demo_pages demo_db 5 [] 1 (str "k") (Byte.x01 :: str "v") (MixDuration 0) demo_clock
      demo_rep eq_refl ltac:(lia) ltac:(reflexivity)) as H.
    cbn zeta in H. unfold write_spec in H. rewrite decide_True in H by (vm_compute; discriminate).
    destruct H as (db1 & E & _). exists db1. exact E. }
  destruct (compressed_roundtrip demo_pages demo_db 5 [] 1 (str "k") (str "v") 0 identity_codec demo_clock
    2000 (str "v") db1 demo_rep eq_refl ltac:(lia) eq_refl ltac:(discriminate) eq_refl ltac:(reflexivity)
    ltac:(reflexivity) E) as (db2 & E2).
  exists db1, db2. split; [exact E | exact E2].
Defined.

(** The storage key of a hash field identifies hash and field when the hash
    names contain no colon; with colons two different fields share a key, and
    [HSet] on one overwrites the other. *)
Theorem hash_key_injective :
  (forall h1 f1 h2 f2, Byte.x3a ∉ h1 -> Byte.x3a ∉ h2 ->
     hash_key h1 f1 = hash_key h2 f2 -> h1 = h2 /\ f1 = f2) /\
  hash_key (str "a:b") (str "c") = hash_key (str "a") (str "b:c").
Proof.
  split; [|reflexivity]. intros h1 f1 h2 f2 H1 H2 E. unfold hash_key in E.
  apply (inj (app PrefixHash)) in E. revert h2 H2 E.
  induction h1 as [|x h1 IH]; intros [|y h2] H2 E; cbn in E.
  - injection E as ->. done.
  - injection E as Ex _. exfalso. apply H2. rewrite Ex. left.
  - injection E as Ex _. exfalso. apply H1. rewrite Ex. left.
  - injection E as -> E. apply not_elem_of_cons in H1 as [_ H1], H2 as [_ H2].
    destruct (IH H1 h2 H2 E) as [-> ->]. done.
Qed.
