(* ===== verification/Recovery.v ===== *)
(** Crash recovery (recovery.go): the analysis, redo and undo passes over the
    log file, the scan for the highest transaction id, and their composition. *)

From Stdlib Require Import Strings.Byte.
From S2P Require Import Common.
From S2P Require Import Prelude.
From S2P Require Import Crc32.
From S2P Require Import VFS.
From S2P Require Import LRU.
From S2P Require Import Page.
From S2P Require Import Slotted.
From S2P Require Import Telemetry.
From S2P Require Import BufferPool.
From S2P Require Import PoolInv.
From S2P Require Import PoolOps.
From S2P Require Import WAL.
From S2P Require Import DBPage.
From S2P Require Import DB.
From S2P Require Import DBSpec.

(** ** Analysis *)

(** The [switch] on the record type. *)
Definition analysis_step (activeTxns : gmap Z LogSequenceNumber) (logType txnID : Z)
    (lsn : LogSequenceNumber) : gmap Z LogSequenceNumber :=
  if (logType =? LogTypeBegin) || (logType =? LogTypeUpdate) || (logType =? LogTypeCLR)
  then <[txnID := lsn]> activeTxns
  else if (logType =? LogTypeCommit) || (logType =? LogTypeAbort)
  then delete txnID activeTxns
  else activeTxns.

(** The loop over the frames left in the file; every round reads at least a
    header, so the length of the file bounds the rounds. *)
Fixpoint analysis_loop (fuel : nat) (bs : bytes) (activeTxns : gmap Z LogSequenceNumber) :
    result (gmap Z LogSequenceNumber) :=
  match fuel with
  | O => Hang
  | S fuel =>
      match ReadFull 49 bs with
      | Err EOF => Ok activeTxns
      | Err e => Err e
      | Ok (headerBuf, bs) =>
          let f := decode_header headerBuf in
          match ReadFull (payload_len f) bs with
          | Ok (payload, bs) =>
              if negb (ChecksumIEEE (f_header f ++ payload) =? f_crc f)
              then Err (Msg "analysis pass verification failed: CRC mismatch")
              else analysis_loop fuel bs (analysis_step activeTxns (f_logType f) (f_txnID f) (f_lsn f))
          | Err _ => Err (Msg "corrupted WAL payload inside analysis loop")
          | Panic => Panic
          | Hang => Hang
          end
      | Panic => Panic
      | Hang => Hang
      end
  end.

Definition runAnalysisPass (file : bytes) : result (gmap Z LogSequenceNumber) :=
  analysis_loop (S (length file)) file ∅.

(** The highest LSN of the map and its transaction, ties to the later one. *)
Definition max_lsn (l : list (Z * LogSequenceNumber)) : LogSequenceNumber * Z :=
  fold_left (fun '(maxLSN, targetTxnID) '(txnID, lsn) =>
    if maxLSN <=? lsn then (lsn, txnID) else (maxLSN, targetTxnID)) l (0, 0).

Section Recovery.
Context {D P : Type} `{BlockDevice D} `{EvictionPolicy P} `{MapRange}.
Implicit Types db : DB D P.

(** ** Redo *)

(** [clk n] is the clock the [n]-th recovery write sees. *)
Fixpoint redo_loop (fuel : nat) (clk : nat -> clock) (n : nat) (bs : bytes) db :
    result unit * DB D P :=
  match fuel with
  | O => (Hang, db)
  | S fuel =>
      match ReadFull 49 bs with
      | Err EOF => (Ok tt, db)
      | Err e => (Err e, db)
      | Ok (headerBuf, bs) =>
          let f := decode_header headerBuf in
          match ReadFull (payload_len f) bs with
          | Ok (payload, bs) =>
              if (f_logType f =? LogTypeUpdate) || (f_logType f =? LogTypeCLR)
              then
                match payload_slice payload 0 (f_kLen f),
                      payload_slice payload (u32 (f_kLen f + f_oldLen f)) (zlen payload) with
                | Ok key, Ok newValue =>
                    let '(r, db) := restoreWrite db 0 MaxInt64 (f_pageID f) key newValue (clk n) in
                    match r with
                    | Ok _ => redo_loop fuel clk (S n) bs db
                    | Err e => (Err (Wrap "failed to reapply operational adjustments" e), db)
                    | _ => (r, db)
                    end
                | _, _ => (Panic, db)
                end
              else redo_loop fuel clk n bs db
          | Err e => (Err e, db)
          | Panic => (Panic, db)
          | Hang => (Hang, db)
          end
      | Panic => (Panic, db)
      | Hang => (Hang, db)
      end
  end.

Definition runRedoPass (clk : nat -> clock) db (file : bytes) : result unit * DB D P :=
  redo_loop (S (length file)) clk 0 file db.

(** ** Undo *)

(** [Hang] stands for a loop that has not ended within the given number of
    rounds; the map is returned because the caller goes on to use it. *)
Fixpoint runUndoPass (fuel : nat) (clk : nat -> clock) (n : nat) db (file : bytes)
    (activeTxns : gmap Z LogSequenceNumber) : result (gmap Z LogSequenceNumber) * DB D P :=
  match fuel with
  | O => (Hang, db)
  | S fuel =>
      if bool_decide (activeTxns = ∅) then (Ok activeTxns, db)
      else
        let '(maxLSN, targetTxnID) := max_lsn (range activeTxns) in
        if maxLSN =? 0 then (Ok activeTxns, db)
        else if i64 maxLSN <? 0 then (Err (Msg "seek: invalid argument"), db)
        else
          match ReadFull 49 (drop (Z.to_nat maxLSN) file) with
          | Ok (headerBuf, bs) =>
              let f := decode_header headerBuf in
              match ReadFull (payload_len f) bs with
              | Ok (payload, _) =>
                  let next := if f_prevLSN f =? 0 then delete targetTxnID activeTxns
                              else <[targetTxnID := f_prevLSN f]> activeTxns in
                  if f_logType f =? LogTypeUpdate
                  then
                    match payload_slice payload 0 (f_kLen f),
                          payload_slice payload (f_kLen f) (u32 (f_kLen f + f_oldLen f)) with
                    | Ok key, Ok oldValue =>
                        let '(r, db) := restoreWrite db targetTxnID MaxInt64 (f_pageID f) key oldValue (clk n) in
                        match r with
                        | Ok _ => runUndoPass fuel clk (S n) db file next
                        | Err e => (Err (Wrap "failed to undo changes" e), db)
                        | Panic => (Panic, db)
                        | Hang => (Hang, db)
                        end
                    | _, _ => (Panic, db)
                    end
                  else runUndoPass fuel clk n db file next
              | Err e => (Err e, db)
              | Panic => (Panic, db)
              | Hang => (Hang, db)
              end
          | Err e => (Err e, db)
          | Panic => (Panic, db)
          | Hang => (Hang, db)
          end
  end.

(** ** The highest transaction id on the low pages *)

(** The slot loop of one page. *)
Fixpoint max_slot_txn (d : mem) (fuel : nat) (i : Z) (max : Z) : result Z :=
  match fuel with
  | O => Ok max
  | S fuel =>
      match GetSlot d i with
      | Err _ => max_slot_txn d fuel (i + 1) max
      | Ok slot =>
          if Length slot <? 8 then max_slot_txn d fuel (i + 1) max
          else
            bs ← sliceR d PageSize (Offset slot) (u16 (Offset slot + 8));
            max_slot_txn d fuel (i + 1) (Z.max (le_val bs) max)
      | Panic => Panic
      | Hang => Hang
      end
  end.

(** [for pageID := PageID(1); pageID <= 32; pageID++]; a page that cannot be
    fetched is skipped. *)
Fixpoint max_txn_pages (ids : list PageID) db (max : Z) : result Z * DB D P :=
  match ids with
  | [] => (Ok max, db)
  | id :: ids =>
      match latched_read db id (fun d =>
              match max_slot_txn d (Z.to_nat (GetSlotCount d)) 0 max with Ok m => Ok m | _ => Panic end) with
      | (Ok m, db) => max_txn_pages ids db m
      | (Err _, db) => max_txn_pages ids db max
      | (r, db) => (r, db)
      end
  end.

Definition maxTxnIDOnPages db : result Z * DB D P := max_txn_pages (seqZ 1 32) db 0.

(** ** PerformRecovery *)

(** [walFile] is [None] when the log file does not exist.  [undoFuel] bounds
    the undo rounds; [clkRedo] and [clkUndo] are the clocks of the two passes. *)
Definition PerformRecovery (undoFuel : nat) (clkRedo clkUndo : nat -> clock) db
    (walFile : option bytes) : result unit * DB D P :=
  match walFile with
  | None => (Ok tt, db)
  | Some file =>
      match runAnalysisPass file with
      | Err e => (Err (Wrap "ARIES Analysis Pass failed" e), db)
      | Panic => (Panic, db)
      | Hang => (Hang, db)
      | Ok losers =>
          let '(r, db) := runRedoPass clkRedo db file in
          match r with
          | Err e => (Err (Wrap "ARIES Redo Pass failed" e), db)
          | Panic => (Panic, db)
          | Hang => (Hang, db)
          | Ok _ =>
              let '(r, db) := runUndoPass undoFuel clkUndo 0 db file losers in
              match r with
              | Err e => (Err (Wrap "ARIES Undo Pass failed" e), db)
              | Panic => (Panic, db)
              | Hang => (Hang, db)
              | Ok unresolved =>
                  let maxTxnID := fold_left Z.max (range unresolved).*1 0 in
                  let db := mkDB (bp db) (wal db) (nextTxnID db) (dom unresolved ∪ activeTxns db)
                              (db_closed db) (db_metrics db) in
                  let '(r, db) := maxTxnIDOnPages db in
                  match r with
                  | Ok pageMax =>
                      (Ok tt, mkDB (bp db) (wal db) (Z.max maxTxnID pageMax) (activeTxns db)
                                (db_closed db) (db_metrics db))
                  | Err e => (Err e, db)
                  | Panic => (Panic, db)
                  | Hang => (Hang, db)
                  end
              end
          end
      end
  end.
End Recovery.
