(* ===== verification/RecoverySpec.v ===== *)
(** What recovery does, on logs written by appends: the transactions analysis
    finds, the records redo re-applies, the before-images undo restores, and
    how the passes end. *)

From Stdlib Require Import Strings.Byte.
From S2P Require Import Common.
From S2P Require Import Prelude.
From S2P Require Import Crc32.
From S2P Require Import VFS.
From S2P Require Import LRU.
From S2P Require Import Page.
From S2P Require Import Slotted.
From S2P Require Import Telemetry.
From S2P Require Import BufferPool.
From S2P Require Import PoolInv.
From S2P Require Import PoolOps.
From S2P Require Import WAL.
From S2P Require Import DBPage.
From S2P Require Import DB.
From S2P Require Import DBSpec.
From S2P Require Import Recovery.

#[local] Arguments writeEntry : simpl never.
#[local] Arguments write_entries : simpl never.
#[local] Arguments decode_header : simpl never.

(** ** Analysis *)

Definition analysis_entry (A : gmap Z Z) (e : walEntry) : gmap Z Z :=
  analysis_step A (e_logType e) (e_txnID e) (e_lsn e).

(** The losers of a log. *)
Definition losers (es : list walEntry) : gmap Z Z := fold_left analysis_entry es ∅.

Lemma ReadFull_nil n : 0 < n -> ReadFull n [] = Err EOF.
Proof. intros Hn. unfold ReadFull. rewrite (proj2 (Z.leb_gt _ _)) by lia. done. Qed.

Lemma ReadFull_inv n bs a b : 0 < n -> ReadFull n bs = Ok (a, b) -> bs = a ++ b /\ zlen a = n.
Proof.
  intros Hn. unfold ReadFull. rewrite (proj2 (Z.leb_gt _ _)) by lia.
  destruct (zlen bs =? 0) eqn:E1; [done|]. destruct (zlen bs <? n) eqn:E2; [done|]. bprop.
  intros [= <- <-]. split; [by rewrite take_drop|]. unfold zlen in *. rewrite length_take. lia.
Qed.

Lemma length_write_entries es : (length es <= length (write_entries es))%nat.
Proof.
  induction es as [|e es IH]; [done|]. rewrite write_entries_cons, length_app. cbn [length].
  pose proof (zlen_writeEntry e) as Hz. unfold entry_size, zlen in Hz. lia.
Qed.

(** A frame that is read back passes the checksum test. *)
Lemma analysis_frame fuel e rest A :
  entry_ok e ->
  analysis_loop (S fuel) (writeEntry e ++ rest) A = analysis_loop fuel rest (analysis_entry A e).
Proof.
  intros Hok. destruct (read_entry e rest Hok) as (h & Hh & Hd & Hl & Hp). cbn [analysis_loop].
  rewrite Hh. cbn zeta. rewrite Hp, Hd. cbn [f_header f_crc f_logType f_txnID f_lsn].
  by rewrite Z.eqb_refl.
Qed.

Lemma analysis_entries es fuel rest A :
  Forall entry_ok es -> (length es <= fuel)%nat ->
  analysis_loop fuel (write_entries es ++ rest) A =
  analysis_loop (fuel - length es) rest (fold_left analysis_entry es A).
Proof.
  revert fuel A. induction es as [|e es IH]; intros fuel A Hok Hf.
  { cbn. by rewrite Nat.sub_0_r. }
  apply Forall_cons in Hok as [He Hok]. destruct fuel as [|fuel]; [cbn in Hf; lia|].
  rewrite write_entries_cons, <- app_assoc, analysis_frame by done.
  rewrite IH by (done || (cbn in Hf; lia)). done.
Qed.

Lemma analysis_ok es : Forall entry_ok es -> runAnalysisPass (write_entries es) = Ok (losers es).
Proof.
  intros Hok. unfold runAnalysisPass. rewrite <- (app_nil_r (write_entries es)) at 2.
  pose proof (length_write_entries es).
  rewrite analysis_entries by (done || lia). rewrite Nat.sub_succ_l by lia. cbn [analysis_loop].
  by rewrite ReadFull_nil by lia.
Qed.

(** Types that decide whether a transaction is active. *)
Definition is_end (e : walEntry) : bool :=
  (e_logType e =? LogTypeCommit) || (e_logType e =? LogTypeAbort).
Definition is_work (e : walEntry) : bool :=
  (e_logType e =? LogTypeBegin) || (e_logType e =? LogTypeUpdate) || (e_logType e =? LogTypeCLR).

Lemma analysis_entry_lookup A e t :
  analysis_entry A e !! t =
  if bool_decide (e_txnID e = t) && (is_work e || is_end e)
  then if is_work e then Some (e_lsn e) else None
  else A !! t.
Proof.
  unfold analysis_entry, analysis_step. fold (is_work e) (is_end e).
  destruct (is_work e), (is_end e); cbn [orb andb]; rewrite ?andb_true_r, ?andb_false_r; try done;
    (destruct (decide (e_txnID e = t)) as [<-|Hne];
     [rewrite bool_decide_eq_true_2 by done | rewrite bool_decide_eq_false_2 by done]).
  all: rewrite ?lookup_insert_eq, ?lookup_delete_eq; try done.
  all: by rewrite ?lookup_insert_ne, ?lookup_delete_ne.
Qed.

(** A transaction is a loser when its last deciding record is no end; its LSN
    is that of this record. *)
Lemma losers_lookup es t :
  losers es !! t =
  match last (filter (fun e => e_txnID e = t /\ is_work e || is_end e = true) es) with
  | Some e => if is_work e then Some (e_lsn e) else None
  | None => None
  end.
Proof.
  induction es as [|e es IH] using rev_ind; [done|].
  unfold losers. rewrite fold_left_app. cbn [fold_left]. fold (losers es).
  rewrite analysis_entry_lookup, filter_app, filter_cons, filter_nil.
  destruct (decide (e_txnID e = t /\ is_work e || is_end e = true)) as [[Ht Hd]|Hn].
  - rewrite bool_decide_eq_true_2, Hd by done. cbn [andb]. by rewrite last_snoc.
  - rewrite app_nil_r, IH. destruct (bool_decide (e_txnID e = t)) eqn:Eb; [|done].
    apply bool_decide_eq_true in Eb. destruct (is_work e || is_end e) eqn:Ed; [|done].
    naive_solver.
Qed.

(** ** A torn tail *)

Lemma zlen_pos {A} (l : list A) : l <> [] -> 0 < zlen l.
Proof. destruct l as [|x l]; [done|]. rewrite zlen_cons. pose proof (zlen_nonneg l). lia. Qed.

(** Bytes that start like a frame but stop before its end. *)
Lemma analysis_torn fuel e tail A :
  entry_ok e -> tail <> [] -> (exists more, more <> [] /\ writeEntry e = tail ++ more) ->
  (0 < fuel)%nat -> exists err, analysis_loop fuel tail A = Err err.
Proof.
  intros Hok Hne (more & Hm & E) Hf. destruct fuel as [|fuel]; [lia|]. cbn [analysis_loop].
  assert (0 < zlen tail /\ 0 < zlen more) as [Ht Hm'].
  { split; by apply zlen_pos. }
  destruct (Z_lt_le_dec (zlen tail) 49) as [Hshort|Hlong].
  { unfold ReadFull. rewrite (proj2 (Z.eqb_neq (zlen tail) 0)), (proj2 (Z.ltb_lt (zlen tail) 49)) by lia.
    eexists. done. }
  destruct (read_entry e [] Hok) as (h & Hh & Hd & Hl & _). rewrite !app_nil_r in Hh.
  apply ReadFull_inv in Hh as [Ew Hlen]; [|lia]. rewrite E in Ew.
  assert (exists p, tail = h ++ p /\ entry_payload e = p ++ more) as (p & -> & Ep).
  { apply app_eq_inv in Ew as [(x & E1 & E2)|(x & E1 & E2)]; [by eauto|].
    exists [].
    rewrite E1, zlen_app in Hlen. pose proof (zlen_nonneg x).
    assert (x = []) as -> by (destruct x; [done | rewrite zlen_cons in *; pose proof (zlen_nonneg x); lia]).
    rewrite E1, E2, !app_nil_r. done. }
  rewrite ReadFull_app by lia. rewrite Hl. unfold ReadFull. rewrite Ep, zlen_app.
  pose proof (zlen_nonneg p). rewrite (proj2 (Z.leb_gt _ _)) by lia.
  repeat case_match; bprop; simplify_eq; eauto. lia.
Qed.

(** ** Recovery writes *)

(** The writes of a pass, applied to record lists; stops at the first page that
    overflows. *)
Fixpoint apply_writes `{MapRange} (clk : nat -> clock) (n : nat) (ws : list (PageID * record))
    (ps : gmap PageID (list record)) : bool * gmap PageID (list record) :=
  match ws with
  | [] => (true, ps)
  | (pg, r) :: ws' =>
      let '(fits, rs') := write_spec (nowCompact (clk n)) (default [] (ps !! pg)) r in
      if fits then apply_writes clk (S n) ws' (<[pg := rs']> ps) else (false, <[pg := rs']> ps)
  end.

(** What redo writes for a record: the after-image, as transaction 0. *)
Definition redo_write (e : walEntry) : option (PageID * record) :=
  if (e_logType e =? LogTypeUpdate) || (e_logType e =? LogTypeCLR)
  then Some (e_pageID e, mkRecord 0 MaxInt64 (e_key e) (e_newValue e)) else None.

(** What undo writes for a record: the before-image, as its transaction. *)
Definition undo_write (e : walEntry) : option (PageID * record) :=
  if e_logType e =? LogTypeUpdate
  then Some (e_pageID e, mkRecord (e_txnID e) MaxInt64 (e_key e) (e_oldValue e)) else None.

(** Going backward through the log, the records of transactions without a
    later end; the record at LSN 0 is not reached. *)
Fixpoint undo_scan (finished : gset Z) (es : list walEntry) : list walEntry :=
  match es with
  | [] => []
  | e :: es' =>
      if is_end e then undo_scan ({[e_txnID e]} ∪ finished) es'
      else if bool_decide (e_txnID e ∈ finished) || (e_lsn e =? 0) then undo_scan finished es'
      else e :: undo_scan finished es'
  end.

Definition undo_writes (es : list walEntry) : list (PageID * record) :=
  omap undo_write (undo_scan ∅ (rev es)).

(** Records recovery can handle on the pages [ps]: the fields fit, the payload
    is below the page-record bound, and the page is a slotted page. *)
Definition entry_on (ps : gmap PageID (list record)) (e : walEntry) : Prop :=
  entry_ok e /\ zlen (entry_payload e) < 2 ^ 30 /\ is_Some (ps !! e_pageID e).

Lemma entry_on_insert ps pg rs e : entry_on ps e -> entry_on (<[pg := rs]> ps) e.
Proof.
  intros (? & ? & Hs). split_and!; try done.
  destruct (decide (e_pageID e = pg)) as [->|]; [rewrite lookup_insert_eq; by eauto|].
  by rewrite lookup_insert_ne.
Qed.

Lemma Forall_entry_on_insert ps pg rs es :
  Forall (entry_on ps) es -> Forall (entry_on (<[pg := rs]> ps)) es.
Proof. intros H. eapply Forall_impl; [exact H|]. intros. by apply entry_on_insert. Qed.

(** ** The highest LSN *)

Lemma max_lsn_fold (l : list (Z * Z)) m t0 :
  (forall t x, (t, x) ∈ l -> x < m) ->
  fold_left (fun '(maxLSN, targetTxnID) '(txnID, lsn) =>
    if maxLSN <=? lsn then (lsn, txnID) else (maxLSN, targetTxnID)) l (m, t0) = (m, t0).
Proof.
  induction l as [|[t x] l IH]; intros Hl; [done|]. cbn [fold_left].
  rewrite (proj2 (Z.leb_gt _ _)) by (apply (Hl t); left). apply IH. intros. eapply Hl. by right.
Qed.

Lemma max_lsn_unique (l1 l2 : list (Z * Z)) t x :
  0 < x -> (forall t' y, (t', y) ∈ l1 ++ l2 -> y < x) -> max_lsn (l1 ++ (t, x) :: l2) = (x, t).
Proof.
  intros Hx Hl. unfold max_lsn. rewrite fold_left_app. cbn [fold_left].
  assert (forall (l : list (Z * Z)) m t0, m < x -> (forall t y, (t, y) ∈ l -> y < x) ->
    (fold_left (fun '(maxLSN, targetTxnID) '(txnID, lsn) =>
      if maxLSN <=? lsn then (lsn, txnID) else (maxLSN, targetTxnID)) l (m, t0)).1 < x) as Hlt.
  { induction l as [|[a b] l IH]; intros m t0 Hm Hb; [done|]. cbn [fold_left].
    destruct (m <=? b); apply IH; try done; intros; eapply Hb; try (by right). left. }
  specialize (Hlt l1 0 0 Hx ltac:(intros; eapply Hl; apply elem_of_app; eauto)).
  destruct (fold_left _ l1 (0, 0)) as [m t0]. cbn in Hlt. rewrite (proj2 (Z.leb_le _ _)) by lia.
  apply max_lsn_fold. intros. eapply Hl. apply elem_of_app. eauto.
Qed.

Lemma max_lsn_zero (l : list (Z * Z)) : (forall t x, (t, x) ∈ l -> x = 0) -> (max_lsn l).1 = 0.
Proof.
  intros Hl. unfold max_lsn. assert (forall t0, (fold_left (fun '(maxLSN, targetTxnID) '(txnID, lsn) =>
    if maxLSN <=? lsn then (lsn, txnID) else (maxLSN, targetTxnID)) l (0, t0)).1 = 0) as Hf; [|apply Hf].
  induction l as [|[t x] l IH]; intros t0; [done|]. cbn [fold_left].
  rewrite (Hl t x) by left. apply IH. intros. eapply Hl. by right.
Qed.

Lemma max_lsn_map `{MapRange} (A : gmap Z Z) t x :
  A !! t = Some x -> 0 < x -> (forall t' y, t' <> t -> A !! t' = Some y -> y < x) ->
  max_lsn (range A) = (x, t).
Proof.
  intros Ht Hx Hmax. apply elem_of_range in Ht as Hin.
  apply list_elem_of_split in Hin as (l1 & l2 & E). rewrite E.
  apply max_lsn_unique; [done|]. intros t' y Hin. pose proof (NoDup_range_keys A) as Hnd.
  rewrite E, fmap_app, fmap_cons in Hnd. apply NoDup_app in Hnd as (_ & Hd & [Hn _]%NoDup_cons).
  apply (Hmax t').
  - intros ->. apply elem_of_app in Hin as [Hin|Hin]; apply (list_elem_of_fmap_2 fst) in Hin; cbn in Hin.
    + apply (Hd t Hin). left.
    + done.
  - apply elem_of_range. rewrite E. apply elem_of_app in Hin as [?|?]; apply elem_of_app; [by left|].
    right. by right.
Qed.

(** ** Back pointers of a log written from the start *)

(** An LSN of 0 marks the end of a chain. *)
Definition nz (o : option Z) : option Z :=
  match o with Some l => if l =? 0 then None else Some l | None => None end.

Lemma chain_lt off prev es t l :
  0 <= off -> (forall t l, prev !! t = Some l -> 0 <= l < off) -> log_ok off prev es ->
  chain prev es !! t = Some l -> 0 <= l < off + zlen (write_entries es).
Proof.
  revert off prev. induction es as [|e es IH]; intros off prev Ho Hp Hl.
  { cbn. intros Ht. apply Hp in Ht. pose proof (zlen_nonneg (write_entries [])). lia. }
  destruct Hl as (Hok & Hlsn & Hprev & Hl). cbn [chain fold_left]. intros Ht.
  rewrite write_entries_cons, zlen_app, zlen_writeEntry.
  pose proof (zlen_nonneg (entry_payload e)). unfold entry_size in *.
  apply (IH (off + (49 + zlen (entry_payload e))) (chain_step prev e)) in Ht; try done; try lia.
  intros t' l'. unfold chain_step. case_match.
  - intros [_ H']%lookup_delete_Some. apply Hp in H'. lia.
  - intros [[_ <-]|[_ H']]%lookup_insert_Some; [lia|]. apply Hp in H'. lia.
Qed.

Lemma chain_snoc p e : chain ∅ (p ++ [e]) = chain_step (chain ∅ p) e.
Proof. unfold chain. by rewrite fold_left_app. Qed.

(** Without checkpoint records analysis and the back pointers agree. *)
Lemma losers_chain es : Forall (fun e => is_work e || is_end e = true) es -> losers es = chain ∅ es.
Proof.
  unfold losers, chain. generalize (∅ : gmap Z Z). induction es as [|e es IH]; intros A Hes; [done|].
  apply Forall_cons in Hes as [He Hes]. cbn [fold_left]. rewrite <- IH by done. f_equal.
  unfold analysis_entry, analysis_step, chain_step. fold (is_work e) (is_end e).
  destruct (is_work e) eqn:Ew.
  - assert (is_end e = false) as ->; [|done]. revert Ew. unfold is_work, is_end.
    destruct (e_logType e =? LogTypeCommit) eqn:E1, (e_logType e =? LogTypeAbort) eqn:E2; bprop;
      rewrite ?E1, ?E2; done.
  - cbn in He. by rewrite He.
Qed.

Section Passes.
Context {D : Type} `{DS : BlockDeviceSpec D} `{RD : !ReliableDevice D} `{MR : MapRange}.
Implicit Types db : DB D LRUEvictionPolicy.
Implicit Types ps : gmap PageID (list record).

Lemma restoreWrite_run ps db pg rs t ex k v c :
  db_rep ps db -> ps !! pg = Some rs -> 0 <= t < 2 ^ 64 -> 0 <= ex < 2 ^ 63 ->
  zlen k + zlen v < 2 ^ 30 ->
  let '(fits, rs') := write_spec (nowCompact c) rs (mkRecord t ex k v) in
  exists db', restoreWrite db t ex pg k v c = (if fits then Ok tt else Err ErrRecoveryOverflow, db') /\
    same_txns db db' /\ db_rep (<[pg := rs']> ps) db'.
Proof.
  intros Hrep Hrs Ht Hex Hlen. destruct (write_spec (nowCompact c) rs _) as [fits rs'] eqn:Ew.
  unfold restoreWrite. rewrite u64_small by lia.
  destruct (latched_write_total ps db pg rs rs' (fun _ => pg)
    (if fits then None else Some ErrRecoveryOverflow)
    (fun d m => restore_page c d m (mkRecord t ex k v))) as (db' & E & Hsame & Hrep'); try done.
  - intros d m Hh. destruct (restore_page_spec c d m rs (mkRecord t ex k v) Hh) as (d' & m' & E & Hd').
    + split; cbn; lia.
    + unfold record_size, RecordHeaderSize. cbn. lia.
    + rewrite Ew in *. exists d', m'. split; [done|]. by left.
  - exists db'. unfold return_error. rewrite E. by destruct fits.
Qed.

Lemma same_txns_trans db1 db2 db3 : same_txns db1 db2 -> same_txns db2 db3 -> same_txns db1 db3.
Proof. intros [] []. split; congruence. Qed.

Lemma entry_on_lengths ps e : entry_on ps e ->
  0 <= zlen (e_key e) /\ 0 <= zlen (e_oldValue e) /\ 0 <= zlen (e_newValue e) /\
  zlen (e_key e) + zlen (e_oldValue e) + zlen (e_newValue e) < 2 ^ 30.
Proof.
  intros (_ & Hl & _). rewrite zlen_payload in Hl.
  pose proof (zlen_nonneg (e_key e)). pose proof (zlen_nonneg (e_oldValue e)).
  pose proof (zlen_nonneg (e_newValue e)). lia.
Qed.

Lemma redo_entries clk es fuel n ps db :
  db_rep ps db -> Forall (entry_on ps) es -> (length es < fuel)%nat ->
  let '(ok, ps') := apply_writes clk n (omap redo_write es) ps in
  exists db', redo_loop fuel clk n (write_entries es) db =
      (if ok then Ok tt else Err (Wrap "failed to reapply operational adjustments" ErrRecoveryOverflow), db') /\
    same_txns db db' /\ db_rep ps' db' /\ dom ps' = dom ps.
Proof.
  revert fuel n ps db. induction es as [|e es IH]; intros fuel n ps db Hrep Hes Hf;
    (destruct fuel as [|fuel]; [cbn in Hf; lia|]); cbn [redo_loop].
  { cbn [omap list_omap apply_writes]. exists db. change (write_entries []) with (@nil byte). by rewrite ReadFull_nil by lia. }
  apply Forall_cons in Hes as [He Hes]. pose proof (entry_on_lengths ps e He) as (H1 & H2 & H3 & H4).
  pose proof He as (Hok & _ & [rs Hrs]). rewrite write_entries_cons.
  destruct (read_entry e (write_entries es) Hok) as (h & Hh & Hd & Hl & Hp).
  rewrite Hh. cbn zeta. rewrite Hp, Hd. cbn [f_logType f_kLen f_oldLen f_pageID].
  destruct (payload_slices e) as (P1 & P2 & P3). rewrite u32_small by lia. rewrite P1, P3.
  change (omap redo_write (e :: es)) with
    (match redo_write e with Some w => w :: omap redo_write es | None => omap redo_write es end).
  unfold redo_write at 1. destruct (_ || _) eqn:Ety.
  - cbn [apply_writes]. rewrite Hrs. change (default [] (Some rs)) with rs.
    pose proof (restoreWrite_run ps db (e_pageID e) rs 0 MaxInt64 (e_key e) (e_newValue e) (clk n) Hrep Hrs
      ltac:(lia) ltac:(unfold MaxInt64; lia) ltac:(lia)) as Hw.
    destruct (write_spec (nowCompact (clk n)) rs _) as [fits rs'].
    destruct Hw as (db1 & Hw & Hs1 & Hrep1). rewrite Hw.
    assert (dom (<[e_pageID e := rs']> ps) = dom ps) as Hdom.
    { rewrite dom_insert_L. apply elem_of_dom_2 in Hrs. set_solver. }
    destruct fits; [|exists db1; by rewrite Hdom].
    specialize (IH fuel (S n) _ db1 Hrep1 (Forall_entry_on_insert _ _ _ _ Hes) ltac:(cbn in Hf; lia)).
    destruct (apply_writes clk (S n) _ _) as [ok ps']. destruct IH as (db' & -> & Hs & Hr & Hdm).
    exists db'. rewrite Hdm, Hdom. split_and!; try done. by eapply same_txns_trans.
  - specialize (IH fuel n ps db Hrep Hes ltac:(cbn in Hf; lia)). done.
Qed.

(** The losers that are left while undo goes back through the log: those of the
    prefix [p] that no later record ended. *)
Definition undo_inv (p : list walEntry) (finished : gset Z) (A : gmap Z Z) : Prop :=
  forall t, nz (A !! t) = if bool_decide (t ∈ finished) then None else nz (chain ∅ p !! t).

Lemma undo_inv_other p e finished A :
  undo_inv (p ++ [e]) finished A ->
  forall t, t <> e_txnID e -> nz (A !! t) = if bool_decide (t ∈ finished) then None else nz (chain ∅ p !! t).
Proof.
  intros HA t Hne. rewrite (HA t). rewrite chain_snoc. unfold chain_step.
  destruct (bool_decide (t ∈ finished)); [done|].
  destruct (_ || _); [by rewrite lookup_delete_ne | by rewrite lookup_insert_ne].
Qed.

Lemma undo_inv_end p e finished A :
  is_end e = true -> undo_inv (p ++ [e]) finished A -> undo_inv p ({[e_txnID e]} ∪ finished) A.
Proof.
  intros He HA t. destruct (decide (t = e_txnID e)) as [->|Hne].
  - rewrite (bool_decide_eq_true_2 (_ ∈ _ ∪ _)) by set_solver. rewrite (HA (e_txnID e)).
    rewrite chain_snoc. unfold chain_step. fold (is_end e). rewrite He, lookup_delete_eq. by case_match.
  - rewrite (undo_inv_other p e finished A HA t Hne).
    rewrite (bool_decide_ext (t ∈ {[e_txnID e]} ∪ finished) (t ∈ finished)) by set_solver. done.
Qed.

Lemma undo_inv_skip p e finished A :
  is_end e = false -> e_txnID e ∈ finished \/ (e_lsn e = 0 /\ p = []) ->
  undo_inv (p ++ [e]) finished A -> undo_inv p finished A.
Proof.
  intros He Hs HA t. destruct (decide (t = e_txnID e)) as [->|Hne]; [|by apply (undo_inv_other p e)].
  rewrite (HA (e_txnID e)). destruct Hs as [Hin|[Hl ->]]; [by rewrite !bool_decide_eq_true_2|].
  case_match; [done|]. cbn. unfold chain_step. fold (is_end e). rewrite He, lookup_insert_eq. cbn.
  by rewrite Hl.
Qed.

Lemma undo_inv_done A : undo_inv [] ∅ A \/ (exists C, undo_inv [] C A) ->
  forall t x, A !! t = Some x -> x = 0.
Proof.
  intros HA t x Ht. assert (nz (A !! t) = None) as Hn.
  { destruct HA as [HA|[C HA]]; rewrite (HA t); by case_match. }
  rewrite Ht in Hn. cbn in Hn. destruct (x =? 0) eqn:E; bprop; done.
Qed.

(** What is left when undo stops: nothing but the losers whose only record is
    at LSN 0. *)
Definition undo_left (A A' : gmap Z Z) : Prop :=
  forall t x, A' !! t = Some x -> x = 0 /\ A !! t = Some 0.

Lemma undo_stop fuel clk n db file A finished :
  undo_inv [] finished A -> (0 < fuel)%nat ->
  exists A', runUndoPass fuel clk n db file A = (Ok A', db) /\ undo_left A A'.
Proof.
  intros HA Hf. destruct fuel as [|fuel]; [lia|]. cbn [runUndoPass].
  assert (forall t x, A !! t = Some x -> x = 0) as H0 by (apply undo_inv_done; eauto).
  exists A. assert (undo_left A A) as HL by (intros t x Ht; by rewrite <- (H0 t x Ht) at 2; split; [eauto|]).
  case_bool_decide; [done|].
  pose proof (max_lsn_zero (range A)) as Hm. destruct (max_lsn (range A)) as [m t0]. cbn in Hm.
  rewrite Hm by (intros t x Hin; by apply elem_of_range, H0 in Hin). done.
Qed.

(** The round undoes the last record of the prefix: its LSN is the highest. *)
Lemma undo_picks_last p e finished A :
  log_ok 0 ∅ p -> undo_inv (p ++ [e]) finished A -> is_end e = false -> e_txnID e ∉ finished ->
  e_lsn e = zlen (write_entries p) -> e_lsn e <> 0 ->
  A !! e_txnID e = Some (e_lsn e) /\ max_lsn (range A) = (e_lsn e, e_txnID e).
Proof.
  intros Hlp HA He Hfin Hl Hlsn. pose proof (zlen_nonneg (write_entries p)) as Hoff. rewrite <- Hl in Hoff.
  assert (A !! e_txnID e = Some (e_lsn e)) as HAe.
  { specialize (HA (e_txnID e)). rewrite bool_decide_eq_false_2, chain_snoc in HA by done.
    unfold chain_step in HA. fold (is_end e) in HA. rewrite He, lookup_insert_eq in HA. cbn in HA.
    rewrite (proj2 (Z.eqb_neq (e_lsn e) 0)) in HA by done.
    destruct (A !! e_txnID e) as [x|]; cbn in HA; [|done]. destruct (x =? 0); by simplify_eq. }
  split; [done|]. apply max_lsn_map; [done | lia |]. intros t y Hne Hy.
  pose proof (undo_inv_other p e finished A HA t Hne) as Hnz. rewrite Hy in Hnz. cbn in Hnz.
  destruct (y =? 0) eqn:E0; bprop; [lia|]. destruct (bool_decide (t ∈ finished)); [done|].
  destruct (chain ∅ p !! t) as [l|] eqn:El; [|done]. eapply (chain_lt 0 ∅ p) in El; [| lia | set_solver | done]. cbn in Hnz.
  destruct (l =? 0); simplify_eq. lia.
Qed.

Lemma undo_left_step A next A' :
  (forall t, next !! t = Some 0 -> A !! t = Some 0) -> undo_left next A' -> undo_left A A'.
Proof. intros Hdom Hl t x Ht. destruct (Hl t x Ht) as [-> H0]. split; [done|]. by apply Hdom. Qed.

(** One round of undo on the last record of the prefix. *)
Lemma undo_round fuel clk n db p e q finished A :
  log_ok 0 ∅ (p ++ e :: q) -> zlen (write_entries (p ++ e :: q)) < 2 ^ 63 ->
  undo_inv (p ++ [e]) finished A -> is_end e = false -> e_txnID e ∉ finished -> e_lsn e <> 0 ->
  zlen (entry_payload e) < 2 ^ 30 ->
  exists next, undo_inv p finished next /\ (forall t, next !! t = Some 0 -> A !! t = Some 0) /\
    runUndoPass (S fuel) clk n db (write_entries (p ++ e :: q)) A =
    match undo_write e with
    | Some (pg, r) =>
        let '(res, db') := restoreWrite db (txnID r) MaxInt64 pg (key r) (val r) (clk n) in
        match res with
        | Ok _ => runUndoPass fuel clk (S n) db' (write_entries (p ++ e :: q)) next
        | Err err => (Err (Wrap "failed to undo changes" err), db')
        | Panic => (Panic, db')
        | Hang => (Hang, db')
        end
    | None => runUndoPass fuel clk n db (write_entries (p ++ e :: q)) next
    end.
Proof.
  intros Hlog Hsz HA He Hfin Hlsn Hpl. set (es := p ++ e :: q) in *.
  pose proof Hlog as Hlog'. unfold es in Hlog'. apply log_ok_app in Hlog' as [Hlp (Hok & Hl & Hprev & _)].
  rewrite Z.add_0_l in Hl. set (off := zlen (write_entries p)) in *.
  pose proof (zlen_nonneg (write_entries p)) as Hoff. fold off in Hoff.
  destruct (undo_picks_last p e finished A Hlp HA He Hfin Hl Hlsn) as [HAe Hmax]. rewrite Hl in HAe, Hmax.
  assert (zlen (write_entries es) = off + zlen (writeEntry e) + zlen (write_entries q)) as Hze.
  { unfold es. rewrite write_entries_app, write_entries_cons, !zlen_app. fold off. lia. }
  exists (if e_prevLSN e =? 0 then delete (e_txnID e) A else <[e_txnID e := e_prevLSN e]> A).
  split_and!.
  - intros t. destruct (decide (t = e_txnID e)) as [->|Hne].
    + rewrite bool_decide_eq_false_2 by done. rewrite Hprev. destruct (chain ∅ p !! e_txnID e) as [l|]; cbn.
      * destruct (l =? 0) eqn:E0; [by rewrite lookup_delete_eq|]. rewrite lookup_insert_eq. cbn. by rewrite E0.
      * by rewrite lookup_delete_eq.
    + rewrite <- (undo_inv_other p e finished A HA t Hne).
      destruct (e_prevLSN e =? 0); [by rewrite lookup_delete_ne | by rewrite lookup_insert_ne].
  - intros t. destruct (e_prevLSN e =? 0) eqn:E0; bprop.
    + by intros [_ ?]%lookup_delete_Some.
    + intros [[_ ?]|[_ ?]]%lookup_insert_Some; done.
  - cbn [runUndoPass]. rewrite bool_decide_eq_false_2 by (intros ->; done). rewrite Hmax.
    rewrite (proj2 (Z.eqb_neq off 0)) by congruence.
    rewrite i64_small by (pose proof (zlen_nonneg (writeEntry e)); pose proof (zlen_nonneg (write_entries q)); lia).
    rewrite (proj2 (Z.ltb_ge off 0)) by lia.
    assert (drop (Z.to_nat off) (write_entries es) = writeEntry e ++ write_entries q) as ->.
    { unfold es. rewrite write_entries_app, write_entries_cons. apply drop_app_length'. unfold off, zlen. lia. }
    destruct (read_entry e (write_entries q) Hok) as (h & Hh & Hd & Hpll & Hp).
    rewrite Hh. cbn zeta. rewrite Hp, Hd. cbn [f_logType f_kLen f_oldLen f_pageID f_prevLSN].
    destruct (payload_slices e) as (P1 & P2 & P3). rewrite zlen_payload in Hpl.
    pose proof (zlen_nonneg (e_key e)). pose proof (zlen_nonneg (e_oldValue e)).
    pose proof (zlen_nonneg (e_newValue e)).
    rewrite u32_small by lia. rewrite P1, P2. unfold undo_write. by destruct (e_logType e =? LogTypeUpdate).
Qed.

Lemma undo_entries clk q p finished A fuel n ps db :
  log_ok 0 ∅ (p ++ q) -> zlen (write_entries (p ++ q)) < 2 ^ 63 ->
  Forall (entry_on ps) p -> db_rep ps db -> undo_inv p finished A -> (length p < fuel)%nat ->
  let '(ok, ps') := apply_writes clk n (omap undo_write (undo_scan finished (rev p))) ps in
  exists r db', runUndoPass fuel clk n db (write_entries (p ++ q)) A = (r, db') /\
    same_txns db db' /\ db_rep ps' db' /\ dom ps' = dom ps /\
    (if ok then exists A', r = Ok A' /\ undo_left A A'
     else r = Err (Wrap "failed to undo changes" ErrRecoveryOverflow)).
Proof.
  revert q finished A fuel n ps db. induction p as [|e p IH] using rev_ind;
    intros q finished A fuel n ps db Hlog Hsz Hon Hrep HA Hf.
  { cbn [rev undo_scan omap list_omap apply_writes].
    destruct (undo_stop fuel clk n db (write_entries ([] ++ q)) A finished HA) as (A' & E & Hl); [cbn in Hf; lia|].
    exists (Ok A'), db. split_and!; try done. by exists A'. }
  rewrite length_app in Hf. cbn in Hf. rewrite rev_unit. cbn [undo_scan].
  apply Forall_app in Hon as [Hon [He _]%Forall_cons]. rewrite <- app_assoc in *. cbn [app] in *.
  destruct (is_end e) eqn:Hend.
  { apply IH; try done; [by apply undo_inv_end | lia]. }
  destruct (bool_decide (e_txnID e ∈ finished) || (e_lsn e =? 0)) eqn:Hskip.
  { apply IH; try done; [|lia]. apply (undo_inv_skip p e); try done.
    apply orb_true_iff in Hskip as [Hin%bool_decide_eq_true|Hz%Z.eqb_eq]; [by left|right]. split; [done|].
    apply log_ok_app in Hlog as [_ (_ & Hl & _)]. rewrite Hz, Z.add_0_l in Hl.
    destruct p as [|x p]; [done|]. rewrite write_entries_cons, zlen_app, zlen_writeEntry in Hl.
    unfold entry_size in Hl. pose proof (zlen_nonneg (entry_payload x)).
    pose proof (zlen_nonneg (write_entries p)). lia. }
  apply orb_false_iff in Hskip as [Hnin%bool_decide_eq_false Hnz%Z.eqb_neq].
  destruct fuel as [|fuel]; [lia|].
  destruct (undo_round fuel clk n db p e q finished A) as (next & Hnext & Hdom & E); try done.
  { apply He. }
  rewrite E. cbn [omap list_omap]. destruct (undo_write e) as [[pg r]|] eqn:Eu.
  - cbn [apply_writes]. pose proof (entry_on_lengths ps e He) as (H1 & H2 & H3 & H4).
    pose proof He as (Hok & _ & [rs Hrs]).
    unfold undo_write in Eu. destruct (_ =? _); [|done]. injection Eu as <- <-.
    rewrite Hrs. change (default [] (Some rs)) with rs. cbn [txnID key val].
    pose proof (restoreWrite_run ps db (e_pageID e) rs (e_txnID e) MaxInt64 (e_key e) (e_oldValue e) (clk n)
      Hrep Hrs ltac:(apply Hok) ltac:(unfold MaxInt64; lia) ltac:(lia)) as Hw.
    destruct (write_spec (nowCompact (clk n)) rs _) as [fits rs'].
    destruct Hw as (db1 & Hw & Hs1 & Hrep1). rewrite Hw.
    assert (dom (<[e_pageID e := rs']> ps) = dom ps) as Hdm.
    { rewrite dom_insert_L. apply elem_of_dom_2 in Hrs. set_solver. }
    destruct fits; [|eexists _, db1; split; [done|]; by rewrite Hdm].
    specialize (IH (e :: q) finished next fuel (S n) _ db1 Hlog Hsz (Forall_entry_on_insert _ _ _ _ Hon)
      Hrep1 Hnext ltac:(lia)).
    fold (omap undo_write (undo_scan finished (rev p))).
    destruct (apply_writes clk (S n) _ _) as [ok ps']. destruct IH as (r & db' & -> & Hs & Hr & Hd & Hfin).
    exists r, db'. rewrite Hd, Hdm. split_and!; try done; [by eapply same_txns_trans|].
    destruct ok; [|done]. destruct Hfin as (A' & -> & Hl). exists A'. split; [done|by eapply undo_left_step].
  - specialize (IH (e :: q) finished next fuel n ps db Hlog Hsz Hon Hrep Hnext ltac:(lia)).
    fold (omap undo_write (undo_scan finished (rev p))).
    destruct (apply_writes clk n _ _) as [ok ps']. destruct IH as (r & db' & -> & Hs & Hr & Hd & Hfin).
    exists r, db'. split_and!; try done.
    destruct ok; [|done]. destruct Hfin as (A' & -> & Hl). exists A'. split; [done|by eapply undo_left_step].
Qed.
End Passes.

(** ** The highest transaction id *)

Definition max_txn (rs : list record) (m : Z) : Z := fold_left (fun m r => Z.max (txnID r) m) rs m.


(** The first eight bytes of a record are its transaction id. *)
Lemma record_txn_bytes d rs i r :
  page_repr d rs -> rs !! i = Some r ->
  sliceR d PageSize (rec_offset rs i) (u16 (rec_offset rs i + 8)) = Ok (le_bytes 8 (txnID r)).
Proof.
  intros [_ [_ _ Hf _ Hd _]] Hr. pose proof (record_size_pos r). pose proof (zlen_nonneg rs).
  destruct (rec_offset_bounds rs i r Hr) as [Hlo Hhi].
  unfold PageHeaderSize, PageSize, RecordHeaderSize in *. rewrite u16_small by lia.
  rewrite sliceR_ok by lia. f_equal. specialize (Hd i r Hr).
  rewrite (slice_app d _ (rec_offset rs i + 8)) in Hd by lia. unfold encode_record in Hd.
  apply app_inj_1 in Hd as [E _]; [done|]. rewrite length_slice, length_le_bytes. lia.
Qed.

Lemma max_slot_txn_from d rs fuel i m :
  page_repr d rs -> (fuel + i = length rs)%nat ->
  max_slot_txn d fuel (Z.of_nat i) m = Ok (max_txn (drop i rs) m).
Proof.
  intros Hd. revert i m. induction fuel as [|fuel IH]; intros i m Hn; cbn [max_slot_txn].
  { by rewrite drop_ge by lia. }
  destruct (lookup_lt_is_Some_2 rs i ltac:(lia)) as [r Hr].
  rewrite (repr_GetSlot d rs Hd i r Hr). cbn [Length Offset].
  pose proof (record_size_pos r). unfold RecordHeaderSize in *.
  rewrite (proj2 (Z.ltb_ge _ _)) by lia. rewrite (record_txn_bytes d rs i r Hd Hr).
  unfold mbind, result_bind. replace (Z.of_nat i + 1) with (Z.of_nat (S i)) by lia.
  rewrite IH by lia. rewrite (drop_S _ _ _ Hr). cbn [max_txn fold_left]. do 3 f_equal.
  destruct Hd as [_ [_ _ _ _ _ Hok]]. eapply Forall_lookup_1 in Hok as [Ht _]; [|exact Hr].
  rewrite le_val_bytes. by apply Z.mod_small.
Qed.

Lemma max_slot_txn_holds d rs m :
  page_holds d rs -> max_slot_txn d (Z.to_nat (GetSlotCount d)) 0 m = Ok (max_txn rs m).
Proof.
  intros [Hd|(-> & -> & _)]; [|done]. destruct Hd as [Hc Hl] eqn:E. rewrite Hc.
  change 0 with (Z.of_nat 0) at 1. rewrite (max_slot_txn_from d rs) by (done || unfold zlen; lia). done.
Qed.

Section Whole.
Context {D : Type} `{DS : BlockDeviceSpec D} `{RD : !ReliableDevice D} `{MR : MapRange}.
Implicit Types db : DB D LRUEvictionPolicy.
Implicit Types ps : gmap PageID (list record).

Definition max_txn_on (ids : list PageID) ps (m : Z) : Z :=
  fold_left (fun m id => max_txn (default [] (ps !! id)) m) ids m.

Lemma max_txn_pages_run ids ps db m :
  db_rep ps db -> (forall id, id ∈ ids -> is_Some (ps !! id)) ->
  exists db', max_txn_pages ids db m = (Ok (max_txn_on ids ps m), db') /\ same_txns db db' /\ db_rep ps db'.
Proof.
  revert db m. induction ids as [|id ids IH]; intros db m Hrep Hids; cbn [max_txn_pages max_txn_on fold_left].
  { by exists db. }
  destruct (Hids id ltac:(left)) as [rs Hrs].
  destruct (latched_read_total ps db id rs
    (fun d => match max_slot_txn d (Z.to_nat (GetSlotCount d)) 0 m with Ok m => Ok m | _ => Panic end)
    (Ok (max_txn rs m))) as (db1 & -> & Hs1 & Hrep1); try done.
  { intros d Hd. by rewrite (max_slot_txn_holds d rs m Hd). }
  destruct (IH db1 (max_txn rs m) Hrep1) as (db' & E & Hs & Hr); [intros; apply Hids; by right|].
  exists db'. rewrite Hrs. split_and!; [exact E | | done]. by eapply same_txns_trans.
Qed.


(** The three passes and the final scan, composed. *)
Lemma PerformRecovery_run es ps ps1 ps2 db clkR clkU fuel :
  log_ok 0 ∅ es -> zlen (write_entries es) < 2 ^ 63 ->
  Forall (fun e => is_work e || is_end e = true) es -> Forall (entry_on ps) es ->
  db_rep ps db -> (length es < fuel)%nat -> (forall id, 1 <= id <= 32 -> is_Some (ps !! id)) ->
  apply_writes clkR 0 (omap redo_write es) ps = (true, ps1) ->
  apply_writes clkU 0 (undo_writes es) ps1 = (true, ps2) ->
  exists db', PerformRecovery fuel clkR clkU db (Some (write_entries es)) = (Ok tt, db') /\
    db_rep ps2 db' /\ max_txn_on (seqZ 1 32) ps2 0 <= nextTxnID db' /\
    exists A, undo_left (losers es) A /\ activeTxns db' = dom A ∪ activeTxns db /\
      nextTxnID db' = Z.max (fold_left Z.max (range A).*1 0) (max_txn_on (seqZ 1 32) ps2 0).
Proof.
  intros Hlog Hsz Hty Hon Hrep Hf Hpages Hredo Hundo. unfold PerformRecovery.
  assert (Forall entry_ok es) as Hok by (eapply Forall_impl; [exact Hon|]; by intros e (? & _)).
  rewrite (analysis_ok es Hok). unfold runRedoPass.
  pose proof (redo_entries clkR es (S (length (write_entries es))) 0 ps db Hrep Hon) as Hr.
  rewrite Hredo in Hr. destruct Hr as (db1 & -> & Hs1 & Hrep1 & Hd1).
  { pose proof (length_write_entries es). lia. }
  assert (Forall (entry_on ps1) es) as Hon1.
  { eapply Forall_impl; [exact Hon|]. intros e (? & ? & Hs). split_and!; try done.
    apply elem_of_dom. rewrite Hd1. by apply elem_of_dom. }
  pose proof (undo_entries clkU [] es ∅ (losers es) fuel 0 ps1 db1) as Hu. rewrite app_nil_r in Hu.
  unfold undo_writes in Hundo. rewrite Hundo in Hu.
  destruct Hu as (r & db2 & -> & Hs2 & Hrep2 & Hd2 & A & -> & HA); try done.
  { intros t. by rewrite (losers_chain es Hty). }
  set (db3 := mkDB _ _ _ _ _ _).
  assert (db_rep ps2 db3) as Hrep3 by (destruct Hrep2; by split).
  destruct (max_txn_pages_run (seqZ 1 32) ps2 db3 0 Hrep3) as (db4 & E & [Ha4 Hn4] & Hrep4).
  { intros id Hid%elem_of_seqZ. apply elem_of_dom. rewrite Hd2, Hd1. apply elem_of_dom, Hpages. lia. }
  unfold maxTxnIDOnPages. rewrite E. eexists. split; [done|]. cbn.
  split; [destruct Hrep4; by split|]. split; [lia|].
  exists A. split; [done|]. split; [|done]. rewrite Ha4. cbn. destruct Hs1 as [Hs1 _], Hs2 as [Hs2 _].
  by rewrite Hs2, Hs1.
Qed.
End Whole.

(** ** Properties *)

(** The analysis pass over a log of well-formed records succeeds and finds
    exactly the losers: a transaction is in the result when its last begin,
    update, compensation, commit or abort record is not a commit or abort, with
    the LSN of that record. *)
Theorem analysis_finds_losers es :
  Forall entry_ok es ->
  exists A, runAnalysisPass (write_entries es) = Ok A /\
    forall t, A !! t =
      match last (filter (fun e => e_txnID e = t /\ is_work e || is_end e = true) es) with
      | Some e => if is_work e then Some (e_lsn e) else None
      | None => None
      end.
Proof.
  intros Hok. exists (losers es). split; [by apply analysis_ok|]. intros t. apply losers_lookup.
Qed.

(** Begin, update, and possibly commit of one transaction. *)
Definition one_txn_log (t pg : Z) (k ov nv : bytes) (committed : bool) : list walEntry :=
  [mkEntry 0 t 0 LogTypeBegin 0 [] [] []; mkEntry 49 t 0 LogTypeUpdate pg k ov nv] ++
  (if committed then [mkEntry (98 + zlen k + zlen ov + zlen nv) t 49 LogTypeCommit 0 [] [] []] else []).

Lemma analysis_finds_losers_witness :
  exists A, runAnalysisPass (write_entries (one_txn_log 7 3 (str "k") (str "a") (str "b") false)) = Ok A /\
    A !! 7 = Some 49.
Proof.
  destruct (analysis_finds_losers (one_txn_log 7 3 (str "k") (str "a") (str "b") false)) as (A & E & H).
  - repeat constructor; vm_compute; discriminate.
  - exists A. split; [exact E|]. rewrite H. reflexivity.
Defined.

Section RecoveryClaims.
Context {D : Type} `{DS : BlockDeviceSpec D} `{RD : !ReliableDevice D} `{MR : MapRange}.
Implicit Types db : DB D LRUEvictionPolicy.
Implicit Types ps : gmap PageID (list record).


(** A torn last record stops recovery: when the log ends in the middle of a
    frame (a crash during the write of a record), [PerformRecovery] returns an
    error before it has touched any page, even though every complete record of
    the log is intact. *)
Theorem torn_log_fails_recovery es e tail db clkR clkU fuel :
  Forall entry_ok es -> entry_ok e -> tail <> [] ->
  (exists more, more <> [] /\ writeEntry e = tail ++ more) ->
  exists err, PerformRecovery fuel clkR clkU db (Some (write_entries es ++ tail)) = (Err err, db).
Proof.
  intros Hes He Hne Hmore. unfold PerformRecovery, runAnalysisPass.
  pose proof (length_write_entries es). rewrite length_app.
  rewrite analysis_entries by (done || lia).
  destruct (analysis_torn (S (length (write_entries es) + length tail) - length es) e tail
    (fold_left analysis_entry es ∅) He Hne Hmore) as (err & ->); [lia|]. eauto.
Qed.

(** The pages a single update touches, with room for its two images. *)
Lemma one_update_fits rs r : record_size r <= 12000 -> total rs + 4 * zlen rs <= 20000 -> room rs r.
Proof. unfold room, PageHeaderSize, PageSize. lia. Qed.

Lemma live_MaxInt64 now t k v : now < MaxInt64 -> live now (mkRecord t MaxInt64 k v) = true.
Proof. intros. unfold live. cbn. by apply Z.ltb_lt. Qed.

Lemma apply_one clk n pg r ps rs :
  ps !! pg = Some rs -> room rs r -> apply_writes clk n [(pg, r)] ps = (true, <[pg := rs ++ [r]]> ps).
Proof.
  intros Hrs Hroom. cbn [apply_writes]. rewrite Hrs. change (default [] (Some rs)) with rs.
  unfold write_spec. by rewrite decide_True.
Qed.

Lemma one_txn_log_ok t pg k ov nv committed ps :
  0 <= t < 2 ^ 64 -> page_id_ok pg -> zlen k + zlen ov + zlen nv < 10000 ->
  is_Some (ps !! pg) -> is_Some (ps !! 0) ->
  let es := one_txn_log t pg k ov nv committed in
  log_ok 0 ∅ es /\ zlen (write_entries es) < 2 ^ 63 /\
  Forall (fun e => is_work e || is_end e = true) es /\ Forall (entry_on ps) es.
Proof.
  intros Ht Hpg Hlen Hs Hs0. unfold page_id_ok in Hpg.
  pose proof (zlen_nonneg k). pose proof (zlen_nonneg ov). pose proof (zlen_nonneg nv).
  set (e1 := mkEntry 0 t 0 LogTypeBegin 0 [] [] []). set (e2 := mkEntry 49 t 0 LogTypeUpdate pg k ov nv).
  set (e3 := mkEntry (98 + zlen k + zlen ov + zlen nv) t 49 LogTypeCommit 0 [] [] []).
  assert (entry_on ps e1 /\ entry_on ps e2 /\ entry_on ps e3) as (O1 & O2 & O3).
  { unfold entry_on, entry_ok. rewrite !zlen_payload. cbn -[zlen Z.pow].
    change (zlen (@nil byte)) with 0. split_and!; try done; try lia. }
  assert (entry_size e1 = 49 /\ entry_size e2 = 49 + (zlen k + zlen ov + zlen nv) /\ entry_size e3 = 49)
    as (S1 & S2 & S3) by (unfold entry_size; rewrite !zlen_payload; split_and!; reflexivity).
  cbn zeta. unfold one_txn_log. fold e1 e2 e3. split_and!.
  - apply log_ok_app. split.
    + cbn [log_ok]. split_and!; try done; try apply O1; try apply O2.
      cbn. by rewrite lookup_insert_eq.
    + destruct committed; [|done]. cbn [log_ok]. split_and!; try done; try apply O3.
      * rewrite !write_entries_cons, !zlen_app, !zlen_writeEntry, S1, S2. cbn -[zlen].
        change (zlen (write_entries [])) with 0. lia.
      * cbn. by rewrite lookup_insert_eq.
  - destruct committed; cbn [app]; rewrite !write_entries_cons, !zlen_app, !zlen_writeEntry, ?S1, ?S2, ?S3;
      change (zlen (write_entries [])) with 0; lia.
  - destruct committed; repeat constructor.
  - destruct committed; cbn [app]; repeat (apply Forall_cons; split; [done|]); apply Forall_nil_2.
Qed.

(** C21: Recovery decides a transaction by its commit record.  The log holds
    exactly the begin and one update of one transaction, of a key and images of
    together less than 10000 bytes on a page that is empty, and its commit or not; no
    transaction is active and pages 0 to 32 can be read.  Then recovery succeeds, and
    a read of the key by any transaction returns the new value when the commit is in
    the log and the before-image when it is not.  An image is returned as it is, an
    empty one as an empty value without an error (to [Read] an empty value is not a
    tombstone). *)
Theorem recovery_commits_or_rolls_back t pg k ov nv committed ps db clkR clkU fuel now reader :
  0 <= t < 2 ^ 64 -> page_id_ok pg -> zlen k + zlen ov + zlen nv < 10000 -> now < MaxInt64 ->
  db_rep ps db -> ps !! pg = Some [] -> is_Some (ps !! 0) -> activeTxns db = ∅ ->
  (forall id, 1 <= id <= 32 -> is_Some (ps !! id)) -> (3 < fuel)%nat ->
  exists db' db'',
    PerformRecovery fuel clkR clkU db (Some (write_entries (one_txn_log t pg k ov nv committed))) = (Ok tt, db') /\
    Read db' pg reader k now = (Ok (if committed then nv else ov), db'').
Proof.
  intros Ht Hpg Hlen Hnow Hrep Hrs Hs0 Hact Hpages Hf.
  destruct (one_txn_log_ok t pg k ov nv committed ps Ht Hpg Hlen ltac:(by eauto) Hs0) as (L1 & L2 & L3 & L4).
  set (es := one_txn_log t pg k ov nv committed) in *.
  set (r1 := mkRecord 0 MaxInt64 k nv). set (r2 := mkRecord t MaxInt64 k ov).
  pose proof (zlen_nonneg k). pose proof (zlen_nonneg ov). pose proof (zlen_nonneg nv).
  assert (record_size r1 < 12000 /\ record_size r2 < 12000) as [Z1 Z2].
  { unfold record_size, RecordHeaderSize. cbn. lia. }
  set (ps1 := <[pg := [r1]]> ps). set (rs2 := if committed then [r1] else [r1; r2]).
  destruct (PerformRecovery_run es ps ps1 (<[pg := rs2]> ps1) db clkR clkU fuel) as
    (db' & E & Hr & _ & A & Hleft & Ha & _); try done.
  - unfold es, one_txn_log. destruct committed; cbn; lia.
  - replace (omap redo_write es) with [(pg, r1)] by (unfold es; by destruct committed).
    apply (apply_one clkR 0 pg r1 ps []); [done|]. apply one_update_fits; [lia | done].
  - replace (undo_writes es) with (if committed then [] else [(pg, r2)]).
    + destruct committed; [cbn [apply_writes]; unfold ps1, rs2; by rewrite insert_insert_eq|].
      apply (apply_one clkU 0 pg r2 ps1 [r1]); [apply lookup_insert_eq|].
      apply one_update_fits; [lia|]. cbn -[record_size]. change (zlen [r1]) with 1. lia.
    + unfold undo_writes, es, one_txn_log. destruct committed; cbn; [|done].
      by rewrite !bool_decide_eq_true_2 by set_solver.
  - assert (A = ∅) as ->.
    { apply map_empty. intros t'. destruct (A !! t') as [x|] eqn:Ex; [|done].
      apply Hleft in Ex as [_ Ex]. exfalso.
      assert (losers es = (if committed then delete t else id) (<[t := 49]> (<[t := 0]> ∅))) as El
        by (unfold es; by destruct committed).
      rewrite El in Ex. clear -Ex. destruct committed; unfold id in Ex.
      - apply lookup_delete_Some in Ex as [Hne Ex].
        rewrite !lookup_insert_ne in Ex by done. by rewrite lookup_empty in Ex.
      - apply lookup_insert_Some in Ex as [[_ ?]|[Hne Ex]]; [done|].
        rewrite lookup_insert_ne in Ex by done. by rewrite lookup_empty in Ex. }
    destruct (Read_run _ db' pg rs2 reader k now Hr) as (db'' & ER & _); [apply lookup_insert_eq|].
    exists db', db''. split; [done|]. rewrite ER, Ha, Hact.
    assert (forall r, visible (dom (∅ : gmap Z Z) ∪ ∅) reader r = true) as Hv.
    { clear. intros r. unfold visible. rewrite bool_decide_eq_false_2; [done|].
      rewrite dom_empty_L, union_empty_l_L. apply not_elem_of_empty. }
    destruct committed.
    + change rs2 with ([] ++ [r1]). rewrite read_spec_snoc, bool_decide_eq_true_2, Hv by done.
      unfold r1. by rewrite live_MaxInt64.
    + change rs2 with ([r1] ++ [r2]). rewrite read_spec_snoc, bool_decide_eq_true_2, Hv by done.
      unfold r2. by rewrite live_MaxInt64.
Qed.

(** The record at LSN 0 is never undone: when the first record of the log is
    an update of a transaction that never committed, recovery succeeds and
    every reader then sees the uncommitted value. *)
Theorem recovery_keeps_loser_at_lsn_zero t pg k ov nv ps db clkR clkU fuel now reader :
  0 <= t < 2 ^ 64 -> page_id_ok pg -> zlen k + zlen ov + zlen nv < 10000 -> now < MaxInt64 ->
  db_rep ps db -> ps !! pg = Some [] -> t <> 0 -> activeTxns db = ∅ ->
  (forall id, 1 <= id <= 32 -> is_Some (ps !! id)) -> (1 < fuel)%nat ->
  exists db' db'',
    PerformRecovery fuel clkR clkU db (Some (write_entries [mkEntry 0 t 0 LogTypeUpdate pg k ov nv])) = (Ok tt, db') /\
    Read db' pg reader k now = (Ok nv, db'').
Proof.
  intros Ht Hpg Hlen Hnow Hrep Hrs Hne Hact Hpages Hf. set (e := mkEntry 0 t 0 LogTypeUpdate pg k ov nv).
  unfold page_id_ok in Hpg. pose proof (zlen_nonneg k). pose proof (zlen_nonneg ov). pose proof (zlen_nonneg nv).
  assert (entry_on ps e) as He.
  { unfold entry_on, entry_ok. rewrite !zlen_payload. cbn -[zlen Z.pow]. split_and!; try done; try lia. }
  assert (zlen (write_entries [e]) < 2 ^ 63) as Hz.
  { rewrite write_entries_cons, zlen_app, zlen_writeEntry. unfold entry_size. rewrite zlen_payload.
    change (zlen (write_entries [])) with 0. cbn -[zlen]. lia. }
  set (r1 := mkRecord 0 MaxInt64 k nv). set (ps1 := <[pg := [r1]]> ps).
  destruct (PerformRecovery_run [e] ps ps1 ps1 db clkR clkU fuel) as (db' & E & Hr & _ & A & Hleft & Ha & _);
    try done.
  - cbn [log_ok]. split_and!; try done; apply He.
  - by repeat constructor.
  - by constructor.
  - apply (apply_one clkR 0 pg r1 ps []); [done|]. apply one_update_fits; [|done].
    unfold record_size, RecordHeaderSize. cbn. lia.
  - destruct (Read_run _ db' pg [r1] reader k now Hr) as (db'' & ER & _); [apply lookup_insert_eq|].
    exists db', db''. split; [done|]. rewrite ER, Ha, Hact.
    change [r1] with ([] ++ [r1]). rewrite read_spec_snoc, bool_decide_eq_true_2 by done.
    replace (visible (dom A ∪ ∅) reader r1) with true.
    + unfold r1. by rewrite live_MaxInt64.
    + symmetry. unfold visible. cbn. rewrite bool_decide_eq_false_2; [done|].
      rewrite union_empty_r_L. intros [x Hx]%elem_of_dom. apply Hleft in Hx as [_ Hx].
      unfold losers in Hx. cbn in Hx. apply lookup_insert_Some in Hx as [[? _]|[_ ?]]; done.
Qed.
End RecoveryClaims.

(** ** Witnesses *)

#[local] Existing Instance canonical_range.

Definition low_pages : gmap PageID (list record) := list_to_map ((fun id => (id, [])) <$> seqZ 0 33).

Lemma low_pages_lookup id : low_pages !! id = if bool_decide (0 <= id < 33) then Some [] else None.
Proof.
  unfold low_pages. case_bool_decide as H.
  - apply elem_of_list_to_map.
    + rewrite <- list_fmap_compose. cbn. rewrite list_fmap_id. apply NoDup_seqZ.
    + apply list_elem_of_fmap. exists id. split; [done|]. apply elem_of_seqZ. lia.
  - apply not_elem_of_list_to_map_1. rewrite <- list_fmap_compose. cbn. rewrite list_fmap_id.
    rewrite elem_of_seqZ. lia.
Qed.

Lemma low_pages_rep : db_rep low_pages demo_db.
Proof.
  destruct demo_rep as [H1 H2 H3 H4]. split; [exact H1 | exact H2 | exact H3 |].
  intros id rs. rewrite low_pages_lookup. case_bool_decide; [|done]. intros [= <-].
  split; [unfold page_id_ok; lia|]. right. unfold view. cbn. rewrite lookup_empty.
  unfold GetSlotCount, GetLowerBoundary, GetUpperBoundary.
  rewrite !(Uint32_ext (disk_page NewMemDevice id) zero_mem) by (intros; apply empty_disk_page). done.
Qed.

Definition demo_clocks (n : nat) : clock := demo_clock.


Lemma torn_log_fails_recovery_witness :
  exists err, PerformRecovery 4 demo_clocks demo_clocks demo_db
    (Some (write_entries [sample_entry] ++ take 20 (writeEntry sample_entry))) = (Err err, demo_db).
Proof.
  apply (torn_log_fails_recovery [sample_entry] sample_entry (take 20 (writeEntry sample_entry)) demo_db
    demo_clocks demo_clocks 4).
  - repeat constructor; vm_compute; discriminate.
  - repeat constructor; vm_compute; discriminate.
  - vm_compute. discriminate.
  - exists (drop 20 (writeEntry sample_entry)). split; [vm_compute; discriminate|].
    symmetry. apply take_drop.
Defined.

Lemma recovery_commits_or_rolls_back_witness :
  exists db' db'', PerformRecovery 4 demo_clocks demo_clocks demo_db
      (Some (write_entries (one_txn_log 7 3 (str "k") (str "a") (str "b") false))) = (Ok tt, db') /\
    Read db' 3 9 (str "k") 2000 = (Ok (str "a"), db'').
Proof.
  apply (recovery_commits_or_rolls_back 7 3 (str "k") (str "a") (str "b") false low_pages demo_db
    demo_clocks demo_clocks 4 2000 9); try reflexivity; try lia; try exact low_pages_rep.
  - unfold page_id_ok. lia.
  - rewrite low_pages_lookup. eexists; reflexivity.
  - intros id Hid. rewrite low_pages_lookup, bool_decide_eq_true_2 by lia. eexists; reflexivity.
Defined.

Lemma recovery_keeps_loser_at_lsn_zero_witness :
  exists db' db'', PerformRecovery 4 demo_clocks demo_clocks demo_db
      (Some (write_entries [mkEntry 0 7 0 LogTypeUpdate 3 (str "k") (str "a") (str "b")])) = (Ok tt, db') /\
    Read db' 3 9 (str "k") 2000 = (Ok (str "b"), db'').
Proof.
  apply (recovery_keeps_loser_at_lsn_zero 7 3 (str "k") (str "a") (str "b") low_pages demo_db
    demo_clocks demo_clocks 4 2000 9); try reflexivity; try lia; try exact low_pages_rep.
  - unfold page_id_ok. lia.
  - intros id Hid. rewrite low_pages_lookup, bool_decide_eq_true_2 by lia. eexists; reflexivity.
Defined.
