(* ===== verification/LockManager.v ===== *)
(** The two-phase lock manager (interfaces.go section 5, lock_manager.go): the
    lock table, the critical sections of [Acquire], [Release] and [ReleaseAll],
    and the goroutines that wait on channels, as a step relation. *)

From S2P Require Import Common.
From S2P Require Import Prelude.

(** ** State *)

Inductive LockMode := LockShared | LockExclusive.

#[export] Instance LockMode_eq_decision : EqDecision LockMode.
Proof. solve_decision. Defined.

(** A channel is a number; each waiting call makes its own. *)
Record lockKey := mkLock {
  mode : LockMode;
  holders : gset Z;
  waiters : list nat
}.

(** A call of [Acquire] that has not returned. *)
Record request := mkReq { req_txn : Z; req_key : string; req_mode : LockMode }.

(** The lock manager and the calls under way: [blocked] calls wait on an empty
    channel, [ready] calls have been sent a value and will take the mutex. *)
Record LockState := mkLS {
  locks : gmap string lockKey;
  txns : gmap Z (gset string);
  blocked : gmap nat request;
  ready : gmap nat request;
  nextChan : nat
}.

Definition New2PLLockManager : LockState := mkLS ∅ ∅ ∅ ∅ 0.

Definition set_lock (key : string) (lk : lockKey) (s : LockState) : LockState :=
  mkLS (<[key := lk]> (locks s)) (txns s) (blocked s) (ready s) (nextChan s).

Definition addTxnLock (txnID : Z) (key : string) (s : LockState) : LockState :=
  mkLS (locks s) (<[txnID := {[key]} ∪ default ∅ (txns s !! txnID)]> (txns s)) (blocked s) (ready s)
    (nextChan s).

(** A new lock held by the caller. *)
Definition grant_new (txnID : Z) (key : string) (m : LockMode) (s : LockState) : LockState :=
  addTxnLock txnID key (set_lock key (mkLock m {[txnID]} []) s).

(** ** Acquire *)

(** The body of the [for] loop up to the wait: the call returns ([true]) or
    waits on a fresh channel. *)
Definition acquire_round (txnID : Z) (key : string) (m : LockMode) (lk : lockKey) (s : LockState) :
    bool * LockState :=
  let hasConflict := bool_decide (mode lk = LockExclusive) || bool_decide (m = LockExclusive) in
  if negb hasConflict
  then (true, addTxnLock txnID key (set_lock key (mkLock (mode lk) ({[txnID]} ∪ holders lk) (waiters lk)) s))
  else
    let ch := nextChan s in
    let s := set_lock key (mkLock (mode lk) (holders lk) (waiters lk ++ [ch])) s in
    (false, mkLS (locks s) (txns s) (<[ch := mkReq txnID key m]> (blocked s)) (ready s) (S ch)).

(** The first critical section. *)
Definition Acquire (txnID : Z) (key : string) (m : LockMode) (s : LockState) : bool * LockState :=
  match locks s !! key with
  | None => (true, grant_new txnID key m s)
  | Some lk =>
      if bool_decide (txnID ∈ holders lk)
      then
        if bool_decide (mode lk = LockExclusive) || bool_decide (m = LockShared) then (true, s)
        else if bool_decide (size (holders lk) = 1%nat)
        then (true, set_lock key (mkLock LockExclusive (holders lk) (waiters lk)) s)
        else acquire_round txnID key m lk s
      else acquire_round txnID key m lk s
  end.

(** The critical section after [<-ch]. *)
Definition resume (ch : nat) (s : LockState) : option (bool * LockState) :=
  match ready s !! ch with
  | None => None
  | Some (mkReq txnID key m) =>
      let s := mkLS (locks s) (txns s) (blocked s) (delete ch (ready s)) (nextChan s) in
      Some (match locks s !! key with
            | None => (true, grant_new txnID key m s)
            | Some lk => acquire_round txnID key m lk s
            end)
  end.

(** ** Release *)

(** [w <- true] for each waiter. *)
Definition wake (ch : nat) (s : LockState) : LockState :=
  match blocked s !! ch with
  | Some r => mkLS (locks s) (txns s) (delete ch (blocked s)) (<[ch := r]> (ready s)) (nextChan s)
  | None => s
  end.

(** Drop one holder of a lock; the last one removes the lock and wakes every
    waiter. *)
Definition drop_holder (txnID : Z) (key : string) (lk : lockKey) (s : LockState) : LockState :=
  let hs := holders lk ∖ {[txnID]} in
  if bool_decide (hs = ∅)
  then foldr wake (mkLS (delete key (locks s)) (txns s) (blocked s) (ready s) (nextChan s)) (rev (waiters lk))
  else set_lock key (mkLock (mode lk) hs (waiters lk)) s.

Definition forget_key (txnID : Z) (key : string) (s : LockState) : LockState :=
  match txns s !! txnID with
  | Some ks => mkLS (locks s) (<[txnID := ks ∖ {[key]}]> (txns s)) (blocked s) (ready s) (nextChan s)
  | None => s
  end.

Definition Release (txnID : Z) (key : string) (s : LockState) : LockState :=
  match locks s !! key with
  | None => s
  | Some lk => drop_holder txnID key lk (forget_key txnID key s)
  end.

(** The loop of [ReleaseAll] over the transaction's keys. *)
Definition release_keys (txnID : Z) (keys : list string) (s : LockState) : LockState :=
  fold_left (fun s key => match locks s !! key with
                          | Some lk => drop_holder txnID key lk s
                          | None => s
                          end) keys s.

Definition ReleaseAll `{MapRange} (txnID : Z) (s : LockState) : LockState :=
  match txns s !! txnID with
  | None => s
  | Some keys =>
      let s := release_keys txnID (range (gset_to_gmap true keys)).*1 s in
      mkLS (locks s) (delete txnID (txns s)) (blocked s) (ready s) (nextChan s)
  end.

(** ** Steps *)

(** A step and the transactions that run in it: [Release] and [ReleaseAll] are
    called by the transaction itself. *)
Inductive lock_step `{MapRange} : LockState -> Z -> LockState -> Prop :=
| step_acquire s t k m b s' : Acquire t k m s = (b, s') -> lock_step s t s'
| step_resume s ch r b s' : ready s !! ch = Some r -> resume ch s = Some (b, s') ->
    lock_step s (req_txn r) s'
| step_release s t k : lock_step s t (Release t k s)
| step_release_all s t : lock_step s t (ReleaseAll t s).

Inductive lock_reach `{MapRange} : LockState -> Prop :=
| lreach_new : lock_reach New2PLLockManager
| lreach_step s t s' : lock_reach s -> lock_step s t s' -> lock_reach s'.

(** * Correctness *)

(** Transaction [t] holds a lock on [k]. *)
Definition holds (s : LockState) (k : string) (t : Z) : Prop :=
  exists lk, locks s !! k = Some lk /\ t ∈ holders lk.

(** Exclusive locks have one holder; locks have a holder; every waiter of a
    lock is a blocked call for its key, and every blocked call waits on a lock
    of the table. *)
Record lock_core (s : LockState) : Prop := {
  li_holder : forall k lk, locks s !! k = Some lk -> holders lk <> ∅;
  li_exclusive : forall k lk t1 t2, locks s !! k = Some lk -> mode lk = LockExclusive ->
    t1 ∈ holders lk -> t2 ∈ holders lk -> t1 = t2;
  li_waiter : forall k lk ch, locks s !! k = Some lk -> ch ∈ waiters lk ->
    exists r, blocked s !! ch = Some r /\ req_key r = k;
  li_blocked : forall ch r, blocked s !! ch = Some r ->
    exists lk, locks s !! req_key r = Some lk /\ ch ∈ waiters lk;
  li_fresh : forall ch, (nextChan s <= ch)%nat -> blocked s !! ch = None /\ ready s !! ch = None
}.

(** The transactions' key sets mirror the holders. *)
Record lock_inv (s : LockState) : Prop := {
  li_core : lock_core s;
  li_txns : forall k t, k ∈ default ∅ (txns s !! t) <-> holds s k t
}.

Lemma lock_inv_new : lock_inv New2PLLockManager.
Proof.
  split; [split; cbn; intros *; rewrite ?lookup_empty; done|].
  intros k t. unfold holds. cbn. rewrite lookup_empty. cbn. split; [by intros ?%not_elem_of_empty|].
  intros (lk & E & _). by rewrite lookup_empty in E.
Qed.

(** ** Writing one lock *)

Lemma holds_set_lock k lk s k' t :
  holds (set_lock k lk s) k' t <-> if decide (k' = k) then t ∈ holders lk else holds s k' t.
Proof.
  unfold holds. cbn. case_decide as E.
  - subst. rewrite lookup_insert_eq. split; [by intros (? & [= <-] & ?) | by eauto].
  - by rewrite lookup_insert_ne by done.
Qed.

(** A lock may be replaced by one with the same waiters. *)
Lemma core_set_lock s k lk' :
  lock_core s -> holders lk' <> ∅ ->
  (mode lk' = LockExclusive -> forall t1 t2, t1 ∈ holders lk' -> t2 ∈ holders lk' -> t1 = t2) ->
  waiters lk' = match locks s !! k with Some lk => waiters lk | None => [] end ->
  lock_core (set_lock k lk' s).
Proof.
  intros [Hh Hx Hw Hb Hf] Hne Hex Hws. split; cbn.
  - intros k' lk [[<- <-]|[_ E]]%lookup_insert_Some; [done | by eapply Hh].
  - intros k' lk t1 t2 [[<- <-]|[_ E]]%lookup_insert_Some; [auto | by eapply Hx].
  - intros k' lk ch [[<- <-]|[_ E]]%lookup_insert_Some; [|by apply Hw].
    rewrite Hws. destruct (locks s !! k) as [lk|] eqn:E; [by apply Hw | by intros ?%not_elem_of_nil].
  - intros ch r Hr. destruct (Hb ch r Hr) as (lk & E & Hin).
    destruct (decide (req_key r = k)) as [Ek|Hk].
    + rewrite Ek in *. rewrite lookup_insert_eq. exists lk'. split; [done|]. by rewrite Hws, E.
    + rewrite lookup_insert_ne by done. eauto.
  - done.
Qed.

Lemma txns_add t k s t' :
  default ∅ (txns (addTxnLock t k s) !! t') =
  if decide (t' = t) then {[k]} ∪ default ∅ (txns s !! t') else default ∅ (txns s !! t').
Proof.
  cbn. case_decide as E; [subst; by rewrite lookup_insert_eq | by rewrite lookup_insert_ne].
Qed.

(** ** Granting, upgrading, waiting *)

Lemma inv_grant s t k lk' :
  lock_inv s -> lock_core (set_lock k lk' s) ->
  (forall t', t' ∈ holders lk' <-> t' = t \/ holds s k t') ->
  lock_inv (addTxnLock t k (set_lock k lk' s)).
Proof.
  intros [_ Ht] Hc Hold. split; [destruct Hc; by split|]. intros k' t'. rewrite txns_add.
  change (txns (set_lock k lk' s)) with (txns s).
  change (holds (addTxnLock t k (set_lock k lk' s)) k' t') with (holds (set_lock k lk' s) k' t').
  rewrite holds_set_lock. destruct (decide (k' = k)) as [->|Hne].
  - rewrite Hold, <- (Ht k t'). case_decide; [|naive_solver].
    rewrite elem_of_union, elem_of_singleton. naive_solver.
  - rewrite <- (Ht k' t'). case_decide; [|done]. rewrite elem_of_union, elem_of_singleton. naive_solver.
Qed.

Lemma inv_grant_new s t k m : lock_inv s -> locks s !! k = None -> lock_inv (grant_new t k m s).
Proof.
  intros Hinv Hk. apply inv_grant; [done| |].
  - apply core_set_lock; cbn; [apply Hinv | apply non_empty_singleton_L | | by rewrite Hk].
    intros _ t1 t2 ->%elem_of_singleton ->%elem_of_singleton. done.
  - intros t'. cbn. rewrite elem_of_singleton. unfold holds. rewrite Hk. naive_solver.
Qed.

Lemma acquire_round_inv s t k m lk b s' :
  lock_inv s -> locks s !! k = Some lk -> acquire_round t k m lk s = (b, s') -> lock_inv s'.
Proof.
  intros Hinv Hk. unfold acquire_round. destruct (negb _) eqn:Hc; intros [= <- <-].
  - apply negb_true_iff, orb_false_iff in Hc as [Hm%bool_decide_eq_false _].
    apply inv_grant; [done| |].
    + apply core_set_lock; cbn; [apply Hinv | | done | by rewrite Hk].
      intros E. apply (not_elem_of_empty (C := gset Z) t). rewrite <- E. by apply elem_of_union_l, elem_of_singleton.
    + intros t'. cbn. rewrite elem_of_union, elem_of_singleton. unfold holds. rewrite Hk. naive_solver.
  - destruct Hinv as [[Hh Hx Hw Hb Hf] Ht]. set (ch := nextChan s).
    destruct (Hf ch ltac:(lia)) as [Hfb Hfr].
    assert (forall k' t', holds (set_lock k (mkLock (mode lk) (holders lk) (waiters lk ++ [ch])) s) k' t' <->
      holds s k' t') as Hhold.
    { intros k' t'. rewrite holds_set_lock. destruct (decide (k' = k)) as [->|]; [|done]. cbn. unfold holds. rewrite Hk. naive_solver. }
    split; [split; cbn|].
    + intros k' lk' [[<- <-]|[_ E]]%lookup_insert_Some; [exact (Hh k lk Hk) | by eapply Hh].
    + intros k' lk' t1 t2 [[<- <-]|[_ E]]%lookup_insert_Some; [exact (Hx k lk t1 t2 Hk) | by eapply Hx].
    + intros k' lk' c [[<- <-]|[Hne E]]%lookup_insert_Some Hc'; cbn in Hc'.
      * apply elem_of_app in Hc' as [Hc'|Hc'%list_elem_of_singleton].
        -- destruct (Hw k lk c Hk Hc') as (r & Hr & <-). exists r. split; [|done].
           rewrite lookup_insert_ne; [done|]. intros <-. congruence.
        -- subst c. rewrite lookup_insert_eq. by eexists.
      * destruct (Hw k' lk' c E Hc') as (r & Hr & <-). exists r. split; [|done].
        rewrite lookup_insert_ne; [done|]. intros <-. congruence.
    + intros c r [[<- <-]|[Hne Hr]]%lookup_insert_Some; cbn.
      * rewrite lookup_insert_eq. eexists. split; [done|]. cbn. apply elem_of_app. right. left.
      * destruct (Hb c r Hr) as (lk' & E & Hin). destruct (decide (req_key r = k)) as [Ek|Hk'].
        -- rewrite Ek in *. rewrite lookup_insert_eq. eexists. split; [done|]. cbn.
           simplify_eq. apply elem_of_app. by left.
        -- rewrite lookup_insert_ne by done. eauto.
    + intros c Hc'. rewrite lookup_insert_ne by (unfold ch in *; lia). apply Hf. unfold ch in *. lia.
    + intros k' t'. rewrite (Ht k' t'). symmetry. apply Hhold.
Qed.

Lemma Acquire_inv s t k m b s' : lock_inv s -> Acquire t k m s = (b, s') -> lock_inv s'.
Proof.
  intros Hinv. unfold Acquire. destruct (locks s !! k) as [lk|] eqn:Hk.
  2:{ intros [= <- <-]. by apply inv_grant_new. }
  case_bool_decide; [|by eapply acquire_round_inv].
  destruct (_ || _); [by intros [= <- <-]|].
  case_bool_decide as Hone; [|by eapply acquire_round_inv].
  intros [= <- <-]. destruct Hinv as [Hc Ht]. split.
  - apply core_set_lock; cbn; [done | by apply (li_holder _ Hc k) | | by rewrite Hk].
    intros _ t1 t2 H1 H2. apply size_1_elem_of in Hone as [x E].
    rewrite E in H1, H2. apply elem_of_singleton in H1, H2. congruence.
  - intros k' t'. rewrite (Ht k' t'), holds_set_lock. destruct (decide (k' = k)) as [->|]; [|done].
    cbn. unfold holds. rewrite Hk. naive_solver.
Qed.

Lemma resume_inv s ch b s' : lock_inv s -> resume ch s = Some (b, s') -> lock_inv s'.
Proof.
  intros Hinv. unfold resume. destruct (ready s !! ch) as [[t k m]|] eqn:Hr; [|done].
  set (s0 := mkLS _ _ _ _ _).
  assert (lock_inv s0) as Hinv0.
  { destruct Hinv as [[Hh Hx Hw Hb Hf] Ht]. split; [split; try done|done].
    intros c Hc. destruct (Hf c Hc) as [? E]. split; [done|]. cbn.
    destruct (decide (c = ch)) as [->|]; [apply lookup_delete_eq | by rewrite lookup_delete_ne]. }
  destruct (locks s0 !! k) as [lk|] eqn:Hk; [|intros [= <- <-]; by apply inv_grant_new].
  intros [= E]. by eapply acquire_round_inv.
Qed.

(** ** Releasing *)

Lemma wake_all ws s :
  let s' := foldr wake s ws in
  locks s' = locks s /\ txns s' = txns s /\ nextChan s' = nextChan s /\
  (forall ch, blocked s' !! ch = if decide (ch ∈ ws) then None else blocked s !! ch) /\
  (forall ch, ready s' !! ch = if decide (ch ∈ ws)
     then match blocked s !! ch with Some r => Some r | None => ready s !! ch end else ready s !! ch).
Proof.
  induction ws as [|w ws IH]; cbn zeta; cbn [foldr].
  { split_and!; try done; intros ch; by rewrite decide_False by apply not_elem_of_nil. }
  cbn zeta in IH. destruct IH as (E1 & E2 & E3 & Hb & Hr). set (s1 := foldr wake s ws) in *.
  unfold wake. destruct (blocked s1 !! w) as [r|] eqn:Ew; cbn.
  - rewrite Hb in Ew. destruct (decide (w ∈ ws)) as [|Hw]; [done|]. split_and!; try done; intros ch.
    + destruct (decide (ch = w)) as [->|Hne].
      * by rewrite lookup_delete_eq, decide_True by left.
      * rewrite lookup_delete_ne, Hb by done. rewrite (decide_ext (ch ∈ w :: ws) (ch ∈ ws)); [done|].
        rewrite elem_of_cons. naive_solver.
    + destruct (decide (ch = w)) as [->|Hne].
      * by rewrite lookup_insert_eq, decide_True, Ew by left.
      * rewrite lookup_insert_ne, Hr by done. rewrite (decide_ext (ch ∈ w :: ws) (ch ∈ ws)); [done|].
        rewrite elem_of_cons. naive_solver.
  - split_and!; try done; intros ch.
    + rewrite Hb. destruct (decide (ch = w)) as [->|Hne].
      * rewrite (decide_True (P := w ∈ w :: ws)) by left. rewrite Hb in Ew. by case_decide.
      * rewrite (decide_ext (ch ∈ w :: ws) (ch ∈ ws)); [done|]. rewrite elem_of_cons. naive_solver.
    + rewrite Hr. destruct (decide (ch = w)) as [->|Hne].
      * rewrite (decide_True (P := w ∈ w :: ws)) by left. rewrite Hb in Ew. case_decide; [done|]. by rewrite Ew.
      * rewrite (decide_ext (ch ∈ w :: ws) (ch ∈ ws)); [done|]. rewrite elem_of_cons. naive_solver.
Qed.

Lemma drop_holder_holds t k lk s k' t' :
  locks s !! k = Some lk -> lock_core s ->
  holds (drop_holder t k lk s) k' t' <-> holds s k' t' /\ ~ (k' = k /\ t' = t).
Proof.
  intros Hk Hc. unfold drop_holder. case_bool_decide as He.
  - set (s0 := mkLS _ _ _ _ _). destruct (wake_all (rev (waiters lk)) s0) as (E & _).
    unfold holds. rewrite E. cbn. destruct (decide (k' = k)) as [->|Hne].
    + rewrite lookup_delete_eq, Hk. split; [by intros (? & ? & _)|]. intros [(lk' & [= <-] & Hin) Hn].
      exfalso. apply (not_elem_of_empty (C := gset Z) t'). rewrite <- He.
      apply elem_of_difference. rewrite elem_of_singleton. naive_solver.
    + rewrite lookup_delete_ne by done. naive_solver.
  - rewrite holds_set_lock. cbn. destruct (decide (k' = k)) as [->|Hne]; [|naive_solver].
    unfold holds. rewrite Hk, elem_of_difference, elem_of_singleton. naive_solver.
Qed.

Lemma drop_holder_txns t k lk s : txns (drop_holder t k lk s) = txns s.
Proof.
  unfold drop_holder. case_bool_decide; [|done].
  by destruct (wake_all (rev (waiters lk)) (mkLS (delete k (locks s)) (txns s) (blocked s) (ready s) (nextChan s)))
    as (_ & E & _).
Qed.

Lemma drop_holder_core t k lk s :
  locks s !! k = Some lk -> lock_core s -> lock_core (drop_holder t k lk s).
Proof.
  intros Hk Hc. unfold drop_holder. case_bool_decide as He.
  - pose proof Hc as [Hh Hx Hw Hb Hf]. set (s0 := mkLS _ _ _ _ _).
    destruct (wake_all (rev (waiters lk)) s0) as (E1 & _ & E3 & Eb & Er).
    assert (forall ch, ch ∈ rev (waiters lk) <-> ch ∈ waiters lk) as Hrev by (intros; by rewrite !list_elem_of_In, <- in_rev).
    split; rewrite ?E1; cbn.
    + intros k' lk' [_ E]%lookup_delete_Some. by eapply Hh.
    + intros k' lk' t1 t2 [_ E]%lookup_delete_Some. by eapply Hx.
    + intros k' lk' ch [Hne E]%lookup_delete_Some Hin. rewrite Eb.
      destruct (Hw k' lk' ch E Hin) as (r & Hr & <-). exists r. split; [|done].
      rewrite decide_False; [done|]. rewrite Hrev. intros Hin'.
      destruct (Hw k lk ch Hk Hin') as (r' & Hr' & ?). simplify_eq.
    + intros ch r. rewrite Eb. case_decide as Hn; [done|]. intros Hr.
      destruct (Hb ch r Hr) as (lk' & E & Hin). exists lk'. split; [|done].
      rewrite lookup_delete_ne; [done|]. intros ->. simplify_eq. by apply Hn, Hrev.
    + intros ch. rewrite E3, Eb, Er. cbn. intros Hch. destruct (Hf ch Hch) as [-> ->]. by case_decide.
  - apply core_set_lock; cbn; [done | done | | by rewrite Hk].
    intros Hm t1 t2 [H1 _]%elem_of_difference [H2 _]%elem_of_difference. by apply (li_exclusive _ Hc k lk).
Qed.

Lemma forget_key_fields t k s :
  locks (forget_key t k s) = locks s /\ blocked (forget_key t k s) = blocked s /\
  ready (forget_key t k s) = ready s /\ nextChan (forget_key t k s) = nextChan s /\
  forall t', default ∅ (txns (forget_key t k s) !! t') =
    if decide (t' = t) then default ∅ (txns s !! t') ∖ {[k]} else default ∅ (txns s !! t').
Proof.
  unfold forget_key. destruct (txns s !! t) as [ks|] eqn:E; cbn; split_and!; try done; intros t'.
  - case_decide; [subst; by rewrite lookup_insert_eq, E | by rewrite lookup_insert_ne].
  - case_decide; [subst; rewrite E; cbn; by rewrite difference_empty_L || (clear; set_solver) | done].
Qed.

Lemma core_fields s s' :
  locks s' = locks s -> blocked s' = blocked s -> ready s' = ready s -> nextChan s' = nextChan s ->
  lock_core s -> lock_core s'.
Proof. intros E1 E2 E3 E4 []. split; rewrite ?E1, ?E2, ?E3, ?E4; done. Qed.

Lemma Release_inv s t k : lock_inv s -> lock_inv (Release t k s).
Proof.
  intros Hinv. unfold Release. destruct (locks s !! k) as [lk|] eqn:Hk; [|done].
  destruct Hinv as [Hc Ht]. destruct (forget_key_fields t k s) as (E1 & E2 & E3 & E4 & Et).
  pose proof (core_fields _ _ E1 E2 E3 E4 Hc) as Hc'.
  assert (locks (forget_key t k s) !! k = Some lk) as Hk' by by rewrite E1.
  split; [by apply drop_holder_core|]. intros k' t'.
  rewrite drop_holder_txns, Et, (drop_holder_holds t k lk _ k' t' Hk' Hc').
  assert (holds (forget_key t k s) k' t' <-> holds s k' t') as -> by (unfold holds; by rewrite E1).
  rewrite <- (Ht k' t'). case_decide.
  - subst. rewrite elem_of_difference, elem_of_singleton. naive_solver.
  - naive_solver.
Qed.

Lemma release_keys_spec t ks s :
  lock_core s ->
  let s' := release_keys t ks s in
  lock_core s' /\ txns s' = txns s /\
  (forall k' t', holds s' k' t' <-> holds s k' t' /\ ~ (k' ∈ ks /\ t' = t)).
Proof.
  revert s. induction ks as [|k ks IH]; intros s Hc; cbn zeta; unfold release_keys; cbn [fold_left].
  { split_and!; try done. intros k' t'. split; [|naive_solver]. intros H. split; [done|].
    by intros [?%not_elem_of_nil _]. }
  destruct (locks s !! k) as [lk|] eqn:Hk.
  - destruct (IH _ (drop_holder_core t k lk s Hk Hc)) as (H1 & H2 & H3). split_and!; [done | |].
    + unfold release_keys in H2. by rewrite H2, drop_holder_txns.
    + intros k' t'. rewrite (H3 k' t'), (drop_holder_holds t k lk s k' t' Hk Hc), elem_of_cons. naive_solver.
  - destruct (IH s Hc) as (H1 & H2 & H3). split_and!; try done.
    intros k' t'. rewrite (H3 k' t'), elem_of_cons. split; [|naive_solver]. intros [Hh Hn].
    split; [done|]. intros [[->|Hin] ->]; [|naive_solver]. destruct Hh as (lk & E & _). congruence.
Qed.

Lemma ReleaseAll_inv `{MapRange} s t :
  lock_inv s -> lock_inv (ReleaseAll t s) /\ forall k, ~ holds (ReleaseAll t s) k t.
Proof.
  intros [Hc Ht]. unfold ReleaseAll. destruct (txns s !! t) as [ks|] eqn:E.
  - set (l := (range (gset_to_gmap true ks)).*1).
    assert (forall k, k ∈ l <-> k ∈ ks) as Hl.
    { intros k. unfold l. rewrite list_elem_of_fmap. split.
      - intros ([k' b] & -> & Hin%elem_of_range). by apply lookup_gset_to_gmap_Some in Hin as [? _].
      - intros Hin. exists (k, true). split; [done|]. apply elem_of_range. by apply lookup_gset_to_gmap_Some. }
    destruct (release_keys_spec t l s Hc) as (H1 & H2 & H3).
    assert (forall k t', holds (mkLS (locks (release_keys t l s)) (delete t (txns (release_keys t l s)))
        (blocked (release_keys t l s)) (ready (release_keys t l s)) (nextChan (release_keys t l s))) k t' <->
      holds s k t' /\ t' <> t) as Hh.
    { intros k t'. unfold holds at 1. cbn [locks]. fold (holds (release_keys t l s) k t'). rewrite (H3 k t'), Hl.
      split; [|naive_solver]. intros [Hhold Hn]. split; [done|]. intros ->. apply Hn. split; [|done].
      apply Ht in Hhold. by rewrite E in Hhold. }
    split; [split|].
    + by eapply core_fields, H1.
    + intros k t'. rewrite Hh. cbn. rewrite H2. destruct (decide (t' = t)) as [->|Hne].
      * rewrite lookup_delete_eq. split; [by intros ?%not_elem_of_empty | naive_solver].
      * rewrite lookup_delete_ne by done. rewrite (Ht k t'). naive_solver.
    + intros k. rewrite Hh. naive_solver.
  - split; [by split|]. intros k Hh. apply Ht in Hh. rewrite E in Hh. by apply not_elem_of_empty in Hh.
Qed.

Lemma lock_step_inv `{MapRange} s t s' : lock_inv s -> lock_step s t s' -> lock_inv s'.
Proof.
  intros Hinv. destruct 1.
  - by eapply Acquire_inv.
  - by eapply resume_inv.
  - by apply Release_inv.
  - by apply ReleaseAll_inv.
Qed.

Lemma lock_reach_inv `{MapRange} s : lock_reach s -> lock_inv s.
Proof. induction 1; [apply lock_inv_new | by eapply lock_step_inv]. Qed.

(** ** A holder that waits *)

(** The call on [ch] waits for a lock its own transaction holds (an upgrade). *)
Definition stuck (s : LockState) (ch : nat) (r : request) : Prop :=
  blocked s !! ch = Some r /\ holds s (req_key r) (req_txn r).

Lemma drop_holder_stuck t k lk s ch r :
  lock_core s -> locks s !! k = Some lk -> t <> req_txn r -> stuck s ch r ->
  stuck (drop_holder t k lk s) ch r.
Proof.
  intros Hc Hk Hne [Hb Hh]. split; [|apply drop_holder_holds; naive_solver].
  unfold drop_holder. case_bool_decide as He; [|done].
  set (s0 := mkLS _ _ _ _ _). destruct (wake_all (rev (waiters lk)) s0) as (_ & _ & _ & Eb & _).
  rewrite Eb, decide_False; [done|]. rewrite !list_elem_of_In, <- in_rev, <- list_elem_of_In. intros Hin.
  destruct (li_waiter _ Hc k lk ch Hk Hin) as (r' & Hr' & Ek). simplify_eq.
  destruct Hh as (lk' & E & Hin'). simplify_eq. apply (not_elem_of_empty (C := gset Z) (req_txn r)).
  rewrite <- He. apply elem_of_difference. rewrite elem_of_singleton. naive_solver.
Qed.

Lemma release_keys_stuck t ks s ch r :
  lock_core s -> t <> req_txn r -> stuck s ch r -> stuck (release_keys t ks s) ch r.
Proof.
  revert s. induction ks as [|k ks IH]; intros s Hc Hne Hs; unfold release_keys; cbn [fold_left]; [done|].
  destruct (locks s !! k) as [lk|] eqn:Hk; [|by apply IH].
  apply IH; [by apply drop_holder_core | done | by apply drop_holder_stuck].
Qed.

Lemma acquire_round_stuck t k m lk s b s' ch r :
  lock_core s -> locks s !! k = Some lk -> acquire_round t k m lk s = (b, s') -> stuck s ch r -> stuck s' ch r.
Proof.
  intros Hc Hk. unfold acquire_round. intros E [Hb (lk' & Hl & Hin)].
  assert (ch <> nextChan s) as Hne.
  { intros ->. destruct (li_fresh _ Hc (nextChan s) ltac:(lia)) as [E' _]. congruence. }
  destruct (negb _); injection E as <- <-; (split; [cbn; by rewrite ?lookup_insert_ne|]); unfold holds; cbn.
  all: destruct (decide (req_key r = k)) as [Ek|Hk']; [|rewrite lookup_insert_ne by done; by eauto].
  all: rewrite Ek in *; rewrite lookup_insert_eq; eexists; split; [done|]; cbn; simplify_eq.
  - by apply elem_of_union_r.
  - done.
Qed.

Lemma grant_new_stuck t k m s ch r : locks s !! k = None -> stuck s ch r -> stuck (grant_new t k m s) ch r.
Proof.
  intros Hk [Hb (lk & Hl & Hin)]. split; [done|]. exists lk. cbn.
  rewrite lookup_insert_ne; [done|]. intros ->. congruence.
Qed.

Lemma Acquire_stuck t k m s b s' ch r :
  lock_core s -> Acquire t k m s = (b, s') -> stuck s ch r -> stuck s' ch r.
Proof.
  intros Hc. unfold Acquire. destruct (locks s !! k) as [lk|] eqn:Hk.
  2:{ intros [= <- <-]. by apply grant_new_stuck. }
  case_bool_decide; [|by apply acquire_round_stuck].
  destruct (bool_decide _ || _); [by intros [= <- <-]|].
  case_bool_decide; [|by apply acquire_round_stuck].
  intros [= <- <-] [Hb (lk' & Hl & Hin)]. split; [done|]. unfold holds. cbn.
  destruct (decide (req_key r = k)) as [Ek|Hk']; [|rewrite lookup_insert_ne by done; by eauto].
  rewrite Ek in *. rewrite lookup_insert_eq. eexists. split; [done|]. cbn. by simplify_eq.
Qed.

Lemma step_stuck `{MapRange} s t s' ch r :
  lock_inv s -> lock_step s t s' -> t <> req_txn r -> stuck s ch r -> stuck s' ch r.
Proof.
  intros Hinv Hstep Hne Hs. pose proof (li_core _ Hinv) as Hc.
  destruct Hstep as [s t k m b s' E|s c q b s' Eq E|s t k|s t].
  - by eapply Acquire_stuck.
  - unfold resume in E. rewrite Eq in E. destruct q as [t k m]. set (s0 := mkLS _ _ _ _ _) in E.
    assert (lock_core s0) as Hc0.
    { destruct Hc as [Hh Hx Hw Hb Hf]. split; try done. intros c' Hc'. destruct (Hf c' Hc') as [? E'].
      split; [done|]. cbn. destruct (decide (c' = c)) as [->|]; [apply lookup_delete_eq | by rewrite lookup_delete_ne]. }
    destruct (locks s0 !! k) as [lk|] eqn:Hk; injection E as E.
    + by eapply (acquire_round_stuck t k m lk s0).
    + subst. by apply grant_new_stuck.
  - unfold Release. destruct (locks s !! k) as [lk|] eqn:Hk; [|done].
    destruct (forget_key_fields t k s) as (E1 & E2 & E3 & E4 & _).
    apply drop_holder_stuck; [by eapply core_fields | by rewrite E1 | done |].
    destruct Hs as [Hb Hh]. split; [by rewrite E2|]. unfold holds. by rewrite E1.
  - unfold ReleaseAll. destruct (txns s !! t) as [ks|]; [|done].
    destruct (release_keys_stuck t (range (gset_to_gmap true ks)).*1 s ch r Hc Hne Hs) as [Hb Hh]. by split.
Qed.

(** Steps of transactions other than [t]. *)
Inductive steps_without `{MapRange} (t : Z) : LockState -> LockState -> Prop :=
| without_refl s : steps_without t s s
| without_step s u s' s'' : lock_step s u s' -> u <> t -> steps_without t s' s'' -> steps_without t s s''.

Lemma reach_acquire `{MapRange} s t k m : lock_reach s -> lock_reach (Acquire t k m s).2.
Proof.
  intros Hr. eapply (lreach_step _ t); [exact Hr|]. eapply (step_acquire _ t k m (Acquire t k m s).1).
  by destruct (Acquire t k m s).
Qed.

(** ** Properties *)

(** C17: Mutual exclusion: in every reachable state of the lock manager (any
    interleaving of acquires, wake-ups and releases) an exclusive lock has
    exactly one holder, no lock in the table is without holder, and a
    transaction's recorded key set is exactly the set of keys it holds. *)
Theorem lock_mutual_exclusion `{MapRange} s :
  lock_reach s ->
  (forall k lk, locks s !! k = Some lk -> mode lk = LockExclusive -> exists t, holders lk = {[t]}) /\
  (forall k lk, locks s !! k = Some lk -> holders lk <> ∅) /\
  (forall k t, k ∈ default ∅ (txns s !! t) <-> holds s k t).
Proof.
  intros Hr. apply lock_reach_inv in Hr as [Hc Ht]. split_and!; [|by apply Hc | done].
  intros k lk Hk Hm. destruct (set_choose_L (holders lk)) as [t Hin]; [by apply (li_holder _ Hc k)|].
  exists t. apply set_eq. intros x. rewrite elem_of_singleton. split; [|by intros ->].
  intros Hx. by apply (li_exclusive _ Hc k lk).
Qed.

Lemma lock_mutual_exclusion_witness :
  let s := (Acquire 1 "k" LockExclusive New2PLLockManager).2 in
  exists lk, locks s !! "k" = Some lk /\ exists t, holders lk = {[t]}.
Proof.
  intros s. pose (mr := canonical_range).
  destruct (lock_mutual_exclusion s) as (H & _).
  - apply reach_acquire, lreach_new.
  - eexists. split; [reflexivity|]. apply (H "k"); reflexivity.
Defined.

(** C32: No wake-up is lost: in every reachable state each waiting call waits on
    a lock that is in the table and has a holder, and when the last holder
    releases that lock the call is made ready. *)
Theorem lock_no_lost_wakeup `{MapRange} s ch r :
  lock_reach s -> blocked s !! ch = Some r ->
  exists lk, locks s !! req_key r = Some lk /\ ch ∈ waiters lk /\ holders lk <> ∅ /\
    forall t, holders lk = {[t]} ->
      ready (Release t (req_key r) s) !! ch = Some r /\ locks (Release t (req_key r) s) !! req_key r = None.
Proof.
  intros Hr Hb. apply lock_reach_inv in Hr as [Hc Ht]. destruct (li_blocked _ Hc ch r Hb) as (lk & Hl & Hin).
  exists lk. split_and!; try done; [by apply (li_holder _ Hc (req_key r))|]. intros t Ho.
  unfold Release. rewrite Hl. unfold drop_holder.
  destruct (forget_key_fields t (req_key r) s) as (E1 & E2 & _). rewrite E1, E2.
  rewrite bool_decide_eq_true_2 by (rewrite Ho; apply difference_diag_L).
  set (s0 := mkLS _ _ _ _ _). destruct (wake_all (rev (waiters lk)) s0) as (El & _ & _ & _ & Er).
  rewrite El, Er. cbn. rewrite Hb, lookup_delete_eq, decide_True; [done|].
  by rewrite !list_elem_of_In, <- in_rev, <- list_elem_of_In.
Qed.

(** Transaction 1 holds the key, transaction 2 waits for it. *)
Definition waiting_state : LockState :=
  (Acquire 2 "k" LockShared (Acquire 1 "k" LockExclusive New2PLLockManager).2).2.

Lemma waiting_reach `{MapRange} : lock_reach waiting_state.
Proof. apply reach_acquire, reach_acquire, lreach_new. Qed.

Lemma lock_no_lost_wakeup_witness :
  exists lk, locks waiting_state !! "k" = Some lk /\ holders lk <> ∅.
Proof.
  pose (mr := canonical_range).
  destruct (lock_no_lost_wakeup waiting_state 0 (mkReq 2 "k" LockShared) waiting_reach)
    as (lk & H1 & _ & H2 & _); [reflexivity|].
  exists lk. split; [exact H1 | exact H2].
Defined.

(** [ReleaseAll] ends a transaction's growing phase: afterwards the
    transaction holds nothing and the other transactions hold what they held. *)
Theorem ReleaseAll_releases `{MapRange} s t :
  lock_reach s ->
  lock_inv (ReleaseAll t s) /\ (forall k, ~ holds (ReleaseAll t s) k t) /\
  (forall k t', t' <> t -> holds (ReleaseAll t s) k t' <-> holds s k t').
Proof.
  intros Hr. apply lock_reach_inv in Hr. destruct (ReleaseAll_inv s t Hr) as [Hi Hn].
  split_and!; try done. intros k t' Hne. unfold ReleaseAll.
  destruct (txns s !! t) as [ks|]; [|done].
  destruct (release_keys_spec t (range (gset_to_gmap true ks)).*1 s (li_core _ Hr)) as (_ & _ & H3).
  unfold holds at 1. cbn [locks]. fold (holds (release_keys t (range (gset_to_gmap true ks)).*1 s) k t').
  rewrite H3. naive_solver.
Qed.

Lemma ReleaseAll_releases_witness : exists mr : MapRange, forall k, ~ holds (ReleaseAll 1 waiting_state) k 1.
Proof.
  exists canonical_range.
  destruct (ReleaseAll_releases (H := canonical_range) waiting_state 1 waiting_reach) as (_ & H & _). exact H.
Defined.

(** A lock upgrade with another reader never finishes: once a transaction
    that holds a shared lock waits to make it exclusive, no sequence of steps of
    the other transactions - their releases included - makes the call ready
    again, since waiters are woken only when the last holder leaves and the
    waiter is itself a holder. *)
Theorem upgrade_waits_forever `{MapRange} s s' ch r :
  lock_reach s -> stuck s ch r -> steps_without (req_txn r) s s' -> stuck s' ch r.
Proof.
  intros Hr Hs Hsteps. apply lock_reach_inv in Hr. revert Hr Hs.
  induction Hsteps as [|s u s1 s2 Hstep Hu _ IH]; intros Hinv Hs; [done|].
  apply IH; [by eapply lock_step_inv | by eapply step_stuck].
Qed.

(** Two readers, then the first asks for the exclusive lock. *)
Definition upgrade_state : LockState :=
  (Acquire 1 "k" LockExclusive (Acquire 2 "k" LockShared (Acquire 1 "k" LockShared New2PLLockManager).2).2).2.

Lemma upgrade_waits_forever_witness :
  stuck upgrade_state 0 (mkReq 1 "k" LockExclusive) /\
  stuck (Release 2 "k" upgrade_state) 0 (mkReq 1 "k" LockExclusive).
Proof.
  pose (mr := canonical_range).
  assert (stuck upgrade_state 0 (mkReq 1 "k" LockExclusive)) as Hs.
  { split; [reflexivity|]. eexists. split; [reflexivity|]. vm_compute. auto. }
  split; [exact Hs|].
  apply (upgrade_waits_forever upgrade_state _ 0 (mkReq 1 "k" LockExclusive)).
  - apply reach_acquire, reach_acquire, reach_acquire, lreach_new.
  - exact Hs.
  - apply (without_step 1 _ 2 (Release 2 "k" upgrade_state)); [apply step_release | lia | apply without_refl].
Defined.
