(* ===== verification/Roaring.v ===== *)
(** The roaring bitmap (roaring.go): chunks of sorted 16-bit lists under 48-bit
    keys, insertion by binary search, the set operations by merging, and the
    serial form.  A bitmap denotes a set of 64-bit values. *)

From Stdlib Require Import Strings.Byte.
From S2P Require Import Common.
From S2P Require Import Prelude.

(** [map[uint64][]uint16]. *)
Abbreviation RoaringBitmap := (gmap Z (list Z)) (only parsing).

Definition NewRoaringBitmap : RoaringBitmap := ∅.

(** ** sort.Search *)

(** [i, j := 0, n; for i < j { h := (i+j)/2; if !f(h) { i = h+1 } else { j = h } }]. *)
Fixpoint search_loop (fuel : nat) (f : nat -> bool) (i j : nat) : nat :=
  match fuel with
  | O => i
  | S fuel =>
      if (i <? j)%nat
      then
        let h := ((i + j) / 2)%nat in
        if negb (f h) then search_loop fuel f (S h) j else search_loop fuel f i h
      else i
  end.

(** The interval shrinks in every round, so [n] rounds are enough. *)
Definition sort_Search (n : nat) (f : nat -> bool) : nat := search_loop n f 0 n.

(** ** Add *)

Definition nth_z (l : list Z) (i : nat) : Z := default 0 (l !! i).

(** [l = append(l, 0); copy(l[idx+1:], l[idx:]); l[idx] = lsb]. *)
Definition insert_at (l : list Z) (idx : nat) (lsb : Z) : list Z := take idx l ++ lsb :: drop idx l.

Definition Add (r : RoaringBitmap) (val : Z) : RoaringBitmap :=
  let k := Z.shiftr val 16 in
  let lsb := Z.land val 0xFFFF in
  let l := default [] (r !! k) in
  let idx := sort_Search (length l) (fun i => lsb <=? nth_z l i) in
  if ((idx <? length l)%nat && (nth_z l idx =? lsb)) then r
  else <[k := insert_at l idx lsb]> r.

(** ** Merging sorted lists *)

(** The loop [for i < len(l1) && j < len(l2)] of the intersection, on what is
    left of the two lists. *)
Fixpoint intersect_lists (l1 : list Z) : list Z -> list Z :=
  match l1 with
  | [] => fun _ => []
  | x :: l1' =>
      fix go (l2 : list Z) : list Z :=
        match l2 with
        | [] => []
        | y :: l2' =>
            if x <? y then intersect_lists l1' l2
            else if y <? x then go l2'
            else x :: intersect_lists l1' l2'
        end
  end.

(** The union's loop and the two appends after it. *)
Fixpoint union_lists (l1 : list Z) : list Z -> list Z :=
  match l1 with
  | [] => fun l2 => l2
  | x :: l1' =>
      fix go (l2 : list Z) : list Z :=
        match l2 with
        | [] => l1
        | y :: l2' =>
            if x <? y then x :: union_lists l1' l2
            else if y <? x then y :: go l2'
            else x :: union_lists l1' l2'
        end
  end.

Fixpoint difference_lists (l1 : list Z) : list Z -> list Z :=
  match l1 with
  | [] => fun _ => []
  | x :: l1' =>
      fix go (l2 : list Z) : list Z :=
        match l2 with
        | [] => l1
        | y :: l2' =>
            if x <? y then x :: difference_lists l1' l2
            else if y <? x then go l2'
            else difference_lists l1' l2'
        end
  end.

Section Roaring.
Context `{MapRange}.

(** ** Set operations *)

Definition RoaringIntersect (r1 r2 : RoaringBitmap) : RoaringBitmap :=
  fold_left (fun res '(k, l1) =>
    match r2 !! k with
    | Some l2 =>
        let interl := intersect_lists l1 l2 in
        if (0 <? zlen interl) then <[k := interl]> res else res
    | None => res
    end) (range r1) NewRoaringBitmap.

Definition RoaringUnion (r1 r2 : RoaringBitmap) : RoaringBitmap :=
  let res := fold_left (fun res '(k, l1) => <[k := l1]> res) (range r1) NewRoaringBitmap in
  fold_left (fun res '(k, l2) =>
    match res !! k with
    | Some l1 => <[k := union_lists l1 l2]> res
    | None => <[k := l2]> res
    end) (range r2) res.

Definition RoaringDifference (r1 r2 : RoaringBitmap) : RoaringBitmap :=
  fold_left (fun res '(k, l1) =>
    match r2 !! k with
    | Some l2 =>
        let difl := difference_lists l1 l2 in
        if (0 <? zlen difl) then <[k := difl]> res else res
    | None => <[k := l1]> res
    end) (range r1) NewRoaringBitmap.

(** ** ToArray and Len *)

(** [sort.Slice(keys, <)] on distinct keys, by insertion. *)
Fixpoint insert_key (k : Z) (l : list Z) : list Z :=
  match l with [] => [k] | x :: l' => if k <? x then k :: l else x :: insert_key k l' end.

Definition sort_keys (l : list Z) : list Z := foldr insert_key [] l.

Definition ToArray (r : RoaringBitmap) : list Z :=
  sort_keys (range r).*1 ≫= fun k =>
    (fun lsb => Z.lor (u64 (Z.shiftl k 16)) lsb) <$> default [] (r !! k).

Definition Len (r : RoaringBitmap) : Z :=
  fold_left (fun count '(_, list) => count + zlen list) (range r) 0.

(** ** Serial form *)

Definition serialize_chunk (x : Z * list Z) : bytes :=
  le_bytes 8 x.1 ++ le_bytes 4 (zlen x.2) ++ (x.2 ≫= le_bytes 2).

Definition Serialize (r : RoaringBitmap) : bytes :=
  le_bytes 4 (Z.of_nat (size r)) ++ (range r ≫= serialize_chunk).
End Roaring.

(** [binary.Read] into a variable that holds 0, with the error ignored: a short
    read uses the bytes up and leaves the variable alone. *)
Definition binary_read (n : nat) (bs : bytes) : Z * bytes :=
  if (length bs <? n)%nat then (0, []) else (le_val (take n bs), drop n bs).

Fixpoint read_list (n : nat) (bs : bytes) : list Z * bytes :=
  match n with
  | O => ([], bs)
  | S n => let '(v, bs) := binary_read 2 bs in let '(l, bs) := read_list n bs in (v :: l, bs)
  end.

Fixpoint read_chunks (n : nat) (bs : bytes) (r : RoaringBitmap) : RoaringBitmap :=
  match n with
  | O => r
  | S n =>
      let '(k, bs) := binary_read 8 bs in
      let '(listLen, bs) := binary_read 4 bs in
      let '(list, bs) := read_list (Z.to_nat listLen) bs in
      read_chunks n bs (<[k := list]> r)
  end.

(** [r] is the receiver's old value, kept when [data] is empty. *)
Definition Deserialize (r : RoaringBitmap) (data : bytes) : result RoaringBitmap :=
  if zlen data =? 0 then Ok r
  else if zlen data <? 4 then Err ErrUnexpectedEOF
  else let '(chunkCount, bs) := binary_read 4 data in Ok (read_chunks (Z.to_nat chunkCount) bs ∅).

(** * Correctness *)

(** A bitmap is well formed when its keys fit 48 bits and its lists are strictly
    increasing 16-bit values. *)
Abbreviation increasing := (StronglySorted Z.lt) (only parsing).

Definition chunk_ok (l : list Z) : Prop := increasing l /\ Forall (fun x => 0 <= x < 2 ^ 16) l.

Definition rb_ok (r : RoaringBitmap) : Prop :=
  map_Forall (fun k l => 0 <= k < 2 ^ 48 /\ chunk_ok l) r.

(** The set a bitmap denotes. *)
Definition contains (r : RoaringBitmap) (v : Z) : Prop :=
  Z.land v 0xFFFF ∈ default [] (r !! Z.shiftr v 16).

(** ** Binary search *)

Lemma search_loop_spec f n fuel i j :
  (forall a b, (a <= b < n)%nat -> f a = true -> f b = true) ->
  (i <= j <= n)%nat -> (j - i <= fuel)%nat ->
  (forall a, (a < i)%nat -> f a = false) -> (forall a, (j <= a < n)%nat -> f a = true) ->
  let r := search_loop fuel f i j in
  (r <= n)%nat /\ (forall a, (a < r)%nat -> f a = false) /\ (forall a, (r <= a < n)%nat -> f a = true).
Proof.
  intros Hm. revert i j. induction fuel as [|fuel IH]; intros i j Hij Hf Hlo Hhi; cbn [search_loop].
  { split_and!; [lia | done |]. intros. apply Hhi. lia. }
  destruct (i <? j)%nat eqn:E; [apply Nat.ltb_lt in E | apply Nat.ltb_ge in E].
  2:{ split_and!; [lia | done |]. intros. apply Hhi. lia. }
  set (h := ((i + j) / 2)%nat).
  assert (i <= h < j)%nat as Hh.
  { unfold h. split; [apply Nat.div_le_lower_bound; lia | apply Nat.Div0.div_lt_upper_bound; lia]. }
  destruct (f h) eqn:Eh; cbn [negb].
  - apply IH; [lia | lia | done |]. intros a Ha. destruct (decide (j <= a)%nat); [by apply Hhi; lia|].
    apply (Hm h a); [lia | done].
  - apply IH; [lia | lia | | done]. intros a Ha. destruct (decide (a < i)%nat); [by apply Hlo|].
    destruct (f a) eqn:Ea; [|done]. rewrite (Hm a h) in Eh by (done || lia). done.
Qed.

Lemma increasing_lookup l i j x y :
  increasing l -> l !! i = Some x -> l !! j = Some y -> (i < j)%nat -> x < y.
Proof.
  intros Hl. revert i j. induction Hl as [|z l Hl IH Hz]; intros i j Hi Hj Hij; [done|].
  destruct i as [|i], j as [|j]; cbn in *; try lia.
  - simplify_eq. rewrite Forall_forall in Hz. apply Hz. by eapply list_elem_of_lookup_2.
  - apply (IH i j); (done || lia).
Qed.

(** [sort.Search] splits a sorted list at the value. *)
Lemma search_split l v :
  increasing l ->
  let idx := sort_Search (length l) (fun i => v <=? nth_z l i) in
  (idx <= length l)%nat /\ Forall (fun x => x < v) (take idx l) /\ Forall (fun x => v <= x) (drop idx l).
Proof.
  intros Hl idx.
  assert (forall i x, l !! i = Some x -> nth_z l i = x) as Hnth by (unfold nth_z; by intros i x ->).
  destruct (search_loop_spec (fun i => v <=? nth_z l i) (length l) (length l) 0 (length l))
    as (H1 & H2 & H3); try (intros; lia).
  - intros a b Hab Ha. apply Z.leb_le in Ha. apply Z.leb_le.
    destruct (lookup_lt_is_Some_2 l a ltac:(lia)) as [x Hx]. destruct (lookup_lt_is_Some_2 l b ltac:(lia)) as [y Hy].
    rewrite (Hnth a x Hx) in Ha. rewrite (Hnth b y Hy). destruct (decide (a = b)) as [->|Hne].
    + simplify_eq. lia.
    + pose proof (increasing_lookup l a b x y Hl Hx Hy ltac:(lia)). lia.
  - change (search_loop _ _ 0 _) with idx in H1, H2, H3. split_and!; [done | |].
    + apply Forall_forall. intros x [i Hi]%list_elem_of_lookup. apply lookup_take_Some in Hi as [Hi Hlt].
      specialize (H2 i Hlt). cbn in H2. rewrite (Hnth i x Hi) in H2. by apply Z.leb_gt in H2.
    + apply Forall_forall. intros x [i Hi]%list_elem_of_lookup. rewrite lookup_drop in Hi.
      apply lookup_lt_Some in Hi as Hlt. specialize (H3 (idx + i)%nat ltac:(lia)). cbn in H3.
      rewrite (Hnth _ x Hi) in H3. by apply Z.leb_le in H3.
Qed.

Lemma increasing_app l1 l2 :
  increasing l1 -> increasing l2 -> (forall x y, x ∈ l1 -> y ∈ l2 -> x < y) -> increasing (l1 ++ l2).
Proof.
  intros H1 H2 Hlt. induction H1 as [|x l1 H1 IH Hx]; [done|]. cbn. constructor.
  - apply IH. intros. apply Hlt; [by right | done].
  - apply Forall_app. split; [done|]. apply Forall_forall. intros. apply Hlt; [left | done].
Qed.

Lemma increasing_app_inv l1 l2 : increasing (l1 ++ l2) -> increasing l1 /\ increasing l2.
Proof.
  induction l1 as [|x l1 IH]; cbn; [split; [constructor|done]|].
  intros [H1 [Hx _]%Forall_app]%StronglySorted_inv. apply IH in H1 as [? ?]. split; [by constructor|done].
Qed.

(** Inserting where the search says. *)
Lemma insert_at_spec l v :
  chunk_ok l -> 0 <= v < 2 ^ 16 ->
  let idx := sort_Search (length l) (fun i => v <=? nth_z l i) in
  let l' := if ((idx <? length l)%nat && (nth_z l idx =? v)) then l else insert_at l idx v in
  chunk_ok l' /\ forall x, x ∈ l' <-> x = v \/ x ∈ l.
Proof.
  intros [Hl Hb] Hv idx. destruct (search_split l v Hl) as (Hi & Hlo & Hhi). fold idx in Hi, Hlo, Hhi.
  destruct ((idx <? length l)%nat && (nth_z l idx =? v)) eqn:E; cbn zeta.
  - split; [done|]. intros x. split; [by right|]. intros [->|]; [|done].
    apply andb_true_iff in E as [E1%Nat.ltb_lt E2%Z.eqb_eq].
    destruct (lookup_lt_is_Some_2 l idx E1) as [y Hy]. unfold nth_z in E2. rewrite Hy in E2. cbn in E2. subst.
    by eapply list_elem_of_lookup_2.
  - unfold insert_at. rewrite <- (take_drop idx l) in Hl, Hb. apply increasing_app_inv in Hl as [Hl1 Hl2].
    assert (Forall (fun x => v < x) (drop idx l)) as Hgt.
    { destruct (drop idx l) as [|y d] eqn:Ed; [constructor|].
      assert (l !! idx = Some y) as Hy by (rewrite <- (Nat.add_0_r idx), <- lookup_drop, Ed; done).
      assert (v <> y).
      { intros <-. apply lookup_lt_Some in Hy as Hlt. unfold nth_z in E. rewrite Hy in E. cbn in E.
        rewrite Z.eqb_refl, andb_true_r in E. apply Nat.ltb_ge in E. lia. }
      apply Forall_cons in Hhi as [Hvy _]. apply StronglySorted_inv in Hl2 as [_ Hy2].
      constructor; [lia|]. eapply Forall_impl; [exact Hy2|]. cbn. lia. }
    split; [split|].
    + apply increasing_app; [done | by constructor|]. intros x y Hx.
      rewrite Forall_forall in Hlo, Hgt. specialize (Hlo x Hx).
      intros [->|Hy%Hgt]%elem_of_cons; lia.
    + apply Forall_app in Hb as [? ?]. apply Forall_app. split; [done|]. by constructor.
    + intros x. rewrite <- (take_drop idx l) at 3. rewrite !elem_of_app, elem_of_cons. tauto.
Qed.

(** ** Values and chunks *)

Lemma split_val v : 0 <= v < 2 ^ 64 -> 0 <= Z.shiftr v 16 < 2 ^ 48 /\ 0 <= Z.land v 0xFFFF < 2 ^ 16 /\
  v = Z.shiftr v 16 * 2 ^ 16 + Z.land v 0xFFFF.
Proof.
  intros Hv. rewrite Z.shiftr_div_pow2 by lia. change 0xFFFF with (Z.ones 16).
  rewrite Z.land_ones by lia. pose proof (Z.div_mod v (2 ^ 16) ltac:(lia)).
  pose proof (Z.mod_pos_bound v (2 ^ 16) ltac:(lia)). lia.
Qed.

Lemma land_disjoint k x : 0 <= x < 2 ^ 16 -> Z.land (k * 2 ^ 16) x = 0.
Proof.
  intros Hx. apply Z.bits_inj'. intros n Hn. rewrite Z.land_spec, Z.bits_0.
  destruct (Z_lt_le_dec n 16); [by rewrite Z.mul_pow2_bits_low by lia|].
  replace (Z.testbit x n) with false; [by rewrite andb_false_r|].
  symmetry. apply Z.testbit_false; [lia|]. rewrite Z.div_small; [done|]. split; [lia|].
  apply Z.lt_le_trans with (2 ^ 16); [lia | apply Z.pow_le_mono_r; lia].
Qed.

Lemma join_val k x : 0 <= k < 2 ^ 48 -> 0 <= x < 2 ^ 16 ->
  Z.lor (u64 (Z.shiftl k 16)) x = k * 2 ^ 16 + x /\
  Z.shiftr (k * 2 ^ 16 + x) 16 = k /\ Z.land (k * 2 ^ 16 + x) 0xFFFF = x.
Proof.
  intros Hk Hx. rewrite Z.shiftl_mul_pow2 by lia. rewrite u64_small by lia. split_and!.
  - rewrite <- Z.lxor_lor, <- Z.add_nocarry_lxor by by apply land_disjoint. done.
  - rewrite Z.shiftr_div_pow2 by lia. rewrite Z.div_add_l by lia. rewrite Z.div_small by lia. lia.
  - change 0xFFFF with (Z.ones 16). rewrite Z.land_ones by lia.
    rewrite Z.add_comm, Z.mod_add by lia. apply Z.mod_small. lia.
Qed.

(** ** Merging *)

Lemma elem_of_above x l : Forall (Z.lt x) l -> x ∉ l.
Proof. intros H Hin. rewrite Forall_forall in H. specialize (H x Hin). lia. Qed.

(** The equations of the merges. *)
Lemma intersect_cons x l1 y l2 :
  intersect_lists (x :: l1) (y :: l2) =
  if x <? y then intersect_lists l1 (y :: l2)
  else if y <? x then intersect_lists (x :: l1) l2 else x :: intersect_lists l1 l2.
Proof. done. Qed.

Lemma union_cons x l1 y l2 :
  union_lists (x :: l1) (y :: l2) =
  if x <? y then x :: union_lists l1 (y :: l2)
  else if y <? x then y :: union_lists (x :: l1) l2 else x :: union_lists l1 l2.
Proof. done. Qed.

Lemma difference_cons x l1 y l2 :
  difference_lists (x :: l1) (y :: l2) =
  if x <? y then x :: difference_lists l1 (y :: l2)
  else if y <? x then difference_lists (x :: l1) l2 else difference_lists l1 l2.
Proof. done. Qed.

(** Membership in sorted lists decides the comparisons of heads. *)
Ltac heads :=
  repeat match goal with
  | H : StronglySorted Z.lt (_ :: _) |- _ => apply StronglySorted_inv in H as [? ?]
  | H : Forall (Z.lt ?x) ?l, H' : ?x ∈ ?l |- _ => exfalso; exact (elem_of_above x l H H')
  | H : Forall (Z.lt ?x) ?l, H' : ?y ∈ ?l |- _ =>
      lazymatch goal with
      | _ : x < y |- _ => fail
      | _ => assert (x < y) by (rewrite Forall_forall in H; exact (H y H'))
      end
  end.

Lemma intersect_elem l1 l2 x :
  increasing l1 -> increasing l2 -> x ∈ intersect_lists l1 l2 <-> x ∈ l1 /\ x ∈ l2.
Proof.
  intros H1. revert l2. induction H1 as [|a l1 H1 IH1 Ha]; intros l2 H2.
  { cbn. rewrite elem_of_nil. tauto. }
  induction H2 as [|b l2 H2 IH2 Hb]; [cbn; rewrite elem_of_nil; tauto|].
  rewrite intersect_cons. destruct (a <? b) eqn:E1; [|destruct (b <? a) eqn:E2]; bprop.
  - rewrite IH1 by by constructor. rewrite !elem_of_cons. split; [tauto|].
    intros [[?|?] [?|?]]; subst; heads; try lia; tauto.
  - etransitivity; [exact IH2|]. rewrite !elem_of_cons. split; [tauto|].
    intros [[?|?] [?|?]]; subst; heads; try lia; tauto.
  - assert (a = b) as <- by lia. rewrite elem_of_cons, IH1, !elem_of_cons by done.
    split; [tauto|]. intros [[?|?] [?|?]]; subst; heads; try lia; tauto.
Qed.

Lemma union_elem l1 l2 x :
  x ∈ union_lists l1 l2 <-> x ∈ l1 \/ x ∈ l2.
Proof.
  revert l2. induction l1 as [|a l1 IH1]; intros l2.
  { cbn. rewrite elem_of_nil. tauto. }
  induction l2 as [|b l2 IH2]; [cbn; rewrite elem_of_nil; tauto|].
  rewrite union_cons. destruct (a <? b) eqn:E1; [|destruct (b <? a) eqn:E2]; bprop.
  - rewrite elem_of_cons, IH1, !elem_of_cons. tauto.
  - rewrite elem_of_cons, IH2, !elem_of_cons. tauto.
  - assert (a = b) as <- by lia. rewrite elem_of_cons, IH1, !elem_of_cons. tauto.
Qed.

Lemma difference_elem l1 l2 x :
  increasing l1 -> increasing l2 -> x ∈ difference_lists l1 l2 <-> x ∈ l1 /\ x ∉ l2.
Proof.
  intros H1. revert l2. induction H1 as [|a l1 H1 IH1 Ha]; intros l2 H2.
  { cbn. rewrite elem_of_nil. tauto. }
  induction H2 as [|b l2 H2 IH2 Hb]; [cbn; rewrite elem_of_nil; tauto|].
  rewrite difference_cons. destruct (a <? b) eqn:E1; [|destruct (b <? a) eqn:E2]; bprop.
  - rewrite elem_of_cons, IH1, !elem_of_cons by by constructor. split; [|tauto].
    intros [->|?]; [|tauto]. split; [by left|]. intros [->|?]; heads; lia.
  - etransitivity; [exact IH2|]. rewrite !elem_of_cons. split; [|tauto]. intros [[->|?] ?]; (split; [tauto|]).
    + intros [->|?]; [lia | tauto].
    + intros [->|?]; heads; [lia | tauto].
  - assert (a = b) as <- by lia. rewrite IH1, !elem_of_cons by done. split.
    + intros [? ?]. split; [tauto|]. intros [->|?]; heads; tauto.
    + intros [[->|?] ?]; tauto.
Qed.

(** Results stay sorted because the merges emit heads in order. *)
Lemma merge_increasing l1 l2 :
  increasing l1 -> increasing l2 ->
  increasing (intersect_lists l1 l2) /\ increasing (union_lists l1 l2) /\ increasing (difference_lists l1 l2).
Proof.
  assert (forall l1 l2, increasing l1 -> increasing l2 -> forall x, x ∈ union_lists l1 l2 -> forall y,
    Forall (Z.lt y) l1 -> Forall (Z.lt y) l2 -> y < x) as Hu.
  { intros a b _ _ x [Hx|Hx]%union_elem y Ha Hb; rewrite Forall_forall in Ha, Hb; auto. }
  assert (forall a b l, a < b -> Forall (Z.lt b) l -> Forall (Z.lt a) (b :: l)) as Hcons.
  { intros a b l Hab Hb. constructor; [done|]. eapply Forall_impl; [exact Hb|]. cbn. lia. }
  intros H1. revert l2. induction H1 as [|a l1 H1 IH1 Ha]; intros l2 H2; [cbn; split_and!; done || constructor|].
  induction H2 as [|b l2 H2 IH2 Hb]; [cbn; split_and!; by constructor|].
  rewrite intersect_cons, union_cons, difference_cons.
  destruct (a <? b) eqn:E1; [|destruct (b <? a) eqn:E2]; bprop.
  - destruct (IH1 (b :: l2) ltac:(by constructor)) as (I1 & I2 & I3). split_and!; [done | |].
    + constructor; [done|]. apply Forall_forall. intros x Hx. eapply (Hu l1 (b :: l2)); try done;
        [by constructor | by apply Hcons].
    + constructor; [done|]. apply Forall_forall. intros x Hx.
      apply difference_elem in Hx as [Hx _]; [|done | by constructor]. rewrite Forall_forall in Ha. auto.
  - destruct IH2 as (I1 & I2 & I3). split_and!; [done | | done].
    constructor; [done|]. apply Forall_forall. intros x Hx. eapply (Hu (a :: l1) l2); try done;
      [by constructor | by apply Hcons].
  - assert (a = b) as <- by lia. destruct (IH1 l2 H2) as (I1 & I2 & I3). split_and!; [| | done].
    + constructor; [done|]. apply Forall_forall. intros x Hx.
      apply intersect_elem in Hx as [Hx _]; [|done..]. rewrite Forall_forall in Ha. auto.
    + constructor; [done|]. apply Forall_forall. intros x Hx. by eapply (Hu l1 l2).
Qed.

Lemma merge_ok l1 l2 :
  chunk_ok l1 -> chunk_ok l2 ->
  chunk_ok (intersect_lists l1 l2) /\ chunk_ok (union_lists l1 l2) /\ chunk_ok (difference_lists l1 l2).
Proof.
  intros [H1 B1] [H2 B2]. destruct (merge_increasing l1 l2 H1 H2) as (I1 & I2 & I3).
  rewrite Forall_forall in B1, B2. split_and!; (split; [done|]); apply Forall_forall; intros x Hx.
  - apply intersect_elem in Hx as [Hx _]; auto.
  - apply union_elem in Hx as [Hx|Hx]; auto.
  - apply difference_elem in Hx as [Hx _]; auto.
Qed.

(** ** Loops over the chunks of a map *)

Section Sets.
Context `{MR : MapRange}.

Lemma Intersect_lookup r1 r2 k :
  RoaringIntersect r1 r2 !! k =
  match r1 !! k, r2 !! k with
  | Some l1, Some l2 => if 0 <? zlen (intersect_lists l1 l2) then Some (intersect_lists l1 l2) else None
  | _, _ => None
  end.
Proof.
  unfold RoaringIntersect.
  rewrite (fold_left_ext _ (fun res '(k, l1) => match (match r2 !! k with
    | Some l2 => if 0 <? zlen (intersect_lists l1 l2) then Some (intersect_lists l1 l2) else None
    | None => None end) with Some x => <[k := x]> res | None => res end)).
  - rewrite (fold_range_lookup (fun k l1 _ => match r2 !! k with
      | Some l2 => if 0 <? zlen (intersect_lists l1 l2) then Some (intersect_lists l1 l2) else None
      | None => None end)). unfold NewRoaringBitmap. rewrite lookup_empty.
    destruct (r1 !! k), (r2 !! k); try done. by case_match.
  - intros res [k' l1]. destruct (r2 !! k'); [|done]. by case_match.
Qed.

Lemma Union_lookup r1 r2 k :
  RoaringUnion r1 r2 !! k =
  match r1 !! k, r2 !! k with
  | Some l1, Some l2 => Some (union_lists l1 l2)
  | Some l1, None => Some l1
  | None, o => o
  end.
Proof.
  unfold RoaringUnion. set (copy := fold_left _ (range r1) _).
  assert (copy !! k = r1 !! k) as Hcopy.
  { pose proof (fold_range_lookup (fun _ l1 _ => Some l1) r1 NewRoaringBitmap k) as E. cbn in E.
    unfold copy. rewrite E. unfold NewRoaringBitmap. rewrite lookup_empty. by destruct (r1 !! k). }
  rewrite (fold_left_ext _
    (fun res '(k, l2) => match (match res !! k with Some l1 => Some (union_lists l1 l2) | None => Some l2 end)
       with Some x => <[k := x]> res | None => res end)).
  - rewrite (fold_range_lookup (fun k l2 o => match o with Some l1 => Some (union_lists l1 l2) | None => Some l2 end)).
    rewrite Hcopy. by destruct (r1 !! k), (r2 !! k).
  - intros res [k' l2]. by destruct (res !! k').
Qed.

Lemma Difference_lookup r1 r2 k :
  RoaringDifference r1 r2 !! k =
  match r1 !! k, r2 !! k with
  | Some l1, Some l2 => if 0 <? zlen (difference_lists l1 l2) then Some (difference_lists l1 l2) else None
  | Some l1, None => Some l1
  | None, _ => None
  end.
Proof.
  unfold RoaringDifference.
  rewrite (fold_left_ext _ (fun res '(k, l1) => match (match r2 !! k with
    | Some l2 => if 0 <? zlen (difference_lists l1 l2) then Some (difference_lists l1 l2) else None
    | None => Some l1 end) with Some x => <[k := x]> res | None => res end)).
  - rewrite (fold_range_lookup (fun k l1 _ => match r2 !! k with
      | Some l2 => if 0 <? zlen (difference_lists l1 l2) then Some (difference_lists l1 l2) else None
      | None => Some l1 end)). unfold NewRoaringBitmap. rewrite lookup_empty.
    destruct (r1 !! k), (r2 !! k); try done. by case_match.
  - intros res [k' l1]. destruct (r2 !! k'); [|done]. by case_match.
Qed.

Lemma default_nonempty (l : list Z) : default [] (if 0 <? zlen l then Some l else None) = l.
Proof. destruct l as [|x l]; [done|]. rewrite zlen_cons. pose proof (zlen_nonneg l). by rewrite (proj2 (Z.ltb_lt _ _)) by lia. Qed.

(** Well-formedness is kept and membership is that of the set operation. *)
Lemma rb_chunk r k l : rb_ok r -> r !! k = Some l -> 0 <= k < 2 ^ 48 /\ chunk_ok l.
Proof. intros Hr Hl. exact (Hr k l Hl). Qed.

Lemma Add_spec r v :
  rb_ok r -> 0 <= v < 2 ^ 64 ->
  rb_ok (Add r v) /\ forall w, 0 <= w < 2 ^ 64 -> contains (Add r v) w <-> w = v \/ contains r w.
Proof.
  intros Hr Hv. destruct (split_val v Hv) as (Hk & Hx & Ev).
  assert (chunk_ok (default [] (r !! Z.shiftr v 16))) as Hc.
  { destruct (r !! Z.shiftr v 16) eqn:E; [by eapply rb_chunk | split; constructor]. }
  destruct (insert_at_spec _ _ Hc Hx) as [Hok Hin]. revert Hok Hin. unfold Add.
  set (l := default [] (r !! Z.shiftr v 16)). set (idx := sort_Search _ _). cbn zeta.
  destruct ((idx <? length l)%nat && (nth_z l idx =? Z.land v 0xFFFF)); intros Hok Hin.
  - split; [done|]. intros w Hw. split; [by right|]. intros [->|]; [|done]. unfold contains. apply Hin. by left.
  - split; [by apply map_Forall_insert_2|]. intros w Hw. unfold contains.
    destruct (split_val w Hw) as (_ & _ & Ew). destruct (decide (Z.shiftr w 16 = Z.shiftr v 16)) as [E|E].
    + rewrite E, lookup_insert_eq. cbn [default from_option id]. rewrite Hin. fold l. split; [|intros [->|?]; [by left | by right]].
      intros [E'|?]; [left; lia | by right].
    + rewrite lookup_insert_ne by done. split; [by right|]. intros [->|]; done.
Qed.

Lemma chunk_or_nil r k : rb_ok r -> chunk_ok (default [] (r !! k)).
Proof. intros Hr. destruct (r !! k) eqn:E; [by eapply rb_chunk | split; constructor]. Qed.

Lemma Intersect_spec r1 r2 :
  rb_ok r1 -> rb_ok r2 ->
  rb_ok (RoaringIntersect r1 r2) /\
  forall v, contains (RoaringIntersect r1 r2) v <-> contains r1 v /\ contains r2 v.
Proof.
  intros H1 H2. split.
  - intros k l. rewrite Intersect_lookup. destruct (r1 !! k) as [l1|] eqn:E1, (r2 !! k) as [l2|] eqn:E2; try done.
    case_match; [|done]. intros [= <-]. destruct (rb_chunk _ _ _ H1 E1), (rb_chunk _ _ _ H2 E2).
    split; [done|]. by apply merge_ok.
  - intros v. unfold contains. rewrite Intersect_lookup.
    destruct (chunk_or_nil r1 (Z.shiftr v 16) H1) as [I1 _], (chunk_or_nil r2 (Z.shiftr v 16) H2) as [I2 _].
    revert I1 I2. destruct (r1 !! _) as [l1|], (r2 !! _) as [l2|]; cbn [default from_option id];
      rewrite ?default_nonempty, ?elem_of_nil; try tauto. intros. by apply intersect_elem.
Qed.

Lemma Union_spec r1 r2 :
  rb_ok r1 -> rb_ok r2 ->
  rb_ok (RoaringUnion r1 r2) /\
  forall v, contains (RoaringUnion r1 r2) v <-> contains r1 v \/ contains r2 v.
Proof.
  intros H1 H2. split.
  - intros k l. rewrite Union_lookup. destruct (r1 !! k) as [l1|] eqn:E1, (r2 !! k) as [l2|] eqn:E2;
      intros [= <-]; try by eauto using rb_chunk.
    destruct (rb_chunk _ _ _ H1 E1), (rb_chunk _ _ _ H2 E2). split; [done|]. by apply merge_ok.
  - intros v. unfold contains. rewrite Union_lookup.
    destruct (r1 !! _) as [l1|], (r2 !! _) as [l2|]; cbn [default from_option id];
      rewrite ?elem_of_nil; try tauto. apply union_elem.
Qed.

Lemma Difference_spec r1 r2 :
  rb_ok r1 -> rb_ok r2 ->
  rb_ok (RoaringDifference r1 r2) /\
  forall v, contains (RoaringDifference r1 r2) v <-> contains r1 v /\ ~ contains r2 v.
Proof.
  intros H1 H2. split.
  - intros k l. rewrite Difference_lookup. destruct (r1 !! k) as [l1|] eqn:E1, (r2 !! k) as [l2|] eqn:E2; try done.
    + case_match; [|done]. intros [= <-]. destruct (rb_chunk _ _ _ H1 E1), (rb_chunk _ _ _ H2 E2).
      split; [done|]. by apply merge_ok.
    + intros [= <-]. exact (rb_chunk _ _ _ H1 E1).
  - intros v. unfold contains. rewrite Difference_lookup.
    destruct (chunk_or_nil r1 (Z.shiftr v 16) H1) as [I1 _], (chunk_or_nil r2 (Z.shiftr v 16) H2) as [I2 _].
    revert I1 I2. destruct (r1 !! _) as [l1|], (r2 !! _) as [l2|]; cbn [default from_option id];
      rewrite ?default_nonempty, ?elem_of_nil; try tauto. intros. by apply difference_elem.
Qed.

(** The bitmap is a set of 64-bit values: [Add] and the three set operations
    keep every chunk sorted, free of duplicates and in range, and the values the
    result contains are those of the set operation on the arguments, in whatever
    order the maps are enumerated. *)
Theorem roaring_set_algebra r1 r2 v w :
  rb_ok r1 -> rb_ok r2 -> 0 <= v < 2 ^ 64 -> 0 <= w < 2 ^ 64 ->
  (rb_ok (Add r1 v) /\ rb_ok (RoaringIntersect r1 r2) /\ rb_ok (RoaringUnion r1 r2) /\
   rb_ok (RoaringDifference r1 r2)) /\
  (contains (Add r1 v) w <-> w = v \/ contains r1 w) /\
  (contains (RoaringIntersect r1 r2) w <-> contains r1 w /\ contains r2 w) /\
  (contains (RoaringUnion r1 r2) w <-> contains r1 w \/ contains r2 w) /\
  (contains (RoaringDifference r1 r2) w <-> contains r1 w /\ ~ contains r2 w).
Proof.
  intros H1 H2 Hv Hw. destruct (Add_spec r1 v H1 Hv), (Intersect_spec r1 r2 H1 H2),
    (Union_spec r1 r2 H1 H2), (Difference_spec r1 r2 H1 H2). split_and!; auto.
Qed.

(** ** Enumeration *)

Lemma insert_key_perm k l : insert_key k l ≡ₚ k :: l.
Proof.
  induction l as [|x l IH]; cbn; [done|]. case_match; [done|]. rewrite IH. apply Permutation_swap.
Qed.

Lemma insert_key_increasing k l : increasing l -> k ∉ l -> increasing (insert_key k l).
Proof.
  induction 1 as [|x l Hl IH Hx]; intros Hk; cbn; [by repeat constructor|].
  apply not_elem_of_cons in Hk as [Hne Hk]. destruct (k <? x) eqn:E; bprop.
  - constructor; [by constructor|]. constructor; [done|]. eapply Forall_impl; [exact Hx|]. cbn. lia.
  - constructor; [by apply IH|]. rewrite insert_key_perm. constructor; [lia | done].
Qed.

Lemma sort_keys_perm l : sort_keys l ≡ₚ l.
Proof. induction l as [|k l IH]; cbn; [done|]. by rewrite insert_key_perm, IH. Qed.

Lemma sort_keys_increasing l : NoDup l -> increasing (sort_keys l).
Proof.
  induction 1 as [|k l Hk _ IH]; cbn; [constructor|]. apply insert_key_increasing; [done|]. by rewrite sort_keys_perm.
Qed.

(** The values of one chunk. *)
Definition chunk_values (r : RoaringBitmap) (k : Z) : list Z :=
  (fun lsb => Z.lor (u64 (Z.shiftl k 16)) lsb) <$> default [] (r !! k).

Lemma chunk_values_eq r k :
  rb_ok r -> 0 <= k < 2 ^ 48 -> chunk_values r k = (fun x => k * 2 ^ 16 + x) <$> default [] (r !! k).
Proof.
  intros Hr Hk. unfold chunk_values. destruct (chunk_or_nil r k Hr) as [_ Hb]. apply list_fmap_ext.
  intros i x Hx. rewrite Forall_forall in Hb. apply join_val; [done|]. apply Hb. by eapply list_elem_of_lookup_2.
Qed.

Lemma increasing_fmap_add c l : increasing l -> increasing ((fun x => c + x) <$> l).
Proof.
  induction 1 as [|x l Hl IH Hx]; cbn; constructor; [done|]. apply Forall_fmap.
  eapply Forall_impl; [exact Hx|]. cbn. lia.
Qed.

Lemma chunks_increasing r ks :
  rb_ok r -> increasing ks -> Forall (fun k => 0 <= k < 2 ^ 48) ks -> increasing (ks ≫= chunk_values r).
Proof.
  intros Hr Hks Hb. induction Hks as [|k ks Hks IH Hk]; cbn; [constructor|].
  apply Forall_cons in Hb as [Hb Hbs]. apply increasing_app; [| by apply IH|].
  - rewrite chunk_values_eq by done. apply increasing_fmap_add. by apply chunk_or_nil.
  - intros x y Hx (k' & Hy & Hk')%list_elem_of_bind. rewrite Forall_forall in Hk, Hbs.
    specialize (Hk k' Hk'). specialize (Hbs k' Hk'). rewrite chunk_values_eq in Hx, Hy by done.
    apply list_elem_of_fmap in Hx as (x' & -> & Hx), Hy as (y' & -> & Hy).
    destruct (chunk_or_nil r k Hr) as [_ B1], (chunk_or_nil r k' Hr) as [_ B2].
    rewrite Forall_forall in B1, B2. specialize (B1 x' Hx). specialize (B2 y' Hy). nia.
Qed.

Lemma elem_of_keys (r : RoaringBitmap) k : k ∈ sort_keys (range r).*1 <-> is_Some (r !! k).
Proof.
  rewrite sort_keys_perm, list_elem_of_fmap. split.
  - intros ([k' l] & -> & Hin%elem_of_range). by exists l.
  - intros [l Hl]. exists (k, l). split; [done|]. by apply elem_of_range.
Qed.

Lemma ToArray_elem r v :
  rb_ok r -> v ∈ ToArray r <-> 0 <= v < 2 ^ 64 /\ contains r v.
Proof.
  intros Hr. unfold ToArray. rewrite list_elem_of_bind. split.
  - intros (k & Hv & [l Hl]%elem_of_keys). fold (chunk_values r k) in Hv.
    destruct (rb_chunk r k l Hr Hl) as [Hk [_ Hb]].
    rewrite chunk_values_eq, Hl in Hv by done. apply list_elem_of_fmap in Hv as (x & -> & Hx). cbn in Hx.
    rewrite Forall_forall in Hb. specialize (Hb x Hx). destruct (join_val k x Hk Hb) as (_ & E1 & E2).
    split; [lia|]. unfold contains. by rewrite E1, E2, Hl.
  - intros [Hv Hin]. destruct (split_val v Hv) as (Hk & Hx & Ev). unfold contains in Hin.
    exists (Z.shiftr v 16). fold (chunk_values r (Z.shiftr v 16)). split.
    + rewrite chunk_values_eq by done. apply list_elem_of_fmap. by exists (Z.land v 0xFFFF).
    + apply elem_of_keys. destruct (r !! Z.shiftr v 16) eqn:E; [by eexists|]. by apply elem_of_nil in Hin.
Qed.

Lemma ToArray_increasing r : rb_ok r -> increasing (ToArray r).
Proof.
  intros Hr. apply (chunks_increasing r); [done | apply sort_keys_increasing, NoDup_range_keys |].
  apply Forall_forall. intros k [l Hl]%elem_of_keys. by eapply rb_chunk.
Qed.

(** [Len] counts what [ToArray] lists. *)
Lemma fold_len_acc (ls : list (Z * list Z)) c :
  fold_left (fun count '(_, l) => count + zlen l) ls c = c + zlen (ls ≫= snd).
Proof.
  revert c. induction ls as [|[k l] ls IH]; intros c; cbn [fold_left].
  { unfold zlen. cbn. lia. }
  rewrite IH, bind_cons, zlen_app. cbn [snd]. lia.
Qed.

Lemma Len_ToArray r : Len r = zlen (ToArray r).
Proof.
  unfold Len. rewrite fold_len_acc. unfold ToArray, zlen. rewrite Z.add_0_l. f_equal.
  transitivity (length ((range r).*1 ≫= chunk_values r)); [|by rewrite sort_keys_perm].
  assert (forall k l, (k, l) ∈ range r -> r !! k = Some l) as H by by intros k l; apply elem_of_range.
  induction (range r) as [|[k l] ls IH]; cbn; [done|]. rewrite !length_app. f_equal.
  - unfold chunk_values. rewrite (H k l) by left. by rewrite length_fmap.
  - apply IH. intros. apply H. by right.
Qed.

(** [ToArray] lists exactly the values of the bitmap, in strictly increasing
    order, and [Len] is their number. *)
Theorem ToArray_sorted_exact r :
  rb_ok r ->
  increasing (ToArray r) /\ (forall v, v ∈ ToArray r <-> 0 <= v < 2 ^ 64 /\ contains r v) /\
  Len r = zlen (ToArray r).
Proof. intros Hr. split_and!; [by apply ToArray_increasing | intros; by apply ToArray_elem | apply Len_ToArray]. Qed.

(** ** The serial form *)

Lemma binary_read_le n z bs :
  0 <= z < 2 ^ (8 * Z.of_nat n) -> binary_read n (le_bytes n z ++ bs) = (z, bs).
Proof.
  intros Hz. unfold binary_read. rewrite length_app, length_le_bytes.
  rewrite (proj2 (Nat.ltb_ge _ _)) by lia.
  rewrite take_app_length', drop_app_length' by by rewrite length_le_bytes.
  rewrite le_val_bytes. by rewrite Z.mod_small.
Qed.

Lemma read_list_serialize l bs :
  Forall (fun x => 0 <= x < 2 ^ 16) l -> read_list (length l) ((l ≫= le_bytes 2) ++ bs) = (l, bs).
Proof.
  induction 1 as [|x l Hx Hl IH]; [done|]. rewrite bind_cons, <- app_assoc. cbn [length read_list].
  rewrite binary_read_le by done. by rewrite IH.
Qed.

Lemma increasing_NoDup l : increasing l -> NoDup l.
Proof. induction 1; constructor; [by apply elem_of_above | done]. Qed.

(** A chunk has at most as many values as there are 16-bit numbers. *)
Lemma chunk_length l : chunk_ok l -> zlen l <= 2 ^ 16.
Proof.
  intros [Hl Hb]. unfold zlen. transitivity (Z.of_nat (length (seqZ 0 (2 ^ 16)))); [|rewrite length_seqZ, Z2Nat.id by lia; reflexivity].
  apply inj_le, submseteq_length, NoDup_submseteq; [by apply increasing_NoDup|].
  intros x Hx. rewrite Forall_forall in Hb. apply elem_of_seqZ. specialize (Hb x Hx). lia.
Qed.

Lemma read_chunks_serialize (ls : list (Z * list Z)) (r : RoaringBitmap) bs :
  Forall (fun x => 0 <= x.1 < 2 ^ 48 /\ chunk_ok x.2) ls -> NoDup ls.*1 ->
  read_chunks (length ls) ((ls ≫= serialize_chunk) ++ bs) r = list_to_map ls ∪ r.
Proof.
  intros Hok. revert r. induction Hok as [|[k l] ls [Hk Hl] Hls IH]; intros r Hnd.
  { cbn. by rewrite (left_id_L ∅ (∪)). }
  apply NoDup_cons in Hnd as [Hkey Hnd]. cbn [fst snd] in *.
  rewrite bind_cons. unfold serialize_chunk at 1. rewrite <- !app_assoc. cbn [length read_chunks fst snd].
  pose proof (chunk_length l Hl). pose proof (zlen_nonneg l).
  rewrite binary_read_le by (cbn; lia). rewrite binary_read_le by (cbn; lia).
  replace (Z.to_nat (zlen l)) with (length l) by (unfold zlen; lia).
  rewrite read_list_serialize by apply Hl. rewrite IH by done. cbn [list_to_map foldr curry]. cbn.
  rewrite <- insert_union_r, insert_union_l; [done|]. by apply not_elem_of_list_to_map_1.
Qed.

Lemma size_range (r : RoaringBitmap) : size r = length (range r).
Proof. by rewrite range_perm, length_map_to_list. Qed.

(** Reading back what [Serialize] wrote restores the bitmap, whatever the
    receiver held before and in whatever order the chunks were enumerated, up to
    the 32-bit count of chunks. *)
Theorem roaring_serial_roundtrip r old :
  rb_ok r -> Z.of_nat (size r) < 2 ^ 32 -> Deserialize old (Serialize r) = Ok r.
Proof.
  intros Hr Hsize. unfold Deserialize, Serialize.
  pose proof (zlen_nonneg (range r ≫= serialize_chunk)).
  rewrite zlen_app, zlen_le_bytes, !(proj2 (Z.eqb_neq _ _)), !(proj2 (Z.ltb_ge _ _)) by lia.
  rewrite binary_read_le by (cbn; lia). rewrite Nat2Z.id, size_range.
  rewrite <- (app_nil_r (_ ≫= _)), read_chunks_serialize.
  - by rewrite range_to_map, (right_id_L ∅ (∪)).
  - apply Forall_forall. intros [k l] Hin%elem_of_range. exact (rb_chunk r k l Hr Hin).
  - apply NoDup_range_keys.
Qed.
End Sets.

(** ** Witnesses *)

Definition demo_bitmap : RoaringBitmap := Add (Add (Add NewRoaringBitmap 70000) 5) 70001.

Lemma demo_bitmap_ok : rb_ok demo_bitmap.
Proof. unfold demo_bitmap. repeat (apply Add_spec; [|lia]). apply map_Forall_empty. Qed.

Lemma roaring_set_algebra_witness :
  (rb_ok demo_bitmap /\ ToArray (H := canonical_range) demo_bitmap = [5; 70000; 70001]) /\
  (contains (RoaringIntersect (H := canonical_range) demo_bitmap (Add NewRoaringBitmap 5)) 5 <->
   contains demo_bitmap 5 /\ contains (Add NewRoaringBitmap 5) 5).
Proof.
  split; [split; [exact demo_bitmap_ok | vm_compute; reflexivity]|].
  apply (roaring_set_algebra (MR := canonical_range) demo_bitmap (Add NewRoaringBitmap 5) 9 5);
    [exact demo_bitmap_ok | apply Add_spec; [apply map_Forall_empty | lia] | lia | lia].
Defined.

Lemma roaring_serial_roundtrip_witness :
  Deserialize (Add NewRoaringBitmap 77) (Serialize (H := canonical_range) demo_bitmap) = Ok demo_bitmap.
Proof.
  apply (roaring_serial_roundtrip (MR := canonical_range)); [exact demo_bitmap_ok | vm_compute; reflexivity].
Defined.
