(* ===== verification/Segment.v ===== *)
(** Full-text indexing (index.go): the tokenizer, the in-memory postings, the
    delta-coded segment they are written to and the searcher that reads it.  A
    Go string is its bytes. *)

From Stdlib Require Import Strings.Byte.
From S2P Require Import Common.
From S2P Require Import Prelude.

(** ** Splitting strings *)

(** [strings.FieldsFunc] and [strings.Fields]: [sep bs] is the width of the
    separator character at the head of [bs], 0 when the head belongs to a field;
    [cur] is the field being read, in reverse, and [skip] counts what is left of
    a separator. *)
Definition close_field (cur : bytes) (fields : list bytes) : list bytes :=
  match cur with [] => fields | _ => rev cur :: fields end.

Fixpoint split_fields (sep : bytes -> nat) (cur : bytes) (skip : nat) (bs : bytes) : list bytes :=
  match bs with
  | [] => close_field cur []
  | b :: bs' =>
      match skip with
      | S skip => split_fields sep cur skip bs'
      | O =>
          match sep bs with
          | O => split_fields sep (b :: cur) O bs'
          | S width => close_field cur (split_fields sep [] width bs')
          end
      end
  end.

Definition between (lo hi : Z) (b : byte) : bool := (lo <=? b2z b) && (b2z b <=? hi).

Definition alnum (c : byte) : bool := between 97 122 c || between 65 90 c || between 48 57 c.

(** [strings.ToLower], as far as the tokenizer can tell: ASCII letters are
    lowered, and so are the two other characters whose lower case is an ASCII
    letter (the Kelvin sign and the dotted capital I).  Every byte of any other
    character is no letter or digit before and after. *)
Fixpoint ToLower (bs : bytes) : bytes :=
  match bs with
  | xe2 :: x84 :: xaa :: bs' => x6b :: ToLower bs'
  | xc4 :: xb0 :: bs' => x69 :: ToLower bs'
  | b :: bs' => (if between 65 90 b then z2b (b2z b + 32) else b) :: ToLower bs'
  | [] => []
  end.

Definition clean (bs : bytes) : nat :=
  match bs with c :: _ => if alnum c then 0 else 1 | [] => 0 end.

Definition Tokenize (text : bytes) : list bytes := split_fields clean [] 0 (ToLower text).

(** ** The memory index *)

Record MemIndex := mkIndex { postings : gmap bytes (list Z); docsCount : Z }.

Definition NewMemIndex : MemIndex := mkIndex ∅ 0.

(** The loop over the tokens, with [seen]. *)
Fixpoint add_tokens (docID : Z) (tokens : list bytes) (seen : gset bytes)
    (p : gmap bytes (list Z)) : gmap bytes (list Z) :=
  match tokens with
  | [] => p
  | t :: tokens' =>
      if bool_decide (t ∈ seen) then add_tokens docID tokens' seen p
      else add_tokens docID tokens' ({[t]} ∪ seen) (<[t := default [] (p !! t) ++ [docID]]> p)
  end.

Definition index_Add (m : MemIndex) (docID : Z) (text : bytes) : MemIndex :=
  mkIndex (add_tokens docID (Tokenize text) ∅ (postings m)) (u64 (docsCount m + 1)).

(** ** Varints (encoding/binary) *)

Definition MaxVarintLen64 : nat := 10.

Fixpoint put_uvarint (fuel : nat) (x : Z) : bytes :=
  match fuel with
  | O => []
  | S fuel => if 0x80 <=? x then z2b (Z.lor x 0x80) :: put_uvarint fuel (Z.shiftr x 7) else [z2b x]
  end.

(** [PutUvarint] into a buffer of [MaxVarintLen64] bytes. *)
Definition PutUvarint (x : Z) : bytes := put_uvarint MaxVarintLen64 x.

Fixpoint read_uvarint (left : nat) (x s : Z) (bs : bytes) : result (Z * bytes) :=
  match left with
  | O => Err (Msg "binary: varint overflows a 64-bit integer")
  | S left' =>
      match bs with
      | [] => Err (if (left =? MaxVarintLen64)%nat then EOF else ErrUnexpectedEOF)
      | b :: bs' =>
          if b2z b <? 0x80
          then if (left =? 1)%nat && (1 <? b2z b) then Err (Msg "binary: varint overflows a 64-bit integer")
               else Ok (Z.lor x (u64 (Z.shiftl (b2z b) s)), bs')
          else read_uvarint left' (Z.lor x (u64 (Z.shiftl (Z.land (b2z b) 0x7f) s))) (s + 7) bs'
      end
  end.

Definition ReadUvarint (bs : bytes) : result (Z * bytes) := read_uvarint MaxVarintLen64 0 0 bs.

(** ** Writing a segment *)

Definition bytes_le (a b : bytes) : Prop := ~ bytes_lt b a.

#[export] Instance bytes_le_dec a b : Decision (bytes_le a b).
Proof. unfold bytes_le. apply _. Defined.

Fixpoint encode_deltas (lastID : Z) (ids : list Z) : bytes :=
  match ids with [] => [] | id :: ids' => PutUvarint (u64 (id - lastID)) ++ encode_deltas id ids' end.

(** One posting list; [sort.Slice] sorts it in place. *)
Definition encode_list (ids : list Z) : bytes := le_bytes 4 (zlen ids) ++ encode_deltas 0 ids.

(** Step 1: the posting lists of the terms and the offset of each. *)
Fixpoint write_lists (p : gmap bytes (list Z)) (terms : list bytes) (currentOffset : Z) :
    list (bytes * Z) * bytes :=
  match terms with
  | [] => ([], [])
  | t :: terms' =>
      let buf := encode_list (default [] (p !! t)) in
      let '(termOffsets, out) := write_lists p terms' (u64 (currentOffset + zlen buf)) in
      ((t, currentOffset) :: termOffsets, buf ++ out)
  end.

(** Step 2: the dictionary. *)
Definition encode_term (x : bytes * Z) : bytes := le_bytes 4 (zlen x.1) ++ x.1 ++ le_bytes 8 x.2.

(** [WriteSegment]: the contents of the file, all writes taken, and the index,
    whose lists are sorted afterwards. *)
Definition WriteSegment `{MapRange} (m : MemIndex) : bytes * MemIndex :=
  let terms := merge_sort bytes_le (range (postings m)).*1 in
  let sorted := merge_sort Z.le <$> postings m in
  let '(termOffsets, lists) := write_lists sorted terms 0 in
  let dictOffset := u64 (zlen lists) in
  (lists ++ (termOffsets ≫= encode_term) ++ le_bytes 8 dictOffset, mkIndex sorted (docsCount m)).

(** ** Searching a segment *)

(** [binary.Read] of an unsigned integer of [n] bytes; [None] is an error. *)
Definition read_uint (n : nat) (bs : bytes) : option (Z * bytes) :=
  if (length bs <? n)%nat then None else Some (le_val (take n bs), drop n bs).

Fixpoint dict_loop (fuel : nat) (bs : bytes) (dict : gmap bytes Z) : gmap bytes Z :=
  match fuel with
  | O => dict
  | S fuel =>
      match read_uint 4 bs with
      | None => dict
      | Some (termLen, bs) =>
          if zlen bs <? termLen then dict
          else
            let term := take (Z.to_nat termLen) bs in
            match read_uint 8 (drop (Z.to_nat termLen) bs) with
            | None => dict
            | Some (offset, bs) => dict_loop fuel bs (<[term := offset]> dict)
            end
      end
  end.

(** [initDict] runs once and is a function of [Data]; a round of its loop takes
    at least four bytes. *)
Definition initDict (Data : bytes) : gmap bytes Z :=
  if zlen Data <? 8 then ∅
  else
    let body := take (length Data - 8) Data in
    let dictOffset := le_val (drop (length Data - 8) Data) in
    if zlen Data - 8 <=? dictOffset then ∅
    else let bs := drop (Z.to_nat dictOffset) body in dict_loop (length bs) bs ∅.

Fixpoint read_deltas (count : nat) (lastID : Z) (bs : bytes) : list Z :=
  match count with
  | O => []
  | S count =>
      match ReadUvarint bs with
      | Ok (delta, bs) => let id := u64 (lastID + delta) in id :: read_deltas count id bs
      | _ => []
      end
  end.

Definition FetchPostings (Data : bytes) (target : bytes) : result (list Z) :=
  match initDict Data !! target with
  | None => Ok []
  | Some offset =>
      if zlen Data <? offset then Panic
      else match read_uint 4 (drop (Z.to_nat offset) Data) with
           | None => Ok []
           | Some (postCount, bs) => Ok (read_deltas (Z.to_nat postCount) 0 bs)
           end
  end.

Example index_demo :
  let m := index_Add (index_Add NewMemIndex 700 (str "Red fox, RED hen")) 3 (str "red-dog") in
  let data := (WriteSegment (H := canonical_range) m).1 in
  FetchPostings data (str "red") = Ok [3; 700] /\ FetchPostings data (str "hen") = Ok [700] /\
  FetchPostings data (str "cat") = Ok [].
Proof. vm_compute. split_and!; reflexivity. Qed.

(** * Correctness *)

(** ** Varints round-trip *)

Lemma varint_byte x : 0 <= x -> b2z (z2b (Z.lor x 0x80)) = 128 + x mod 128.
Proof.
  intros Hx. rewrite b2z_z2b.
  assert (Z.lor x 0x80 mod 256 = Z.lor (x mod 128) (Z.shiftl 1 7)) as ->.
  { change 256 with (2 ^ 8). change 128 with (2 ^ 7). rewrite <- !Z.land_ones by lia.
    rewrite Z.land_lor_distr_l. apply Z.bits_inj'. intros n Hn.
    rewrite !Z.lor_spec, !Z.land_spec. change (Z.shiftl 1 7) with (2 ^ 7). change 0x80 with (2 ^ 7).
    destruct (decide (n = 7)) as [->|Hne]; [change (Z.testbit (2 ^ 7) 7) with true; cbn; by rewrite !orb_true_r|].
    rewrite Z.pow2_bits_false by lia. rewrite andb_false_l, !orb_false_r.
    destruct (Z_lt_le_dec n 7); [rewrite !Z.ones_spec_low by lia; done|].
    rewrite (Z.ones_spec_high 7) by lia.
    rewrite Z.ones_spec_high by lia. done. }
  rewrite lor_shiftl by (pose proof (Z.mod_pos_bound x 128); lia). lia.
Qed.

Lemma read_put_uvarint left acc s x bs :
  (1 <= left <= MaxVarintLen64)%nat -> s = 7 * Z.of_nat (MaxVarintLen64 - left) ->
  0 <= x < 2 ^ (64 - s) -> 0 <= acc < 2 ^ s ->
  read_uvarint left acc s (put_uvarint left x ++ bs) = Ok (acc + x * 2 ^ s, bs).
Proof.
  unfold MaxVarintLen64. revert acc s x. induction left as [|left IH]; intros acc s x Hl Hs Hx Ha; [lia|].
  assert (0 <= s <= 63) as Hs' by lia.
  assert (2 ^ (64 - s) * 2 ^ s = 2 ^ 64) as Hpow by (rewrite <- Z.pow_add_r by lia; f_equal; lia).
  assert (0 < 2 ^ s) by (apply Z.pow_pos_nonneg; lia).
  cbn [put_uvarint read_uvarint]. destruct (Z.leb_spec 0x80 x) as [Hbig|Hsmall]; cbn [app].
  - assert (left <> 0%nat) by (intros ->; replace (64 - s) with 1 in Hx by lia; lia).
    pose proof (Z.mod_pos_bound x 128 ltac:(lia)) as Hmod.
    rewrite varint_byte by lia. rewrite (proj2 (Z.ltb_ge _ _)) by lia.
    change 0x7f with (Z.ones 7). rewrite Z.land_ones by lia. change (2 ^ 7) with 128.
    replace (128 + x mod 128) with (x mod 128 + 1 * 128) by lia. rewrite Z.mod_add, Z.mod_mod by lia.
    rewrite u64_small by (rewrite Z.shiftl_mul_pow2 by lia; pose proof (Z.mod_le x 128 ltac:(lia) ltac:(lia)); nia).
    rewrite lor_shiftl, Z.shiftr_div_pow2 by lia. change (2 ^ 7) with 128.
    assert (2 ^ (s + 7) = 2 ^ s * 128) as Hpow' by (rewrite Z.pow_add_r by lia; done).
    pose proof (Z.div_mod x 128 ltac:(lia)) as Hdm.
    rewrite IH; [f_equal; f_equal; nia | lia | lia | | nia].
    split; [apply Z.div_pos; lia|]. apply Z.div_lt_upper_bound; [lia|].
    replace (128 * 2 ^ (64 - (s + 7))) with (2 ^ (64 - s)); [lia|].
    change 128 with (2 ^ 7). rewrite <- Z.pow_add_r by lia. f_equal. lia.
  - rewrite b2z_z2b, Z.mod_small by lia. rewrite (proj2 (Z.ltb_lt _ _)) by lia.
    replace ((S left =? 1)%nat && (1 <? x)) with false.
    + rewrite u64_small by (rewrite Z.shiftl_mul_pow2 by lia; nia). by rewrite lor_shiftl by lia.
    + destruct left; [|done]. replace (64 - s) with 1 in Hx by lia.
      symmetry. apply andb_false_iff. right. apply Z.ltb_ge. lia.
Qed.

Lemma uvarint_roundtrip x bs : 0 <= x < 2 ^ 64 -> ReadUvarint (PutUvarint x ++ bs) = Ok (x, bs).
Proof.
  intros Hx. unfold ReadUvarint, PutUvarint.
  rewrite read_put_uvarint; [f_equal; f_equal; lia | unfold MaxVarintLen64; lia | done | done | done].
Qed.

(** ** Posting lists *)

Definition id_ok (id : Z) : Prop := 0 <= id < 2 ^ 64.

#[export] Instance id_ok_dec id : Decision (id_ok id).
Proof. unfold id_ok. apply _. Defined.

Lemma read_deltas_encode lastID ids bs :
  id_ok lastID -> Forall id_ok ids -> read_deltas (length ids) lastID (encode_deltas lastID ids ++ bs) = ids.
Proof.
  intros Hl Hids. revert lastID Hl. induction Hids as [|id ids Hid Hids IH]; intros lastID Hl; [done|].
  unfold id_ok in *. cbn [length read_deltas encode_deltas]. rewrite <- app_assoc, uvarint_roundtrip.
  - replace (u64 (lastID + u64 (id - lastID))) with id; [by rewrite IH|].
    unfold u64. rewrite Zplus_mod_idemp_r. replace (lastID + (id - lastID)) with id by lia.
    by rewrite Z.mod_small.
  - unfold u64. apply Z.mod_pos_bound. lia.
Qed.

Lemma read_uint_le n z bs :
  0 <= z < 2 ^ (8 * Z.of_nat n) -> read_uint n (le_bytes n z ++ bs) = Some (z, bs).
Proof.
  intros Hz. unfold read_uint. rewrite length_app, length_le_bytes, (proj2 (Nat.ltb_ge _ _)) by lia.
  rewrite take_app_length', drop_app_length' by by rewrite length_le_bytes.
  by rewrite le_val_bytes, Z.mod_small.
Qed.

(** Where the lists are. *)
Lemma write_lists_spec p terms c offs out :
  write_lists p terms c = (offs, out) -> 0 <= c -> c + zlen out < 2 ^ 64 ->
  offs.*1 = terms /\
  Forall (fun x => id_ok x.2 /\ exists pre post,
    out = pre ++ encode_list (default [] (p !! x.1)) ++ post /\ x.2 = c + zlen pre) offs.
Proof.
  revert c offs out. induction terms as [|t terms IH]; intros c offs out E Hc Hlen; cbn [write_lists] in E.
  { by simplify_eq. }
  destruct (write_lists p terms _) as [offs' out'] eqn:E'. simplify_eq.
  rewrite zlen_app in Hlen. set (buf := encode_list _) in *.
  pose proof (zlen_nonneg buf). pose proof (zlen_nonneg out').
  rewrite u64_small in E' by lia. destruct (IH _ _ _ E') as [H1 H2]; [lia | lia |].
  split; [cbn; by f_equal|]. constructor.
  - cbn [fst snd]. split; [unfold id_ok; lia|]. exists [], out'. split; [done|]. unfold zlen. cbn. lia.
  - eapply Forall_impl; [exact H2|]. intros [t' off] (Hok & pre & post & -> & Hoff). split; [done|].
    exists (buf ++ pre), post. rewrite <- app_assoc. split; [done|]. rewrite zlen_app. lia.
Qed.

(** ** The dictionary *)

Lemma dict_loop_encode (offs : list (bytes * Z)) fuel dict :
  Forall (fun x => zlen x.1 < 2 ^ 32 /\ id_ok x.2) offs -> NoDup offs.*1 ->
  (length (offs ≫= encode_term) <= fuel)%nat ->
  dict_loop fuel (offs ≫= encode_term) dict = list_to_map offs ∪ dict.
Proof.
  intros Hok. revert fuel dict. induction Hok as [|[t off] offs [Ht Hoff] Hok IH]; intros fuel dict Hnd Hf.
  { cbn. rewrite (left_id_L ∅ (∪)). destruct fuel; [done|]. reflexivity. }
  cbn [fmap list_fmap fst] in Hnd. apply NoDup_cons in Hnd as [Hk Hnd].
  rewrite bind_cons in *. unfold encode_term in Hf at 1. unfold encode_term at 1. cbn [fst snd] in *.
  rewrite !length_app, !length_le_bytes in Hf. destruct fuel as [|fuel]; [lia|].
  cbn [dict_loop]. pose proof (zlen_nonneg t). rewrite <- !app_assoc, read_uint_le by (cbn; lia).
  rewrite (proj2 (Z.ltb_ge _ _)) by (rewrite !zlen_app; pose proof (zlen_nonneg (le_bytes 8 off));
    pose proof (zlen_nonneg (offs ≫= encode_term)); lia).
  rewrite take_app_length', drop_app_length' by (unfold zlen; lia).
  rewrite read_uint_le by exact Hoff. rewrite IH by (done || lia). cbn [list_to_map foldr]. cbn.
  rewrite <- insert_union_r, insert_union_l; [done|]. by apply not_elem_of_list_to_map_1.
Qed.

Lemma initDict_segment (offs : list (bytes * Z)) lists :
  Forall (fun x => zlen x.1 < 2 ^ 32 /\ id_ok x.2) offs -> NoDup offs.*1 -> zlen lists < 2 ^ 64 ->
  initDict (lists ++ (offs ≫= encode_term) ++ le_bytes 8 (u64 (zlen lists))) = list_to_map offs.
Proof.
  intros Hok Hnd Hlen. pose proof (zlen_nonneg lists). rewrite u64_small by lia.
  rewrite app_assoc. set (body := lists ++ _). unfold initDict.
  rewrite zlen_app, zlen_le_bytes, length_app, length_le_bytes, Nat.add_sub.
  rewrite take_app_length, drop_app_length. pose proof (zlen_nonneg body).
  rewrite (proj2 (Z.ltb_ge _ _)) by lia. rewrite le_val_bytes, Z.mod_small by (cbn; lia).
  replace (zlen body + Z.of_nat 8 - 8) with (zlen body) by lia.
  destruct offs as [|x offs].
  { unfold body. rewrite app_nil_r. rewrite (proj2 (Z.leb_le _ _)) by lia. done. }
  assert (zlen lists < zlen body) as Hlt.
  { unfold body. rewrite zlen_app, bind_cons, zlen_app. unfold encode_term at 1.
    rewrite zlen_app, zlen_le_bytes.
    pose proof (zlen_nonneg (x.1 ++ le_bytes 8 x.2)). pose proof (zlen_nonneg (offs ≫= encode_term)). lia. }
  rewrite (proj2 (Z.leb_gt _ _)) by lia. unfold body. rewrite drop_app_length' by (unfold zlen; lia).
  rewrite dict_loop_encode by done. apply (right_id_L ∅ (∪)).
Qed.

(** Reading a posting list where it starts. *)
Lemma fetch_list ids pre post :
  zlen ids < 2 ^ 32 -> Forall id_ok ids ->
  (if zlen (pre ++ encode_list ids ++ post) <? zlen pre then Panic
   else match read_uint 4 (drop (Z.to_nat (zlen pre)) (pre ++ encode_list ids ++ post)) with
        | None => Ok []
        | Some (postCount, bs) => Ok (read_deltas (Z.to_nat postCount) 0 bs)
        end) = Ok ids.
Proof.
  intros Hlen Hok. pose proof (zlen_nonneg (encode_list ids ++ post)). pose proof (zlen_nonneg ids).
  rewrite zlen_app, (proj2 (Z.ltb_ge _ _)) by lia. rewrite drop_app_length' by (unfold zlen; lia).
  unfold encode_list. rewrite <- !app_assoc, read_uint_le by (change (8 * Z.of_nat 4) with 32; lia).
  unfold zlen at 1. rewrite Nat2Z.id, read_deltas_encode; [done | unfold id_ok; lia | done].
Qed.

(** What the formats can hold. *)
Definition index_fits `{MapRange} (m : MemIndex) : Prop :=
  map_Forall (fun t ids => zlen t < 2 ^ 32 /\ zlen ids < 2 ^ 32 /\ Forall id_ok ids) (postings m) /\
  zlen (WriteSegment m).1 < 2 ^ 64.

Section SegmentSpec.
Context `{MR : MapRange}.

Lemma FetchPostings_segment m t :
  index_fits m -> FetchPostings (WriteSegment m).1 t = Ok (merge_sort Z.le (default [] (postings m !! t))).
Proof.
  intros [Hfit Hlen]. revert Hlen. unfold WriteSegment.
  set (terms := merge_sort bytes_le _). set (sorted := merge_sort Z.le <$> postings m).
  destruct (write_lists sorted terms 0) as [offs lists] eqn:E. cbn [fst]. intros Hlen.
  rewrite !zlen_app in Hlen. pose proof (zlen_nonneg (offs ≫= encode_term)). rewrite zlen_le_bytes in Hlen.
  destruct (write_lists_spec _ _ _ _ _ E) as [Hkeys Hoffs]; [done | lia |].
  assert (forall t, t ∈ terms <-> is_Some (postings m !! t)) as Hterms.
  { intros t'. unfold terms. rewrite merge_sort_Permutation, list_elem_of_fmap. split.
    - intros ([t0 ids] & -> & Hin%elem_of_range). by exists ids.
    - intros [ids Hids]. exists (t', ids). by rewrite elem_of_range. }
  assert (NoDup offs.*1) as Hnd.
  { rewrite Hkeys. unfold terms. rewrite merge_sort_Permutation. apply NoDup_range_keys. }
  assert (forall x, x ∈ offs -> is_Some (postings m !! x.1)) as Hin.
  { intros x Hx. apply Hterms. rewrite <- Hkeys. apply list_elem_of_fmap. by exists x. }
  unfold FetchPostings. rewrite initDict_segment; [| | done | lia].
  2:{ rewrite Forall_forall in Hoffs. apply Forall_forall. intros x Hx. split; [|by apply Hoffs].
      destruct (Hin x Hx) as [ids Hids]. by destruct (Hfit _ _ Hids). }
  destruct (list_to_map offs !! t) as [off|] eqn:El.
  - apply elem_of_list_to_map_2 in El. rewrite Forall_forall in Hoffs.
    destruct (Hoffs _ El) as (_ & pre & post & Ho & Hoff). cbn [fst snd] in Ho, Hoff.
    destruct (Hin _ El) as [ids Hids]. cbn [fst] in Hids.
    assert (default [] (sorted !! t) = merge_sort Z.le ids) as Es by (unfold sorted; by rewrite lookup_fmap, Hids).
    rewrite Es in Ho. rewrite Hids, Ho, Hoff, <- !app_assoc, Z.add_0_l.
    destruct (Hfit _ _ Hids) as (_ & Hcount & Hids_ok). apply fetch_list.
    + unfold zlen. by rewrite merge_sort_Permutation.
    + by rewrite merge_sort_Permutation.
  - apply not_elem_of_list_to_map_2 in El. rewrite Hkeys, Hterms in El.
    destruct (postings m !! t); [exfalso; apply El; by eexists | done].
Qed.

(** ** The memory index *)

Lemma add_tokens_lookup docID tokens seen p t :
  default [] (add_tokens docID tokens seen p !! t) =
  default [] (p !! t) ++ (if decide (t ∈ tokens /\ t ∉ seen) then [docID] else []).
Proof.
  revert seen p. induction tokens as [|t' tokens IH]; intros seen p; cbn [add_tokens].
  { rewrite decide_False by (intros [H _]; by apply elem_of_nil in H). by rewrite app_nil_r. }
  destruct (decide (t' ∈ seen)) as [Hs|Hs].
  - rewrite bool_decide_eq_true_2 by done. rewrite IH. f_equal.
    apply decide_ext. rewrite elem_of_cons. naive_solver.
  - rewrite bool_decide_eq_false_2 by done. rewrite IH. destruct (decide (t = t')) as [->|Hne].
    + rewrite lookup_insert_eq. cbn [default from_option id]. rewrite decide_False by set_solver.
      rewrite decide_True by set_solver. by rewrite app_nil_r.
    + rewrite lookup_insert_ne by done. f_equal. apply decide_ext. set_solver.
Qed.

(** Documents indexed one after the other. *)
Definition index_docs (ds : list (Z * bytes)) : MemIndex :=
  fold_left (fun m d => index_Add m d.1 d.2) ds NewMemIndex.

(** The documents whose text has the term, in the order they were added. *)
Definition docs_with (t : bytes) (ds : list (Z * bytes)) : list Z :=
  (filter (fun d => t ∈ Tokenize d.2) ds).*1.

Lemma index_docs_postings ds t : default [] (postings (index_docs ds) !! t) = docs_with t ds.
Proof.
  unfold index_docs, docs_with.
  assert (forall m, default [] (postings (fold_left (fun m d => index_Add m d.1 d.2) ds m) !! t) =
    default [] (postings m !! t) ++ (filter (fun d => t ∈ Tokenize d.2) ds).*1) as H; [|by rewrite H].
  induction ds as [|[id text] ds IH]; intros m; cbn [fold_left]; [by rewrite app_nil_r|].
  rewrite IH. cbn [index_Add postings fst snd]. rewrite add_tokens_lookup, <- app_assoc. f_equal.
  rewrite filter_cons. cbn [snd]. destruct (decide (t ∈ Tokenize text)).
  - by rewrite decide_True by set_solver.
  - by rewrite decide_False by set_solver.
Qed.

Lemma add_tokens_terms docID tokens seen p t :
  is_Some (add_tokens docID tokens seen p !! t) -> t ∈ tokens \/ is_Some (p !! t).
Proof.
  revert seen p. induction tokens as [|t' tokens IH]; intros seen p; cbn [add_tokens]; [by right|].
  rewrite elem_of_cons. case_bool_decide; intros [?|Hs]%IH; try tauto.
  destruct (decide (t = t')) as [->|Hne]; [tauto|]. rewrite lookup_insert_ne in Hs by done. tauto.
Qed.

Lemma index_docs_terms ds t : is_Some (postings (index_docs ds) !! t) -> exists d, d ∈ ds /\ t ∈ Tokenize d.2.
Proof.
  unfold index_docs.
  assert (forall m, is_Some (postings (fold_left (fun m d => index_Add m d.1 d.2) ds m) !! t) ->
    (exists d, d ∈ ds /\ t ∈ Tokenize d.2) \/ is_Some (postings m !! t)) as H.
  { induction ds as [|[id text] ds IH]; intros m Hs; cbn [fold_left] in Hs; [by right|].
    apply IH in Hs as [(d & Hd & Ht)|[Ht|?]%add_tokens_terms]; [| |by right].
    - left. exists d. split; [by right | done].
    - left. exists (id, text). split; [left | done]. }
  intros [?|Hs]%H; [done|]. cbn in Hs. rewrite lookup_empty in Hs. by destruct Hs.
Qed.

(** Documents with 64-bit ids and no huge token fit the format when the whole
    segment does. *)
Lemma index_docs_fit ds :
  Forall (fun d => id_ok d.1 /\ Forall (fun t => zlen t < 2 ^ 32) (Tokenize d.2)) ds -> zlen ds < 2 ^ 32 ->
  zlen (WriteSegment (index_docs ds)).1 < 2 ^ 64 -> index_fits (index_docs ds).
Proof.
  intros Hds Hn Hlen. split; [|done]. intros t ids Hids.
  assert (ids = docs_with t ds) as -> by (rewrite <- index_docs_postings; by rewrite Hids).
  rewrite Forall_forall in Hds. destruct (index_docs_terms ds t) as (d & Hd & Ht); [by eexists|].
  split_and!.
  - destruct (Hds d Hd) as [_ H]. rewrite Forall_forall in H. by apply H.
  - unfold docs_with, zlen in *. rewrite length_fmap.
    pose proof (length_filter (fun d : Z * bytes => t ∈ Tokenize d.2) ds). lia.
  - unfold docs_with. apply Forall_forall. intros id ([id' text] & -> & Hin)%list_elem_of_fmap.
    apply list_elem_of_filter in Hin as [_ Hin]. by apply (Hds _ Hin).
Qed.

(** What is indexed is found. For any sequence of documents added to a new
    memory index and written as a segment (within the widths of the format), the
    searcher returns for every term exactly the ids of the documents whose text
    has that token, in increasing order and once per document added; terms of no
    document give the empty list. No other outcome (panic, truncated list) is
    possible. *)
Theorem segment_roundtrip ds t :
  index_fits (index_docs ds) ->
  exists ids, FetchPostings (WriteSegment (index_docs ds)).1 t = Ok ids /\
    ids ≡ₚ docs_with t ds /\ StronglySorted Z.le ids.
Proof.
  intros Hfit. exists (merge_sort Z.le (docs_with t ds)). split_and!.
  - by rewrite FetchPostings_segment, index_docs_postings.
  - apply merge_sort_Permutation.
  - apply (StronglySorted_merge_sort _).
Qed.
End SegmentSpec.

Definition demo_docs : list (Z * bytes) :=
  [(700, str "Red fox, RED hen"); (3, str "red-dog"); (5, str "blue dog")].

Lemma demo_docs_fit : index_fits (H := canonical_range) (index_docs demo_docs).
Proof.
  apply (index_docs_fit (MR := canonical_range)); [|vm_compute; reflexivity | vm_compute; reflexivity].
  apply (bool_decide_unpack _). vm_compute. exact I.
Qed.

Lemma segment_roundtrip_witness :
  exists ids, FetchPostings (WriteSegment (H := canonical_range) (index_docs demo_docs)).1 (str "red") = Ok ids /\
    ids ≡ₚ [700; 3] /\ StronglySorted Z.le ids.
Proof. apply (segment_roundtrip (MR := canonical_range) demo_docs (str "red") demo_docs_fit). Defined.
