(* ===== verification/Utf8.v ===== *)
(** Text in UTF-8 (packages unicode/utf8, unicode and strings): decoding and
    encoding of characters, validity, and [strings.ToLower] over the tables of
    package unicode. *)

From Stdlib Require Import Strings.Byte.
From S2P Require Import Common.
From S2P Require Import Prelude.
From S2P Require Import Segment.

(** ** Characters *)

Definition RuneError : Z := 0xFFFD.

(** The length of a character by its first byte, with the bounds of the second. *)
Definition rune_shape (c : byte) : option (nat * Z * Z) :=
  let c := b2z c in
  if (0xC2 <=? c) && (c <=? 0xDF) then Some (2%nat, 0x80, 0xBF)
  else if c =? 0xE0 then Some (3%nat, 0xA0, 0xBF)
  else if c =? 0xED then Some (3%nat, 0x80, 0x9F)
  else if (0xE1 <=? c) && (c <=? 0xEF) then Some (3%nat, 0x80, 0xBF)
  else if c =? 0xF0 then Some (4%nat, 0x90, 0xBF)
  else if (0xF1 <=? c) && (c <=? 0xF3) then Some (4%nat, 0x80, 0xBF)
  else if c =? 0xF4 then Some (4%nat, 0x80, 0x8F)
  else None.

Definition low6 (c : byte) : Z := Z.land (b2z c) 0x3F.

(** The first character and its width; a byte that starts none is an error of
    width 1. *)
Definition DecodeRune (bs : bytes) : Z * nat :=
  match bs with
  | [] => (RuneError, 0%nat)
  | c0 :: rest =>
      if b2z c0 <? 0x80 then (b2z c0, 1%nat)
      else
        match rune_shape c0, rest with
        | Some (n, lo, hi), c1 :: rest =>
            if negb (between lo hi c1) then (RuneError, 1%nat)
            else
              match n, rest with
              | 2%nat, _ => (Z.lor (Z.shiftl (Z.land (b2z c0) 0x1F) 6) (low6 c1), 2%nat)
              | 3%nat, c2 :: _ =>
                  if between 0x80 0xBF c2
                  then (Z.lor (Z.shiftl (Z.land (b2z c0) 0x0F) 12) (Z.lor (Z.shiftl (low6 c1) 6) (low6 c2)), 3%nat)
                  else (RuneError, 1%nat)
              | 4%nat, c2 :: c3 :: _ =>
                  if between 0x80 0xBF c2 && between 0x80 0xBF c3
                  then (Z.lor (Z.shiftl (Z.land (b2z c0) 0x07) 18)
                         (Z.lor (Z.shiftl (low6 c1) 12) (Z.lor (Z.shiftl (low6 c2) 6) (low6 c3))), 4%nat)
                  else (RuneError, 1%nat)
              | _, _ => (RuneError, 1%nat)
              end
        | _, _ => (RuneError, 1%nat)
        end
  end.

Definition tail_byte (r : Z) (k : Z) : byte := z2b (Z.lor 0x80 (Z.land (Z.shiftr r k) 0x3F)).

Definition EncodeRune (r : Z) : bytes :=
  let r := if (r <? 0) || (0x10FFFF <? r) || ((0xD800 <=? r) && (r <=? 0xDFFF)) then RuneError else r in
  if r <=? 0x7F then [z2b r]
  else if r <=? 0x7FF then [z2b (Z.lor 0xC0 (Z.shiftr r 6)); tail_byte r 0]
  else if r <=? 0xFFFF then [z2b (Z.lor 0xE0 (Z.shiftr r 12)); tail_byte r 6; tail_byte r 0]
  else [z2b (Z.lor 0xF0 (Z.shiftr r 18)); tail_byte r 12; tail_byte r 6; tail_byte r 0].

(** [for _, r := range s]: each character with its bytes. *)
Fixpoint runes_from (fuel : nat) (bs : bytes) : list (Z * bytes) :=
  match fuel, bs with
  | S fuel, _ :: _ => let '(r, w) := DecodeRune bs in (r, take w bs) :: runes_from fuel (drop w bs)
  | _, _ => []
  end.

Definition runes (bs : bytes) : list (Z * bytes) := runes_from (length bs) bs.

(** The tables of package unicode beyond ASCII. *)
Class Unicode := {
  wide_word : Z -> bool;
  wide_lower : Z -> Z
}.

Section Lower.
Context `{Unicode}.

Definition lower_rune (r : Z) : Z :=
  if r <? 0x80 then if (65 <=? r) && (r <=? 90) then r + 32 else r else wide_lower r.

(** [strings.ToLower]. *)
Definition lower (t : bytes) : bytes := runes t ≫= fun rb => EncodeRune (lower_rune rb.1).
End Lower.

(** ** Valid text *)

(** Every character decodes and encodes to the same bytes. *)
Definition valid_utf8 (bs : bytes) : Prop := (runes bs ≫= fun rb => EncodeRune rb.1) = bs.

#[export] Instance valid_utf8_decision bs : Decision (valid_utf8 bs).
Proof. unfold valid_utf8. apply _. Defined.
