(* ===== verification/Query.v ===== *)
(** Boolean full-text queries (ast.go): the query tree and its execution over a
    segment, and the recursive-descent parser with its nesting limit. *)

From Stdlib Require Import Strings.Byte.
From S2P Require Import Common.
From S2P Require Import Prelude.
From S2P Require Import Roaring.
From S2P Require Import Segment.

(** ** Queries *)

Inductive Query :=
| TermQuery (Term : bytes)
| AndQuery (Left Right : Query)
| OrQuery (Left Right : Query)
| NotQuery (Left Right : Query).

Fixpoint Execute `{MapRange} (q : Query) (Data : bytes) : result RoaringBitmap :=
  match q with
  | TermQuery t => ids ← FetchPostings Data t; Ok (fold_left Add ids NewRoaringBitmap)
  | AndQuery l r => a ← Execute l Data; b ← Execute r Data; Ok (RoaringIntersect a b)
  | OrQuery l r => a ← Execute l Data; b ← Execute r Data; Ok (RoaringUnion a b)
  | NotQuery l r => a ← Execute l Data; b ← Execute r Data; Ok (RoaringDifference a b)
  end.

(** ** Words *)

(** The width of the white space character (package unicode) at the head. *)
Definition space_width (bs : bytes) : nat :=
  match bs with
  | [] => 0
  | b :: bs' =>
      if between 9 13 b || between 32 32 b then 1
      else if b2z b <? 0x80 then 0
      else match b, bs' with
           | xc2, x85 :: _ | xc2, xa0 :: _ => 2
           | xe1, x9a :: x80 :: _ => 3
           | xe2, x80 :: c :: _ => if between 0x80 0x8a c || between 0xa8 0xa9 c || between 0xaf 0xaf c then 3 else 0
           | xe2, x81 :: x9f :: _ => 3
           | xe3, x80 :: x80 :: _ => 3
           | _, _ => 0
           end
  end.

(** [strings.Fields]. *)
Definition Fields (s : bytes) : list bytes := split_fields space_width [] 0 s.

(** [strings.ReplaceAll(input, string(c), new)]. *)
Definition ReplaceAll (c : byte) (new : bytes) (s : bytes) : bytes :=
  s ≫= fun b => if bool_decide (b = c) then new else [b].

(** ** The parser *)

(** The tokens from [p.pos] on; [p.depth] is an argument, since a call leaves it
    as it was when it returns without error. *)
Abbreviation tokens := (list bytes) (only parsing).

Definition current (toks : tokens) : bytes := default [] (head toks).
Definition consume (toks : tokens) : tokens := tail toks.

Definition ErrNesting : error := Msg "query exceeded max nesting".

Section Parser.
Variable parseExpression : Z -> tokens -> result (Query * tokens).

Definition parseFactor (depth : Z) (toks : tokens) : result (Query * tokens) :=
  let depth := depth + 1 in
  if MaxQueryDepth <? depth then Err ErrNesting
  else
    let token := current toks in
    if bytes_equal token (str "(")
    then
      '(expr, toks) ← parseExpression depth (consume toks);
      if negb (bytes_equal (current toks) (str ")")) then Err (Msg "missing closing parenthesis")
      else Ok (expr, consume toks)
    else if bytes_equal token [] || bytes_equal token (str ")") || bytes_equal token (str "AND") ||
            bytes_equal token (str "OR") || bytes_equal token (str "NOT")
    then Err (Msg "unexpected token")
    else
      match Tokenize token with
      | [] => Ok (TermQuery [], consume toks)
      | t :: _ => Ok (TermQuery t, consume toks)
      end.

(** [for p.current() == "AND" || p.current() == "NOT"]; a round takes at least
    one token, so one round more than there are tokens is enough. *)
Fixpoint and_loop (parseFactor : tokens -> result (Query * tokens)) (fuel : nat) (lhs : Query)
    (toks : tokens) : result (Query * tokens) :=
  match fuel with
  | O => Hang
  | S fuel =>
      if bytes_equal (current toks) (str "AND") || bytes_equal (current toks) (str "NOT")
      then
        let op := current toks in
        '(rhs, toks) ← parseFactor (consume toks);
        and_loop parseFactor fuel (if bytes_equal op (str "AND") then AndQuery lhs rhs else NotQuery lhs rhs) toks
      else Ok (lhs, toks)
  end.

Definition parseTerm (depth : Z) (toks : tokens) : result (Query * tokens) :=
  let depth := depth + 1 in
  if MaxQueryDepth <? depth then Err ErrNesting
  else
    '(lhs, toks) ← parseFactor depth toks;
    and_loop (parseFactor depth) (S (length toks)) lhs toks.

Fixpoint or_loop (parseTerm : tokens -> result (Query * tokens)) (fuel : nat) (lhs : Query)
    (toks : tokens) : result (Query * tokens) :=
  match fuel with
  | O => Hang
  | S fuel =>
      if bytes_equal (current toks) (str "OR")
      then '(rhs, toks) ← parseTerm (consume toks); or_loop parseTerm fuel (OrQuery lhs rhs) toks
      else Ok (lhs, toks)
  end.
End Parser.

(** Each level of parentheses goes three calls deep, and the nesting limit stops
    the recursion before the fuel does. *)
Fixpoint parseExpression (fuel : nat) (depth : Z) (toks : tokens) : result (Query * tokens) :=
  match fuel with
  | O => Hang
  | S fuel =>
      let depth := depth + 1 in
      if MaxQueryDepth <? depth then Err ErrNesting
      else
        '(lhs, toks) ← parseTerm (parseExpression fuel) depth toks;
        or_loop (parseTerm (parseExpression fuel) depth) (S (length toks)) lhs toks
  end.

(** Tokens left over at the end are ignored. *)
Definition ParseQuery (input : bytes) : result Query :=
  let input := ReplaceAll x28 (str " ( ") input in
  let input := ReplaceAll x29 (str " ) ") input in
  '(q, _) ← parseExpression (Z.to_nat MaxQueryDepth + 1) 0 (Fields input);
  Ok q.

(** [SegmentSearcher.Search]. *)
Definition Search `{MapRange} (Data : bytes) (queryString : bytes) : result RoaringBitmap :=
  ast ← ParseQuery queryString; Execute ast Data.

Example parse_demo :
  ParseQuery (str "red AND (fox OR Hen) NOT blue") =
    Ok (NotQuery (AndQuery (TermQuery (str "red")) (OrQuery (TermQuery (str "fox")) (TermQuery (str "hen"))))
          (TermQuery (str "blue"))) /\
  ParseQuery (str "a OR b AND c") =
    Ok (OrQuery (TermQuery (str "a")) (AndQuery (TermQuery (str "b")) (TermQuery (str "c")))) /\
  ParseQuery (str "(a") = Err (Msg "missing closing parenthesis") /\
  ParseQuery (str "a b") = Ok (TermQuery (str "a")).
Proof. vm_compute. split_and!; reflexivity. Qed.

(** * Correctness *)

(** ** Parsing ends *)

(** What a parsing function may do: return with no more tokens than it got, or
    fail; never panic or run out of fuel. *)
Definition parser_ok (p : tokens -> result (Query * tokens)) : Prop :=
  forall toks, match p toks with
               | Ok (_, rest) => (length rest <= length toks)%nat
               | Err _ => True
               | Panic | Hang => False
               end.

Lemma length_consume (toks : tokens) : (length (consume toks) <= length toks)%nat.
Proof. destruct toks; cbn; lia. Qed.

Lemma consume_current (toks : tokens) b : b <> [] -> bytes_equal (current toks) b = true ->
  (length (consume toks) < length toks)%nat.
Proof.
  intros Hb. unfold bytes_equal. rewrite bool_decide_eq_true. destruct toks; cbn; [by intros <- | lia].
Qed.

Lemma and_loop_ok p fuel lhs toks :
  parser_ok p -> (length toks < fuel)%nat ->
  match and_loop p fuel lhs toks with
  | Ok (_, rest) => (length rest <= length toks)%nat
  | Err _ => True
  | Panic | Hang => False
  end.
Proof.
  intros Hp. revert lhs toks. induction fuel as [|fuel IH]; intros lhs toks Hf; cbn [and_loop]; [lia|].
  destruct (bytes_equal (current toks) (str "AND") || bytes_equal (current toks) (str "NOT")) eqn:E; [|lia].
  assert (length (consume toks) < length toks)%nat as Hc
    by (apply orb_true_iff in E as [E|E]; eapply consume_current; try exact E; done).
  specialize (Hp (consume toks)). destruct (p (consume toks)) as [[rhs rest]| | |]; cbn; try done.
  specialize (IH (if bytes_equal (current toks) (str "AND") then AndQuery lhs rhs else NotQuery lhs rhs) rest).
  destruct (and_loop p fuel _ rest) as [[? ?]| | |]; [lia | done | apply IH; lia | apply IH; lia].
Qed.

Lemma or_loop_ok p fuel lhs toks :
  parser_ok p -> (length toks < fuel)%nat ->
  match or_loop p fuel lhs toks with
  | Ok (_, rest) => (length rest <= length toks)%nat
  | Err _ => True
  | Panic | Hang => False
  end.
Proof.
  intros Hp. revert lhs toks. induction fuel as [|fuel IH]; intros lhs toks Hf; cbn [or_loop]; [lia|].
  destruct (bytes_equal (current toks) (str "OR")) eqn:E; [|lia].
  apply consume_current in E as Hc; [|done].
  specialize (Hp (consume toks)). destruct (p (consume toks)) as [[rhs rest]| | |]; cbn; try done.
  specialize (IH (OrQuery lhs rhs) rest).
  destruct (or_loop p fuel _ rest) as [[? ?]| | |]; [lia | done | apply IH; lia | apply IH; lia].
Qed.

(** The recursive call is only made below the nesting limit. *)
Section Total.
Variable pe : Z -> tokens -> result (Query * tokens).

Lemma parseFactor_ok depth :
  (depth + 1 <= MaxQueryDepth -> parser_ok (pe (depth + 1))) -> parser_ok (parseFactor pe depth).
Proof.
  intros Hpe toks. unfold parseFactor. destruct (MaxQueryDepth <? depth + 1) eqn:E; [done|]. bprop.
  specialize (Hpe ltac:(lia)). pose proof (length_consume toks). destruct (bytes_equal _ (str "(")).
  - specialize (Hpe (consume toks)). destruct (pe _ _) as [[q rest]| | |]; cbn [mbind result_bind]; try done.
    pose proof (length_consume rest). destruct (negb _); [done | lia].
  - destruct (_ || bytes_equal _ (str "NOT")); [done|]. destruct (Tokenize _); lia.
Qed.

Lemma parseTerm_ok depth :
  (depth + 2 <= MaxQueryDepth -> parser_ok (pe (depth + 2))) -> parser_ok (parseTerm pe depth).
Proof.
  intros Hpe toks. unfold parseTerm. destruct (MaxQueryDepth <? depth + 1) eqn:E; [done|].
  assert (parser_ok (parseFactor pe (depth + 1))) as Hf.
  { apply parseFactor_ok. replace (depth + 1 + 1) with (depth + 2) by lia. done. }
  pose proof (Hf toks) as H. destruct (parseFactor pe (depth + 1) toks) as [[q rest]| | |]; cbn [mbind result_bind]; try done.
  pose proof (and_loop_ok _ (S (length rest)) q rest Hf ltac:(lia)) as H'.
  destruct (and_loop _ _ q rest) as [[? ?]| | |]; [lia | done..].
Qed.
End Total.

Lemma parseExpression_ok fuel depth :
  (1 <= fuel)%nat -> MaxQueryDepth < Z.of_nat fuel + depth -> parser_ok (parseExpression fuel depth).
Proof.
  revert depth. induction fuel as [|fuel IH]; intros depth H1 Hf toks; [lia|]. cbn [parseExpression].
  destruct (MaxQueryDepth <? depth + 1) eqn:E; [done|].
  assert (parser_ok (parseTerm (parseExpression fuel) (depth + 1))) as Ht by (apply parseTerm_ok; intros; apply IH; lia).
  pose proof (Ht toks) as H. destruct (parseTerm _ _ toks) as [[q rest]| | |]; cbn [mbind result_bind]; try done.
  pose proof (or_loop_ok _ (S (length rest)) q rest Ht ltac:(lia)) as H'.
  destruct (or_loop _ _ q rest) as [[? ?]| | |]; [lia | done..].
Qed.

Lemma ParseQuery_returns s : match ParseQuery s with Ok _ | Err _ => True | Panic | Hang => False end.
Proof.
  unfold ParseQuery. pose proof (parseExpression_ok (Z.to_nat MaxQueryDepth + 1) 0) as H.
  specialize (H ltac:(lia) ltac:(unfold MaxQueryDepth; lia) (Fields (ReplaceAll x29 (str " ) ") (ReplaceAll x28 (str " ( ") s)))).
  by destruct (parseExpression _ _ _) as [[? ?]| | |].
Qed.

(** ** Printing *)

(** The tokens of a query, with parentheses only where the grammar needs them:
    [lv] is 0 for an expression, 1 for a term (operand of OR) and 2 for a factor
    (right operand of AND and NOT). *)
Definition parens (toks : tokens) : tokens := str "(" :: toks ++ [str ")"].

Fixpoint show (lv : nat) (q : Query) : tokens :=
  match q with
  | TermQuery t => [t]
  | OrQuery l r =>
      let body := show 0 l ++ str "OR" :: show 1 r in if (lv <=? 0)%nat then body else parens body
  | AndQuery l r =>
      let body := show 1 l ++ str "AND" :: show 2 r in if (lv <=? 1)%nat then body else parens body
  | NotQuery l r =>
      let body := show 1 l ++ str "NOT" :: show 2 r in if (lv <=? 1)%nat then body else parens body
  end.

(** How deep the parentheses of the printed query nest. *)
Fixpoint nesting (lv : nat) (q : Query) : nat :=
  match q with
  | TermQuery _ => 0
  | OrQuery l r =>
      let n := Nat.max (nesting 0 l) (nesting 1 r) in if (lv <=? 0)%nat then n else S n
  | AndQuery l r | NotQuery l r =>
      let n := Nat.max (nesting 1 l) (nesting 2 r) in if (lv <=? 1)%nat then n else S n
  end.

Definition print (q : Query) : bytes := show 0 q ≫= fun t => t ++ str " ".

(** A search word: what the tokenizer leaves as it is. *)
Definition lower_alnum (c : byte) : bool := between 97 122 c || between 48 57 c.
Definition word (t : bytes) : Prop := t <> [] /\ Forall lower_alnum t.

Fixpoint words_ok (q : Query) : Prop :=
  match q with
  | TermQuery t => word t
  | AndQuery l r | OrQuery l r | NotQuery l r => words_ok l /\ words_ok r
  end.

Lemma ToLower_ascii b bs : b2z b < 128 -> ToLower (b :: bs) = (if between 65 90 b then z2b (b2z b + 32) else b) :: ToLower bs.
Proof. intros H. destruct b; first [reflexivity | exfalso; vm_compute in H; discriminate]. Qed.

Lemma lower_alnum_range c : lower_alnum c = true -> 48 <= b2z c <= 122 /\ between 65 90 c = false.
Proof.
  unfold lower_alnum, between. rewrite orb_true_iff, !andb_true_iff, andb_false_iff, !Z.leb_le, !Z.leb_gt. lia.
Qed.

Lemma split_fields_word sep w cur rest :
  Forall (fun b => forall bs, sep (b :: bs) = 0%nat) w ->
  split_fields sep cur 0 (w ++ rest) = split_fields sep (rev w ++ cur) 0 rest.
Proof.
  intros Hw. revert cur. induction Hw as [|b w Hb Hw IH]; intros cur; cbn [app rev split_fields]; [done|].
  rewrite Hb, IH. by rewrite <- app_assoc.
Qed.

Lemma close_field_rev w fs : w <> [] -> close_field (rev w) fs = w :: fs.
Proof.
  intros Hw. unfold close_field. destruct (rev w) eqn:E; [|by rewrite <- E, rev_involutive].
  apply (f_equal (@rev _)) in E. rewrite rev_involutive in E. done.
Qed.

Lemma Tokenize_word t : word t -> Tokenize t = [t].
Proof.
  intros [Hne Ht]. unfold Tokenize.
  assert (ToLower t = t) as ->.
  { clear Hne. induction Ht as [|c t Hc Ht IH]; [done|]. apply Is_true_true, lower_alnum_range in Hc as [Hr Hu].
    rewrite ToLower_ascii by lia. by rewrite Hu, IH. }
  rewrite <- (app_nil_r t) at 1. rewrite split_fields_word.
  - rewrite app_nil_r. cbn [split_fields]. by apply close_field_rev.
  - eapply Forall_impl; [exact Ht|]. intros c Hc bs. unfold clean, alnum. apply Is_true_true in Hc.
    unfold lower_alnum in Hc. apply orb_true_iff in Hc as [-> | ->]; [done|]. by rewrite !orb_true_r.
Qed.

(** ** The printed text splits into its tokens *)

Definition pad (s : bytes) : bytes := ReplaceAll x29 (str " ) ") (ReplaceAll x28 (str " ( ") s).

Lemma pad_app a b : pad (a ++ b) = pad a ++ pad b.
Proof. unfold pad, ReplaceAll. by rewrite !bind_app. Qed.

(** Visible ASCII without parentheses. *)
Definition plain (t : bytes) : Prop :=
  t <> [] /\ Forall (fun b => 33 <= b2z b < 127 /\ b <> x28 /\ b <> x29) t.

Lemma pad_plain t : plain t -> pad t = t.
Proof.
  intros [_ Ht]. unfold pad, ReplaceAll. induction Ht as [|b t (_ & H1 & H2) Ht IH]; [done|].
  cbn. rewrite bool_decide_eq_false_2 by done. cbn. rewrite bool_decide_eq_false_2 by done. cbn. by f_equal.
Qed.

Lemma space_width_visible b bs : 33 <= b2z b < 127 -> space_width (b :: bs) = 0%nat.
Proof.
  intros Hb. unfold space_width, between.
  rewrite (proj2 (Z.leb_gt (b2z b) 13)), (proj2 (Z.leb_gt (b2z b) 32)), !andb_false_r by lia.
  by rewrite (proj2 (Z.ltb_lt _ _)) by lia.
Qed.

Lemma Fields_token t rest :
  plain t \/ t = str "(" \/ t = str ")" -> Fields (pad (t ++ str " ") ++ rest) = t :: Fields rest.
Proof.
  intros Ht. destruct (decide (t = str "(" \/ t = str ")")) as [[->| ->]|Hn]; [reflexivity | reflexivity |].
  destruct Ht as [Ht|Ht]; [|done]. unfold Fields. rewrite pad_app, (pad_plain t Ht).
  change (pad (str " ")) with (str " "). destruct Ht as [Hne Ht]. rewrite <- app_assoc, split_fields_word.
  - rewrite app_nil_r. cbn. change (space_width _) with 1%nat. cbn. by rewrite close_field_rev.
  - eapply Forall_impl; [exact Ht|]. intros b [Hb _] bs. by apply space_width_visible.
Qed.

Lemma Fields_tokens (toks : tokens) :
  Forall (fun t => plain t \/ t = str "(" \/ t = str ")") toks ->
  Fields (pad (toks ≫= fun t => t ++ str " ")) = toks.
Proof.
  induction 1 as [|t toks Ht Htoks IH]; [done|]. rewrite bind_cons, pad_app, Fields_token by done. by rewrite IH.
Qed.

Lemma word_plain t : word t -> plain t.
Proof.
  intros [Hne Ht]. split; [done|]. eapply Forall_impl; [exact Ht|]. intros c Hc.
  apply Is_true_true, lower_alnum_range in Hc as [Hr _].
  split; [lia|]. split; intros ->; [change (b2z x28) with 40 in Hr | change (b2z x29) with 41 in Hr]; lia.
Qed.

Lemma show_tokens lv q : words_ok q -> Forall (fun t => plain t \/ t = str "(" \/ t = str ")") (show lv q).
Proof.
  assert (forall s, s = str "OR" \/ s = str "AND" \/ s = str "NOT" -> plain s) as Hop.
  { intros s Hs. destruct_or! Hs; subst; (split; [done|]);
      (apply (bool_decide_unpack _); vm_compute; exact I). }
  assert (forall body, Forall (fun t => plain t \/ t = str "(" \/ t = str ")") body ->
    Forall (fun t => plain t \/ t = str "(" \/ t = str ")") (parens body)) as Hpar.
  { intros body Hb. apply Forall_cons. split; [tauto|]. apply Forall_app. split; [done|].
    apply Forall_cons. split; [tauto | apply Forall_nil_2]. }
  revert lv. induction q as [t|l IHl r IHr|l IHl r IHr|l IHl r IHr]; intros lv Hq; cbn [show words_ok] in *.
  { apply Forall_cons. split; [left; by apply word_plain | apply Forall_nil_2]. }
  all: destruct Hq as [Hl Hr]; destruct (_ <=? _)%nat; try apply Hpar; apply Forall_app; split; auto.
  all: apply Forall_cons; split; [left; apply Hop; tauto | auto].
Qed.

(** ** Parsing what was printed *)

Lemma and_loop_fuel p n m lhs toks :
  parser_ok p -> (length toks < n)%nat -> (length toks < m)%nat -> and_loop p n lhs toks = and_loop p m lhs toks.
Proof.
  intros Hp. revert m lhs toks. induction n as [|n IH]; intros m lhs toks Hn Hm; [lia|].
  destruct m as [|m]; [lia|]. cbn [and_loop].
  destruct (bytes_equal (current toks) (str "AND") || bytes_equal (current toks) (str "NOT")) eqn:E; [|done].
  assert (length (consume toks) < length toks)%nat
    by (apply orb_true_iff in E as [E|E]; eapply consume_current; try exact E; done).
  pose proof (Hp (consume toks)). destruct (p (consume toks)) as [[rhs rest]| | |]; cbn; try done.
  apply IH; lia.
Qed.

Lemma or_loop_fuel p n m lhs toks :
  parser_ok p -> (length toks < n)%nat -> (length toks < m)%nat -> or_loop p n lhs toks = or_loop p m lhs toks.
Proof.
  intros Hp. revert m lhs toks. induction n as [|n IH]; intros m lhs toks Hn Hm; [lia|].
  destruct m as [|m]; [lia|]. cbn [or_loop].
  destruct (bytes_equal (current toks) (str "OR")) eqn:E; [|done]. apply consume_current in E as Hc; [|done].
  pose proof (Hp (consume toks)). destruct (p (consume toks)) as [[rhs rest]| | |]; cbn; try done.
  apply IH; lia.
Qed.

(** The three parsing functions on printed queries. A loop goes on with the
    tokens that follow. *)
Definition ends_term (rest : tokens) : Prop := current rest <> str "AND" /\ current rest <> str "NOT".

Definition reads_factor (q : Query) : Prop := forall fuel d rest,
  MaxQueryDepth < Z.of_nat fuel + d + 1 -> d + 1 + 3 * Z.of_nat (nesting 2 q) <= MaxQueryDepth ->
  parseFactor (parseExpression fuel) d (show 2 q ++ rest) = Ok (q, rest).

Definition reads_term (q : Query) : Prop := forall fuel d rest,
  MaxQueryDepth < Z.of_nat fuel + d + 2 -> d + 2 + 3 * Z.of_nat (nesting 1 q) <= MaxQueryDepth ->
  parseTerm (parseExpression fuel) d (show 1 q ++ rest) =
  and_loop (parseFactor (parseExpression fuel) (d + 1)) (S (length rest)) q rest.

Definition reads_expr (q : Query) : Prop := forall fuel d rest,
  MaxQueryDepth < Z.of_nat (S fuel) + d -> d + 3 + 3 * Z.of_nat (nesting 0 q) <= MaxQueryDepth ->
  ends_term rest ->
  parseExpression (S fuel) d (show 0 q ++ rest) =
  or_loop (parseTerm (parseExpression fuel) (d + 1)) (S (length rest)) q rest.

Lemma factor_parser_ok fuel d :
  MaxQueryDepth < Z.of_nat fuel + d + 1 -> parser_ok (parseFactor (parseExpression fuel) d).
Proof. intros H. apply parseFactor_ok. intros. apply parseExpression_ok; lia. Qed.

Lemma term_parser_ok fuel d :
  MaxQueryDepth < Z.of_nat fuel + d + 2 -> parser_ok (parseTerm (parseExpression fuel) d).
Proof. intros H. apply parseTerm_ok. intros. apply parseExpression_ok; lia. Qed.

Lemma and_loop_ends p n lhs rest : ends_term rest -> and_loop p (S n) lhs rest = Ok (lhs, rest).
Proof. intros [H1 H2]. cbn [and_loop]. unfold bytes_equal. by rewrite !bool_decide_eq_false_2. Qed.

Lemma or_loop_ends p n lhs rest : current rest <> str "OR" -> or_loop p (S n) lhs rest = Ok (lhs, rest).
Proof. intros H. cbn [or_loop]. unfold bytes_equal. by rewrite bool_decide_eq_false_2. Qed.

(** From one level to the next where the text is the same. *)
Lemma factor_to_term q :
  show 1 q = show 2 q -> nesting 1 q = nesting 2 q -> reads_factor q -> reads_term q.
Proof.
  intros Es En Hf fuel d rest H1 H2. unfold parseTerm. rewrite (proj2 (Z.ltb_ge _ _)) by lia.
  rewrite Es, Hf by lia. reflexivity.
Qed.

Lemma term_to_expr q :
  show 0 q = show 1 q -> nesting 0 q = nesting 1 q -> reads_term q -> reads_expr q.
Proof.
  intros Es En Ht fuel d rest H1 H2 Hr. cbn [parseExpression]. rewrite (proj2 (Z.ltb_ge _ _)) by lia.
  rewrite Es, Ht by lia. rewrite and_loop_ends by done. reflexivity.
Qed.

Lemma expr_to_factor q :
  show 2 q = parens (show 0 q) -> nesting 2 q = S (nesting 0 q) -> reads_expr q -> reads_factor q.
Proof.
  intros Es En He fuel d rest H1 H2. unfold parseFactor. rewrite (proj2 (Z.ltb_ge _ _)) by lia.
  rewrite Es. unfold parens. cbn [app]. unfold bytes_equal at 1. cbn [current head default from_option id].
  rewrite bool_decide_eq_true_2 by done. cbn [consume tail]. rewrite <- app_assoc.
  destruct fuel as [|fuel]; [lia|]. rewrite He by (try lia; done). rewrite or_loop_ends by done. reflexivity.
Qed.

(** One round of a loop. *)
Lemma and_loop_and p n lhs toks rhs rest : p toks = Ok (rhs, rest) ->
  and_loop p (S n) lhs (str "AND" :: toks) = and_loop p n (AndQuery lhs rhs) rest.
Proof. intros E. cbn [and_loop current head default from_option id consume tail]. by rewrite E. Qed.

Lemma and_loop_not p n lhs toks rhs rest : p toks = Ok (rhs, rest) ->
  and_loop p (S n) lhs (str "NOT" :: toks) = and_loop p n (NotQuery lhs rhs) rest.
Proof. intros E. cbn [and_loop current head default from_option id consume tail]. by rewrite E. Qed.

Lemma or_loop_or p n lhs toks rhs rest : p toks = Ok (rhs, rest) ->
  or_loop p (S n) lhs (str "OR" :: toks) = or_loop p n (OrQuery lhs rhs) rest.
Proof. intros E. cbn [or_loop current head default from_option id consume tail]. by rewrite E. Qed.

Lemma term_and l r : reads_term l -> reads_factor r -> reads_term (AndQuery l r).
Proof.
  intros Hl Hr fuel d rest H1 H2. cbn [show nesting Nat.leb] in *. rewrite <- app_assoc, Hl by lia.
  cbn [app]. rewrite (and_loop_and _ _ _ _ r rest) by (apply Hr; lia).
  apply and_loop_fuel; [apply factor_parser_ok; lia | cbn [length]; rewrite length_app; lia | lia].
Qed.

Lemma term_not l r : reads_term l -> reads_factor r -> reads_term (NotQuery l r).
Proof.
  intros Hl Hr fuel d rest H1 H2. cbn [show nesting Nat.leb] in *. rewrite <- app_assoc, Hl by lia.
  cbn [app]. rewrite (and_loop_not _ _ _ _ r rest) by (apply Hr; lia).
  apply and_loop_fuel; [apply factor_parser_ok; lia | cbn [length]; rewrite length_app; lia | lia].
Qed.

Lemma expr_or l r : reads_expr l -> reads_term r -> reads_expr (OrQuery l r).
Proof.
  intros Hl Hr fuel d rest H1 H2 He. cbn [show nesting Nat.leb] in *. rewrite <- app_assoc, Hl by (done || lia).
  cbn [app]. rewrite (or_loop_or _ _ _ _ r rest) by (rewrite Hr by lia; by apply and_loop_ends).
  apply or_loop_fuel; [apply term_parser_ok; lia | cbn [length]; rewrite length_app; lia | lia].
Qed.

Lemma word_not_keyword t s : word t -> In s [str "("; []; str ")"; str "AND"; str "OR"; str "NOT"] -> bytes_equal t s = false.
Proof.
  intros [Hne Ht] Hs. apply bool_decide_eq_false_2. intros ->.
  cbn in Hs. destruct_or! Hs; subst; try done; apply Forall_cons in Ht as [Hc _]; vm_compute in Hc; done.
Qed.

Lemma reads_word t : word t -> reads_factor (TermQuery t).
Proof.
  intros Ht fuel d rest H1 H2. cbn [nesting] in H2. unfold parseFactor. rewrite (proj2 (Z.ltb_ge _ _)) by lia.
  cbn [show app current head default from_option id].
  rewrite !(word_not_keyword t) by (done || cbn; tauto). cbn [orb]. by rewrite Tokenize_word.
Qed.

Lemma reads_back q : words_ok q -> reads_factor q /\ reads_term q /\ reads_expr q.
Proof.
  induction q as [t|l IHl r IHr|l IHl r IHr|l IHl r IHr]; cbn [words_ok].
  { intros Ht%reads_word. assert (reads_term (TermQuery t)) by by apply factor_to_term.
    split_and!; [done | done | by apply term_to_expr]. }
  all: intros [(? & ? & ?)%IHl (? & ? & ?)%IHr].
  - assert (reads_term (AndQuery l r)) by by apply term_and.
    assert (reads_expr (AndQuery l r)) by by apply term_to_expr. split_and!; [by apply expr_to_factor | done..].
  - assert (reads_expr (OrQuery l r)) by by apply expr_or.
    assert (reads_factor (OrQuery l r)) by by apply expr_to_factor. split_and!; [done | by apply factor_to_term | done].
  - assert (reads_term (NotQuery l r)) by by apply term_not.
    assert (reads_expr (NotQuery l r)) by by apply term_to_expr. split_and!; [by apply expr_to_factor | done..].
Qed.

(** Words one after the other. *)
Definition spaced (ws : list bytes) : bytes := ws ≫= fun t => t ++ str " ".

(** What follows a complete expression without an operator is dropped. *)
Lemma ParseQuery_leftover q ws :
  words_ok q -> (nesting 0 q <= 15)%nat -> Forall word ws -> ParseQuery (print q ++ spaced ws) = Ok q.
Proof.
  intros Hq Hn Hws. unfold ParseQuery, print, spaced. rewrite <- bind_app. fold (pad ((show 0 q ++ ws) ≫= fun t => t ++ str " ")).
  rewrite Fields_tokens.
  2: { apply Forall_app. split; [by apply show_tokens|]. eapply Forall_impl; [exact Hws|]. intros t Ht. left. by apply word_plain. }
  assert (forall s, In s [str "("; []; str ")"; str "AND"; str "OR"; str "NOT"] -> s <> [] -> current ws <> s) as Hcur.
  { intros s Hs Hne. destruct Hws as [|t ws Ht _]; [done|]. cbn [current head default from_option id].
    intros ->. pose proof (word_not_keyword s s Ht Hs) as E. unfold bytes_equal in E. by rewrite bool_decide_eq_true_2 in E. }
  change (Z.to_nat MaxQueryDepth + 1)%nat with 51%nat.
  rewrite (proj2 (proj2 (reads_back q Hq))); [|unfold MaxQueryDepth; lia | unfold MaxQueryDepth; lia |].
  - rewrite or_loop_ends; [done|]. apply Hcur; [cbn; tauto|done].
  - split; apply Hcur; (cbn; tauto) || done.
Qed.

Lemma ParseQuery_print q : words_ok q -> (nesting 0 q <= 15)%nat -> ParseQuery (print q) = Ok q.
Proof. intros Hq Hn. rewrite <- (app_nil_r (print q)). by apply (ParseQuery_leftover q []). Qed.

(** C35: The query parser ends on every input with a query or an error, and it
    inverts printing: a query whose terms are lower-case words, printed with
    parentheses only where precedence (AND and NOT over OR) and left associativity
    need them, parses back to itself as long as the parentheses nest at most 15
    deep, which the limit of 50 calls allows. *)
Theorem ParseQuery_total_roundtrip :
  (forall s, returns (ParseQuery s) = true) /\
  (forall q, words_ok q -> (nesting 0 q <= 15)%nat -> ParseQuery (print q) = Ok q).
Proof.
  split; [|exact ParseQuery_print]. intros s. pose proof (ParseQuery_returns s). by destruct (ParseQuery s).
Qed.

Lemma ParseQuery_total_roundtrip_witness :
  let q := AndQuery (TermQuery (str "red")) (OrQuery (TermQuery (str "fox")) (TermQuery (str "hen"))) in
  print q = str "red AND ( fox OR hen ) " /\ ParseQuery (print q) = Ok q.
Proof.
  split; [vm_compute; reflexivity|]. apply (proj2 ParseQuery_total_roundtrip).
  - split; [|split]; (split; [discriminate | apply (bool_decide_unpack _); vm_compute; exact I]).
  - vm_compute. lia.
Defined.

(** ** Searching *)

(** Which documents a query asks for. *)
Fixpoint matches (ds : list (Z * bytes)) (q : Query) (id : Z) : Prop :=
  match q with
  | TermQuery t => id ∈ docs_with t ds
  | AndQuery l r => matches ds l id /\ matches ds r id
  | OrQuery l r => matches ds l id \/ matches ds r id
  | NotQuery l r => matches ds l id /\ ~ matches ds r id
  end.

Lemma fold_Add_spec ids r :
  rb_ok r -> Forall id_ok ids ->
  rb_ok (fold_left Add ids r) /\
  forall w, id_ok w -> contains (fold_left Add ids r) w <-> w ∈ ids \/ contains r w.
Proof.
  intros Hr Hids. revert r Hr. induction Hids as [|id ids Hid Hids IH]; intros r Hr; cbn [fold_left].
  { split; [done|]. intros w _. rewrite elem_of_nil. tauto. }
  destruct (Add_spec r id Hr Hid) as [Hok Hin]. destruct (IH _ Hok) as [Hok' Hin']. split; [done|].
  intros w Hw. rewrite Hin', Hin, elem_of_cons by done. tauto.
Qed.

Section Searching.
Context `{MR : MapRange}.

Lemma docs_with_ok ds t : index_fits (index_docs ds) -> Forall id_ok (docs_with t ds).
Proof.
  intros [Hfit _]. rewrite <- index_docs_postings. destruct (postings (index_docs ds) !! t) eqn:E; [|constructor].
  by apply (Hfit _ _ E).
Qed.

Lemma Execute_correct ds q :
  index_fits (index_docs ds) ->
  exists bm, Execute q (WriteSegment (index_docs ds)).1 = Ok bm /\ rb_ok bm /\
    forall id, id_ok id -> contains bm id <-> matches ds q id.
Proof.
  intros Hfit. induction q as [t|l IHl r IHr|l IHl r IHr|l IHl r IHr]; cbn [Execute matches].
  { rewrite FetchPostings_segment, index_docs_postings by done. cbn [mbind result_bind].
    destruct (fold_Add_spec (merge_sort Z.le (docs_with t ds)) NewRoaringBitmap) as [Hok Hin].
    - apply map_Forall_empty.
    - rewrite merge_sort_Permutation. by apply docs_with_ok.
    - eexists. split; [done|]. split; [done|]. intros id Hid. rewrite Hin, merge_sort_Permutation by done.
      unfold contains at 1, NewRoaringBitmap. rewrite lookup_empty. cbn [default from_option]. rewrite elem_of_nil. tauto. }
  all: destruct IHl as (a & -> & Ha & Hina), IHr as (b & -> & Hb & Hinb); cbn [mbind result_bind].
  - destruct (Intersect_spec a b Ha Hb) as [Hok Hin]. eexists. split; [done|]. split; [done|].
    intros id Hid. by rewrite Hin, Hina, Hinb.
  - destruct (Union_spec a b Ha Hb) as [Hok Hin]. eexists. split; [done|]. split; [done|].
    intros id Hid. by rewrite Hin, Hina, Hinb.
  - destruct (Difference_spec a b Ha Hb) as [Hok Hin]. eexists. split; [done|]. split; [done|].
    intros id Hid. by rewrite Hin, Hina, Hinb.
Qed.

(** C33: Search is exact for the query the parser reads.  For any documents added
    to a memory index and written as a segment, and any text the parser accepts, the
    search returns a bitmap whose sorted enumeration lists exactly the documents that
    satisfy the Boolean query read from it: AND, OR and NOT as intersection, union
    and difference of the documents that have each term as a token.  The query read
    is the first expression of the text only: words that follow it without an
    operator are dropped, so that they do not change the answer ("adversarial ai"
    finds what "adversarial" finds), although usage.md promises an implicit AND. *)
Theorem Search_correct ds :
  index_fits (index_docs ds) ->
  (forall s q, ParseQuery s = Ok q ->
     exists bm, Search (WriteSegment (index_docs ds)).1 s = Ok bm /\ StronglySorted Z.lt (ToArray bm) /\
       forall id, id ∈ ToArray bm <-> id_ok id /\ matches ds q id) /\
  (forall q ws, words_ok q -> (nesting 0 q <= 15)%nat -> Forall word ws ->
     exists bm, Search (WriteSegment (index_docs ds)).1 (print q ++ spaced ws) = Ok bm /\
       forall id, id ∈ ToArray bm <-> id_ok id /\ matches ds q id).
Proof.
  intros Hfit.
  assert (forall s q, ParseQuery s = Ok q ->
    exists bm, Search (WriteSegment (index_docs ds)).1 s = Ok bm /\ StronglySorted Z.lt (ToArray bm) /\
      forall id, id ∈ ToArray bm <-> id_ok id /\ matches ds q id) as Hs.
  { intros s q Hq. destruct (Execute_correct ds q Hfit) as (bm & E & Hok & Hin).
    exists bm. unfold Search. rewrite Hq. split; [exact E|]. split; [by apply ToArray_increasing|].
    intros id. rewrite ToArray_elem by done. split; intros [Hid H]; (split; [exact Hid|]); by apply Hin. }
  split; [exact Hs|]. intros q ws Hq Hn Hws.
  destruct (Hs _ _ (ParseQuery_leftover q ws Hq Hn Hws)) as (bm & E & _ & Hin). by exists bm.
Qed.
End Searching.

Lemma demo_word w : w = str "red" \/ w = str "fox" -> word w.
Proof. intros [-> | ->]; (split; [done | apply (bool_decide_unpack _); vm_compute; exact I]). Qed.

Lemma Search_correct_witness :
  let data := (WriteSegment (H := canonical_range) (index_docs demo_docs)).1 in
  (exists bm, Search data (H := canonical_range) (str "red NOT fox") = Ok bm /\ StronglySorted Z.lt (ToArray (H := canonical_range) bm) /\
    forall id, id ∈ ToArray (H := canonical_range) bm <->
      id_ok id /\ matches demo_docs (NotQuery (TermQuery (str "red")) (TermQuery (str "fox"))) id) /\
  (exists bm, Search data (H := canonical_range) (str "red fox ") = Ok bm /\
    forall id, id ∈ ToArray (H := canonical_range) bm <-> id_ok id /\ matches demo_docs (TermQuery (str "red")) id).
Proof.
  destruct (Search_correct (MR := canonical_range) demo_docs demo_docs_fit) as [H1 H2]. split.
  - apply H1. vm_compute. reflexivity.
  - apply (H2 (TermQuery (str "red")) [str "fox"]); [by apply demo_word; left | cbn; lia | repeat constructor; by apply demo_word; right].
Defined.
