(* ===== verification/MVCC.v ===== *)
(** The optimistic transaction cache (query.go section 1): version chains in
    memory, snapshot reads, validation at commit.  Clock readings in nanoseconds
    are arguments. *)

From S2P Require Import Common.
From S2P Require Import Prelude.

Module Cache.

(** [ExpiredAt] is [None] for the zero time; a nil value is [None]. *)
Record MVCCRecord := mkMVCC {
  Version : Z;
  TxnID : Z;
  Value : option bytes;
  Deleted : bool;
  ExpiredAt : option Z
}.

Record MVCCCacheStore := mkCache {
  recs : gmap string (list MVCCRecord);
  txIdGen : Z;
  activeTx : gmap Z Z
}.

Definition GlobalCacheStore : MVCCCacheStore := mkCache ∅ 0 ∅.

Definition BeginOCC (now : Z) (c : MVCCCacheStore) : Z * MVCCCacheStore :=
  let txID := u64 (txIdGen c + 1) in
  (txID, mkCache (recs c) txID (<[txID := u64 now]> (activeTx c))).

Definition ErrNoTxn : error := Msg "invalid or expired OCC transaction window".
Definition ErrNoKey : error := Msg "key not found within transactional cache scope".
Definition ErrTombstone : error := Msg "key has expired or been explicitly tombstoned".
Definition ErrInvisible : error := Msg "no visible version found within isolation snapshot".

(** The loop over the versions, newest first. *)
Fixpoint visible_version (txID readTs now : Z) (versions : list MVCCRecord) : result (option bytes) :=
  match versions with
  | [] => Err ErrInvisible
  | v :: versions' =>
      if (TxnID v <=? txID) || (Version v <=? readTs)
      then if Deleted v || match ExpiredAt v with Some e => e <? now | None => false end
           then Err ErrTombstone
           else Ok (Value v)
      else visible_version txID readTs now versions'
  end.

Definition Read (txID : Z) (key : string) (now : Z) (c : MVCCCacheStore) : result (option bytes) :=
  match activeTx c !! txID with
  | None => Err ErrNoTxn
  | Some readTs =>
      match recs c !! key with
      | None | Some [] => Err ErrNoKey
      | Some versions => visible_version txID readTs now (rev versions)
      end
  end.

(** The validation of one key of the write set. *)
Definition conflicts (txID readTs : Z) (c : MVCCCacheStore) (key : string) : bool :=
  match recs c !! key with
  | None => false
  | Some versions =>
      match last versions with
      | None => false
      | Some latest => (readTs <? Version latest) && negb (TxnID latest =? txID)
      end
  end.

Definition ErrConflict : error := Msg "OCC SERIALIZATION ISOLATION FAILURE: Write conflict detected".

Section Commit.
Context `{MapRange}.

(** [nowCommit] is the commit timestamp, [nowTTL] the reading the TTL is added
    to. *)
Definition ValidateAndCommit (txID : Z) (writeSet : gmap string (option bytes)) (ttl : Z)
    (nowCommit nowTTL : Z) (c : MVCCCacheStore) : option error * MVCCCacheStore :=
  let readTs := default 0 (activeTx c !! txID) in
  let closed := delete txID (activeTx c) in
  if existsb (conflicts txID readTs c) (range writeSet).*1
  then (Some ErrConflict, mkCache (recs c) (txIdGen c) closed)
  else
    let expireTime := if 0 <? ttl then Some (nowTTL + ttl) else None in
    let chains := fold_left (fun chains '(key, val) =>
      <[key := default [] (chains !! key) ++
               [mkMVCC (u64 nowCommit) txID val (bool_decide (val = None)) expireTime]]> chains)
      (range writeSet) (recs c) in
    (None, mkCache chains (txIdGen c) closed).
End Commit.

End Cache.
Import Cache.

(** ** Runs *)

(** A step of the cache at a later time, and the transaction it belongs to.
    Commits are made by transactions that are active. *)
Inductive occ_step `{MapRange} : MVCCCacheStore * Z -> Z -> MVCCCacheStore * Z -> Prop :=
| occ_begin c t now txID c' :
    t < now < 2 ^ 63 -> BeginOCC now c = (txID, c') -> occ_step (c, t) txID (c', now)
| occ_commit c t now txID ws ttl nowTTL e c' :
    t < now < 2 ^ 63 -> is_Some (activeTx c !! txID) ->
    ValidateAndCommit txID ws ttl now nowTTL c = (e, c') -> occ_step (c, t) txID (c', now).

Inductive occ_reach `{MapRange} : MVCCCacheStore * Z -> Prop :=
| occ_start t : 0 <= t < 2 ^ 63 -> occ_reach (GlobalCacheStore, t)
| occ_more s txID s' : occ_reach s -> occ_step s txID s' -> occ_reach s'.

(** Runs in which one transaction does nothing. *)
Inductive occ_others `{MapRange} (t : Z) : MVCCCacheStore * Z -> MVCCCacheStore * Z -> Prop :=
| others_done s : occ_others t s s
| others_more s txID s' s'' : txID <> t -> occ_step s txID s' -> occ_others t s' s'' -> occ_others t s s''.

Example occ_demo :
  let c := GlobalCacheStore in
  let '(t1, c) := BeginOCC 10 c in
  let '(e1, c) := ValidateAndCommit (H := canonical_range) t1 {["k" := Some (str "v")]} 0 20 20 c in
  let '(t2, c) := BeginOCC 30 c in
  e1 = None /\ Read t2 "k" 31 c = Ok (Some (str "v")) /\ Read t1 "k" 31 c = Err ErrNoTxn.
Proof. vm_compute. split_and!; reflexivity. Qed.

(** * Correctness *)

Section OCC.
Context `{MR : MapRange}.

Lemma existsb_range (f : string -> bool) (ws : gmap string (option bytes)) :
  existsb f (range ws).*1 = true <-> exists k, is_Some (ws !! k) /\ f k = true.
Proof.
  rewrite existsb_exists. split.
  - intros (k & Hk & Hf). apply list_elem_of_In, list_elem_of_fmap in Hk as ([k' v] & -> & Hin%elem_of_range).
    exists k'. split; [by eexists | done].
  - intros (k & [v Hv] & Hf). exists k. split; [|done]. apply list_elem_of_In, list_elem_of_fmap.
    exists (k, v). split; [done|]. by apply elem_of_range.
Qed.

(** A commit fails when some key conflicts; otherwise it appends one version to
    the chain of each key of the write set. In both cases the transaction is
    over. *)
Lemma ValidateAndCommit_spec t ws ttl now nowTTL c e c' :
  ValidateAndCommit t ws ttl now nowTTL c = (e, c') ->
  let readTs := default 0 (activeTx c !! t) in
  activeTx c' = delete t (activeTx c) /\ txIdGen c' = txIdGen c /\
  ((exists k, is_Some (ws !! k) /\ conflicts t readTs c k = true) /\ e = Some ErrConflict /\ recs c' = recs c \/
   (forall k, is_Some (ws !! k) -> conflicts t readTs c k = false) /\ e = None /\
   forall k, recs c' !! k =
     match ws !! k with
     | Some val => Some (default [] (recs c !! k) ++
         [mkMVCC (u64 now) t val (bool_decide (val = None)) (if 0 <? ttl then Some (nowTTL + ttl) else None)])
     | None => recs c !! k
     end).
Proof.
  unfold ValidateAndCommit. destruct (existsb _ _) eqn:E; intros [= <- <-]; (split; [done|]); (split; [done|]).
  - left. split; [by apply existsb_range | done].
  - right. split; [|split; [done|]].
    + intros k Hk. destruct (conflicts _ _ c k) eqn:Ek; [|done].
      rewrite (proj2 (existsb_range _ _)) in E; [done | by exists k].
    + intros k. cbn [recs].
      pose proof (fold_range_lookup (fun _ val o => Some (default [] o ++
        [mkMVCC (u64 now) t val (bool_decide (val = None)) (if 0 <? ttl then Some (nowTTL + ttl) else None)]))
        ws (recs c) k) as Hf.
      cbn beta iota in Hf. rewrite Hf. by destruct (ws !! k).
Qed.

(** Read timestamps are not in the future. *)
Definition occ_inv (s : MVCCCacheStore * Z) : Prop :=
  0 <= s.2 < 2 ^ 63 /\ map_Forall (fun _ r => 0 <= r <= s.2) (activeTx s.1).

Lemma occ_step_inv s t s' : occ_inv s -> occ_step s t s' -> occ_inv s'.
Proof.
  intros [Hc Ha] Hs. destruct Hs as [c u now txID c' Hn E|c u now txID ws ttl nowTTL e c' Hn _ E]; cbn [fst snd] in *.
  - unfold BeginOCC in E. injection E as _ <-. split; cbn [fst snd activeTx]; [lia|].
    apply map_Forall_insert_2; [rewrite u64_small; lia|]. eapply map_Forall_impl; [exact Ha|]. cbn. intros. lia.
  - apply ValidateAndCommit_spec in E as (Ea & _). split; cbn [fst snd]; [lia|]. rewrite Ea.
    apply map_Forall_delete. eapply map_Forall_impl; [exact Ha|]. cbn. intros. lia.
Qed.

Lemma occ_reach_inv s : occ_reach s -> occ_inv s.
Proof.
  induction 1 as [t Ht|s t s' _ IH Hs]; [|by eapply occ_step_inv].
  split; [done|]. apply map_Forall_empty.
Qed.

(** The key was written by another transaction after [t] began. *)
Definition beaten (k : string) (t r : Z) (c : MVCCCacheStore) : Prop :=
  activeTx c !! t = Some r /\
  exists versions latest, recs c !! k = Some versions /\ last versions = Some latest /\
    r < Version latest /\ TxnID latest <> t.

Lemma beaten_conflicts k t r c : beaten k t r c -> conflicts t r c k = true.
Proof.
  intros (_ & vs & l & Hvs & Hl & Hr & Ht). unfold conflicts. rewrite Hvs, Hl.
  by rewrite (proj2 (Z.ltb_lt _ _)), (proj2 (Z.eqb_neq _ _)).
Qed.

Lemma beaten_commit k t r t' ws ttl now nowTTL c c' :
  t' <> t -> activeTx c !! t = Some r -> 0 <= r < now -> now < 2 ^ 63 -> is_Some (ws !! k) ->
  ValidateAndCommit t' ws ttl now nowTTL c = (None, c') -> beaten k t r c'.
Proof.
  intros Hne Ha Hr Hnow [val Hv] E. apply ValidateAndCommit_spec in E as (Ea & _ & [(_ & ? & _)|(_ & _ & Hrec)]); [done|].
  split; [rewrite Ea; by rewrite lookup_delete_ne|].
  specialize (Hrec k). rewrite Hv in Hrec. eexists _, _. split; [exact Hrec|]. split; [apply last_snoc|].
  cbn [Version TxnID]. rewrite u64_small by lia. split; [lia | done].
Qed.

Lemma beaten_step k t r s txID s' :
  occ_inv s -> txID <> t -> occ_step s txID s' -> 0 <= r -> beaten k t r s.1 -> beaten k t r s'.1.
Proof.
  intros [Hc Hinv] Hne Hs Hr Hb. pose proof Hb as (Ha & vs & l & Hvs & Hl & Hlt & Ht).
  destruct Hs as [c u now id c' Hn E|c u now id ws ttl nowTTL e c' Hn _ E]; cbn [fst snd] in *.
  - unfold BeginOCC in E. injection E as Hid <-. split; [cbn [activeTx]; rewrite lookup_insert_ne; [done|congruence]|].
    exists vs, l. done.
  - pose proof (Hinv _ _ Ha) as Hru. cbn in Hru.
    apply ValidateAndCommit_spec in E as E'. destruct E' as (Ea & _ & [(_ & _ & Er)|(_ & He & Hrec)]).
    + split; [rewrite Ea; by rewrite lookup_delete_ne|]. exists vs, l. by rewrite Er.
    + destruct (ws !! k) as [val|] eqn:Ew.
      * subst e. apply (beaten_commit k t r id ws ttl now nowTTL c c'); [done | exact Ha | lia | lia | by eexists | exact E].
      * split; [rewrite Ea; by rewrite lookup_delete_ne|]. exists vs, l. rewrite Hrec, Ew. done.
Qed.

Lemma beaten_others k t r s s' :
  occ_others t s s' -> occ_inv s -> 0 <= r -> beaten k t r s.1 -> beaten k t r s'.1.
Proof.
  induction 1 as [|s txID s1 s2 Hne Hs _ IH]; [done|]. intros Hinv Hr Hb.
  apply IH; [by eapply occ_step_inv | done | by eapply beaten_step].
Qed.

(** C31: Of two overlapping transactions that write the same key the first to
    commit wins. In any run of the cache with a clock that advances between
    operations, if another transaction commits a write to a key while [t] is
    active, then however the other transactions go on, a commit of [t] that writes
    the key is refused, and none of its writes is applied. No update is lost. *)
Theorem occ_first_committer_wins c now0 t r t1 ws1 ttl1 now1 nowTTL1 c1 s2 k ws2 ttl2 now2 nowTTL2 :
  occ_reach (c, now0) -> activeTx c !! t = Some r ->
  t1 <> t -> is_Some (activeTx c !! t1) -> now0 < now1 < 2 ^ 63 ->
  ValidateAndCommit t1 ws1 ttl1 now1 nowTTL1 c = (None, c1) -> is_Some (ws1 !! k) ->
  occ_others t (c1, now1) s2 -> is_Some (ws2 !! k) ->
  exists c3, ValidateAndCommit t ws2 ttl2 now2 nowTTL2 s2.1 = (Some ErrConflict, c3) /\ recs c3 = recs s2.1.
Proof.
  intros Hreach Ha Hne Ha1 Hn E1 Hk1 Hothers Hk2. apply occ_reach_inv in Hreach as Hinv.
  assert (0 <= r <= now0) as Hr by (apply (proj2 Hinv t r Ha)).
  assert (beaten k t r c1) as Hb.
  { apply (beaten_commit k t r t1 ws1 ttl1 now1 nowTTL1 c c1); (done || lia). }
  assert (occ_inv (c1, now1)) as Hinv1.
  { eapply occ_step_inv; [exact Hinv|]. eapply occ_commit; [exact Hn | exact Ha1 | exact E1]. }
  apply (beaten_others k t r _ _ Hothers Hinv1) in Hb; [|lia].
  destruct (ValidateAndCommit t ws2 ttl2 now2 nowTTL2 s2.1) as [e c3] eqn:E2. exists c3.
  apply ValidateAndCommit_spec in E2 as (_ & _ & [(_ & -> & Er)|(Hok & _ & _)]); [done|].
  specialize (Hok k Hk2). rewrite (proj1 Hb) in Hok. cbn [default from_option id] in Hok.
  by rewrite (beaten_conflicts k t r _ Hb) in Hok.
Qed.

(** A commit without conflict takes effect: it reports no error, and from then
    on every active transaction that is younger than the committed one, or began
    after the commit, reads exactly what was written - the value until it
    expires, the tombstone error for a deleted or expired key - while every read
    of a key outside the write set gives what it gave before. *)
Theorem occ_commit_then_read c t ws ttl now nowTTL t' r k now' :
  (forall k, is_Some (ws !! k) -> conflicts t (default 0 (activeTx c !! t)) c k = false) ->
  t' <> t -> activeTx c !! t' = Some r -> (t < t' \/ u64 now <= r) ->
  exists c', ValidateAndCommit t ws ttl now nowTTL c = (None, c') /\
    Read t' k now' c' =
      match ws !! k with
      | Some (Some v) => if (0 <? ttl) && (nowTTL + ttl <? now') then Err ErrTombstone else Ok (Some v)
      | Some None => Err ErrTombstone
      | None => Read t' k now' c
      end.
Proof.
  intros Hno Hne Ha Hvis. destruct (ValidateAndCommit t ws ttl now nowTTL c) as [e c'] eqn:E. exists c'.
  apply ValidateAndCommit_spec in E as (Ea & _ & [((k' & Hk' & Hc) & _ & _)|(_ & -> & Hrec)]).
  { by rewrite Hno in Hc. }
  split; [done|]. unfold Read. rewrite Ea, lookup_delete_ne, Ha by done. rewrite Hrec.
  destruct (ws !! k) as [val|]; [|done]. set (chain := default [] _).
  destruct (chain ++ _) eqn:Ec; [by apply app_nil in Ec as [_ ?]|]. rewrite <- Ec, rev_app_distr.
  cbn [rev app visible_version TxnID Version Deleted ExpiredAt Value].
  replace ((t <=? t') || (u64 now <=? r)) with true
    by (symmetry; rewrite orb_true_iff, !Z.leb_le; lia).
  destruct val as [v|]; [|done]. by destruct (0 <? ttl), (nowTTL + ttl <? now').
Qed.
End OCC.

(** Reads are not repeatable: the snapshot test also accepts any version of a
    transaction with a smaller id, whenever it was committed. In a run of the
    cache a transaction reads a key, an older transaction that was still active
    commits a new value with a later timestamp, and the same transaction then
    reads the new value. *)
Theorem occ_read_not_repeatable :
  exists c c' t, occ_reach (H := canonical_range) (c, 40) /\ occ_others (H := canonical_range) t (c, 40) (c', 50) /\
    activeTx c !! t = activeTx c' !! t /\ is_Some (activeTx c !! t) /\
    Read t "k" 45 c = Ok (Some (str "v0")) /\ Read t "k" 55 c' = Ok (Some (str "v1")).
Proof.
  set (c1 := (BeginOCC 10 GlobalCacheStore).2).
  set (c2 := (ValidateAndCommit (H := canonical_range) 1 {["k" := Some (str "v0")]} 0 20 20 c1).2).
  set (c3 := (BeginOCC 30 c2).2). set (c4 := (BeginOCC 40 c3).2).
  set (c5 := (ValidateAndCommit (H := canonical_range) 2 {["k" := Some (str "v1")]} 0 50 50 c4).2).
  exists c4, c5, 3. split; [|split].
  - apply (occ_more (c3, 30) 3). 2:{ apply (occ_begin c3 30 40 3); [lia | reflexivity]. }
    apply (occ_more (c2, 20) 2). 2:{ apply (occ_begin c2 20 30 2); [lia | reflexivity]. }
    apply (occ_more (c1, 10) 1).
    2:{ apply (occ_commit c1 10 20 1 {["k" := Some (str "v0")]} 0 20 None); [lia | by eexists | reflexivity]. }
    apply (occ_more (GlobalCacheStore, 5) 1); [by apply occ_start|].
    apply (occ_begin GlobalCacheStore 5 10 1); [lia | reflexivity].
  - apply (others_more 3 _ 2 (c5, 50)); [lia | | apply others_done].
    apply (occ_commit c4 40 50 2 {["k" := Some (str "v1")]} 0 50 None); [lia | by eexists | reflexivity].
  - split; [reflexivity|]. split; [by eexists|]. split; reflexivity.
Qed.

(** ** Witnesses *)

Definition two_writers : MVCCCacheStore := (BeginOCC 20 (BeginOCC 10 GlobalCacheStore).2).2.

Lemma two_writers_reach : occ_reach (H := canonical_range) (two_writers, 20).
Proof.
  apply (occ_more ((BeginOCC 10 GlobalCacheStore).2, 10) 2).
  - apply (occ_more (GlobalCacheStore, 5) 1); [by apply occ_start|]. apply (occ_begin GlobalCacheStore 5 10 1); [lia | reflexivity].
  - apply (occ_begin _ 10 20 2); [lia | reflexivity].
Qed.

Lemma occ_first_committer_wins_witness :
  let ws := {["k" := Some (str "x")]} in
  let c1 := (ValidateAndCommit (H := canonical_range) 2 ws 0 30 30 two_writers).2 in
  exists c3, ValidateAndCommit (H := canonical_range) 1 ws 0 40 40 c1 = (Some ErrConflict, c3) /\ recs c3 = recs c1.
Proof.
  apply (occ_first_committer_wins (MR := canonical_range) two_writers 20 1 10 2 {["k" := Some (str "x")]} 0 30 30
    (ValidateAndCommit (H := canonical_range) 2 {["k" := Some (str "x")]} 0 30 30 two_writers).2
    ((ValidateAndCommit (H := canonical_range) 2 {["k" := Some (str "x")]} 0 30 30 two_writers).2, 30) "k").
  - exact two_writers_reach.
  - reflexivity.
  - lia.
  - by eexists.
  - lia.
  - reflexivity.
  - by eexists.
  - apply others_done.
  - by eexists.
Defined.

Lemma occ_commit_then_read_witness :
  let ws := {["k" := Some (str "x")]} in
  exists c', ValidateAndCommit (H := canonical_range) 1 ws 0 30 30 two_writers = (None, c') /\
    Read 2 "k" 35 c' = Ok (Some (str "x")).
Proof.
  destruct (occ_commit_then_read (MR := canonical_range) two_writers 1 {["k" := Some (str "x")]} 0 30 30 2 20 "k" 35)
    as (c' & E & R).
  - intros k _. reflexivity.
  - lia.
  - reflexivity.
  - left. lia.
  - exists c'. split; [exact E|]. rewrite R. vm_compute. reflexivity.
Defined.
