(* ===== verification/Compression.v ===== *)
(** The block codec (compression.go): packed table entries, the canonical
    Huffman tables, and the run-length and Huffman passes in both directions. *)

From Stdlib Require Import Strings.Byte.
From S2P Require Import Common.
From S2P Require Import Prelude.

Definition u8 (z : Z) : Z := z mod 2 ^ 8.
Definition i16 (z : Z) : Z := (z + 2 ^ 15) mod 2 ^ 16 - 2 ^ 15.

(** ** Packed entries *)

Definition NewHuffmanEntry (code length : Z) : Z :=
  Z.lor (u64 (Z.shiftl length 56)) (Z.land code 0x00FFFFFFFFFFFFFF).
Definition Length (e : Z) : Z := u8 (Z.shiftr e 56).
Definition Code (e : Z) : Z := Z.land e 0x00FFFFFFFFFFFFFF.

Definition NewForestEntry (literal consumedBits : Z) : Z := Z.lor (u16 (Z.shiftl literal 8)) consumedBits.
Definition Literal (f : Z) : Z := u8 (Z.shiftr f 8).
Definition Consumed (f : Z) : Z := u8 (Z.land f 0xFF).

(** ** Tables *)

Record Tables := mkTables {
  GlobalEncoderTable : list Z;
  GlobalForestTable : list Z;
  GlobalOverflowTree : list Z
}.

(** Index into an array: out of range panics. *)
Definition index {A} (l : list A) (i : Z) : result A :=
  if i <? 0 then Panic else match l !! Z.to_nat i with Some x => Ok x | None => Panic end.

Definition assign {A} (l : list A) (i : Z) (x : A) : result (list A) :=
  if (i <? 0) || (zlen l <=? i) then Panic else Ok (<[Z.to_nat i := x]> l).

Definition count_lengths (lengths : list Z) : list Z :=
  fold_left (fun counts l => if (0 <? l) && (l <=? 16) then alter (Z.add 1) (Z.to_nat l) counts else counts)
    lengths (replicate 17 0).

(** [nextCode[i]] for [i] from 1 on; [counts] starts at [lenCounts[i-1]]. *)
Fixpoint next_codes (rounds : nat) (counts : list Z) (code : Z) : list Z :=
  match rounds, counts with
  | S rounds, n :: counts => let code := u64 (Z.shiftl (u64 (code + n)) 1) in code :: next_codes rounds counts code
  | _, _ => []
  end.

(** [for i := startIdx; i < endIdx; i++] on the lookahead table. *)
Definition fill_forest (forest : list Z) (start count : Z) (entry : Z) : list Z :=
  fold_left (fun forest i => if i <? LookaheadSize then <[Z.to_nat i := entry]> forest else forest)
    (seqZ start count) forest.

(** The walk that enters a long code into the overflow tree: [left] bits are
    left to place. *)
Fixpoint grow_tree (left : nat) (huffCode sym currNode : Z) (tree : list Z) (nextNode : Z) :
    result (list Z * Z) :=
  match left with
  | O => Ok (tree, nextNode)
  | S left' =>
      let direction := Z.land (Z.shiftr huffCode (Z.of_nat left')) 1 in
      let treeIdx := currNode + direction in
      if zlen tree <=? treeIdx then Ok (tree, nextNode)
      else if (left' =? 0)%nat
      then tree ← assign tree treeIdx (i16 (- sym - 1)); Ok (tree, nextNode)
      else
        node ← index tree treeIdx;
        if node =? -1
        then
          tree ← assign tree treeIdx nextNode;
          grow_tree left' huffCode sym nextNode tree (i16 (nextNode + 2))
        else grow_tree left' huffCode sym node tree nextNode
  end.

(** The loop over the symbols. *)
Fixpoint assign_codes (sym : Z) (lengths : list Z) (nextCode : list Z) (nextNode : Z) (tb : Tables) :
    result Tables :=
  match lengths with
  | [] => Ok tb
  | l :: lengths' =>
      if l =? 0 then assign_codes (sym + 1) lengths' nextCode nextNode tb
      else
        huffCode ← index nextCode l;
        nextCode ← assign nextCode l (u64 (huffCode + 1));
        enc ← assign (GlobalEncoderTable tb) sym (NewHuffmanEntry huffCode l);
        if l <=? LookaheadBits
        then
          let shift := LookaheadBits - l in
          let forest := fill_forest (GlobalForestTable tb) (i64 (Z.shiftl huffCode shift)) (Z.shiftl 1 shift)
                          (NewForestEntry (u8 sym) l) in
          assign_codes (sym + 1) lengths' nextCode nextNode (mkTables enc forest (GlobalOverflowTree tb))
        else
          '(tree, nextNode) ← grow_tree (Z.to_nat l) huffCode sym 0 (GlobalOverflowTree tb) nextNode;
          assign_codes (sym + 1) lengths' nextCode nextNode (mkTables enc (GlobalForestTable tb) tree)
  end.

Definition BuildDynamicForest (lengths : list Z) (enc : list Z) : result Tables :=
  let nextCode := 0 :: next_codes 16 (count_lengths lengths) 0 in
  assign_codes 0 lengths nextCode 2 (mkTables enc (replicate 256 0) (replicate 1024 (-1))).

(** The code lengths [init] builds the tables from. *)
Definition canonical_length (ch : Z) : Z :=
  if ((97 <=? ch) && (ch <=? 122)) || ((48 <=? ch) && (ch <=? 57)) || (ch =? 32) then 7
  else if ((65 <=? ch) && (ch <=? 90)) || (ch =? 34) || (ch =? 95) || (ch =? 58) then 8
  else 9.

Definition canonicalLengths : list Z := canonical_length <$> seqZ 0 256.

Definition init_tables : result Tables := BuildDynamicForest canonicalLengths (replicate 256 0).

(** ** Compress *)

(** How many bytes at the head equal [b], at most [limit]. *)
Fixpoint run_length (b : byte) (limit : nat) (src : bytes) : nat :=
  match limit, src with
  | S limit, c :: src' => if bool_decide (c = b) then S (run_length b limit src') else 0
  | _, _ => 0
  end.

Definition four_equal (src : bytes) : bool :=
  match src with
  | a :: b :: c :: d :: _ => bool_decide (a = b) && bool_decide (a = c) && bool_decide (a = d)
  | _ => false
  end.

(** The run-length pass over what is left of the source; a round takes at least
    one byte. *)
Fixpoint lre (fuel : nat) (src : bytes) : bytes :=
  match fuel, src with
  | S fuel, b :: src' =>
      if four_equal src
      then
        let runLen := run_length b 255 src in
        xfe :: z2b (Z.of_nat runLen) :: b :: lre fuel (drop runLen src)
      else b :: lre fuel src'
  | _, _ => []
  end.

(** [for bitCount >= 8]: the bytes written and the bits left. *)
Fixpoint emit (rounds : nat) (bitBuffer bitCount : Z) : bytes * Z :=
  match rounds with
  | O => ([], bitCount)
  | S rounds =>
      let '(out, rest) := emit rounds bitBuffer (bitCount - 8) in
      (z2b (Z.shiftr bitBuffer (bitCount - 8)) :: out, rest)
  end.

Fixpoint huffman_encode (enc : list Z) (syms : bytes) (bitBuffer bitCount : Z) : result bytes :=
  match syms with
  | [] => Ok (if 0 <? bitCount then [z2b (Z.shiftl bitBuffer (8 - bitCount))] else [])
  | b :: syms' =>
      entry ← index enc (b2z b);
      let bitBuffer := Z.lor (u64 (Z.shiftl bitBuffer (Length entry))) (Code entry) in
      let bitCount := u8 (bitCount + Length entry) in
      let '(out, bitCount) := emit (Z.to_nat (bitCount / 8)) bitBuffer bitCount in
      rest ← huffman_encode enc syms' bitBuffer bitCount;
      Ok (out ++ rest)
  end.

(** [Compress(src, dst)] with [dstLen] bytes of room: what it writes to the
    front of [dst]; writing past its end panics. *)
Definition Compress (tb : Tables) (src : bytes) (dstLen : Z) : result bytes :=
  if (zlen src =? 0) || (MaxBlockSize <? zlen src) || (dstLen <? 6)
  then Err (Msg "invalid compression parameters")
  else
    let snappy := lre (length src) src in
    payload ← huffman_encode (GlobalEncoderTable tb) snappy 0 0;
    let out := [z2b (Z.shiftr MagicHeader 8); z2b MagicHeader; z2b (Z.shiftr (zlen src) 8); z2b (zlen src);
                z2b (Z.shiftr (zlen snappy) 8); z2b (zlen snappy)] ++ payload in
    if dstLen <? zlen out then Panic else Ok out.

(** ** Decompress *)

(** The refill loop runs at most once: with fewer than eight bits in the buffer
    one more byte is enough.  [bitCount] is a [byte], so the shift count wraps
    when the input has run out. *)
Fixpoint huffman_decode (forest : list Z) (count : nat) (src : bytes) (bitBuffer bitCount : Z) : result bytes :=
  match count with
  | O => Ok []
  | S count =>
      let '(src, bitBuffer, bitCount) :=
        (match src with
         | b :: src' => if bitCount <? LookaheadBits
                        then (src', Z.lor (u64 (Z.shiftl bitBuffer 8)) (b2z b), bitCount + 8)
                        else (src, bitBuffer, bitCount)
         | [] => (src, bitBuffer, bitCount)
         end) in
      let lookahead := Z.land (u16 (Z.shiftr bitBuffer (u8 (bitCount - LookaheadBits)))) LookaheadMask in
      entry ← index forest lookahead;
      if 0 <? Consumed entry
      then
        rest ← huffman_decode forest count src bitBuffer (u8 (bitCount - Consumed entry));
        Ok (z2b (Literal entry) :: rest)
      else Err (Msg "sparse path not implemented")
  end.

(** The run-length expansion; a marker without its two bytes panics. *)
Fixpoint lre_expand (payload : bytes) : result bytes :=
  match payload with
  | [] => Ok []
  | b :: payload' =>
      if bool_decide (b = xfe)
      then
        match payload' with
        | n :: v :: payload'' => rest ← lre_expand payload''; Ok (replicate (Z.to_nat (b2z n)) v ++ rest)
        | _ => Panic
        end
      else rest ← lre_expand payload'; Ok (b :: rest)
  end.

(** [Decompress(src, dst)] with [dstLen] bytes of room. *)
Definition Decompress (tb : Tables) (src : bytes) (dstLen : Z) : result bytes :=
  match src with
  | _ :: _ :: _ :: _ :: h :: l :: body =>
      let snappyLen := Z.lor (Z.shiftl (b2z h) 8) (b2z l) in
      payload ← huffman_decode (GlobalForestTable tb) (Z.to_nat snappyLen) body 0 0;
      out ← lre_expand payload;
      if dstLen <? zlen out then Panic else Ok out
  | _ => Panic
  end.

(** * Correctness *)

(** ** Bits *)

(** The low [n] bits of a number, the highest first. *)
Fixpoint bits (n : nat) (z : Z) : list bool :=
  match n with O => [] | S n => Z.testbit z (Z.of_nat n) :: bits n z end.

Definition byte_bits (bs : bytes) : list bool := bs ≫= fun b => bits 8 (b2z b).

Lemma length_bits n z : length (bits n z) = n.
Proof. induction n; cbn; auto. Qed.

Lemma bits_ext n z z' : (forall i, 0 <= i < Z.of_nat n -> Z.testbit z i = Z.testbit z' i) -> bits n z = bits n z'.
Proof.
  induction n as [|n IH]; intros H; cbn; [done|]. rewrite (H (Z.of_nat n)) by lia.
  f_equal. apply IH. intros. apply H. lia.
Qed.

Lemma bits_app n m z : bits (n + m) z = bits n (Z.shiftr z (Z.of_nat m)) ++ bits m z.
Proof.
  induction n as [|n IH]; [done|]. cbn. rewrite IH, Z.shiftr_spec by lia.
  by replace (Z.of_nat n + Z.of_nat m) with (Z.of_nat (n + m)) by lia.
Qed.

Lemma bits_testbit n z z' i : bits n z = bits n z' -> 0 <= i < Z.of_nat n -> Z.testbit z i = Z.testbit z' i.
Proof.
  induction n as [|n IH]; intros H Hi; [lia|]. cbn in H. injection H as H1 H2.
  destruct (decide (i = Z.of_nat n)) as [->|]; [done | apply IH; [done | lia]].
Qed.

Lemma testbit_high z n i : 0 <= z < 2 ^ n -> n <= i -> Z.testbit z i = false.
Proof.
  intros Hz Hi. destruct (decide (n < 0)); [rewrite Z.pow_neg_r in Hz by lia; lia|].
  apply Z.testbit_false; [lia|]. rewrite Z.div_small; [done|]. split; [lia|].
  apply Z.lt_le_trans with (2 ^ n); [lia | apply Z.pow_le_mono_r; lia].
Qed.

Lemma bits_inj n a b : 0 <= a < 2 ^ Z.of_nat n -> 0 <= b < 2 ^ Z.of_nat n -> bits n a = bits n b -> a = b.
Proof.
  intros Ha Hb H. apply Z.bits_inj'. intros i Hi. destruct (Z_lt_le_dec i (Z.of_nat n)).
  - by apply (bits_testbit n).
  - by rewrite !(testbit_high _ (Z.of_nat n)) by done.
Qed.

Lemma bits_mod n m z : Z.of_nat n <= m -> bits n (z mod 2 ^ m) = bits n z.
Proof. intros H. apply bits_ext. intros i Hi. apply Z.mod_pow2_bits_low. lia. Qed.

Lemma bits_byte z : bits 8 (b2z (z2b z)) = bits 8 z.
Proof. rewrite b2z_z2b. change 256 with (2 ^ 8). by apply bits_mod. Qed.

Lemma lor_range n a b : 0 <= n -> 0 <= a < 2 ^ n -> 0 <= b < 2 ^ n -> 0 <= Z.lor a b < 2 ^ n.
Proof.
  intros Hn Ha Hb. rewrite <- (Z.mod_small a (2 ^ n)), <- (Z.mod_small b (2 ^ n)) by done.
  rewrite <- !Z.land_ones, <- Z.land_lor_distr_l, Z.land_ones by done. apply Z.mod_pos_bound. lia.
Qed.

(** Shifting in the low bits of [c]. *)
Lemma bits_push n m buf c :
  0 <= c < 2 ^ Z.of_nat m -> (n + m <= 64)%nat ->
  bits (n + m) (Z.lor (u64 (Z.shiftl buf (Z.of_nat m))) c) = bits n buf ++ bits m c.
Proof.
  intros Hc Hn. rewrite bits_app. f_equal; apply bits_ext; intros i Hi.
  - rewrite Z.shiftr_spec, Z.lor_spec by lia. unfold u64. rewrite Z.mod_pow2_bits_low by lia.
    rewrite Z.shiftl_spec by lia. rewrite (testbit_high c (Z.of_nat m)) by (done || lia).
    rewrite orb_false_r. f_equal. lia.
  - rewrite Z.lor_spec. unfold u64. rewrite Z.mod_pow2_bits_low by lia. by rewrite Z.shiftl_spec_low by lia.
Qed.

Lemma bits_zero n z : (forall i, 0 <= i < Z.of_nat n -> Z.testbit z i = false) -> bits n z = replicate n false.
Proof.
  induction n as [|n IH]; intros H; cbn; [done|]. rewrite H by lia. f_equal. apply IH. intros. apply H. lia.
Qed.

(** ** Encoding *)

Lemma emit_bits rounds k buf :
  let '(out, rest) := emit rounds buf (8 * Z.of_nat rounds + Z.of_nat k) in
  rest = Z.of_nat k /\ byte_bits out ++ bits k buf = bits (8 * rounds + k) buf.
Proof.
  induction rounds as [|rounds IH]; [done|]. cbn [emit].
  replace (8 * Z.of_nat (S rounds) + Z.of_nat k - 8) with (8 * Z.of_nat rounds + Z.of_nat k) by lia.
  destruct (emit rounds buf _) as [out rest]. destruct IH as [-> IH]. split; [done|].
  unfold byte_bits in *. rewrite bind_cons, <- app_assoc, IH, bits_byte.
  replace (8 * S rounds + k)%nat with (8 + (8 * rounds + k))%nat by lia. rewrite (bits_app 8).
  by replace (Z.of_nat (8 * rounds + k)) with (8 * Z.of_nat rounds + Z.of_nat k) by lia.
Qed.

(** ** The tables *)

(** The characters with a code of at most eight bits. *)
Definition short_code (b : byte) : bool := canonical_length (b2z b) <=? 8.

Definition code_len (b : byte) : nat := Z.to_nat (canonical_length (b2z b)).

(** The tables [init] builds. *)
Definition the_tables : Tables :=
  match init_tables with Ok tb => tb | _ => mkTables [] [] [] end.

Definition code_of (b : byte) : Z := default 0 (Code <$> GlobalEncoderTable the_tables !! Z.to_nat (b2z b)).

Definition code_bits (syms : bytes) : list bool := syms ≫= fun b => bits (code_len b) (code_of b).

(** For each short character: its entry, its length and code, and every lookahead
    that starts with the code leads back to it. *)
Definition entry_good (b : byte) : bool :=
  negb (short_code b) ||
  match GlobalEncoderTable the_tables !! Z.to_nat (b2z b) with
  | Some e =>
      (Length e =? Z.of_nat (code_len b)) && (7 <=? code_len b)%nat && (code_len b <=? 8)%nat &&
      (0 <=? Code e) && (Code e <? 2 ^ Z.of_nat (code_len b)) &&
      forallb (fun x => negb (Z.shiftr x (8 - Z.of_nat (code_len b)) =? Code e) ||
        match GlobalForestTable the_tables !! Z.to_nat x with
        | Some f => (Consumed f =? Z.of_nat (code_len b)) && bool_decide (z2b (Literal f) = b)
        | None => false
        end) (seqZ 0 256)
  | None => false
  end.

Definition all_bytes : bytes := z2b <$> seqZ 0 256.

Lemma elem_of_all_bytes b : b ∈ all_bytes.
Proof.
  apply list_elem_of_fmap. exists (b2z b). split.
  - apply (inj b2z). rewrite b2z_z2b. pose proof (b2z_range b). by rewrite Z.mod_small.
  - apply elem_of_seqZ. pose proof (b2z_range b). lia.
Qed.

Lemma init_tables_ok : init_tables = Ok the_tables /\ forallb entry_good all_bytes = true.
Proof. split; vm_compute; reflexivity. Qed.

(** The first code in the order of the table is that of the space. *)
Lemma code_of_space : code_of x20 = 0.
Proof. vm_compute. reflexivity. Qed.

#[local] Opaque the_tables.

Lemma short_entry b :
  short_code b = true ->
  (7 <= code_len b <= 8)%nat /\ 0 <= code_of b < 2 ^ Z.of_nat (code_len b) /\
  (exists e, index (GlobalEncoderTable the_tables) (b2z b) = Ok e /\
     Length e = Z.of_nat (code_len b) /\ Code e = code_of b) /\
  (forall x, 0 <= x < 256 -> Z.shiftr x (8 - Z.of_nat (code_len b)) = code_of b ->
     exists f, index (GlobalForestTable the_tables) x = Ok f /\
       Consumed f = Z.of_nat (code_len b) /\ z2b (Literal f) = b).
Proof.
  intros Hs. destruct init_tables_ok as [_ H]. rewrite forallb_forall in H.
  specialize (H b (proj1 (list_elem_of_In _ _) (elem_of_all_bytes b))). unfold entry_good, code_of in *.
  rewrite Hs in H. cbn [negb orb] in H. pose proof (b2z_range b).
  destruct (GlobalEncoderTable the_tables !! Z.to_nat (b2z b)) as [e|] eqn:E; [|done].
  cbn [fmap option_fmap option_map default from_option id].
  rewrite !andb_true_iff, !Z.eqb_eq, !Nat.leb_le, Z.leb_le, Z.ltb_lt, forallb_forall in H.
  destruct H as [[[[[H1 H2] H3] H4] H5] H6]. split_and!; [lia | lia | lia | lia | |].
  - exists e. split; [|split; [exact H1 | reflexivity]]. unfold index. rewrite (proj2 (Z.ltb_ge _ _)) by lia. by rewrite E.
  - intros x Hx Hc. specialize (H6 x). rewrite Hc, Z.eqb_refl in H6. cbn [negb orb] in H6.
    destruct (GlobalForestTable the_tables !! Z.to_nat x) as [f|] eqn:Ef.
    + exists f. unfold index. rewrite (proj2 (Z.ltb_ge _ _)), Ef by lia. split; [done|].
      rewrite andb_true_iff, Z.eqb_eq, bool_decide_eq_true in H6. apply H6.
      apply list_elem_of_In, elem_of_seqZ. lia.
    + exfalso. apply diff_false_true, H6, list_elem_of_In, elem_of_seqZ. lia.
Qed.

(** What the encoder writes: the bits still in the buffer, the codes, and zeros up
    to the end of the last byte. *)
Lemma huffman_encode_bits syms buf k :
  Forall short_code syms -> (k < 8)%nat ->
  exists out pad, huffman_encode (GlobalEncoderTable the_tables) syms buf (Z.of_nat k) = Ok out /\
    byte_bits out = bits k buf ++ code_bits syms ++ replicate pad false /\ (pad < 8)%nat.
Proof.
  intros Hs. revert buf k. induction Hs as [|b syms Hb Hs IH]; intros buf k Hk; cbn [huffman_encode].
  - destruct (Z.ltb_spec 0 (Z.of_nat k)).
    + eexists _, (8 - k)%nat. split; [done|]. split; [|lia].
      unfold byte_bits. cbn [mbind list_bind]. rewrite app_nil_r, bits_byte.
      replace 8%nat with (k + (8 - k))%nat at 1 by lia. rewrite bits_app. f_equal.
      * apply bits_ext. intros i Hi. rewrite Z.shiftr_spec, Z.shiftl_spec by lia. f_equal. lia.
      * apply bits_zero. intros i Hi. apply Z.shiftl_spec_low. lia.
    + exists [], 0%nat. replace k with 0%nat by lia. split_and!; [done | done | lia].
  - apply Is_true_true in Hb. destruct (short_entry b Hb) as (Hl & Hc & (e & Ei & El & Ec) & _).
    rewrite Ei. cbn [mbind result_bind]. rewrite El, Ec. set (buf' := Z.lor _ _).
    assert (bits (k + code_len b) buf' = bits k buf ++ bits (code_len b) (code_of b)) as Hbits
      by (apply bits_push; [done | lia]).
    replace (u8 (Z.of_nat k + Z.of_nat (code_len b))) with (Z.of_nat (k + code_len b))
      by (unfold u8; rewrite Z.mod_small; lia).
    set (r := ((k + code_len b) / 8)%nat). set (k' := ((k + code_len b) mod 8)%nat).
    assert (k + code_len b = 8 * r + k')%nat as Ek by apply Nat.div_mod_eq.
    assert (k' < 8)%nat by (apply Nat.mod_upper_bound; lia).
    replace (Z.to_nat (Z.of_nat (k + code_len b) / 8)) with r 
      by (change 8 with (Z.of_nat 8); by rewrite <- Nat2Z.inj_div, Nat2Z.id).
    replace (Z.of_nat (k + code_len b)) with (8 * Z.of_nat r + Z.of_nat k') by lia.
    pose proof (emit_bits r k' buf') as He. destruct (emit r buf' _) as [out rest]. destruct He as [-> He].
    destruct (IH buf' k') as (out' & pad & -> & Hout & Hpad); [lia|]. cbn [mbind result_bind].
    exists (out ++ out'), pad. split; [done|]. split; [|done]. unfold byte_bits in *. rewrite bind_app, Hout.
    unfold code_bits. rewrite bind_cons, <- !app_assoc, (app_assoc _ (bits k' buf')), He, <- Ek, Hbits.
    by rewrite <- !app_assoc.
Qed.

(** ** Decoding *)

(** Reading the first eight of the bits in the buffer. *)
Lemma lookahead_bits buf k :
  (8 <= k <= 15)%nat ->
  let x := Z.land (u16 (Z.shiftr buf (u8 (Z.of_nat k - LookaheadBits)))) LookaheadMask in
  0 <= x < 256 /\ bits k buf = bits 8 x ++ bits (k - 8) buf.
Proof.
  intros Hk x. unfold LookaheadBits in x.
  assert (x = Z.shiftr buf (Z.of_nat (k - 8)) mod 2 ^ 8) as ->.
  { unfold x, u8. rewrite Z.mod_small by lia. change LookaheadMask with (Z.ones 8). rewrite Z.land_ones by lia.
    unfold u16. replace (Z.of_nat k - 8) with (Z.of_nat (k - 8)) by lia.
    apply Z.bits_inj'. intros i Hi. destruct (Z_lt_le_dec i 8).
    - by rewrite !Z.mod_pow2_bits_low by lia.
    - by rewrite !Z.mod_pow2_bits_high by lia. }
  split; [apply Z.mod_pos_bound; lia|]. rewrite bits_mod by lia.
  replace k with (8 + (k - 8))%nat at 1 by lia. apply bits_app.
Qed.

(** A lookahead that starts with the code of a short character decodes to it. *)
Lemma lookahead_code b x rest rest' :
  short_code b = true -> 0 <= x < 256 -> bits 8 x ++ rest = bits (code_len b) (code_of b) ++ rest' ->
  exists f, index (GlobalForestTable the_tables) x = Ok f /\
    Consumed f = Z.of_nat (code_len b) /\ z2b (Literal f) = b.
Proof.
  intros Hb Hx H. destruct (short_entry b Hb) as (Hl & Hc & _ & Hf). apply Hf; [done|].
  set (m := (8 - code_len b)%nat). replace (8 - Z.of_nat (code_len b)) with (Z.of_nat m) by lia.
  apply (bits_inj (code_len b)); [|done|].
  - rewrite Z.shiftr_div_pow2 by lia. split; [apply Z.div_pos; lia|]. apply Z.div_lt_upper_bound; [lia|].
    rewrite <- Z.pow_add_r by lia. replace (Z.of_nat m + Z.of_nat (code_len b)) with 8 by lia. lia.
  - assert (bits 8 x = bits (code_len b) (Z.shiftr x (Z.of_nat m)) ++ bits m x) as E.
    { replace 8%nat with (code_len b + m)%nat by lia. apply bits_app. }
    rewrite E, <- app_assoc in H. apply app_inj_1 in H as [H _]; [done|]. by rewrite !length_bits.
Qed.

Abbreviation decode := (huffman_decode (GlobalForestTable the_tables)) (only parsing).

(** One symbol: enough bits in the buffer, possibly after one more byte. *)
Lemma decode_full b count src buf k rest :
  short_code b = true -> (8 <= k <= 15)%nat ->
  bits k buf ++ byte_bits src = bits (code_len b) (code_of b) ++ rest ->
  exists k', (k' <= 8)%nat /\ bits k' buf ++ byte_bits src = rest /\
    (entry ← index (GlobalForestTable the_tables)
       (Z.land (u16 (Z.shiftr buf (u8 (Z.of_nat k - LookaheadBits)))) LookaheadMask);
     if 0 <? Consumed entry
     then rest ← decode count src buf (u8 (Z.of_nat k - Consumed entry)); Ok (z2b (Literal entry) :: rest)
     else Err (Msg "sparse path not implemented")) =
    (syms ← decode count src buf (Z.of_nat k'); Ok (b :: syms)).
Proof.
  intros Hb Hk H. destruct (short_entry b Hb) as (Hl & _).
  destruct (lookahead_bits buf k Hk) as [Hx Hbits]. set (x := Z.land _ _) in *.
  pose proof H as H'. rewrite Hbits, <- app_assoc in H'.
  destruct (lookahead_code b x _ _ Hb Hx H') as (f & -> & Ec & El). cbn [mbind result_bind].
  rewrite Ec, El, (proj2 (Z.ltb_lt _ _)) by lia. exists (k - code_len b)%nat. split; [lia|]. split.
  - replace k with (code_len b + (k - code_len b))%nat in H at 1 by lia. rewrite bits_app, <- app_assoc in H.
    apply app_inj_1 in H as [_ H]; [done|]. by rewrite !length_bits.
  - replace (u8 (Z.of_nat k - Z.of_nat (code_len b))) with (Z.of_nat (k - code_len b)); [done|].
    unfold u8. rewrite Z.mod_small; lia.
Qed.

Lemma decode_step b count src buf k rest :
  short_code b = true -> (k <= 8)%nat ->
  0 <= buf < 2 ^ 64 ->
  bits k buf ++ byte_bits src = bits (code_len b) (code_of b) ++ rest -> (8 <= code_len b + length rest)%nat ->
  exists src' buf' k', (k' <= 8)%nat /\ 0 <= buf' < 2 ^ 64 /\ bits k' buf' ++ byte_bits src' = rest /\
    decode (S count) src buf (Z.of_nat k) = (syms ← decode count src' buf' (Z.of_nat k'); Ok (b :: syms)).
Proof.
  intros Hb Hk Hbuf H Hlen. cbn [huffman_decode]. destruct src as [|c src].
  - assert (k = 8)%nat as ->.
    { apply (f_equal length) in H. rewrite !length_app, !length_bits in H. cbn in H. lia. }
    destruct (decode_full b count [] buf 8 rest Hb ltac:(lia) H) as (k' & Hk' & Hr & E). by exists [], buf, k'.
  - unfold LookaheadBits at 1. destruct (Z.ltb_spec (Z.of_nat k) 8).
    + set (buf' := Z.lor _ _). replace (Z.of_nat k + 8) with (Z.of_nat (k + 8)) by lia.
      assert (bits (k + 8) buf' = bits k buf ++ bits 8 (b2z c)) as Hp.
      { apply (bits_push k 8); [apply b2z_range | lia]. }
      destruct (decode_full b count src buf' (k + 8) rest Hb ltac:(lia)) as (k' & Hk' & Hr & E).
      { rewrite Hp, <- app_assoc. exact H. }
      exists src, buf', k'. pose proof (b2z_range c).
      assert (0 <= buf' < 2 ^ 64) by (apply lor_range; [lia | apply Z.mod_pos_bound; lia | lia]).
      done.
    + assert (k = 8)%nat as -> by lia.
      destruct (decode_full b count (c :: src) buf 8 rest Hb ltac:(lia) H) as (k' & Hk' & Hr & E).
      by exists (c :: src), buf, k'.
Qed.

(** All symbols but what [n] more rounds decode. *)
Lemma decode_syms syms n src buf k rest :
  Forall short_code syms -> (k <= 8)%nat -> 0 <= buf < 2 ^ 64 ->
  bits k buf ++ byte_bits src = code_bits syms ++ rest ->
  (forall s, last syms = Some s -> (8 <= code_len s + length rest)%nat) ->
  exists src' buf' k', (k' <= 8)%nat /\ 0 <= buf' < 2 ^ 64 /\ bits k' buf' ++ byte_bits src' = rest /\
    decode (length syms + n)%nat src buf (Z.of_nat k) = (out ← decode n src' buf' (Z.of_nat k'); Ok (syms ++ out)).
Proof.
  intros Hs. revert src buf k. induction Hs as [|b syms Hb Hs IH]; intros src buf k Hk Hbuf H Hlast.
  { exists src, buf, k. split; [done|]. split; [done|]. split; [exact H|]. cbn [length Nat.add app]. by destruct (decode n src buf _). }
  unfold code_bits in H. rewrite bind_cons, <- app_assoc in H. apply Is_true_true in Hb.
  destruct (decode_step b (length syms + n) src buf k _ Hb Hk Hbuf H) as (src1 & buf1 & k1 & Hk1 & Hb1 & H1 & E).
  { rewrite length_app. destruct Hs as [|b' syms Hb' Hs']; [specialize (Hlast b eq_refl); cbn; lia|].
    rewrite bind_cons, length_app, length_bits. apply Is_true_true in Hb'.
    destruct (short_entry b Hb) as (? & _), (short_entry b' Hb') as (? & _). lia. }
  destruct (IH src1 buf1 k1 Hk1 Hb1 H1) as (src' & buf' & k' & Hk' & Hb' & H' & E').
  { intros s Hl. apply Hlast. destruct syms; [done|]. exact Hl. }
  exists src', buf', k'. split; [done|]. split; [done|]. split; [done|]. cbn [length Nat.add]. rewrite E, E'.
  by destruct (decode n src' buf' _).
Qed.

(** The last symbol of seven bits with no bit behind it: the shift count wraps and
    a space comes out. *)
Lemma decode_short_end b src buf k :
  short_code b = true -> code_len b = 7%nat -> (k <= 8)%nat -> 0 <= buf < 2 ^ 64 ->
  bits k buf ++ byte_bits src = bits 7 (code_of b) -> decode 1 src buf (Z.of_nat k) = Ok [x20].
Proof.
  intros Hb Hl Hk Hbuf H.
  assert (src = [] /\ k = 7%nat) as [-> ->].
  { apply (f_equal length) in H. rewrite length_app, !length_bits in H.
    destruct src; [cbn in H; split; [done | lia]|].
    unfold byte_bits in H. rewrite bind_cons, length_app, length_bits in H. lia. }
  cbn [huffman_decode]. replace (u8 (Z.of_nat 7 - LookaheadBits)) with 255 by reflexivity.
  replace (Z.shiftr buf 255) with 0.
  2:{ rewrite Z.shiftr_div_pow2 by lia. symmetry. apply Z.div_small. split; [lia|].
      apply Z.lt_trans with (2 ^ 64); [lia | reflexivity]. }
  change (Z.land (u16 0) LookaheadMask) with 0.
  destruct (short_entry x20 ltac:(reflexivity)) as (Hlen & _ & _ & Hf).
  destruct (Hf 0) as (f & -> & Ec & El); [lia | by rewrite Z.shiftr_0_l, code_of_space |].
  cbn [mbind result_bind]. by rewrite Ec, El, (proj2 (Z.ltb_lt _ _)) by lia.
Qed.

(** ** Whole blocks *)

(** No four equal bytes in a row. *)
Definition no_run (src : bytes) : Prop := forall i, four_equal (drop i src) = false.

Lemma lre_no_run src : no_run src -> lre (length src) src = src.
Proof.
  induction src as [|b src IH]; intros Hn; [done|]. cbn [length lre].
  assert (four_equal (b :: src) = false) as -> by exact (Hn 0%nat). f_equal.
  apply IH. intros i. exact (Hn (S i)).
Qed.

Lemma lre_expand_short src : Forall short_code src -> lre_expand src = Ok src.
Proof.
  induction 1 as [|b src Hb Hs IH]; [done|]. cbn [lre_expand].
  rewrite bool_decide_eq_false_2 by (intros ->; vm_compute in Hb; done). by rewrite IH.
Qed.

Lemma snappy_len n :
  0 <= n < 2 ^ 16 -> Z.lor (Z.shiftl (b2z (z2b (Z.shiftr n 8))) 8) (b2z (z2b n)) = n.
Proof.
  intros Hn. rewrite !b2z_z2b, Z.shiftr_div_pow2, Z.lor_comm by lia. change (2 ^ 8) with 256.
  rewrite (Z.mod_small (n / 256)) by (split; [apply Z.div_pos; lia | apply Z.div_lt_upper_bound; lia]).
  rewrite lor_shiftl by (pose proof (Z.mod_pos_bound n 256); lia). change (2 ^ 8) with 256.
  pose proof (Z.div_mod n 256). lia.
Qed.

Lemma length_byte_bits bs : length (byte_bits bs) = (8 * length bs)%nat.
Proof.
  induction bs as [|b bs IH]; [done|]. unfold byte_bits in *. rewrite bind_cons, length_app, length_bits, IH. cbn [length]. lia.
Qed.

Lemma length_code_bits src : Forall short_code src -> (length (code_bits src) <= 8 * length src)%nat.
Proof.
  induction 1 as [|b src Hb Hs IH]; [cbn; lia|]. apply Is_true_true in Hb.
  destruct (short_entry b Hb) as (? & _). unfold code_bits in *. rewrite bind_cons, length_app, length_bits. cbn [length]. lia.
Qed.

(** What comes back from a coded text: the last character is lost when the codes
    fill whole bytes and the last one has seven bits. *)
Definition last_read (pre : bytes) (b : byte) : byte :=
  if (length (code_bits (pre ++ [b])) mod 8 =? 0)%nat && (code_len b =? 7)%nat then x20 else b.

Lemma decode_block pre b payload pad :
  Forall short_code (pre ++ [b]) -> (pad < 8)%nat ->
  byte_bits payload = code_bits (pre ++ [b]) ++ replicate pad false ->
  decode (length (pre ++ [b])) payload 0 0 = Ok (pre ++ [last_read pre b]).
Proof.
  intros Hs Hpad Hbits. pose proof Hs as [Hpre Hb]%Forall_app. apply Forall_cons in Hb as [Hb%Is_true_true _].
  destruct (short_entry b Hb) as (Hl & _). unfold last_read.
  assert (length (code_bits (pre ++ [b])) + pad = 8 * length payload)%nat as Hlen.
  { rewrite <- length_byte_bits, Hbits, length_app, length_replicate. done. }
  destruct ((length (code_bits (pre ++ [b])) mod 8 =? 0)%nat && (code_len b =? 7)%nat) eqn:E.
  - apply andb_true_iff in E as [E1%Nat.eqb_eq E2%Nat.eqb_eq].
    assert (pad = 0)%nat as -> by (apply Nat.Div0.mod_divides in E1 as [c Hc]; lia).
    assert (byte_bits payload = code_bits pre ++ bits 7 (code_of b)) as Hb7.
    { rewrite Hbits. unfold code_bits. rewrite bind_app, bind_cons, E2. cbn [mbind list_bind replicate].
      by rewrite !app_nil_r. }
    destruct (decode_syms pre 1 payload 0 0 _ Hpre ltac:(lia) ltac:(lia) Hb7) as (src' & buf' & k' & Hk' & Hbuf' & H' & E').
    { intros s Hlast. rewrite length_bits. apply last_Some_elem_of in Hlast. rewrite Forall_forall in Hpre.
      specialize (Hpre s Hlast). apply Is_true_true in Hpre. destruct (short_entry s Hpre) as (? & _). lia. }
    rewrite length_app. cbn [length]. change 0 with (Z.of_nat 0) at 2. rewrite E'.
    by rewrite (decode_short_end b) by done.
  - destruct (decode_syms (pre ++ [b]) 0 payload 0 0 _ Hs ltac:(lia) ltac:(lia) Hbits) as (src' & buf' & k' & _ & _ & _ & E').
    { intros s. rewrite last_snoc. intros [= <-]. rewrite length_replicate.
      apply andb_false_iff in E as [E%Nat.eqb_neq|E%Nat.eqb_neq]; [|lia].
      destruct (decide (pad = 0)%nat) as [->|]; [|lia].
      exfalso. apply E. rewrite Nat.add_0_r in Hlen. rewrite Hlen, Nat.mul_comm. apply Nat.Div0.mod_mul. }
    rewrite Nat.add_0_r in E'. change 0 with (Z.of_nat 0) at 2. rewrite E'. cbn [huffman_decode mbind result_bind].
    by rewrite app_nil_r.
Qed.

(** C34: The block codec on plain text. A text of letters, digits, spaces, quotes,
    underscores and colons (the characters with codes of at most eight bits)
    without four equal characters in a row is compressed without error into at
    most six bytes more than it has, and decompressing gives the text back, except
    that its last character comes back as a space when the codes fill whole bytes
    and the last code has seven bits (an eight-letter lower-case word, for
    instance). *)
Theorem codec_roundtrip pre b dstLen outLen :
  let src := pre ++ [b] in
  zlen src <= MaxBlockSize -> Forall short_code src -> no_run src ->
  6 + zlen src <= dstLen -> zlen src <= outLen ->
  init_tables = Ok the_tables /\
  exists out, Compress the_tables src dstLen = Ok out /\ zlen out <= 6 + zlen src /\
    Decompress the_tables out outLen = Ok (pre ++ [last_read pre b]).
Proof.
  intros src Hmax Hs Hrun Hdst Hout. split; [exact (proj1 init_tables_ok)|].
  assert (0 < zlen src) by (unfold src; rewrite zlen_app, zlen_cons; pose proof (zlen_nonneg pre); change (zlen []) with 0; lia).
  destruct (huffman_encode_bits src 0 0 Hs ltac:(lia)) as (payload & pad & Ee & Hbits & Hpad).
  cbn [bits app] in Hbits. change (Z.of_nat 0) with 0 in Ee.
  assert (zlen payload <= zlen src) as Hlen.
  { pose proof (length_code_bits src Hs). apply (f_equal length) in Hbits.
    rewrite length_byte_bits, length_app, length_replicate in Hbits. unfold zlen. lia. }
  unfold Compress. rewrite lre_no_run by done. unfold MaxBlockSize in *.
  rewrite (proj2 (Z.eqb_neq _ _)), !(proj2 (Z.ltb_ge _ _)) by lia. cbn [orb]. rewrite Ee. cbn [mbind result_bind].
  set (h := [_; _; _; _; _; _]). rewrite zlen_app. change (zlen h) with 6.
  rewrite (proj2 (Z.ltb_ge _ _)) by lia. eexists. split; [done|]. split; [rewrite zlen_app; change (zlen h) with 6; lia|].
  unfold h. cbn [app Decompress]. rewrite snappy_len by lia.
  replace (Z.to_nat (zlen src)) with (length src) by (unfold zlen; lia).
  pose proof (decode_block pre b payload pad Hs Hpad Hbits) as Hd. fold src in Hd. rewrite Hd.
  cbn [mbind result_bind]. rewrite lre_expand_short.
  - cbn [mbind result_bind]. rewrite (proj2 (Z.ltb_ge _ _)); [done|].
    unfold src in Hout. rewrite !zlen_app, !zlen_cons in *. done.
  - apply Forall_app in Hs as [Hp Hb]. apply Forall_app. split; [done|]. unfold last_read.
    destruct (_ && _); [|done]. apply Forall_cons. split; [exact I | apply Forall_nil_2].
Qed.

Lemma codec_roundtrip_witness :
  exists out, Compress the_tables (str "abcdefg" ++ [x68]) 100 = Ok out /\
    Decompress the_tables out 100 = Ok (str "abcdefg" ++ [x20]).
Proof.
  destruct (codec_roundtrip (str "abcdefg") x68 100 100) as (_ & out & E1 & _ & E2).
  - vm_compute. discriminate.
  - apply (bool_decide_unpack _). vm_compute. exact I.
  - intros i. do 9 (destruct i as [|i]; [reflexivity|]). reflexivity.
  - vm_compute. discriminate.
  - vm_compute. discriminate.
  - exists out. split; [exact E1|]. rewrite E2. vm_compute. reflexivity.
Defined.
