(* ===== verification/PoolPins.v ===== *)
(** Pin counts: how many callers hold a page.  A fetch adds one pin to its
    page and touches no other, a page somebody holds stays in its frame, and a
    fetch succeeds as long as fewer pages are held than there are frames.
    These are the facts a client that holds several pages at once needs. *)

From Stdlib Require Import Strings.Byte.
From S2P Require Import Common.
From S2P Require Import Prelude.
From S2P Require Import VFS.
From S2P Require Import LRU.
From S2P Require Import Page.
From S2P Require Import Telemetry.
From S2P Require Import BufferPool.
From S2P Require Import PoolInv.
From S2P Require Import PoolOps.

Section Counts.
Context {D P : Type} `{DS : BlockDeviceSpec D} `{PS : EvictionPolicySpec P} `{MR : MapRange}.
Implicit Types bp : BufferPool D P.

Definition pins bp (id : PageID) : Z :=
  match pageTable bp !! id with
  | Some i => match frames bp !! i with Some p => PinCount p | None => 0 end
  | None => 0
  end.

Lemma pins_cached bp id i p :
  pageTable bp !! id = Some i -> frames bp !! i = Some p -> pins bp id = PinCount p.
Proof. unfold pins. by intros -> ->. Qed.

Lemma pins_nonneg X bp id : pool_inv X bp -> 0 <= pins bp id.
Proof.
  intros Hinv. unfold pins. destruct (pageTable bp !! id) as [i|]; [|done].
  destruct (frames bp !! i) eqn:Hp; [|done]. by apply (inv_pins _ _ Hinv i).
Qed.

Lemma pins_pos bp id :
  0 < pins bp id -> exists i p, pageTable bp !! id = Some i /\ frames bp !! i = Some p /\ 0 < PinCount p.
Proof.
  unfold pins. destruct (pageTable bp !! id) as [i|]; [|lia].
  destruct (frames bp !! i) as [p|] eqn:Hp; [|lia]. eauto.
Qed.

Lemma idle_pins bp : (forall id, pins bp id = 0) <-> idle bp.
Proof.
  split.
  - intros Hz id i p Hi Hp. by rewrite <- (Hz id), (pins_cached bp id i p).
  - intros Hi id. unfold pins. destruct (pageTable bp !! id) as [i|] eqn:E; [|done].
    destruct (frames bp !! i) as [p|] eqn:Hp; [|done]. by apply (Hi id i).
Qed.

(** A page that is held may be added to the pages under modification, so the
    invariant of the next state shows it is still held. *)
Lemma busy_pins X bp id : pool_inv X bp -> 0 < pins bp id -> pool_inv ({[id]} ∪ X) bp.
Proof. intros Hinv (i & p & Hi & Hp & Hpin)%pins_pos. by apply (inv_start X bp id i p). Qed.

(** The other pages a fetch leaves cached were cached, in the same frame and
    with the same pins. *)
Lemma FetchPage_others X bp id r bp' :
  pool_inv X bp -> page_id_ok id -> FetchPage bp id = (r, bp') ->
  match r with Ok _ | Err _ => True | _ => False end ->
  forall id' i p', pageTable bp' !! id' = Some i -> frames bp' !! i = Some p' ->
    (id' = id /\ exists j, r = Ok j /\ i = j /\ PinCount p' = pins bp id + 1) \/
    (id' <> id /\ exists p, pageTable bp !! id' = Some i /\ frames bp !! i = Some p /\ PinCount p' = PinCount p).
Proof.
  intros Hinv Hok. unfold FetchPage. destruct (pageTable bp !! id) as [i|] eqn:Hi.
  { intros [= <- <-] _ id' j p' Hj Hp'. cbn in Hj.
    destruct (inv_table _ _ Hinv id i Hi) as (_ & p & Hp & _).
    change (frames (update_frame i (add_pin 1) bp) !! j = Some p') in Hp'. rewrite lookup_update_frame in Hp'.
    destruct (decide (i = j)) as [<-|Hne].
    - left. assert (id' = id) as -> by by apply (table_inj X bp _ _ i). split; [done|]. exists i.
      rewrite Hp in Hp'. injection Hp' as <-. by rewrite (pins_cached bp id i p).
    - right. split; [intros ->; congruence|]. exists p'. done. }
  set (bp0 := set_metrics _ bp).
  destruct (getAvailableFrame bp0) as [rg bp1] eqn:Hg.
  assert (pool_inv X bp0) as Hinv0 by by apply inv_set_metrics.
  pose proof (getAvailableFrame_pins X _ _ _ Hinv0 Hg) as Hk.
  apply (getAvailableFrame_spec X) in Hg; [|done].
  assert (forall id' j p', pageTable bp1 !! id' = Some j -> frames bp1 !! j = Some p' ->
    id' <> id /\ exists p, pageTable bp !! id' = Some j /\ frames bp !! j = Some p /\ PinCount p' = PinCount p) as Hother.
  { intros id' j p' Hj Hp'. destruct (Hk id' j p' Hj Hp') as (p & Hpi & Hp & Hpp).
    split; [intros ->; cbn in Hpi; congruence|]. exists p. done. }
  destruct rg as [i|e| |]; [| |done|by intros [= <- <-] []].
  2:{ intros [= <- <-] _ id' j p' Hj Hp'. right. by apply Hother. }
  destruct Hg as (Hinv1 & Hview1 & Hsub).
  change (disk (update_frame i (reset_page id) bp1)) with (disk bp1).
  destruct (ReadPage_spec (disk bp1) id Hok) as (data & e & -> & _).
  set (bp2 := update_frame i (fun p => set_Data p data) (update_frame i (reset_page id) bp1)).
  assert (forall id' j, pageTable bp1 !! id' = Some j -> frames bp2 !! j = frames bp1 !! j) as Hfr.
  { intros id' j Hj. assert (j <> i) as Hne.
    { intros ->. destruct (inv_free _ _ Hinv1 i ltac:(left)) as [_ Hno]. by apply (Hno id'). }
    cbn. by rewrite !list_lookup_alter_ne by done. }
  assert (forall id' j p', pageTable bp1 !! id' = Some j -> frames bp2 !! j = Some p' ->
    id' <> id /\ exists p, pageTable bp !! id' = Some j /\ frames bp !! j = Some p /\ PinCount p' = PinCount p) as Hother2.
  { intros id' j p' Hj. rewrite (Hfr id' j Hj). by apply Hother. }
  destruct (match e with Some _ => _ | None => _ end).
  { intros [= <- <-] _ id' j p' Hj Hp'. right. by apply (Hother2 id' j p'). }
  destruct (if isAllZero data then _ else _).
  { intros [= <- <-] _ id' j p' Hj Hp'. right. by apply (Hother2 id' j p'). }
  intros [= <- <-] _ id' j p'. cbn [pageTable set_evictor set_pageTable frames].
  intros [[<- <-]|[Hne Hj]]%lookup_insert_Some Hp'; [left|right; by apply (Hother2 id' j p')].
  split; [done|]. exists i. split; [done|]. split; [done|]. unfold pins. rewrite Hi.
  unfold bp2 in Hp'. rewrite !lookup_update_frame, !decide_True in Hp' by done.
  destruct (frames bp1 !! i); [|done]. cbn in Hp'. by injection Hp' as <-.
Qed.

(** A fetch adds one pin to its page and to no other; a failed fetch adds none. *)
Lemma FetchPage_pins X bp id r bp' :
  pool_inv X bp -> page_id_ok id -> FetchPage bp id = (r, bp') ->
  match r with
  | Ok _ => forall id', pins bp' id' = pins bp id' + if decide (id' = id) then 1 else 0
  | Err _ => forall id', pins bp' id' = pins bp id'
  | _ => True
  end.
Proof.
  intros Hinv Hok Hf.
  assert (match r with Ok _ | Err _ => True | _ => False end ->
    forall id', id' <> id \/ (exists e, r = Err e) -> pins bp' id' = pins bp id') as Hothers.
  { intros Hr id' Hne. pose proof (FetchPage_others X bp id r bp' Hinv Hok Hf Hr) as Ho.
    destruct (pageTable bp' !! id') as [i|] eqn:Hi.
    - assert (exists p, frames bp' !! i = Some p) as [p Hp].
      { pose proof (FetchPage_spec X bp id r bp' Hinv Hok Hf) as Hs.
        assert (pool_inv X bp') as Hinv' by by destruct r; [apply Hs|apply Hs|..].
        destruct (inv_table _ _ Hinv' id' i Hi) as (_ & p & Hp & _). eauto. }
      rewrite (pins_cached bp' id' i p) by done.
      destruct (Ho id' i p Hi Hp) as [(-> & j & -> & _)|(_ & q & Hqi & Hq & ->)].
      + destruct Hne as [Hne|[e He]]; congruence.
      + by rewrite (pins_cached bp id' i q).
    - assert (pins bp' id' = 0) as -> by (unfold pins; by rewrite Hi).
      pose proof (pins_nonneg X bp id' Hinv). destruct (decide (0 < pins bp id')) as [Hpos|]; [|lia].
      pose proof (FetchPage_spec _ bp id r bp' (busy_pins X bp id' Hinv Hpos) Hok Hf) as Hs.
      assert (pool_inv ({[id']} ∪ X) bp') as Hinv' by by destruct r; [apply Hs|apply Hs|..].
      destruct (inv_busy _ _ Hinv' id' ltac:(set_solver)) as (i & p & Hi' & _). congruence. }
  destruct r as [i|e| |]; try done.
  - intros id'. case_decide as E; [subst id'|rewrite Z.add_0_r; by apply Hothers; [|left]].
    pose proof (FetchPage_spec X bp id _ bp' Hinv Hok Hf) as (_ & _ & Ht & p & Hp & _).
    rewrite (pins_cached bp' id i p) by done.
    by destruct (FetchPage_others X bp id _ bp' Hinv Hok Hf I id i p Ht Hp) as [(_ & j & _ & _ & ->)|[? _]].
  - intros id'. apply Hothers; [done|]. eauto.
Qed.

(** A page somebody holds keeps its frame. *)
Lemma FetchPage_keeps_frame X bp id i bp' id' j :
  pool_inv X bp -> page_id_ok id -> FetchPage bp id = (Ok i, bp') ->
  pageTable bp !! id' = Some j -> 0 < pins bp id' -> pageTable bp' !! id' = Some j.
Proof.
  intros Hinv Hok Hf Hj Hpos.
  pose proof (FetchPage_spec _ bp id _ bp' (busy_pins X bp id' Hinv Hpos) Hok Hf) as (Hinv' & _ & Ht & _).
  destruct (inv_busy _ _ Hinv' id' ltac:(set_solver)) as (j' & p & Hj' & Hp & _).
  destruct (FetchPage_others X bp id _ bp' Hinv Hok Hf I id' j' p Hj' Hp) as [(-> & k & [= <-] & -> & _)|(_ & q & Hq & _)];
    [|congruence].
  unfold FetchPage in Hf. rewrite Hj in Hf. injection Hf as <- <-. congruence.
Qed.

(** Giving a pin back. *)
Lemma UnpinPage_pins X bp id b :
  pool_inv X bp -> 0 < pins bp id ->
  forall id', pins (UnpinPage bp id b) id' = pins bp id' - if decide (id' = id) then 1 else 0.
Proof.
  intros Hinv (i & p & Hi & Hp & _)%pins_pos id'. unfold UnpinPage. rewrite Hi. unfold pins.
  change (pageTable (update_frame i _ bp)) with (pageTable bp).
  destruct (pageTable bp !! id') as [j|] eqn:Hj.
  - rewrite lookup_update_frame. destruct (decide (i = j)) as [<-|Hne].
    + assert (id' = id) as -> by by apply (table_inj X bp _ _ i). rewrite decide_True, Hp by done.
      by destruct b.
    + rewrite (decide_False (P := id' = id)) by congruence. lia.
  - rewrite decide_False by congruence. lia.
Qed.

Lemma UnpinPage_frames bp id b : length (frames (UnpinPage bp id b)) = length (frames bp).
Proof. unfold UnpinPage. case_match; [|done]. cbn. by rewrite length_alter. Qed.

(** Changing a held page in place keeps every pin. *)
Lemma update_frame_pins bp i f :
  (forall p, frames bp !! i = Some p -> PinCount (f p) = PinCount p) ->
  forall id, pins (update_frame i f bp) id = pins bp id.
Proof.
  intros Hf id. unfold pins. change (pageTable (update_frame i f bp)) with (pageTable bp).
  destruct (pageTable bp !! id) as [j|]; [|done]. rewrite lookup_update_frame.
  case_decide as E; [|done]. subst j. destruct (frames bp !! i) as [p|] eqn:Hp; [|done]. by apply Hf.
Qed.
End Counts.

(** ** Enough frames *)

Section Enough.
Context {D : Type} `{DS : BlockDeviceSpec D} `{RD : !ReliableDevice D} `{MR : MapRange}.
Implicit Types bp : BufferPool D LRUEvictionPolicy.

(** While fewer pages are held than there are frames, any page can be fetched. *)
Lemma FetchPage_room X bp id (held : gset PageID) :
  pool_inv X bp -> page_id_ok id -> (forall id', 0 < pins bp id' -> id' ∈ held) ->
  (base.size held < length (frames bp))%nat -> exists i bp', FetchPage bp id = (Ok i, bp').
Proof.
  intros Hinv Hok Hheld Hsize. apply (FetchPage_progress X); [done..|].
  destruct (freeList bp) as [|j l] eqn:Hfree; [|right; by left].
  right. right. destruct (decide (dom (pageTable bp) ∖ held = ∅)) as [Hsub|Hsub].
  - assert (dom (pageTable bp) ⊆ held) as Hin%subseteq_size by set_solver. rewrite size_dom in Hin.
    pose proof (inv_cover _ _ Hinv) as Hcov. rewrite Hfree in Hcov. cbn in Hcov. lia.
  - apply set_choose_L in Hsub as [u [[i Hi]%elem_of_dom Hu]%elem_of_difference].
    destruct (inv_table _ _ Hinv u i Hi) as (_ & p & Hp & _). exists u, i, p. split_and!; try done.
    destruct (decide (0 < PinCount p)) as [Hpos|]; [|lia]. destruct Hu. apply Hheld.
    by rewrite (pins_cached bp u i p).
Qed.
End Enough.
