(* ===== verification/PoolLatch.v ===== *)
(** Fetching a page while holding latches.  The emergency flush of the pool takes
    the latch of every dirty page, so a caller that holds one of them waits for
    itself; below the flush threshold a fetch is the same with and without
    latches, and no fetch raises the number of dirty pages. *)

From Stdlib Require Import Strings.Byte.
From S2P Require Import Common.
From S2P Require Import Prelude.
From S2P Require Import VFS.
From S2P Require Import LRU.
From S2P Require Import Page.
From S2P Require Import Telemetry.
From S2P Require Import BufferPool.
From S2P Require Import PoolInv.
From S2P Require Import PoolOps.
From S2P Require Import PoolPins.

Section Latches.
Context {D P : Type} `{DS : BlockDeviceSpec D} `{PS : EvictionPolicySpec P} `{MR : MapRange}.
Implicit Types bp : BufferPool D P.

(** [n] more pages may become dirty before the pool flushes. *)
Definition slack (n : nat) bp : Prop := 5 * (dirty_count bp + Z.of_nat n) < 4 * zlen (frames bp).

Lemma slack_no_flush n bp : slack n bp -> flush_due bp = false.
Proof. unfold slack, flush_due. intros Hs. apply andb_false_iff. right. apply Z.leb_gt. lia. Qed.

Lemma slack_le m n bp : (m <= n)%nat -> slack n bp -> slack m bp.
Proof. unfold slack. lia. Qed.

Lemma FetchLatched_slack latches n bp id : slack n bp -> FetchLatched latches bp id = FetchPage bp id.
Proof. intros Hs%slack_no_flush. unfold FetchLatched. by rewrite Hs, andb_false_r. Qed.

(** A caller with these latches cannot run into the flush. *)
Definition may_fetch (latches : list nat) bp : Prop := latches = [] \/ slack 0 bp.

Lemma FetchLatched_may latches bp id : may_fetch latches bp -> FetchLatched latches bp id = FetchPage bp id.
Proof. intros [->|Hs]; [done|]. by apply (FetchLatched_slack _ 0). Qed.

Lemma FetchLatched_cases latches bp id r bp' :
  FetchLatched latches bp id = (r, bp') -> FetchPage bp id = (r, bp') \/ r = Hang.
Proof. unfold FetchLatched. case_match; [intros [= <- _]; by right | by left]. Qed.

(** ** The dirty pages *)

(** The dirty pages of [bp'] were dirty in [bp], in the same frames. *)
Definition dirt_kept bp bp' : Prop :=
  forall id i p', pageTable bp' !! id = Some i -> frames bp' !! i = Some p' -> IsDirty p' = true ->
    exists p, pageTable bp !! id = Some i /\ frames bp !! i = Some p /\ IsDirty p = true.

#[export] Instance dirt_kept_preorder : PreOrder dirt_kept.
Proof.
  split; [intros bp id i p Hi Hp Hd; by exists p|].
  intros a b c Hab Hbc id i p Hi Hp Hd. destruct (Hbc id i p Hi Hp Hd) as (q & ? & ? & ?). by apply (Hab id i q).
Qed.

Lemma dirt_same bp bp' : pageTable bp' ⊆ pageTable bp -> frames bp' = frames bp -> dirt_kept bp bp'.
Proof.
  intros Hsub Hfr id i p Hi Hp Hd. exists p. rewrite <- Hfr. split; [|done]. by eapply lookup_weaken.
Qed.

(** Changing one frame without making it dirty. *)
Lemma dirt_update bp bp' i f :
  pageTable bp' ⊆ pageTable bp -> frames bp' = alter f i (frames bp) ->
  (forall p, IsDirty (f p) = true -> IsDirty p = true) -> dirt_kept bp bp'.
Proof.
  intros Hsub Hfr Hf id j p Hj Hp Hd. assert (pageTable bp !! id = Some j) as Hj' by by eapply lookup_weaken.
  rewrite Hfr in Hp. destruct (decide (i = j)) as [->|Hne].
  - rewrite list_lookup_alter_eq in Hp. destruct (frames bp !! j) as [q|] eqn:Hq; [|done]. simplify_eq/=. eauto.
  - rewrite list_lookup_alter_ne in Hp by done. by exists p.
Qed.

Lemma flush_frames_dirt l err bp r bp' : flush_frames l err bp = (r, bp') -> dirt_kept bp bp'.
Proof.
  revert err bp. induction l as [|i l IH]; intros err bp; cbn [flush_frames]; [by intros [= _ <-]|].
  set (bp1 := update_frame i stamp bp).
  assert (dirt_kept bp bp1) as H1 by by apply (dirt_update _ _ i stamp); [..|intros p; rewrite stamp_IsDirty].
  destruct (frames bp1 !! i) as [page|]; [|by intros [= _ <-]].
  destruct (WritePage _ _ _) as [[[e|]|e| |] dev]; try (by intros [= _ <-]).
  - intros E%IH. etransitivity; [exact H1|]. etransitivity; [|exact E]. by apply (dirt_update _ _ i (add_pin (-1))).
  - intros E%IH. etransitivity; [exact H1|]. etransitivity; [|exact E].
    by apply (dirt_update _ _ i (fun p => add_pin (-1) (set_dirty false p))).
Qed.

Lemma FlushAll_dirt bp r bp' : FlushAll bp = (r, bp') -> dirt_kept bp bp'.
Proof.
  unfold FlushAll. set (l := dirty_frames bp).
  assert (forall bp0 l0, dirt_kept bp0 (fold_left (fun bp i => update_frame i (add_pin 1) bp) l0 bp0)) as Hpin.
  { intros bp0 l0. revert bp0. induction l0 as [|i l0 IH]; intros bp0; [done|]. cbn [fold_left].
    etransitivity; [|apply IH]. by apply (dirt_update _ _ i (add_pin 1)). }
  destruct (flush_frames l None _) as [rf bp1] eqn:Ef. apply flush_frames_dirt in Ef.
  pose proof (transitivity (Hpin bp l) Ef) as Hall.
  destruct rf as [err|e| |]; try (by intros [= _ <-]).
  destruct (Sync (disk bp1)) as [es dev]. case_match; intros [= _ <-]; exact Hall.
Qed.

Lemma evict_loop_dirt fuel bp r bp' : evict_loop fuel bp = (r, bp') -> dirt_kept bp bp'.
Proof.
  revert bp. induction fuel as [|fuel IH]; intros bp; cbn [evict_loop]; [by intros [= _ <-]|].
  destruct (Evict (evictor bp)) as [[v|] ev]; [|intros [= _ <-]; by apply dirt_same]. cbn.
  destruct (pageTable bp !! v) as [i|]; [|intros E%IH; exact E].
  destruct (frames bp !! i) as [p|] eqn:Hp; [|intros [= _ <-]; by apply dirt_same].
  destruct (0 <? PinCount p); [intros E%IH; exact E|].
  destruct (IsDirty p) eqn:Hd; [|intros [= _ <-]; apply dirt_same; [apply delete_subseteq|done]].
  assert (forall bp0, pageTable bp0 ⊆ pageTable bp -> frames bp0 = alter (fun _ => stamp p) i (frames bp) ->
    dirt_kept bp bp0) as Hone.
  { intros bp0 Hsub Hfr. rewrite (alter_insert _ _ _ _ Hp) in Hfr. apply (dirt_update bp bp0 i stamp); [done| |].
    - by rewrite Hfr, (alter_insert _ _ _ _ Hp).
    - intros q. by rewrite stamp_IsDirty. }
  destruct (WritePage _ _ _) as [[[e|]|e| |] dev]; intros [= _ <-]; apply Hone; try done; apply delete_subseteq.
Qed.

Lemma getAvailableFrame_dirt bp r bp' : getAvailableFrame bp = (r, bp') -> dirt_kept bp bp'.
Proof.
  unfold getAvailableFrame.
  assert (forall bp0, (match freeList bp0 with
      | idx :: rest => (Ok idx, set_freeList rest bp0)
      | [] => evict_loop (S (length (frames bp0))) bp0 end) = (r, bp') -> dirt_kept bp0 bp') as Hgo.
  { intros bp0. destruct (freeList bp0) as [|j l]; [by apply evict_loop_dirt|]. intros [= _ <-]. by apply dirt_same. }
  set (c := (_ <? _) && _). destruct c; [|by apply Hgo].
  destruct (FlushAll bp) as [rf bp1] eqn:Hf. apply FlushAll_dirt in Hf.
  destruct (returns rf); [|by intros [= _ <-]]. intros E%Hgo. by etransitivity.
Qed.

Lemma FetchPage_dirt X bp id r bp' :
  pool_inv X bp -> page_id_ok id -> FetchPage bp id = (r, bp') ->
  match r with Ok _ | Err _ => dirt_kept bp bp' | _ => True end.
Proof.
  intros Hinv Hok. unfold FetchPage. destruct (pageTable bp !! id) as [i|] eqn:Hi.
  { intros [= <- <-]. by apply (dirt_update _ _ i (add_pin 1)). }
  set (bp0 := set_metrics _ bp). destruct (getAvailableFrame bp0) as [rg bp1] eqn:Hg.
  pose proof (getAvailableFrame_dirt _ _ _ Hg) as Hd.
  apply (getAvailableFrame_spec X) in Hg; [|by apply inv_set_metrics].
  destruct rg as [i|e| |]; [|by intros [= <- <-] | by intros [= <- <-] | by intros [= <- <-]].
  destruct Hg as (Hinv1 & _ & _). change (disk (update_frame i (reset_page id) bp1)) with (disk bp1).
  destruct (ReadPage_spec (disk bp1) id Hok) as (data & e & -> & _).
  set (bp2 := update_frame i (fun p => set_Data p data) (update_frame i (reset_page id) bp1)).
  assert (frames bp2 !! i = (fun p => set_Data (reset_page id p) data) <$> frames bp1 !! i) as Hnew.
  { unfold bp2. rewrite !lookup_update_frame, !decide_True by done. by destruct (frames bp1 !! i). }
  assert (dirt_kept bp1 bp2) as H2.
  { intros id' j p Hj Hp Hdp. cbn in Hj. assert (j <> i) as Hne.
    { intros ->. destruct (inv_free _ _ Hinv1 i ltac:(left)) as [_ Hno]. by apply (Hno id'). }
    exists p. split; [done|]. split; [|done]. unfold bp2 in Hp. by rewrite !lookup_update_frame, !decide_False in Hp by done. }
  assert (dirt_kept bp bp2) as H12 by by transitivity bp1.
  destruct (match e with Some _ => _ | None => _ end); [by intros [= <- <-]|].
  destruct (if isAllZero data then _ else _); [by intros [= <- <-]|].
  intros [= <- <-] id' j p. cbn [pageTable set_evictor set_pageTable frames].
  intros [[<- <-]|[Hne Hj]]%lookup_insert_Some Hp Hdp; [|by apply (H12 id' j p)].
  rewrite Hnew in Hp. destruct (frames bp1 !! i); [|done]. by simplify_eq/=.
Qed.

(** ** Counting them *)

Lemma dirty_frames_in X bp i :
  pool_inv X bp -> i ∈ dirty_frames bp <->
  exists id p, pageTable bp !! id = Some i /\ frames bp !! i = Some p /\ IsDirty p = true.
Proof.
  intros Hinv. rewrite elem_of_dirty_frames. unfold frame_dirty. split.
  - intros [Hd [id Hid]]. destruct (frames bp !! i) as [p|] eqn:Hp; [|done]. by exists id, p.
  - intros (id & p & Hid & -> & Hd). by eauto.
Qed.

Lemma dirty_count_incl X X' bp bp' extra :
  pool_inv X bp -> pool_inv X' bp' ->
  (forall i, i ∈ dirty_frames bp' -> i ∈ extra \/ i ∈ dirty_frames bp) ->
  dirty_count bp' <= dirty_count bp + Z.of_nat (length extra).
Proof.
  intros Hinv Hinv' Hin. unfold dirty_count, zlen.
  enough (length (dirty_frames bp') <= length (extra ++ dirty_frames bp))%nat by (rewrite length_app in *; lia).
  apply submseteq_length, NoDup_submseteq; [by eapply NoDup_dirty_frames|].
  intros i Hi. apply elem_of_app. by apply Hin.
Qed.

Lemma dirt_kept_count X X' bp bp' :
  pool_inv X bp -> pool_inv X' bp' -> dirt_kept bp bp' -> dirty_count bp' <= dirty_count bp.
Proof.
  intros Hinv Hinv' Hk. pose proof (dirty_count_incl X X' bp bp' [] Hinv Hinv') as Hc. cbn in Hc.
  rewrite Z.add_0_r in Hc. apply Hc. intros i Hi. right. apply (dirty_frames_in X' bp') in Hi as (id & p & Hid & Hp & Hd); [|done].
  destruct (Hk id i p Hid Hp Hd) as (q & Hq1 & Hq2 & Hq3). apply (dirty_frames_in X bp); [done|]. by exists id, q.
Qed.

(** A page given back adds at most itself. *)
Lemma UnpinPage_count X X' bp id b :
  pool_inv X bp -> pool_inv X' (UnpinPage bp id b) -> dirty_count (UnpinPage bp id b) <= dirty_count bp + Z.b2z b.
Proof.
  intros Hinv Hinv'. destruct b.
  - destruct (pageTable bp !! id) as [i|] eqn:Hi; [|unfold UnpinPage; rewrite Hi; cbn; lia].
    apply (dirty_count_incl X X' bp _ [i] Hinv Hinv'). intros j Hj.
    destruct (decide (j = i)) as [->|Hne]; [left; apply list_elem_of_singleton; done|right].
    apply (dirty_frames_in X' _) in Hj as (id' & p & Hid & Hp & Hd); [|done]. apply (dirty_frames_in X bp); [done|].
    unfold UnpinPage in Hid, Hp. rewrite Hi in Hid, Hp. rewrite lookup_update_frame, decide_False in Hp by done. by exists id', p.
  - rewrite Z.add_0_r. apply (dirt_kept_count X X'); [done..|]. unfold UnpinPage.
    destruct (pageTable bp !! id) as [i|]; [|done]. by apply (dirt_update _ _ i (add_pin (-1))).
Qed.

Lemma FetchPage_count X bp id i bp' :
  pool_inv X bp -> page_id_ok id -> FetchPage bp id = (Ok i, bp') -> dirty_count bp' <= dirty_count bp.
Proof.
  intros Hinv Hok Hf. pose proof (FetchPage_spec X bp id _ bp' Hinv Hok Hf) as [Hinv' _].
  apply (dirt_kept_count X X); [done..|]. exact (FetchPage_dirt X bp id _ bp' Hinv Hok Hf).
Qed.

Lemma FetchPage_slack X n bp id i bp' :
  pool_inv X bp -> page_id_ok id -> FetchPage bp id = (Ok i, bp') -> slack n bp -> slack n bp'.
Proof.
  intros Hinv Hok Hf. pose proof (FetchPage_count X bp id i bp' Hinv Hok Hf).
  pose proof (FetchPage_length X bp id _ bp' Hinv Hf). unfold slack, zlen. lia.
Qed.

Lemma UnpinPage_slack X X' n bp id :
  pool_inv X bp -> pool_inv X' (UnpinPage bp id false) -> slack n bp -> slack n (UnpinPage bp id false).
Proof.
  intros Hinv Hinv'. pose proof (UnpinPage_count X X' bp id false Hinv Hinv'). pose proof (UnpinPage_frames bp id false).
  cbn in *. unfold slack, zlen. lia.
Qed.

(** Fewer dirty pages leave the slack. *)
Lemma slack_fewer n bp bp' :
  dirty_count bp' <= dirty_count bp -> length (frames bp') = length (frames bp) -> slack n bp -> slack n bp'.
Proof. unfold slack, zlen. lia. Qed.

(** With the flush due, a fetch of a page that is not cached never returns to a
    caller that holds the latch of a dirty page. *)
Lemma FetchLatched_hangs X latches bp id i p id' :
  pool_inv X bp -> flush_due bp = true -> pageTable bp !! id = None ->
  i ∈ latches -> pageTable bp !! id' = Some i -> frames bp !! i = Some p -> IsDirty p = true ->
  FetchLatched latches bp id = (Hang, bp).
Proof.
  intros Hinv Hdue Hid Hin Hi Hp Hd. unfold FetchLatched. rewrite Hdue, andb_true_r.
  rewrite (bool_decide_eq_true_2 (pageTable bp !! id = None)), andb_true_r by done.
  replace (existsb _ latches) with true; [done|]. symmetry. apply existsb_exists. exists i.
  split; [by apply list_elem_of_In|]. apply bool_decide_eq_true_2. apply (dirty_frames_in X); [done|]. by exists id', p.
Qed.
End Latches.
