(* ===== verification/PoolAlloc.v ===== *)
(** Allocation: [NewPage] takes the page behind the end of the device.  While
    every cached page lies inside the device, write-backs do not move that end,
    the page is fresh, and the next one is its neighbour. *)

From Stdlib Require Import Strings.Byte.
From S2P Require Import Common.
From S2P Require Import Prelude.
From S2P Require Import VFS.
From S2P Require Import LRU.
From S2P Require Import Page.
From S2P Require Import Telemetry.
From S2P Require Import BufferPool.
From S2P Require Import PoolInv.
From S2P Require Import PoolOps.
From S2P Require Import PoolPins.
From S2P Require Import PoolLatch.

Section Size.
Context {D P : Type} `{DS : BlockDeviceSpec D} `{PS : EvictionPolicySpec P} `{RD : !ReliableDevice D} `{MR : MapRange}.
Implicit Types bp : BufferPool D P.

(** The page of the id is inside the device. *)
Definition on_disk (dev : D) (id : PageID) : Prop := page_id_ok id /\ (id + 1) * PageSize <= dev_size dev.

(** Every cached page is. *)
Definition inside bp : Prop :=
  forall id i p, pageTable bp !! id = Some i -> frames bp !! i = Some p -> on_disk (disk bp) (ID p).

Lemma WritePage_size (dev : D) id data r dev' :
  page_id_ok id -> WritePage dev id data = (r, dev') -> dev_size dev' = Z.max (dev_size dev) ((id + 1) * PageSize).
Proof.
  intros Hok. unfold WritePage. rewrite page_offset_ok by done.
  assert (0 <= id * PageSize) as Hoff by (unfold page_id_ok, PageSize in *; lia).
  destruct (write_reliable dev data PageSize _ Hoff) as (n & d1 & E). rewrite E. intros [= _ <-].
  destruct (WriteAt_data dev data PageSize _ n d1 ltac:(done) Hoff E) as [-> _]. lia.
Qed.

Lemma WritePage_inside (dev : D) id data r dev' :
  on_disk dev id -> WritePage dev id data = (r, dev') -> dev_size dev' = dev_size dev.
Proof. intros [Hok Hin] Hw. rewrite (WritePage_size dev id data r dev' Hok Hw). lia. Qed.

(** What a step of the pool keeps: the size of the device and the table's pages
    inside it. *)
Definition size_kept bp bp' : Prop := dev_size (disk bp') = dev_size (disk bp) /\ inside bp'.

Lemma size_kept_trans a b c : size_kept a b -> size_kept b c -> size_kept a c.
Proof. intros [H1 _] [H2 H3]. split; [congruence|done]. Qed.

Lemma inside_step bp bp' i f :
  inside bp -> pageTable bp' ⊆ pageTable bp -> frames bp' = alter f i (frames bp) -> (forall p, frames bp !! i = Some p -> ID (f p) = ID p) ->
  dev_size (disk bp') = dev_size (disk bp) -> size_kept bp bp'.
Proof.
  intros Hin Hsub Hfr Hf Hsz. split; [done|]. intros id j p Hj Hp. unfold on_disk. rewrite Hsz.
  apply (lookup_weaken _ _ _ _ Hj) in Hsub. rewrite Hfr in Hp. destruct (decide (i = j)) as [->|Hne].
  - rewrite list_lookup_alter_eq in Hp. destruct (frames bp !! j) as [q|] eqn:Hq; [|done]. simplify_eq/=.
    rewrite (Hf q eq_refl). by apply (Hin id j q).
  - rewrite list_lookup_alter_ne in Hp by done. by apply (Hin id j p).
Qed.

Lemma inside_same bp bp' :
  inside bp -> pageTable bp' ⊆ pageTable bp -> frames bp' = frames bp -> dev_size (disk bp') = dev_size (disk bp) ->
  size_kept bp bp'.
Proof.
  intros Hin Hsub Hfr Hsz. apply (inside_step bp bp' 0 (fun p => p)); try done.
  rewrite Hfr. symmetry. apply list_eq. intros j. destruct (decide (j = 0%nat)) as [->|].
  - rewrite list_lookup_alter_eq. by destruct (frames bp !! 0%nat).
  - by rewrite list_lookup_alter_ne.
Qed.

Lemma flush_frames_size l err bp r bp' :
  inside bp -> (forall i, i ∈ l -> exists id, pageTable bp !! id = Some i) -> flush_frames l err bp = (r, bp') ->
  size_kept bp bp'.
Proof.
  revert err bp. induction l as [|i l IH]; intros err bp Hin Hl; cbn [flush_frames]; [by intros [= _ <-]|].
  set (bp1 := update_frame i stamp bp).
  assert (size_kept bp bp1) as S1.
  { apply (inside_step bp bp1 i stamp); try done. intros p _. apply stamp_ID. }
  destruct (Hl i ltac:(left)) as [id Hid]. destruct (frames bp1 !! i) as [page|] eqn:Hp; [|by intros [= _ <-]].
  pose proof (proj2 S1 id i page Hid Hp) as Hon.
  destruct (WritePage (disk bp1) (ID page) (Data page)) as [rw dev] eqn:Hw. apply (WritePage_inside _ _ _ _ _ Hon) in Hw.
  assert (forall f bp2, frames bp2 = alter f i (frames bp1) -> (forall p, ID (f p) = ID p) -> pageTable bp2 = pageTable bp ->
    disk bp2 = dev -> size_kept bp bp2) as Hgo.
  { intros f bp2 Hfr Hf Ht Hd. eapply size_kept_trans; [exact S1|]. apply (inside_step bp1 bp2 i f); try done; [apply S1|by rewrite Ht|by rewrite Hd]. }
  destruct rw as [[e|]|e| |]; intros E.
  - apply IH in E; [|by eapply Hgo|intros j Hj; apply Hl; by right]. eapply size_kept_trans; [|exact E]. by eapply Hgo.
  - apply IH in E; [|by eapply Hgo|intros j Hj; apply Hl; by right]. eapply size_kept_trans; [|exact E]. by eapply Hgo.
  - injection E as _ <-. eapply size_kept_trans; [exact S1|]. apply inside_same; try done. apply S1.
  - injection E as _ <-. eapply size_kept_trans; [exact S1|]. apply inside_same; try done. apply S1.
  - injection E as _ <-. eapply size_kept_trans; [exact S1|]. apply inside_same; try done. apply S1.
Qed.

Lemma FlushAll_size bp r bp' : inside bp -> FlushAll bp = (r, bp') -> size_kept bp bp'.
Proof.
  intros Hin. unfold FlushAll. set (l := dirty_frames bp). set (bp1 := fold_left _ l bp).
  assert (forall l0 bp0, inside bp0 -> size_kept bp0 (fold_left (fun bp i => update_frame i (add_pin 1) bp) l0 bp0) /\
    pageTable (fold_left (fun bp i => update_frame i (add_pin 1) bp) l0 bp0) = pageTable bp0) as Hpin.
  { induction l0 as [|i l0 IH]; intros bp0 Hin0; cbn [fold_left]; [by split; [split|]|].
    assert (size_kept bp0 (update_frame i (add_pin 1) bp0)) as S0 by by apply (inside_step _ _ i (add_pin 1)).
    destruct (IH _ (proj2 S0)) as [S2 Et]. split; [exact (size_kept_trans _ _ _ S0 S2)|by rewrite Et]. }
  destruct (Hpin l bp Hin) as [S1 Et]. fold bp1 in S1, Et.
  destruct (flush_frames l None bp1) as [rf bp2] eqn:Ef.
  apply flush_frames_size in Ef; [|apply S1|intros i [_ Hi]%elem_of_dirty_frames; by rewrite Et].
  pose proof (size_kept_trans _ _ _ S1 Ef) as S2.
  destruct rf as [err|e| |]; try (by intros [= _ <-]).
  destruct (Sync (disk bp2)) as [es dev] eqn:Es. apply Sync_size in Es.
  assert (size_kept bp (set_disk dev bp2)) as S3 by (eapply size_kept_trans; [exact S2|]; apply inside_same; try done; apply S2).
  case_match; by intros [= _ <-].
Qed.

Lemma evict_loop_size fuel bp r bp' : inside bp -> evict_loop fuel bp = (r, bp') -> size_kept bp bp'.
Proof.
  revert bp. induction fuel as [|fuel IH]; intros bp Hin; cbn [evict_loop]; [by intros [= _ <-]|].
  destruct (Evict (evictor bp)) as [[v|] ev]; [|intros [= _ <-]; by apply inside_same]. cbn.
  destruct (pageTable bp !! v) as [i|] eqn:Hi; [|by intros E%IH].
  destruct (frames bp !! i) as [p|] eqn:Hp; [|intros [= _ <-]; by apply inside_same].
  destruct (0 <? PinCount p); [by intros E%IH|].
  destruct (IsDirty p); [|intros [= _ <-]; apply inside_same; [done|apply delete_subseteq|done..]].
  destruct (WritePage _ _ _) as [rw dev] eqn:Hw. cbn in Hw. rewrite stamp_ID in Hw.
  apply (WritePage_inside _ _ _ _ _ (Hin v i p Hi Hp)) in Hw.
  assert (forall bp2, frames bp2 = alter (fun _ => stamp p) i (frames bp) -> pageTable bp2 ⊆ pageTable bp -> disk bp2 = dev ->
    size_kept bp bp2) as Hgo.
  { intros bp2 Hfr Ht Hd. apply (inside_step bp bp2 i (fun _ => stamp p)); try done; [|by rewrite Hd].
    intros q Hq. simplify_eq. apply stamp_ID. }
  destruct rw as [[e|]|e| |]; intros [= _ <-]; apply Hgo; try done; apply delete_subseteq.
Qed.

Lemma getAvailableFrame_size bp r bp' : inside bp -> getAvailableFrame bp = (r, bp') -> size_kept bp bp'.
Proof.
  intros Hin. unfold getAvailableFrame.
  assert (forall bp0, inside bp0 -> (match freeList bp0 with
      | idx :: rest => (Ok idx, set_freeList rest bp0)
      | [] => evict_loop (S (length (frames bp0))) bp0 end) = (r, bp') -> size_kept bp0 bp') as Hgo.
  { intros bp0 Hin0. destruct (freeList bp0) as [|j l]; [by apply evict_loop_size|].
    intros [= _ <-]. by apply inside_same. }
  set (c := (_ <? _) && _). destruct c; [|by apply Hgo].
  destruct (FlushAll bp) as [rf bp1] eqn:Hf. apply FlushAll_size in Hf; [|done].
  destruct (returns rf); [|by intros [= _ <-]]. intros E%Hgo; [|apply Hf]. exact (size_kept_trans _ _ _ Hf E).
Qed.

(** A fetch does not change the size, wherever its own page is. *)
Lemma FetchPage_size bp id r bp' :
  inside bp -> page_id_ok id -> FetchPage bp id = (r, bp') -> dev_size (disk bp') = dev_size (disk bp).
Proof.
  intros Hin Hok. unfold FetchPage. destruct (pageTable bp !! id) as [i|]; [by intros [= _ <-]|].
  set (bp0 := set_metrics _ bp). destruct (getAvailableFrame bp0) as [rg bp1] eqn:Hg.
  apply getAvailableFrame_size in Hg as [Hsz _]; [|done].
  destruct rg as [i|e| |]; try (by intros [= _ <-]).
  destruct (ReadPage _ _ _) as [[data e]|e| |]; try (by intros [= _ <-]).
  destruct (match e with Some _ => _ | None => _ end); [by intros [= _ <-]|].
  destruct (if isAllZero data then _ else _); by intros [= _ <-].
Qed.

Lemma FetchPage_inside X bp id i bp' :
  pool_inv X bp -> inside bp -> on_disk (disk bp) id -> FetchPage bp id = (Ok i, bp') -> inside bp'.
Proof.
  intros Hinv Hin [Hok Hend] Hf. pose proof (FetchPage_size bp id _ bp' Hin Hok Hf) as Hsz.
  pose proof (FetchPage_spec X bp id _ bp' Hinv Hok Hf) as (Hinv' & _).
  intros id' j q Hj Hq. destruct (inv_table _ _ Hinv' id' j Hj) as (Hid & q' & Hq' & Eid). simplify_eq.
  split; [done|]. rewrite Hsz.
  destruct (FetchPage_others X bp id _ bp' Hinv Hok Hf I _ j q Hj Hq) as [(-> & _)|(_ & q0 & Hj0 & Hq0 & _)]; [done|].
  destruct (inv_table _ _ Hinv _ _ Hj0) as (_ & q1 & Hq1 & E1).
  destruct (Hin _ _ _ Hj0 Hq1) as [_ Hle]. by rewrite E1 in Hle.
Qed.

Lemma UnpinPage_inside bp id b : inside bp -> size_kept bp (UnpinPage bp id b).
Proof.
  intros Hin. unfold UnpinPage. destruct (pageTable bp !! id) as [i|]; [|by split].
  eapply (inside_step bp _ i); [done|reflexivity|reflexivity| |done].
  intros p _. by destruct b.
Qed.
End Size.

(** ** A fresh page *)

Section Fresh.
Context {D : Type} `{DS : BlockDeviceSpec D} `{RD : !ReliableDevice D} `{MR : MapRange}.
Implicit Types bp : BufferPool D LRUEvictionPolicy.

(** The id [NewPage] hands out. *)
Definition next_page bp : PageID := dev_size (disk bp) / PageSize.

Lemma next_page_end bp : dev_size (disk bp) < (next_page bp + 1) * PageSize.
Proof.
  unfold next_page. pose proof (Z.mod_pos_bound (dev_size (disk bp)) PageSize ltac:(done)).
  pose proof (Z.div_mod (dev_size (disk bp)) PageSize ltac:(done)). lia.
Qed.

Lemma next_page_fresh X bp : pool_inv X bp -> inside bp -> pageTable bp !! next_page bp = None.
Proof.
  intros Hinv Hin. destruct (pageTable bp !! next_page bp) as [i|] eqn:Hi; [|done].
  destruct (inv_table _ _ Hinv _ _ Hi) as (_ & p & Hp & Hid). destruct (Hin _ _ _ Hi Hp) as [_ Hsz].
  pose proof (next_page_end bp). rewrite Hid in Hsz. lia.
Qed.

(** Writing a page of zeroes behind the cached ones. *)
Lemma inv_zero_page X bp dev :
  pool_inv X bp -> inside bp -> page_id_ok (next_page bp) -> WritePage (disk bp) (next_page bp) zero_mem = (Ok None, dev) ->
  pool_inv X (set_disk dev bp) /\ inside (set_disk dev bp) /\ dev_size dev = (next_page bp + 1) * PageSize /\
  forall id, id <> next_page bp -> page_eqv id (view (set_disk dev bp) id) (view bp id).
Proof.
  intros Hinv Hin Hok Hw. pose proof (next_page_fresh X bp Hinv Hin) as Hnone. pose proof (next_page_end bp) as Hend.
  pose proof (WritePage_size _ _ _ _ _ Hok Hw) as Hsz. rewrite Z.max_r in Hsz by lia.
  destruct (WritePage_spec _ _ _ _ _ Hok Hw) as (_ & Hsame & Hoth). specialize (Hsame eq_refl).
  pose proof Hinv as [Ht Hfn Hfr Hcov Hpo Htr Hpi Hcl Hbu Hsu].
  assert (forall id i, pageTable bp !! id = Some i -> id <> next_page bp) as Hne by congruence.
  split; [|split; [|split; [done|]]].
  - split; cbn; try done.
    + intros id i p Hi Hp Hd HX. rewrite (image_eqv id _ _ (Hoth id (Hne id i Hi))). by apply (Hcl id i p).
    + intros id Hid Hc. destruct (decide (id = next_page bp)) as [->|Hn].
      * apply sum_unset. unfold GetChecksum. rewrite (Uint32_ext _ zero_mem); [reflexivity|].
        intros j Hj. apply Hsame. unfold PageSize. lia.
      * eapply checksum_ok_ext; [by apply Hoth|]. by apply Hsu.
  - intros id i p Hi Hp. destruct (Hin id i p Hi Hp) as [H1 H2]. split; [done|]. cbn. lia.
  - intros id Hn. unfold view. cbn. destruct (pageTable bp !! id); [done|]. by apply image_eqv, Hoth.
Qed.

(** The pool after [NewPage]: the page [n] is new, pinned and about to be written,
    every other page and pin is as before, pinned pages stay in their frames, and
    the device ends behind the new page. *)
Record allocated X bp (n : PageID) (i : nat) bp' : Prop := {
  al_inv : pool_inv ({[n]} ∪ X) bp';
  al_new : pageTable bp' !! n = Some i;
  al_others : forall id, id <> n -> page_eqv id (view bp' id) (view bp id);
  al_pins : forall id, pins bp' id = pins bp id + if decide (id = n) then 1 else 0;
  al_frames : length (frames bp') = length (frames bp);
  al_kept : forall id j, pageTable bp !! id = Some j -> 0 < pins bp id -> pageTable bp' !! id = Some j;
  al_inside : inside bp';
  al_next : next_page bp' = n + 1;
  al_dirt : dirty_count bp' <= dirty_count bp
}.

(** Formatting the frame of the new page. *)
Lemma format_frame X bp n i :
  pool_inv X bp -> pageTable bp !! n = Some i -> 0 < pins bp n -> inside bp ->
  let bp' := update_frame i (fun p => set_Data p (Init (Data p))) bp in
  pool_inv ({[n]} ∪ X) bp' /\ (forall id, id <> n -> view bp' id = view bp id) /\ inside bp' /\
  (forall id, pins bp' id = pins bp id) /\ dirty_count bp' <= dirty_count bp.
Proof.
  intros Hinv Hi Hpin Hin bp'. destruct (inv_table _ _ Hinv n i Hi) as (_ & p & Hp & _).
  pose proof (busy_pins X bp n Hinv Hpin) as Hb.
  destruct (inv_modify _ bp n i (Init (Data p)) Hb Hi ltac:(set_solver)) as (Hinv' & _ & Hoth).
  assert (bp' = update_frame i (fun q => set_Data q (Init (Data p))) bp) as E.
  { unfold bp', update_frame. by rewrite !(alter_insert _ i _ p Hp). }
  rewrite <- E in *. split; [done|]. split; [done|]. split; [|split].
  - eapply (inside_step bp bp' i); try done.
  - intros id. apply update_frame_pins. by intros.
  - apply (dirt_kept_count X ({[n]} ∪ X)); [done..|]. by apply (dirt_update _ _ i (fun p => set_Data p (Init (Data p)))).
Qed.

Lemma NewPage_run latches X bp (held : gset PageID) :
  pool_inv X bp -> inside bp -> page_id_ok (next_page bp) -> may_fetch latches bp ->
  (forall id, 0 < pins bp id -> id ∈ held) -> (base.size held < length (frames bp))%nat ->
  exists i bp', NewPage latches bp = (Ok i, bp') /\ allocated X bp (next_page bp) i bp'.
Proof.
  intros Hinv Hin Hok Hmay Hheld Hroom. set (n := next_page bp) in *. unfold NewPage.
  destruct (stat_reliable (disk bp)) as [z Ez]. rewrite Ez. apply StatSize_spec in Ez as ->.
  pose proof (dev_size_nonneg (disk bp)). rewrite Z.quot_div_nonneg by done. fold (next_page bp). fold n.
  assert (u64 n = n) as -> by (apply u64_small; unfold page_id_ok in Hok; lia).
  destruct (WritePage_reliable (disk bp) n zero_mem Hok) as (dev & Hw). rewrite Hw.
  destruct (inv_zero_page X bp dev Hinv Hin Hok Hw) as (Hinv1 & Hin1 & Hsz1 & Hv1).
  set (bp1 := set_disk dev bp) in *. assert (forall id, pins bp1 id = pins bp id) as Hp1 by done.
  destruct (FetchPage_room X bp1 n held Hinv1 Hok) as (i & bp2 & Hf); [done..|].
  rewrite FetchLatched_may, Hf by exact Hmay. eexists i, _. split; [done|].
  pose proof (FetchPage_spec X bp1 n _ bp2 Hinv1 Hok Hf) as (Hinv2 & Hv2 & Hi & _).
  pose proof (FetchPage_pins X bp1 n _ bp2 Hinv1 Hok Hf) as Hpins2. cbn in Hpins2.
  pose proof (FetchPage_size bp1 n _ bp2 Hin1 Hok Hf) as Hsz2.
  assert (inside bp2) as Hin2.
  { apply (FetchPage_inside X bp1 n i bp2 Hinv1 Hin1); [|done]. split; [done|]. change (disk bp1) with dev. lia. }
  assert (0 < pins bp2 n) as Hpos.
  { rewrite Hpins2, decide_True by done. pose proof (pins_nonneg X bp1 n Hinv1). lia. }
  destruct (format_frame X bp2 n i Hinv2 Hi Hpos Hin2) as (Hinv3 & Hv3 & Hin3 & Hpins3 & Hn3).
  set (bp3 := update_frame i _ bp2) in *. split; try done.
  - intros id Hne. rewrite (Hv3 id Hne), (Hv2 id). by apply Hv1.
  - intros id. by rewrite Hpins3, Hpins2.
  - unfold bp3. cbn. rewrite length_alter. by apply (FetchPage_length X bp1 n (Ok i)).
  - intros id j Hj Hpj. by apply (FetchPage_keeps_frame X bp1 n i bp2).
  - unfold next_page. change (disk bp3) with (disk bp2). rewrite Hsz2. change (disk bp1) with dev. rewrite Hsz1.
    apply Z.div_mul. done.
  - pose proof (FetchPage_count X bp1 n i bp2 Hinv1 Hok Hf) as Hn2. change (dirty_count bp1) with (dirty_count bp) in Hn2. lia.
Qed.
End Fresh.
