(* ===== verification/BTreePage.v ===== *)
(** B-tree pages (btree.go, the page level): the 24-byte header, the packed
    cells of leaves and internal nodes, and the operations that read, insert,
    delete and split them in place.  A page that holds a list of cells is
    described by [node_holds]; every operation is specified on that list. *)

From Stdlib Require Import Strings.Byte.
From S2P Require Import Common.
From S2P Require Import Prelude.
From S2P Require Import Page.

(** ** Header *)

Module Node.
Definition PageType (d : mem) : Z := Uint16 d 0.
Definition SetPageType (d : mem) (t : Z) : mem := PutUint16 d 0 t.
Definition NumCells (d : mem) : Z := Uint16 d 2.
Definition SetNumCells (d : mem) (n : Z) : mem := PutUint16 d 2 n.
Definition NextLeafID (d : mem) : PageID := Uint64 d 4.
Definition SetNextLeafID (d : mem) (id : PageID) : mem := PutUint64 d 4 id.
Definition ParentID (d : mem) : PageID := Uint64 d 12.
Definition SetParentID (d : mem) (id : PageID) : mem := PutUint64 d 12 id.

(** Four bytes only: the setter keeps the low 32 bits of the id. *)
Definition RightmostChildID (d : mem) : PageID := Uint32 d 20.
Definition SetRightmostChildID (d : mem) (id : PageID) : mem := PutUint32 d 20 id.

Definition BTreeInit (d : mem) : mem := clear d 0 BTreeHeaderSize.
End Node.

(** [node.MemVersion++]. *)
Definition bump (p : Page) : Page :=
  mkPage (ID p) (Data p) (PinCount p) (IsDirty p) (u64 (MemVersion p + 1)).

(** ** Cells *)

(** How a kind of cell is read: the bytes that must be there before the
    lengths are read, the size of the whole cell and its contents. *)
Record Format (A : Type) := mkFormat {
  hdr : Z;
  size : mem -> Z -> Z;
  get : mem -> Z -> A
}.
Arguments mkFormat {_}.
Arguments hdr {_}.
Arguments size {_}.
Arguments get {_}.

(** Leaf: key length, value length, key, value. *)
Definition leaf_format : Format (bytes * bytes) := {|
  hdr := 4;
  size := fun d offset => 4 + Uint16 d offset + Uint16 d (offset + 2);
  get := fun d offset =>
    let kLen := Uint16 d offset in
    let vLen := Uint16 d (offset + 2) in
    (slice d (offset + 4) (offset + 4 + kLen),
     slice d (offset + 4 + kLen) (offset + 4 + kLen + vLen))
|}.

(** Internal node: key length, child to the left of the key, key. *)
Definition internal_format : Format (PageID * bytes) := {|
  hdr := 10;
  size := fun d offset => 10 + Uint16 d offset;
  get := fun d offset =>
    (Uint64 d (offset + 2), slice d (offset + 10) (offset + 10 + Uint16 d offset))
|}.

(** What the body of a cell loop does, and how the loop ends: by a [return],
    after the last cell, or at a [break] because a cell would leave the page. *)
Inductive step (S R : Type) :=
| Continue (s : S)
| Return (r : R).
Arguments Continue {_ _}.
Arguments Return {_ _}.

Inductive scanned (S R : Type) :=
| Returned (r : R)
| Finished (s : S) (offset : Z)
| Broken (s : S) (offset : Z).
Arguments Returned {_ _}.
Arguments Finished {_ _}.
Arguments Broken {_ _}.

(** The loop every operation shares: [n] cells from [offset] on, each guarded
    twice before its body runs. *)
Fixpoint scan_cells {A S R} (F : Format A) (d : mem) (body : S -> Z -> A -> step S R)
    (n : nat) (offset : Z) (s : S) : scanned S R :=
  match n with
  | O => Finished s offset
  | S n =>
      if PageSize <? offset + hdr F then Broken s offset
      else if PageSize <? offset + size F d offset then Broken s offset
      else match body s offset (get F d offset) with
           | Return r => Returned r
           | Continue s => scan_cells F d body n (offset + size F d offset) s
           end
  end.

(** The loop from the first cell over [NumCells] cells. *)
Definition scan_node {A S R} (F : Format A) (d : mem) (body : S -> Z -> A -> step S R) (s : S) :
    scanned S R :=
  scan_cells F d body (Z.to_nat (Node.NumCells d)) BTreeHeaderSize s.

(** ** Operations on one page *)

Definition skip {A} (_ : unit) (_ : Z) (_ : A) : step unit unit := Continue tt.

(** The sum wraps at 32 bits. *)
Definition IsSafeForInsert (d : mem) (requiredBytes : Z) : bool :=
  match (if Node.PageType d =? PageTypeLeaf then scan_node leaf_format d skip tt
         else scan_node internal_format d skip tt) with
  | Finished _ offset => u32 (offset + requiredBytes) <? PageSize
  | _ => false
  end.

Definition findChildInInternalNode (d : mem) (searchKey : bytes) : PageID :=
  match scan_node internal_format d (fun _ _ '(childID, cellKey) =>
          match bytes_compare searchKey cellKey with
          | Lt => Return childID
          | _ => Continue tt
          end) tt with
  | Returned childID => childID
  | _ => Node.RightmostChildID d
  end.

(** The first loop of [deleteLeafCell] has only the first of the two guards. *)
Fixpoint tail_offset (d : mem) (n : nat) (tailOffset : Z) : Z :=
  match n with
  | O => tailOffset
  | S n =>
      if PageSize <? tailOffset + 4 then tailOffset
      else tail_offset d n (tailOffset + (4 + Uint16 d tailOffset + Uint16 d (tailOffset + 2)))
  end.

Definition deleteLeafCell (p : Page) (offset cellBytes : Z) : Page * option error :=
  let d := Data p in
  let numCells := Node.NumCells d in
  let tailOffset := tail_offset d (Z.to_nat numCells) BTreeHeaderSize in
  if (tailOffset <? offset + cellBytes) || (PageSize <? tailOffset) then (p, Some ErrPageFull)
  else
    let d := move d offset (offset + cellBytes) (tailOffset - cellBytes - offset) in
    let d := clear d (tailOffset - cellBytes) tailOffset in
    (bump (set_Data p (Node.SetNumCells d (u16 (numCells - 1)))), None).

(** The first cell with the key: its offset and its size. *)
Definition find_leaf_cell (d : mem) (key : bytes) : option (Z * Z) :=
  match scan_node leaf_format d (fun _ offset '(cellKey, cellVal) =>
          if bytes_equal key cellKey
          then Return (offset, 4 + zlen cellKey + zlen cellVal) else Continue tt) tt with
  | Returned r => Some r
  | _ => None
  end.

(** The purge at the start of [insertIntoLeaf]: delete the first cell with the
    key and start over.  [Hang] is a loop that has not ended in [fuel] rounds. *)
Fixpoint purge_key (fuel : nat) (p : Page) (newKey : bytes) : result (Page * option error) :=
  match fuel with
  | O => Hang
  | S fuel =>
      match find_leaf_cell (Data p) newKey with
      | None => Ok (p, None)
      | Some (offset, cellBytes) =>
          match deleteLeafCell p offset cellBytes with
          | (p, Some err) => Ok (p, Some err)
          | (p, None) => purge_key fuel p newKey
          end
      end
  end.

(** [copy(m[dlo:dhi], m[slo:shi])]. *)
Definition moveR (m : mem) (cap dlo dhi slo shi : Z) : result mem :=
  if slice_ok cap dlo dhi && slice_ok cap slo shi
  then Ok (move m dlo slo (Z.min (dhi - dlo) (shi - slo))) else Panic.

(** Where a key belongs: the offset of the first larger key, and the offset
    after the last cell. *)
Definition find_position {A} (F : Format A) (key_of : A -> bytes) (d : mem) (newKey : bytes) :
    option Z * Z :=
  match scan_node F d (fun found offset c =>
          match found with
          | Some _ => Continue found
          | None => match bytes_compare newKey (key_of c) with
                    | Lt => Continue (Some offset)
                    | _ => Continue None
                    end
          end) None with
  | Returned r => match r : Empty_set with end
  | Finished found offset | Broken found offset => (found, offset)
  end.

(** The end of [insertIntoLeaf]: make room for the cell and write it. *)
Definition write_leaf_cell (d : mem) (insertOffset offset reqBytes : Z) (newKey newVal : bytes) :
    result mem :=
  d ← (if insertOffset <? offset
       then moveR d PageSize (u32 (insertOffset + reqBytes)) (u32 (offset + reqBytes))
              insertOffset offset
       else Ok d);
  d ← storeR d PageSize insertOffset (insertOffset + 2) (le_bytes 2 (zlen newKey));
  d ← storeR d PageSize (insertOffset + 2) (insertOffset + 4) (le_bytes 2 (zlen newVal));
  let keyStart := insertOffset + 4 in
  let valStart := u32 (keyStart + u32 (zlen newKey)) in
  d ← storeR d PageSize keyStart valStart newKey;
  storeR d PageSize valStart (u32 (valStart + u32 (zlen newVal))) newVal.

Definition insertIntoLeaf (p : Page) (newKey newVal : bytes) : result (Page * option error) :=
  let reqBytes := u32 (4 + zlen newKey + zlen newVal) in
  '(p, err) ← purge_key (S (Z.to_nat (Node.NumCells (Data p)))) p newKey;
  match err with
  | Some err => Ok (p, Some err)
  | None =>
    let d := Data p in
    if negb (IsSafeForInsert d reqBytes) then Ok (p, Some ErrPageFull)
    else
      let numCells := Node.NumCells d in
      let '(found, offset) := find_position leaf_format fst d newKey in
      let insertOffset := default offset found in
      if PageSize <? u32 (insertOffset + reqBytes) then Ok (p, Some ErrPageFull)
      else
        d ← write_leaf_cell d insertOffset offset reqBytes newKey newVal;
        Ok (bump (set_Data p (Node.SetNumCells d (u16 (numCells + 1)))), None)
  end.

(** Make room in front of a larger key and redirect that key's cell to the new
    child; without a larger key the new child becomes the rightmost one. *)
Definition shift_internal_cells (d : mem) (found : option Z) (offset reqBytes : Z)
    (rightChildID : PageID) : result mem :=
  match found with
  | None => Ok (Node.SetRightmostChildID d rightChildID)
  | Some insertOffset =>
      if u32 (offset + reqBytes) <=? PageSize
      then
        d ← moveR d PageSize (u32 (insertOffset + reqBytes)) (u32 (offset + reqBytes))
              insertOffset offset;
        storeR d PageSize (u32 (insertOffset + reqBytes + 2)) (u32 (insertOffset + reqBytes + 10))
          (le_bytes 8 rightChildID)
      else Ok d
  end.

Definition write_internal_cell (d : mem) (insertOffset : Z) (pivotKey : bytes) (leftChildID : PageID) :
    result mem :=
  d ← storeR d PageSize insertOffset (insertOffset + 2) (le_bytes 2 (zlen pivotKey));
  d ← storeR d PageSize (insertOffset + 2) (insertOffset + 10) (le_bytes 8 leftChildID);
  storeR d PageSize (insertOffset + 10) (u32 (insertOffset + 10 + u32 (zlen pivotKey))) pivotKey.

Definition insertIntoInternal (p : Page) (pivotKey : bytes) (leftChildID rightChildID : PageID) :
    result (Page * option error) :=
  let d := Data p in
  let reqBytes := u32 (10 + zlen pivotKey) in
  if negb (IsSafeForInsert d reqBytes) then Ok (p, Some ErrPageFull)
  else
    let numCells := Node.NumCells d in
    let '(found, offset) := find_position internal_format snd d pivotKey in
    let insertOffset := default offset found in
    d ← shift_internal_cells d found offset reqBytes rightChildID;
    if u32 (insertOffset + reqBytes) <=? PageSize
    then
      d ← write_internal_cell d insertOffset pivotKey leftChildID;
      Ok (bump (set_Data p (Node.SetNumCells d (u16 (numCells + 1)))), None)
    else Ok (set_Data p d, None).

(** ** Splitting a page *)

(** The loop that looks for cell [midPoint]: the offset it stops at and, when
    the cell is there, the cell. *)
Definition find_mid {A} (F : Format A) (d : mem) (midPoint : Z) : Z * option A :=
  match scan_node F d (fun i offset c =>
          if i =? midPoint then Return (offset, c) else Continue (i + 1)) 0 with
  | Returned (offset, c) => (offset, Some c)
  | Finished _ offset | Broken _ offset => (offset, None)
  end.

(** [copy(newNode.Data[BTreeHeaderSize:], node.Data[from:PageSize])]. *)
Definition copy_tail (newData d : mem) (from : Z) : mem :=
  let bytesToMove := PageSize - from in
  if (0 <? bytesToMove) && (from + bytesToMove <=? PageSize)
  then store newData BTreeHeaderSize
         (take (Z.to_nat (PageSize - BTreeHeaderSize)) (slice d from (from + bytesToMove)))
  else newData.

(** [SplitLeaf] between the allocation and the promotion: both pages and the
    key to promote. *)
Definition split_leaf_pages (node newLeaf : Page) : Page * Page * bytes :=
  let nd := Node.SetPageType (Node.BTreeInit (Data newLeaf)) PageTypeLeaf in
  let nd := Node.SetNextLeafID nd (Node.NextLeafID (Data node)) in
  let d := Node.SetNextLeafID (Data node) (ID newLeaf) in
  let nd := Node.SetParentID nd (Node.ParentID d) in
  let numCells := Node.NumCells d in
  let midPoint := numCells / 2 in
  let '(offset, mid) := find_mid leaf_format d midPoint in
  let midKey := match mid with Some (cellKey, _) => cellKey | None => [] end in
  let offset := if PageSize <? offset then PageSize else offset in
  let nd := copy_tail nd d offset in
  let nd := Node.SetNumCells nd (u16 (numCells - midPoint)) in
  let d := Node.SetNumCells d midPoint in
  let d := clear d offset PageSize in
  (bump (set_Data node d), bump (set_Data newLeaf nd), midKey).

(** The same part of [SplitInternalNode]: the middle key moves up, its child
    becomes the left page's rightmost child. *)
Definition split_internal_pages (node newInternal : Page) : Page * Page * bytes :=
  let nd := Node.SetPageType (Node.BTreeInit (Data newInternal)) PageTypeInternal in
  let d := Data node in
  let nd := Node.SetParentID nd (Node.ParentID d) in
  let numCells := Node.NumCells d in
  let midPoint := numCells / 2 in
  let '(offset, mid) := find_mid internal_format d midPoint in
  let '(midCellLeftChild, pivotKey, midCellEnd) :=
    match mid with
    | Some (childID, cellKey) => (childID, cellKey, offset + 10 + zlen cellKey)
    | None => (0, [], 0)
    end in
  let midCellEnd := if (midCellEnd =? 0) || (PageSize <? midCellEnd) then offset else midCellEnd in
  let midCellEnd := if PageSize <? midCellEnd then PageSize else midCellEnd in
  let nd := Node.SetRightmostChildID nd (Node.RightmostChildID d) in
  let d := Node.SetRightmostChildID d midCellLeftChild in
  let nd := copy_tail nd d midCellEnd in
  let nd := Node.SetNumCells nd (u16 (numCells - midPoint - 1)) in
  let d := Node.SetNumCells d midPoint in
  let d := clear d midCellEnd PageSize in
  (bump (set_Data node d), bump (set_Data newInternal nd), pivotKey).

(** The page [promoteToParent] makes when the root was split. *)
Definition new_root_page (newRoot : Page) (pivotKey : bytes) (leftChildID rightChildID : PageID) :
    Page :=
  let d := Node.SetPageType (Node.BTreeInit (Data newRoot)) PageTypeInternal in
  let d := Node.SetNumCells d 1 in
  let offset := BTreeHeaderSize in
  let d := PutUint16 d offset (zlen pivotKey) in
  let d := PutUint64 d (offset + 2) leftChildID in
  let d := store d (offset + 10) (take (Z.to_nat (PageSize - (offset + 10))) pivotKey) in
  let d := Node.SetRightmostChildID d rightChildID in
  bump (set_Data newRoot d).

(** * Correctness *)

(** ** Pages as lists of cells *)

(** How a kind of cell is written, and that reading it back is exact. *)
Class FormatSpec {A} (F : Format A) := {
  enc : A -> bytes;
  cell_ok : A -> Prop;
  key_of : A -> bytes;
  enc_hdr : forall c, 4 <= hdr F <= zlen (enc c);
  enc_read : forall d offset c, cell_ok c ->
    slice d offset (offset + zlen (enc c)) = enc c ->
    size F d offset = zlen (enc c) /\ get F d offset = c
}.
Arguments enc {_} _ {_}.
Arguments cell_ok {_} _ {_}.
Arguments key_of {_} _ {_}.

Definition len16 (k : bytes) : Prop := zlen k < 2 ^ 16.

(** Reading a piece of a known range. *)
Lemma slice_piece d off bs1 bs2 bs3 :
  slice d off (off + zlen (bs1 ++ bs2 ++ bs3)) = bs1 ++ bs2 ++ bs3 ->
  slice d (off + zlen bs1) (off + zlen bs1 + zlen bs2) = bs2.
Proof.
  pose proof (zlen_nonneg bs1). pose proof (zlen_nonneg bs2). pose proof (zlen_nonneg bs3).
  rewrite !zlen_app, (slice_app d off (off + zlen bs1)), (slice_app d (off + zlen bs1) (off + zlen bs1 + zlen bs2)) by lia.
  intros [_ [E _]%app_inj_1]%app_inj_1; [done | len | len].
Qed.

Lemma le_val_le_bytes_small n z : 0 <= z < 2 ^ (8 * Z.of_nat n) -> le_val (le_bytes n z) = z.
Proof. intros. rewrite le_val_bytes. by apply Z.mod_small. Qed.

Definition leaf_enc (c : bytes * bytes) : bytes :=
  le_bytes 2 (zlen c.1) ++ le_bytes 2 (zlen c.2) ++ c.1 ++ c.2.

Definition internal_enc (c : PageID * bytes) : bytes :=
  le_bytes 2 (zlen c.2) ++ le_bytes 8 c.1 ++ c.2.

Lemma zlen_leaf_enc c : zlen (leaf_enc c) = 4 + zlen c.1 + zlen c.2.
Proof. unfold leaf_enc. rewrite !zlen_app, !zlen_le_bytes. lia. Qed.
Lemma zlen_internal_enc c : zlen (internal_enc c) = 10 + zlen c.2.
Proof. unfold internal_enc. rewrite !zlen_app, !zlen_le_bytes. lia. Qed.

(** A little-endian field of a known range. *)
Lemma field_piece d off n bs1 z bs3 :
  slice d off (off + zlen (bs1 ++ le_bytes n z ++ bs3)) = bs1 ++ le_bytes n z ++ bs3 ->
  0 <= z < 2 ^ (8 * Z.of_nat n) ->
  le_val (slice d (off + zlen bs1) (off + zlen bs1 + Z.of_nat n)) = z.
Proof.
  intros E Hz. apply slice_piece in E. rewrite zlen_le_bytes in E. rewrite E.
  by apply le_val_le_bytes_small.
Qed.

#[export] Program Instance leaf_format_spec : FormatSpec leaf_format := {|
  enc := leaf_enc;
  cell_ok := fun c => len16 c.1 /\ len16 c.2;
  key_of := fst
|}.
Next Obligation.
  intros c. rewrite zlen_leaf_enc. cbn [hdr leaf_format].
  pose proof (zlen_nonneg c.1). pose proof (zlen_nonneg c.2). lia.
Qed.
Next Obligation.
  intros d offset [k v] [Hk Hv] E. unfold len16 in *. cbn [fst snd] in *.
  pose proof (zlen_nonneg k). pose proof (zlen_nonneg v).
  unfold leaf_enc in E. cbn [fst snd] in E.
  assert (Uint16 d offset = zlen k) as E1.
  { rewrite <- (Z.add_0_r offset). apply (field_piece d offset 2 [] _ _ E). cbn; lia. }
  assert (Uint16 d (offset + 2) = zlen v) as E2.
  { apply (field_piece d offset 2 (le_bytes 2 (zlen k)) _ _ E). cbn; lia. }
  rewrite zlen_leaf_enc. split; [cbn; rewrite E1, E2; lia|].
  cbn [get leaf_format]. rewrite E1, E2. f_equal.
  - rewrite app_assoc in E. apply slice_piece in E. by rewrite zlen_app, !zlen_le_bytes in E.
  - rewrite app_assoc, app_assoc, <- (app_nil_r v), (app_assoc _ v) in E.
    rewrite <- (app_assoc _ v) in E. apply slice_piece in E.
    rewrite !zlen_app, !zlen_le_bytes in E. by rewrite Z.add_assoc in E.
Qed.

#[export] Program Instance internal_format_spec : FormatSpec internal_format := {|
  enc := internal_enc;
  cell_ok := fun c => 0 <= c.1 < 2 ^ 64 /\ len16 c.2;
  key_of := snd
|}.
Next Obligation.
  intros c. rewrite zlen_internal_enc. cbn [hdr internal_format]. pose proof (zlen_nonneg c.2). lia.
Qed.
Next Obligation.
  intros d offset [id k] [Hid Hk] E. unfold len16 in *. cbn [fst snd] in *.
  pose proof (zlen_nonneg k). unfold internal_enc in E. cbn [fst snd] in E.
  assert (Uint16 d offset = zlen k) as E1.
  { rewrite <- (Z.add_0_r offset). apply (field_piece d offset 2 [] _ _ E). cbn; lia. }
  rewrite zlen_internal_enc. split; [cbn; rewrite E1; lia|].
  cbn [get internal_format]. rewrite E1. f_equal.
  - replace (Uint64 d (offset + 2)) with (le_val (slice d (offset + 2) (offset + 2 + Z.of_nat 8))) by done.
    apply (field_piece d offset 8 (le_bytes 2 (zlen k)) _ _ E). cbn; lia.
  - rewrite app_assoc, <- (app_nil_r k), (app_assoc _ k), <- (app_assoc _ k) in E.
    apply slice_piece in E. by rewrite !zlen_app, !zlen_le_bytes in E.
Qed.

Section Holds.
Context {A : Type} (F : Format A) `{FS : !FormatSpec F}.
Implicit Types cs : list A.

Definition encs cs : bytes := concat (enc F <$> cs).

Lemma encs_app cs1 cs2 : encs (cs1 ++ cs2) = encs cs1 ++ encs cs2.
Proof. unfold encs. by rewrite fmap_app, concat_app. Qed.
Lemma encs_cons c cs : encs (c :: cs) = enc F c ++ encs cs.
Proof. done. Qed.

(** The page holds exactly the cells [cs]. *)
Record node_holds (d : mem) cs : Prop := {
  nh_count : Node.NumCells d = zlen cs;
  nh_ok : Forall (cell_ok F) cs;
  nh_room : BTreeHeaderSize + zlen (encs cs) <= PageSize;
  nh_bytes : slice d BTreeHeaderSize (BTreeHeaderSize + zlen (encs cs)) = encs cs
}.

(** A cell takes at least four bytes, so a page never counts past 16 bits. *)
Lemma zlen_encs cs : 4 * zlen cs <= zlen (encs cs).
Proof.
  induction cs as [|c cs IH]; [done|]. rewrite encs_cons, zlen_app, zlen_cons.
  pose proof (enc_hdr c). lia.
Qed.

(** The loop over a list of cells. *)
Fixpoint scan_list {S R} (body : S -> Z -> A -> step S R) cs (offset : Z) (s : S) : scanned S R :=
  match cs with
  | [] => Finished s offset
  | c :: cs =>
      match body s offset c with
      | Return r => Returned r
      | Continue s => scan_list body cs (offset + zlen (enc F c)) s
      end
  end.

Lemma scan_cells_list {S R} (body : S -> Z -> A -> step S R) d cs offset s :
  Forall (cell_ok F) cs -> offset + zlen (encs cs) <= PageSize ->
  slice d offset (offset + zlen (encs cs)) = encs cs ->
  scan_cells F d body (length cs) offset s = scan_list body cs offset s.
Proof.
  revert offset s. induction cs as [|c cs IH]; intros offset s Hok Hroom Hb; [done|].
  apply Forall_cons in Hok as [Hc Hcs]. rewrite encs_cons, zlen_app in *.
  pose proof (enc_hdr c) as Hh. pose proof (zlen_nonneg (encs cs)).
  rewrite (slice_app d offset (offset + zlen (enc F c))) in Hb by lia.
  apply app_inj_1 in Hb as [Hb1 Hb2]; [|len].
  destruct (enc_read d offset c Hc Hb1) as [Esz Eget].
  cbn [scan_cells length scan_list]. rewrite Esz, Eget.
  destruct (_ <? _) eqn:E1; bprop; [lia|]. destruct (PageSize <? _) eqn:E2; bprop; [lia|].
  destruct (body s offset c) as [s'|r]; [|done].
  apply IH; [done|lia|]. rewrite <- Hb2 at 2. f_equal. lia.
Qed.

Lemma scan_node_list {S R} (body : S -> Z -> A -> step S R) d cs s :
  node_holds d cs -> scan_node F d body s = scan_list body cs BTreeHeaderSize s.
Proof.
  intros [Hn Hok Hroom Hb]. unfold scan_node. rewrite Hn. unfold zlen. rewrite Nat2Z.id.
  by apply scan_cells_list.
Qed.

Lemma scan_list_skip cs offset :
  scan_list skip cs offset tt = Finished tt (offset + zlen (encs cs)).
Proof.
  revert offset. induction cs as [|c cs IH]; intros offset; cbn [scan_list skip].
  - f_equal. change (encs []) with (@nil byte). unfold zlen. cbn. lia.
  - rewrite IH, encs_cons, zlen_app. f_equal. lia.
Qed.

(** Where [find_position] puts a key: before the first larger one. *)
Fixpoint before (k : bytes) cs : list A :=
  match cs with
  | [] => []
  | c :: cs => if decide (bytes_lt k (key_of F c)) then [] else c :: before k cs
  end.
Fixpoint after (k : bytes) cs : list A :=
  match cs with
  | [] => []
  | c :: cs' => if decide (bytes_lt k (key_of F c)) then cs else after k cs'
  end.

Lemma before_after k cs : before k cs ++ after k cs = cs.
Proof. induction cs as [|c cs IH]; cbn; [done|]. case_decide; cbn; [done | by f_equal]. Qed.

Lemma find_position_list k d cs :
  node_holds d cs ->
  find_position F (key_of F) d k =
    (if decide (after k cs = []) then None else Some (BTreeHeaderSize + zlen (encs (before k cs))),
     BTreeHeaderSize + zlen (encs cs)).
Proof.
  intros Hh. unfold find_position. rewrite (scan_node_list _ d cs) by done.
  set (body := fun _ _ _ => _). generalize BTreeHeaderSize as offset.
  assert (forall o l offset, scan_list body l offset (Some o) = Finished (Some o) (offset + zlen (encs l))) as Hsome.
  { intros o l. induction l as [|c l IH]; intros offset; cbn [scan_list body].
    - f_equal. change (encs []) with (@nil byte). unfold zlen. cbn. lia.
    - rewrite IH, encs_cons, zlen_app. f_equal. lia. }
  clear Hh. induction cs as [|c cs IH]; intros offset; cbn [scan_list before after].
  - rewrite decide_True by done. f_equal. change (encs []) with (@nil byte). unfold zlen. cbn. lia.
  - unfold body at 1. destruct (decide (bytes_lt k (key_of F c))) as [E|E]; unfold bytes_lt in E.
    + rewrite E. cbn beta iota. rewrite Hsome, decide_False by done.
      f_equal; [f_equal; change (encs []) with (@nil byte); unfold zlen; cbn; lia|].
      rewrite encs_cons, zlen_app. lia.
    + transitivity (match scan_list body cs (offset + zlen (enc F c)) None with
        | Returned r => match r : Empty_set with end
        | Finished found o | Broken found o => (found, o) end).
      { by destruct (bytes_compare k (key_of F c)). }
      rewrite IH, !encs_cons, !zlen_app.
      f_equal; [case_decide; [done|f_equal; lia] | lia].
Qed.
End Holds.
Arguments encs {_} F {_}.
Arguments node_holds {_} F {_}.
Arguments before {_} F {_}.
Arguments after {_} F {_}.

(** ** Splicing bytes *)

(** The bytes of a header other than the cell count. *)
Definition same_header (d1 d2 : mem) : Prop :=
  forall i, 0 <= i < BTreeHeaderSize -> ~ (2 <= i < 4) -> d1 i = d2 i.

#[export] Instance same_header_equiv : Equivalence same_header.
Proof.
  split.
  - by intros d i Hi.
  - intros d1 d2 E i Hi Hn. symmetry. by apply E.
  - intros d1 d2 d3 E1 E2 i Hi Hn. by rewrite E1, E2.
Qed.

#[export] Instance PageType_header : Proper (same_header ==> eq) Node.PageType.
Proof. intros d1 d2 E. apply Uint16_ext. intros. apply E; unfold BTreeHeaderSize; lia. Qed.
#[export] Instance NextLeafID_header : Proper (same_header ==> eq) Node.NextLeafID.
Proof. intros d1 d2 E. apply Uint64_ext. intros. apply E; unfold BTreeHeaderSize; lia. Qed.
#[export] Instance ParentID_header : Proper (same_header ==> eq) Node.ParentID.
Proof. intros d1 d2 E. apply Uint64_ext. intros. apply E; unfold BTreeHeaderSize; lia. Qed.
#[export] Instance RightmostChildID_header : Proper (same_header ==> eq) Node.RightmostChildID.
Proof. intros d1 d2 E. apply Uint32_ext. intros. apply E; unfold BTreeHeaderSize; lia. Qed.

Lemma slice_move_before m dst src n lo hi :
  hi <= dst -> slice (move m dst src n) lo hi = slice m lo hi.
Proof.
  intros. apply slice_ext. intros i Hi. unfold move. destruct (_ && _) eqn:B; [|done]. bprop. lia.
Qed.

Lemma slice_move_in m dst src n lo hi :
  dst <= lo -> hi <= dst + n -> slice (move m dst src n) lo hi = slice m (src + (lo - dst)) (src + (hi - dst)).
Proof.
  intros. apply slice_shift; [lia|]. intros i Hi. unfold move.
  destruct (_ && _) eqn:B; bprop; [f_equal; lia | lia..].
Qed.

(** Opening a gap and filling it. *)
Lemma splice_insert m lo at_ hi bs :
  lo <= at_ <= hi ->
  slice (store (move m (at_ + zlen bs) at_ (hi - at_)) at_ bs) lo (hi + zlen bs) =
  slice m lo at_ ++ bs ++ slice m at_ hi.
Proof.
  intros Hr. pose proof (zlen_nonneg bs).
  rewrite (slice_app _ lo at_), (slice_app _ at_ (at_ + zlen bs)) by lia.
  rewrite slice_store_same, !slice_store_other by lia.
  rewrite slice_move_before, slice_move_in by lia. do 2 f_equal. f_equal; lia.
Qed.

(** Closing a gap. *)
Lemma splice_delete m lo at_ n hi :
  lo <= at_ -> 0 <= n -> at_ + n <= hi ->
  slice (clear (move m at_ (at_ + n) (hi - n - at_)) (hi - n) hi) lo (hi - n) =
  slice m lo at_ ++ slice m (at_ + n) hi.
Proof.
  intros. rewrite slice_clear_other by lia. rewrite (slice_app _ lo at_) by lia.
  rewrite slice_move_before, slice_move_in by lia. f_equal. f_equal; lia.
Qed.

(** An update of a page in its frame: only bytes and version change. *)
Definition same_frame (p p' : Page) : Prop :=
  ID p' = ID p /\ PinCount p' = PinCount p /\ IsDirty p' = IsDirty p.

#[export] Instance same_frame_trans : Transitive same_frame.
Proof. intros a b c (?&?&?) (?&?&?). split_and!; congruence. Qed.

Section Counted.
Context {A : Type} (F : Format A) `{FS : !FormatSpec F}.
Implicit Types cs : list A.

(** Writing the count over the right bytes. *)
Lemma holds_set_count d cs n :
  Forall (cell_ok F) cs -> BTreeHeaderSize + zlen (encs F cs) <= PageSize ->
  slice d BTreeHeaderSize (BTreeHeaderSize + zlen (encs F cs)) = encs F cs ->
  n = zlen cs -> node_holds F (Node.SetNumCells d (u16 n)) cs.
Proof.
  intros Hok Hroom Hb ->. pose proof (zlen_encs F cs). unfold BTreeHeaderSize, PageSize in *.
  pose proof (zlen_nonneg cs).
  assert (u16 (zlen cs) = zlen cs) as Eu by (apply u16_small; lia).
  split; try done.
  - unfold Node.NumCells, Node.SetNumCells. by rewrite Uint16_Put, !Eu.
  - unfold Node.SetNumCells, PutUint16. rewrite slice_store_other; [done|].
    rewrite zlen_le_bytes. unfold BTreeHeaderSize. lia.
Qed.

Lemma same_header_set_count d n : same_header (Node.SetNumCells d n) d.
Proof.
  intros i Hi Hn. unfold Node.SetNumCells, PutUint16. apply store_out. rewrite zlen_le_bytes. lia.
Qed.

(** Cells are in the page: the parts of the list and their bytes. *)
Lemma holds_split d cs1 cs2 :
  node_holds F d (cs1 ++ cs2) ->
  let mid := BTreeHeaderSize + zlen (encs F cs1) in
  BTreeHeaderSize <= mid <= mid + zlen (encs F cs2) /\ mid + zlen (encs F cs2) <= PageSize /\
  BTreeHeaderSize + zlen (encs F (cs1 ++ cs2)) = mid + zlen (encs F cs2) /\
  slice d BTreeHeaderSize mid = encs F cs1 /\
  slice d mid (mid + zlen (encs F cs2)) = encs F cs2.
Proof.
  intros [_ _ Hroom Hb]. rewrite encs_app, zlen_app in *.
  pose proof (zlen_nonneg (encs F cs1)). pose proof (zlen_nonneg (encs F cs2)). cbn zeta.
  rewrite (slice_app d _ (BTreeHeaderSize + zlen (encs F cs1))) in Hb by lia.
  apply app_inj_1 in Hb as [Hb1 Hb2]; [|len].
  split_and!; try lia; [done|]. rewrite <- Hb2 at 2. f_equal. lia.
Qed.
End Counted.

(** ** Deleting from a leaf *)

Definition leaf_holds := node_holds leaf_format.

Lemma tail_offset_list d cs offset :
  Forall (cell_ok leaf_format) cs -> offset + zlen (encs leaf_format cs) <= PageSize ->
  slice d offset (offset + zlen (encs leaf_format cs)) = encs leaf_format cs ->
  tail_offset d (length cs) offset = offset + zlen (encs leaf_format cs).
Proof.
  revert offset. induction cs as [|c cs IH]; intros offset Hok Hroom Hb.
  { change (encs leaf_format []) with (@nil byte). unfold zlen. cbn. lia. }
  apply Forall_cons in Hok as [Hc Hcs]. rewrite encs_cons, zlen_app in *.
  pose proof (enc_hdr c) as Hh. pose proof (zlen_nonneg (encs leaf_format cs)).
  rewrite (slice_app d offset (offset + zlen (enc leaf_format c))) in Hb by lia.
  apply app_inj_1 in Hb as [Hb1 Hb2]; [|len].
  destruct (enc_read d offset c Hc Hb1) as [Esz _]. cbn [hdr size leaf_format] in *.
  cbn [tail_offset length]. destruct (_ <? _) eqn:E1; bprop; [lia|].
  rewrite Esz, IH; [lia|done|lia|]. rewrite <- Hb2 at 2. f_equal. lia.
Qed.

Lemma deleteLeafCell_spec p cs1 c cs2 :
  leaf_holds (Data p) (cs1 ++ c :: cs2) ->
  exists p', deleteLeafCell p (BTreeHeaderSize + zlen (encs leaf_format cs1))
      (zlen (enc leaf_format c)) = (p', None) /\
    same_frame p p' /\ same_header (Data p') (Data p) /\ leaf_holds (Data p') (cs1 ++ cs2).
Proof.
  intros Hh. pose proof Hh as [Hn Hok Hroom Hb].
  destruct (holds_split leaf_format _ _ _ Hh) as (H1 & H2 & H3 & Hb1 & Hb2).
  set (mid := BTreeHeaderSize + zlen (encs leaf_format cs1)) in *.
  assert (tail_offset (Data p) (Z.to_nat (Node.NumCells (Data p))) BTreeHeaderSize =
    mid + zlen (encs leaf_format (c :: cs2))) as Etail.
  { rewrite Hn. unfold zlen at 1. rewrite Nat2Z.id, tail_offset_list by done. done. }
  rewrite encs_cons, zlen_app in *.
  pose proof (zlen_nonneg (enc leaf_format c)). pose proof (zlen_nonneg (encs leaf_format cs2)).
  unfold deleteLeafCell. rewrite Etail.
  destruct (_ || _) eqn:B; [bprop; lia|]. clear B. eexists. split; [done|].
  split; [done|]. split.
  - cbn [Data bump set_Data]. rewrite same_header_set_count. intros i Hi _. unfold clear, move.
    repeat (case_match; [bprop; unfold BTreeHeaderSize in *; lia|]). done.
  - cbn [Data bump set_Data]. set (n := zlen (enc leaf_format c)) in *.
    rewrite (slice_app _ mid (mid + n)) in Hb2 by lia. apply app_inj_1 in Hb2 as [_ Hb2]; [|len].
    pose proof (splice_delete (Data p) BTreeHeaderSize mid n (mid + (n + zlen (encs leaf_format cs2)))) as Hd.
    specialize (Hd (proj1 H1) H ltac:(clear -H0; lia)).
    rewrite Hb1, Hb2, <- encs_app in Hd.
    apply (holds_set_count leaf_format _ (cs1 ++ cs2)).
    + apply Forall_app in Hok as [? [? ?]%Forall_cons]. by apply Forall_app.
    + rewrite encs_app, zlen_app. lia.
    + etransitivity; [|exact Hd]. f_equal. rewrite encs_app, zlen_app. lia.
    + rewrite Hn, !zlen_app, zlen_cons. lia.
Qed.

(** ** Purging a key *)

Lemma find_leaf_cell_spec d cs k :
  leaf_holds d cs ->
  match find_leaf_cell d k with
  | None => Forall (fun c => c.1 <> k) cs
  | Some (offset, n) => exists cs1 c cs2, cs = cs1 ++ c :: cs2 /\ c.1 = k /\
      Forall (fun c => c.1 <> k) cs1 /\
      offset = BTreeHeaderSize + zlen (encs leaf_format cs1) /\ n = zlen (enc leaf_format c)
  end.
Proof.
  intros Hh. unfold find_leaf_cell. rewrite (scan_node_list leaf_format _ d cs) by done.
  generalize BTreeHeaderSize as o. clear Hh.
  induction cs as [|[k' v'] cs IH]; intros o; [by constructor|]. cbn [scan_list].
  destruct (bytes_equal k k') eqn:E; unfold bytes_equal in E.
  - apply bool_decide_eq_true in E. subst k'. exists [], (k, v'), cs. split_and!; try done.
    + change (encs leaf_format []) with (@nil byte). unfold zlen. cbn. lia.
    + cbn [enc leaf_format_spec]. by rewrite zlen_leaf_enc.
  - apply bool_decide_eq_false in E. specialize (IH (o + zlen (enc leaf_format (k', v')))).
    destruct (scan_list _ _ cs _ _) as [[offset n]|s o'|s o'] eqn:Es; [|by constructor..].
    destruct IH as (cs1 & c & cs2 & -> & Hc & Hcs1 & -> & ->).
    exists ((k', v') :: cs1), c, cs2. split_and!; try done; [by constructor|].
    rewrite encs_cons, zlen_app. lia.
Qed.

Definition purged (k : bytes) (cs : list (bytes * bytes)) : list (bytes * bytes) :=
  filter (fun c => c.1 <> k) cs.

Lemma purge_key_spec fuel p cs k :
  leaf_holds (Data p) cs -> (length cs < fuel)%nat ->
  exists p', purge_key fuel p k = Ok (p', None) /\ same_frame p p' /\
    same_header (Data p') (Data p) /\ leaf_holds (Data p') (purged k cs).
Proof.
  revert p cs. induction fuel as [|fuel IH]; intros p cs Hh Hf; [lia|]. cbn [purge_key].
  pose proof (find_leaf_cell_spec (Data p) cs k Hh) as Hfind.
  destruct (find_leaf_cell (Data p) k) as [[offset n]|].
  - destruct Hfind as (cs1 & c & cs2 & -> & Hc & Hcs1 & -> & ->).
    destruct (deleteLeafCell_spec p cs1 c cs2 Hh) as (p1 & -> & Hs1 & Hhd1 & Hh1).
    destruct (IH p1 (cs1 ++ cs2)) as (p2 & -> & Hs2 & Hhd2 & Hh2); [done| |].
    { rewrite length_app in *. cbn in Hf. lia. }
    exists p2. split; [done|]. split; [by transitivity p1|]. split; [by rewrite Hhd2|].
    unfold purged in *. rewrite filter_app in *. by rewrite filter_cons_False by tauto.
  - exists p. split_and!; try done. unfold purged. by rewrite filter_id by by apply Forall_forall.
Qed.

Lemma IsSafeForInsert_leaf d cs n :
  Node.PageType d = PageTypeLeaf -> leaf_holds d cs ->
  IsSafeForInsert d n = (u32 (BTreeHeaderSize + zlen (encs leaf_format cs) + n) <? PageSize).
Proof.
  intros Ht Hh. unfold IsSafeForInsert. rewrite Ht, Z.eqb_refl.
  by rewrite (scan_node_list leaf_format _ d cs), scan_list_skip.
Qed.

Lemma IsSafeForInsert_internal d cs n :
  Node.PageType d = PageTypeInternal -> node_holds internal_format d cs ->
  IsSafeForInsert d n = (u32 (BTreeHeaderSize + zlen (encs internal_format cs) + n) <? PageSize).
Proof.
  intros Ht Hh. unfold IsSafeForInsert. rewrite Ht. change (PageTypeInternal =? PageTypeLeaf) with false.
  cbn iota. by rewrite (scan_node_list internal_format _ d cs), scan_list_skip.
Qed.

(** ** Inserting a cell *)

Lemma move_zero m dst src i : move m dst src 0 i = m i.
Proof. unfold move. destruct (_ && _) eqn:B; [bprop; lia|done]. Qed.

Lemma moveR_ok m cap dlo dhi slo shi n :
  0 <= dlo -> 0 <= slo -> dhi <= cap -> shi <= cap -> dhi = dlo + n -> shi = slo + n -> 0 <= n ->
  moveR m cap dlo dhi slo shi = Ok (move m dlo slo n).
Proof.
  intros. subst. unfold moveR, slice_ok.
  rewrite !(proj2 (Z.leb_le _ _)) by lia. cbn. do 2 f_equal. lia.
Qed.

(** The bytes around a new cell, and the list of cells they encode. *)
Lemma insert_cell_holds {A} (F : Format A) `{FS : !FormatSpec F} d0 d cs1 c cs2 n :
  node_holds F d0 (cs1 ++ cs2) -> cell_ok F c ->
  let at_ := BTreeHeaderSize + zlen (encs F cs1) in
  let hi := at_ + zlen (encs F cs2) in
  hi + zlen (enc F c) <= PageSize -> n = zlen (cs1 ++ cs2) + 1 ->
  (forall i, BTreeHeaderSize <= i -> d i = store (move d0 (at_ + zlen (enc F c)) at_ (hi - at_)) at_ (enc F c) i) ->
  node_holds F (Node.SetNumCells d (u16 n)) (cs1 ++ c :: cs2).
Proof.
  intros Hh Hc at_ hi Hroom Hn Hd. pose proof Hh as [_ Hok _ _].
  destruct (holds_split F _ _ _ Hh) as (H1 & H2 & H3 & Hb1 & Hb2). fold at_ in H1, H2, H3, Hb1, Hb2.
  fold hi in H1, H2, H3, Hb2.
  assert (zlen (encs F (cs1 ++ c :: cs2)) = zlen (encs F cs1) + zlen (encs F cs2) + zlen (enc F c)) as Elen.
  { rewrite encs_app, encs_cons, !zlen_app. lia. }
  apply holds_set_count.
  - apply Forall_app in Hok as [? ?]. apply Forall_app. split; [done|]. by constructor.
  - rewrite Elen. unfold hi, at_ in Hroom. lia.
  - rewrite (slice_ext d _ _ _ (fun i Hi => Hd i (proj1 Hi))), Elen.
    pose proof (splice_insert d0 BTreeHeaderSize at_ hi (enc F c) ltac:(lia)) as Hs.
    rewrite Hb1, Hb2 in Hs. rewrite encs_app, encs_cons, <- Hs. f_equal. unfold hi, at_. lia.
  - rewrite Hn, !zlen_app, zlen_cons. lia.
Qed.

(** The new contents of a leaf. *)
Definition place (k v : bytes) (cs : list (bytes * bytes)) : list (bytes * bytes) :=
  before leaf_format k cs ++ (k, v) :: after leaf_format k cs.

Definition leaf_fits (k v : bytes) (cs : list (bytes * bytes)) : bool :=
  BTreeHeaderSize + zlen (encs leaf_format cs) + (4 + zlen k + zlen v) <? PageSize.

(** The stores of [insertIntoLeaf] write the encoded cell. *)
Lemma store_leaf_enc m off k v i :
  store (store (store (store m off (le_bytes 2 (zlen k))) (off + 2) (le_bytes 2 (zlen v)))
    (off + 4) k) (off + 4 + zlen k) v i = store m off (leaf_enc (k, v)) i.
Proof.
  unfold leaf_enc. cbn [fst snd]. rewrite !store_app, !zlen_le_bytes.
  by replace (off + Z.of_nat 2 + Z.of_nat 2) with (off + 4) by lia.
Qed.

Lemma store_internal_enc m off id k i :
  store (store (store m off (le_bytes 2 (zlen k))) (off + 2) (le_bytes 8 id)) (off + 10) k i =
  store m off (internal_enc (id, k)) i.
Proof.
  unfold internal_enc. cbn [fst snd]. rewrite !store_app, !zlen_le_bytes.
  by replace (off + Z.of_nat 2 + Z.of_nat 8) with (off + 10) by lia.
Qed.

Lemma default_position {A} (F : Format A) `{FS : !FormatSpec F} k cs :
  default (BTreeHeaderSize + zlen (encs F cs))
    (if decide (after F k cs = []) then None else Some (BTreeHeaderSize + zlen (encs F (before F k cs)))) =
  BTreeHeaderSize + zlen (encs F (before F k cs)).
Proof.
  case_decide as E; [|done]. pose proof (before_after F k cs) as Eb. rewrite E, app_nil_r in Eb. by rewrite Eb.
Qed.

Lemma same_header_insert d at_ n s bs :
  BTreeHeaderSize <= at_ -> BTreeHeaderSize <= at_ + n ->
  same_header (store (move d (at_ + n) at_ s) at_ bs) d.
Proof.
  intros. intros i Hi _. rewrite store_out by lia. unfold move. case_match; [bprop; lia | done].
Qed.

Lemma write_leaf_cell_ok d io hi k v :
  0 <= io <= hi -> hi + (4 + zlen k + zlen v) <= PageSize ->
  exists d', write_leaf_cell d io hi (4 + zlen k + zlen v) k v = Ok d' /\
    forall i, d' i = store (move d (io + zlen (leaf_enc (k, v))) io (hi - io)) io (leaf_enc (k, v)) i.
Proof.
  intros Hio Hhi. rewrite zlen_leaf_enc. cbn [fst snd]. unfold PageSize in *.
  pose proof (zlen_nonneg k). pose proof (zlen_nonneg v). set (n := 4 + zlen k + zlen v) in *.
  unfold write_leaf_cell, PageSize. rewrite (u32_small (io + n)), (u32_small (hi + n)) by lia.
  destruct (if io <? hi then _ else _) as [d1|e| |] eqn:Emv.
  2-4: exfalso; revert Emv; case_match; [|done]; rewrite (moveR_ok _ _ _ _ _ _ (hi - io)) by lia; done.
  assert (forall i, d1 i = move d (io + n) io (hi - io) i) as Hd1.
  { revert Emv. case_match; bprop.
    - rewrite (moveR_ok _ _ _ _ _ _ (hi - io)) by lia. by intros [= <-].
    - intros [= <-] i. replace (hi - io) with 0 by lia. by rewrite move_zero. }
  clear Emv. cbn [mbind result_bind].
  rewrite (u32_small (zlen k)), (u32_small (zlen v)), (u32_small (io + 4 + zlen k)),
    (u32_small (io + 4 + zlen k + zlen v)) by lia.
  rewrite storeR_ok by (rewrite ?zlen_le_bytes; lia). cbn [mbind result_bind].
  rewrite storeR_ok by (rewrite ?zlen_le_bytes; lia). cbn [mbind result_bind].
  rewrite storeR_ok by lia. cbn [mbind result_bind]. rewrite storeR_ok by lia.
  eexists. split; [done|]. intros i. rewrite store_leaf_enc. apply store_ext, Hd1.
Qed.

(** [insertIntoLeaf] replaces whatever the leaf held under the key: the new cell
    goes before the first larger key when it fits; otherwise the page is full,
    and the old value is gone. *)
Lemma insertIntoLeaf_holds p cs k v :
  Node.PageType (Data p) = PageTypeLeaf -> leaf_holds (Data p) cs ->
  zlen k + zlen v < 2 ^ 31 ->
  let cs0 := purged k cs in
  exists p', insertIntoLeaf p k v = Ok (p', if leaf_fits k v cs0 then None else Some ErrPageFull) /\
    same_frame p p' /\ same_header (Data p') (Data p) /\
    leaf_holds (Data p') (if leaf_fits k v cs0 then place k v cs0 else cs0).
Proof.
  intros Ht Hh Hkv cs0. pose proof (zlen_nonneg k). pose proof (zlen_nonneg v).
  unfold insertIntoLeaf. destruct (purge_key_spec (S (Z.to_nat (Node.NumCells (Data p)))) p cs k Hh)
    as (p1 & -> & Hs1 & Hhd1 & Hh1).
  { rewrite (nh_count _ _ _ Hh). unfold zlen. lia. }
  fold cs0 in Hh1. cbn [mbind result_bind]. rewrite (u32_small (4 + _ + _)) by lia.
  pose proof (nh_room _ _ _ Hh1) as Hroom. pose proof (zlen_nonneg (encs leaf_format cs0)).
  unfold PageSize, BTreeHeaderSize in *.
  rewrite (IsSafeForInsert_leaf (Data p1) cs0); [|by rewrite Hhd1|done].
  rewrite u32_small by (unfold PageSize, BTreeHeaderSize in *; lia). fold (leaf_fits k v cs0).
  destruct (leaf_fits k v cs0) eqn:Hfit; cbn [negb].
  2:{ exists p1. done. }
  unfold leaf_fits, PageSize, BTreeHeaderSize in Hfit. bprop.
  change (find_position leaf_format fst) with (find_position leaf_format (key_of leaf_format)).
  rewrite (find_position_list leaf_format k (Data p1) cs0 Hh1). cbn iota beta.
  rewrite (default_position leaf_format).
  pose proof (before_after leaf_format k cs0) as Ecs.
  set (cs1 := before leaf_format k cs0) in *. set (cs2 := after leaf_format k cs0) in *.
  rewrite <- Ecs in Hh1. destruct (holds_split leaf_format _ _ _ Hh1) as (Hio & Hhi & Eend & _).
  rewrite Ecs in Eend. rewrite Eend.
  set (io := BTreeHeaderSize + zlen (encs leaf_format cs1)) in *.
  set (hi := io + zlen (encs leaf_format cs2)) in *.
  unfold BTreeHeaderSize, PageSize in *. rewrite u32_small by lia.
  destruct (32768 <? _) eqn:E; bprop; [lia|].
  destruct (write_leaf_cell_ok (Data p1) io hi k v) as (d' & -> & Hd'); [lia|unfold PageSize; lia|].
  cbn [mbind result_bind]. eexists. split; [done|]. split; [done|]. cbn [Data bump set_Data]. split.
  - rewrite same_header_set_count, <- Hhd1. intros i Hi Hn. rewrite Hd'.
    apply same_header_insert; try done; [unfold BTreeHeaderSize; lia|].
    pose proof (zlen_nonneg (leaf_enc (k, v))). unfold BTreeHeaderSize. lia.
  - apply (insert_cell_holds leaf_format (Data p1) _ cs1 (k, v) cs2); try done.
    + cbn. unfold len16. lia.
    + cbn [enc leaf_format_spec]. rewrite zlen_leaf_enc. cbn [fst snd]. unfold PageSize, BTreeHeaderSize. lia.
    + by rewrite (nh_count _ _ _ Hh1).
Qed.

(** ** Internal nodes *)

Definition internal_holds := node_holds internal_format.

(** The child a key is routed to. *)
Definition route (k : bytes) (cs : list (PageID * bytes)) (rightmost : PageID) : PageID :=
  match after internal_format k cs with
  | (childID, _) :: _ => childID
  | [] => rightmost
  end.

Lemma findChild_spec d cs k :
  internal_holds d cs -> findChildInInternalNode d k = route k cs (Node.RightmostChildID d).
Proof.
  intros Hh. unfold findChildInInternalNode. rewrite (scan_node_list internal_format _ d cs) by done.
  generalize BTreeHeaderSize as o. clear Hh. unfold route.
  induction cs as [|[id k'] cs IH]; intros o; [done|]. cbn [scan_list after].
  destruct (decide (bytes_lt k (key_of internal_format (id, k')))) as [E|E];
    unfold bytes_lt in E; cbn [key_of internal_format_spec snd] in E.
  - by rewrite E.
  - destruct (bytes_compare k k'); [apply IH | done | apply IH].
Qed.

(** Overwriting the child of a cell. *)
Lemma replace_child_holds d cs1 c k cs2 id :
  internal_holds d (cs1 ++ (c, k) :: cs2) -> 0 <= id < 2 ^ 64 ->
  internal_holds (store d (BTreeHeaderSize + zlen (encs internal_format cs1) + 2) (le_bytes 8 id))
    (cs1 ++ (id, k) :: cs2).
Proof.
  intros Hh Hid. pose proof Hh as [Hn Hok Hroom _].
  destruct (holds_split internal_format _ _ _ Hh) as (Hio & Hhi & Eend & Hb1 & Hb2).
  set (io := BTreeHeaderSize + zlen (encs internal_format cs1)) in *.
  rewrite !encs_cons, !zlen_app in *. cbn [enc internal_format_spec] in *.
  rewrite !zlen_internal_enc in *. cbn [fst snd] in *.
  pose proof (zlen_nonneg k). pose proof (zlen_nonneg (encs internal_format cs2)).
  assert (zlen (encs internal_format (cs1 ++ (id, k) :: cs2)) =
    zlen (encs internal_format (cs1 ++ (c, k) :: cs2))) as Elen.
  { rewrite !encs_app, !encs_cons, !zlen_app. cbn [enc internal_format_spec].
    by rewrite !zlen_internal_enc. }
  split.
  - transitivity (Node.NumCells d); [|by rewrite Hn, !zlen_app, !zlen_cons].
    apply Uint16_ext. intros i Hi. apply store_out. unfold BTreeHeaderSize in *. lia.
  - apply Forall_app in Hok as [? [[? ?] ?]%Forall_cons]. apply Forall_app. split; [done|]. by constructor.
  - by rewrite Elen.
  - rewrite Elen, Eend, encs_app, encs_cons.
    rewrite (slice_app _ _ io), (slice_app _ io (io + 2)), (slice_app _ (io + 2) (io + 10)) by lia.
    pose proof (slice_store_same d (io + 2) (le_bytes 8 id)) as Es. rewrite zlen_le_bytes in Es.
    rewrite <- Z.add_assoc in Es. change (2 + Z.of_nat 8) with 10 in Es.
    rewrite !(slice_store_other d (io + 2)) by (rewrite zlen_le_bytes; lia). rewrite Es, Hb1.
    f_equal. cbn [enc internal_format_spec]. unfold internal_enc in Hb2 |- *. cbn [fst snd] in *.
    rewrite (slice_app _ io (io + 2)), (slice_app _ (io + 2) (io + 10)) in Hb2 by lia.
    rewrite <- !app_assoc in *. apply app_inj_1 in Hb2 as [-> Hb2]; [|len].
    apply app_inj_1 in Hb2 as [_ Hb2]; [|len].
    by rewrite slice_store_other, Hb2 by (rewrite zlen_le_bytes; lia).
Qed.

(** Moving a page whose first moved cell has a new child. *)
Lemma move_store m at_ n s bs bs' i :
  zlen bs = n -> 2 + zlen bs' <= s ->
  store (store (move m (at_ + n) at_ s) (at_ + n + 2) bs') at_ bs i =
  store (move (store m (at_ + 2) bs') (at_ + n) at_ s) at_ bs i.
Proof.
  intros <- Hs. pose proof (zlen_nonneg bs). pose proof (zlen_nonneg bs').
  destruct (decide (at_ <= i < at_ + zlen bs)) as [Hi|Hi].
  { unfold store at 1 3. rewrite (proj2 (andb_true_iff _ _)); [done|].
    split; [apply Z.leb_le | apply Z.ltb_lt]; lia. }
  rewrite !(store_out _ at_ bs) by lia. unfold move.
  destruct ((at_ + zlen bs <=? i) && _) eqn:B.
  - bprop. unfold store at 1 2. replace (at_ + (i - (at_ + zlen bs)) - (at_ + 2)) with (i - (at_ + zlen bs + 2)) by lia.
    replace ((at_ + 2 <=? at_ + (i - (at_ + zlen bs))) && (at_ + (i - (at_ + zlen bs)) <? at_ + 2 + zlen bs'))
      with ((at_ + zlen bs + 2 <=? i) && (i <? at_ + zlen bs + 2 + zlen bs')).
    + destruct (_ && _) eqn:B2; [done|]. case_match; [done|]. bprop; lia.
    + apply eq_true_iff_eq. rewrite !andb_true_iff, !Z.leb_le, !Z.ltb_lt. lia.
  - assert (i < at_ \/ at_ + zlen bs + s <= i) by (bprop; lia).
    rewrite !store_out by lia. case_match; [bprop; lia | done].
Qed.

(** The cells after a pivot is inserted: the child that was split stays to the
    left of the pivot, the new one takes its place in front of the next key. *)
Definition pivoted (k : bytes) (l r : PageID) (cs : list (PageID * bytes)) : list (PageID * bytes) :=
  before internal_format k cs ++ (l, k) ::
  match after internal_format k cs with
  | (_, k') :: cs2 => (r, k') :: cs2
  | [] => []
  end.

Definition pivoted_rightmost (k : bytes) (r : PageID) (cs : list (PageID * bytes)) (rightmost : PageID) :=
  match after internal_format k cs with [] => r | _ => rightmost end.

Definition internal_fits (k : bytes) (cs : list (PageID * bytes)) : bool :=
  BTreeHeaderSize + zlen (encs internal_format cs) + (10 + zlen k) <? PageSize.

Lemma write_internal_cell_ok d io id k :
  0 <= io -> io + (10 + zlen k) <= PageSize ->
  exists d', write_internal_cell d io k id = Ok d' /\
    forall i, d' i = store d io (internal_enc (id, k)) i.
Proof.
  unfold write_internal_cell.
  intros Hio Hroom. pose proof (zlen_nonneg k). unfold PageSize in *.
  rewrite (u32_small (zlen k)), u32_small by lia.
  rewrite storeR_ok by (rewrite ?zlen_le_bytes; lia). cbn [mbind result_bind].
  rewrite storeR_ok by (rewrite ?zlen_le_bytes; lia). cbn [mbind result_bind].
  rewrite storeR_ok by lia. eexists. split; [done|]. intros i. apply store_internal_enc.
Qed.

(** The bytes before the cells are moved: the page with the next cell's child
    replaced, or with a new rightmost child. *)
Definition redirected (d : mem) (cs : list (PageID * bytes)) (k : bytes) (r : PageID) : mem :=
  match after internal_format k cs with
  | [] => Node.SetRightmostChildID d r
  | _ => store d (BTreeHeaderSize + zlen (encs internal_format (before internal_format k cs)) + 2)
           (le_bytes 8 r)
  end.

Lemma redirected_holds d cs k r :
  internal_holds d cs -> 0 <= r < 2 ^ 64 ->
  internal_holds (redirected d cs k r) (before internal_format k cs ++
    match after internal_format k cs with (_, k') :: cs2 => (r, k') :: cs2 | [] => [] end).
Proof.
  intros Hh Hr. unfold redirected. pose proof (before_after internal_format k cs) as Ecs.
  destruct (after internal_format k cs) as [|[c k'] cs2].
  - rewrite Ecs. destruct Hh as [Hn Hok Hroom Hb]. split; [|done|done|].
    + etransitivity; [|exact Hn]. unfold Node.NumCells, Node.SetRightmostChildID. by fields.
    + etransitivity; [|exact Hb]. unfold Node.SetRightmostChildID, PutUint32. apply slice_store_other.
      rewrite zlen_le_bytes. unfold BTreeHeaderSize. lia.
  - apply (replace_child_holds d _ c); [|done]. by rewrite Ecs.
Qed.

(** The header keeps everything but the count and, when the pivot is the
    largest key, the rightmost child. *)
Definition same_links (d1 d2 : mem) : Prop :=
  Node.PageType d1 = Node.PageType d2 /\ Node.NextLeafID d1 = Node.NextLeafID d2 /\
  Node.ParentID d1 = Node.ParentID d2.

Lemma redirected_header d cs k r :
  0 <= r < 2 ^ 32 -> internal_holds d cs ->
  same_links (redirected d cs k r) d /\
  Node.RightmostChildID (redirected d cs k r) = pivoted_rightmost k r cs (Node.RightmostChildID d).
Proof.
  intros Hr Hh. unfold redirected, pivoted_rightmost, same_links.
  pose proof (zlen_nonneg (encs internal_format (before internal_format k cs))).
  destruct (after internal_format k cs).
  - unfold Node.SetRightmostChildID, Node.PageType, Node.NextLeafID, Node.ParentID, Node.RightmostChildID.
    fields. by rewrite u32_small.
  - assert (same_header (store d (BTreeHeaderSize + zlen (encs internal_format (before internal_format k cs)) + 2)
      (le_bytes 8 r)) d) as E.
    { intros i Hi _. apply store_out. unfold BTreeHeaderSize in *. lia. }
    by rewrite E.
Qed.

Lemma pivoted_length k cs r :
  zlen (before internal_format k cs ++
    match after internal_format k cs with (_, k') :: cs2 => (r, k') :: cs2 | [] => [] end) = zlen cs /\
  zlen (encs internal_format (match after internal_format k cs with (_, k') :: cs2 => (r, k') :: cs2 | [] => [] end)) =
  zlen (encs internal_format (after internal_format k cs)).
Proof.
  pose proof (f_equal zlen (before_after internal_format k cs)) as Ecs. rewrite zlen_app in Ecs.
  rewrite <- Ecs. destruct (after internal_format k cs) as [|[c k'] cs2]; [by rewrite zlen_app|].
  rewrite !zlen_app, !zlen_cons, !encs_cons, !zlen_app. cbn [enc internal_format_spec].
  by rewrite !zlen_internal_enc.
Qed.

(** What [insertIntoInternal] writes before the count. *)
Lemma shift_internal_cells_ok d cs k l r :
  internal_holds d cs -> internal_fits k cs = true ->
  let io := BTreeHeaderSize + zlen (encs internal_format (before internal_format k cs)) in
  let hi := BTreeHeaderSize + zlen (encs internal_format cs) in
  let n := 10 + zlen k in
  exists d1, shift_internal_cells d (if decide (after internal_format k cs = []) then None else Some io)
      hi n r = Ok d1 /\
    forall i, store d1 io (internal_enc (l, k)) i =
      store (move (redirected d cs k r) (io + n) io (hi - io)) io (internal_enc (l, k)) i.
Proof.
  intros Hh Hfit io hi n. unfold internal_fits in Hfit. bprop. fold hi n in Hfit.
  pose proof (before_after internal_format k cs) as Ecs. rewrite <- Ecs in Hh.
  destruct (holds_split internal_format _ _ _ Hh) as (Hio & Hhi & Eend & _). rewrite Ecs in Eend.
  fold io hi in Hio, Hhi, Eend. pose proof (zlen_nonneg k).
  unfold redirected. destruct (after internal_format k cs) as [|[c k'] cs2] eqn:Eafter.
  - rewrite decide_True by done. eexists. split; [done|]. intros i. apply store_ext.
    change (encs internal_format []) with (@nil byte) in Eend. unfold zlen in Eend at 1. cbn in Eend.
    replace (hi - io) with 0 by lia. by rewrite move_zero.
  - rewrite decide_False by done. fold io. unfold shift_internal_cells, PageSize, BTreeHeaderSize in *.
    rewrite encs_cons, zlen_app in *. cbn [enc internal_format_spec] in *. rewrite zlen_internal_enc in *.
    cbn [fst snd] in *. pose proof (zlen_nonneg k'). pose proof (zlen_nonneg (encs internal_format cs2)).
    rewrite (u32_small (io + n)), (u32_small (hi + n)), !(u32_small (io + n + _)) by lia.
    rewrite (proj2 (Z.leb_le _ _)), (moveR_ok _ _ _ _ _ _ (hi - io)) by lia. cbn [mbind result_bind].
    rewrite storeR_ok by (rewrite ?zlen_le_bytes; lia). eexists. split; [done|].
    intros i. apply move_store; [by rewrite zlen_internal_enc | rewrite zlen_le_bytes; lia].
Qed.

Lemma insertIntoInternal_holds p cs k l r :
  Node.PageType (Data p) = PageTypeInternal -> internal_holds (Data p) cs ->
  zlen k < 2 ^ 16 -> 0 <= l < 2 ^ 64 -> 0 <= r < 2 ^ 32 ->
  if internal_fits k cs
  then exists p', insertIntoInternal p k l r = Ok (p', None) /\ same_frame p p' /\
    same_links (Data p') (Data p) /\ internal_holds (Data p') (pivoted k l r cs) /\
    Node.RightmostChildID (Data p') = pivoted_rightmost k r cs (Node.RightmostChildID (Data p))
  else insertIntoInternal p k l r = Ok (p, Some ErrPageFull).
Proof.
  intros Ht Hh Hk Hl Hr. unfold insertIntoInternal. pose proof (zlen_nonneg k).
  pose proof (nh_room _ _ _ Hh) as Hroom. pose proof (zlen_nonneg (encs internal_format cs)).
  rewrite (IsSafeForInsert_internal (Data p) cs) by done.
  rewrite (u32_small (10 + _)), u32_small by (unfold PageSize, BTreeHeaderSize in *; lia).
  fold (internal_fits k cs). destruct (internal_fits k cs) eqn:Hfit; [|done]. cbn [negb].
  change (find_position internal_format snd) with (find_position internal_format (key_of internal_format)).
  rewrite (find_position_list internal_format k (Data p) cs Hh). cbn iota beta.
  rewrite (default_position internal_format).
  destruct (shift_internal_cells_ok (Data p) cs k l r Hh Hfit) as (d1 & -> & Hd1).
  cbn [mbind result_bind]. unfold internal_fits in Hfit. bprop.
  pose proof (redirected_holds (Data p) cs k r Hh ltac:(lia)) as Hred.
  destruct (pivoted_length k cs r) as [Elen1 Elen2].
  pose proof (f_equal (fun l => zlen (encs internal_format l)) (before_after internal_format k cs)) as Ecs.
  cbn beta in Ecs. rewrite encs_app, zlen_app in Ecs.
  pose proof (zlen_nonneg (encs internal_format (before internal_format k cs))).
  pose proof (zlen_nonneg (encs internal_format (after internal_format k cs))).
  set (io := BTreeHeaderSize + zlen (encs internal_format (before internal_format k cs))) in *.
  assert (0 <= io /\ BTreeHeaderSize <= io /\ io + (10 + zlen k) <= PageSize) as (Hio & Hio' & Hiok)
    by (unfold io, BTreeHeaderSize, PageSize in *; lia).
  rewrite u32_small, (proj2 (Z.leb_le _ _)) by (unfold PageSize in *; lia).
  destruct (write_internal_cell_ok d1 io l k Hio Hiok) as (d2 & -> & Hd2). cbn [mbind result_bind].
  eexists. split; [done|]. split; [done|]. cbn [Data bump set_Data].
  destruct (redirected_header (Data p) cs k r Hr Hh) as [(Hl1 & Hl2 & Hl3) Hrm].
  assert (same_header (Node.SetNumCells d2 (u16 (Node.NumCells (Data p) + 1))) (redirected (Data p) cs k r)) as Hhd.
  { rewrite same_header_set_count. intros i Hi Hn. rewrite Hd2, Hd1.
    apply same_header_insert; try done. unfold BTreeHeaderSize in *. lia. }
  split; [split; [|split]|split; [|by rewrite (RightmostChildID_header _ _ Hhd)]].
  1: by rewrite (PageType_header _ _ Hhd).
  1: by rewrite (NextLeafID_header _ _ Hhd).
  1: by rewrite (ParentID_header _ _ Hhd).
  apply (insert_cell_holds internal_format (redirected (Data p) cs k r)); [done | done | | |].
  - cbn [enc internal_format_spec]. rewrite zlen_internal_enc, Elen2. cbn [snd]. unfold io in *. lia.
  - by rewrite Elen1, (nh_count _ _ _ Hh).
  - intros i Hi. rewrite Hd2, Hd1. fold io. cbn [enc internal_format_spec]. rewrite zlen_internal_enc, Elen2.
    cbn [snd].
    by replace (BTreeHeaderSize + zlen (encs internal_format cs)) with
      (io + zlen (encs internal_format (after internal_format k cs))) by (unfold io; lia).
Qed.

(** ** Splitting *)

Lemma find_mid_spec {A} (F : Format A) `{FS : !FormatSpec F} d cs m :
  node_holds F d cs -> (m <= length cs)%nat ->
  find_mid F d (Z.of_nat m) = (BTreeHeaderSize + zlen (encs F (take m cs)), cs !! m).
Proof.
  intros Hh Hm. unfold find_mid. rewrite (scan_node_list F _ d cs) by done.
  clear Hh. replace (Z.of_nat m) with (0 + Z.of_nat m) by lia. generalize 0 as j.
  generalize BTreeHeaderSize as o. revert m Hm.
  induction cs as [|c cs IH]; intros m Hm o j; cbn [scan_list].
  - cbn in Hm. assert (m = 0%nat) as -> by lia. cbn. f_equal. unfold zlen. cbn. lia.
  - destruct m as [|m]; cbn [take].
    + rewrite Z.add_0_r, Z.eqb_refl. cbn. f_equal. unfold zlen. cbn. lia.
    + destruct (_ =? _) eqn:E; bprop; [lia|]. replace (j + Z.of_nat (S m)) with (j + 1 + Z.of_nat m) by lia.
      rewrite IH by (cbn in Hm; lia). rewrite encs_cons, zlen_app. cbn [lookup list_lookup]. f_equal. lia.
Qed.

(** The tail of a page copied into a fresh one. *)
Lemma copy_tail_slice nd d from n :
  BTreeHeaderSize <= from -> 0 <= n -> from + n <= PageSize ->
  slice (copy_tail nd d from) BTreeHeaderSize (BTreeHeaderSize + n) = slice d from (from + n).
Proof.
  intros Hf Hn Hle. unfold copy_tail.
  destruct (decide (from = PageSize)) as [->|Hne].
  { rewrite !slice_nil by lia. done. }
  destruct (_ && _) eqn:B; [|bprop; lia].
  rewrite take_ge by (rewrite length_slice; unfold BTreeHeaderSize, PageSize in *; lia).
  set (bs := slice d from (from + (PageSize - from))).
  assert (zlen bs = PageSize - from) as Hlen by (unfold bs; rewrite zlen_slice; lia).
  pose proof (slice_store_same nd BTreeHeaderSize bs) as E.
  rewrite Hlen, (slice_app _ _ (BTreeHeaderSize + n)) in E by lia.
  assert (bs = slice d from (from + n) ++ slice d (from + n) (from + (PageSize - from))) as Ebs
    by (apply slice_app; lia).
  pose proof (eq_trans E Ebs) as [E' _]%app_inj_1; [done|len].
Qed.

Lemma copy_tail_header nd d from i : i < BTreeHeaderSize -> copy_tail nd d from i = nd i.
Proof. intros. unfold copy_tail. case_match; [|done]. apply store_out. lia. Qed.

Section SplitParts.
Context {A : Type} (F : Format A) `{FS : !FormatSpec F}.
Implicit Types cs : list A.

(** The cells depend on the count and on the bytes past the header. *)
Lemma holds_ext d d' cs :
  (forall i, 2 <= i < 4 \/ BTreeHeaderSize <= i < PageSize -> d' i = d i) ->
  node_holds F d cs -> node_holds F d' cs.
Proof.
  intros E [Hn Hok Hroom Hb]. split; [|done|done|].
  - etransitivity; [|exact Hn]. apply Uint16_ext. intros. apply E. lia.
  - etransitivity; [|exact Hb]. apply slice_ext. intros. apply E. lia.
Qed.

Lemma holds_store_header d cs off bs :
  4 <= off -> off + zlen bs <= BTreeHeaderSize -> node_holds F d cs -> node_holds F (store d off bs) cs.
Proof.
  intros H1 H2. apply holds_ext. intros i Hi. apply store_out. unfold BTreeHeaderSize in *. lia.
Qed.

Lemma clear_tail_holds d cs1 cs2 to :
  node_holds F d (cs1 ++ cs2) -> BTreeHeaderSize + zlen (encs F cs1) <= to ->
  node_holds F (clear (Node.SetNumCells d (zlen cs1)) to PageSize) cs1.
Proof.
  intros Hh Hto. destruct (holds_split F _ _ _ Hh) as (H1 & H2 & _ & Hb & _).
  pose proof Hh as [_ [Hok _]%Forall_app _ _]. pose proof (zlen_encs F cs1).
  pose proof (zlen_nonneg cs1). unfold PageSize, BTreeHeaderSize in *.
  assert (node_holds F (Node.SetNumCells d (u16 (zlen cs1))) cs1) as [Hn Ho Hr Hb'].
  { apply holds_set_count; unfold BTreeHeaderSize, PageSize; try done. lia. }
  rewrite u16_small in Hn, Hb' by lia. split; [|done|done|].
  - etransitivity; [|exact Hn]. apply Uint16_ext. intros i Hi. unfold clear. case_match; [bprop; lia|done].
  - etransitivity; [|exact Hb']. apply slice_clear_other. unfold BTreeHeaderSize. lia.
Qed.

Lemma copy_tail_holds nd d cs1 cs2 n :
  node_holds F d (cs1 ++ cs2) -> n = zlen cs2 ->
  node_holds F (Node.SetNumCells (copy_tail nd d (BTreeHeaderSize + zlen (encs F cs1))) (u16 n)) cs2.
Proof.
  intros Hh ->. destruct (holds_split F _ _ _ Hh) as (H1 & H2 & _ & _ & Hb).
  pose proof Hh as [_ [_ Hok]%Forall_app _ _]. pose proof (zlen_nonneg (encs F cs2)).
  apply holds_set_count; [done|lia| |done]. rewrite copy_tail_slice by lia. exact Hb.
Qed.
End SplitParts.

Lemma half_length {A} (cs : list A) : zlen cs / 2 = Z.of_nat (length cs / 2) /\ (length cs / 2 <= length cs)%nat.
Proof.
  unfold zlen. rewrite Nat2Z.inj_div. split; [done|]. apply Nat.Div0.div_le_upper_bound. lia.
Qed.

(** What both halves of a split leaf hold and how they are linked. *)
Record leaf_split (node newLeaf node' newLeaf' : Page) (midKey : bytes) (cs : list (bytes * bytes)) : Prop := {
  ls_frame : same_frame node node';
  ls_new_frame : same_frame newLeaf newLeaf';
  ls_low : leaf_holds (Data node') (take (length cs / 2) cs);
  ls_high : leaf_holds (Data newLeaf') (drop (length cs / 2) cs);
  ls_type : Node.PageType (Data node') = Node.PageType (Data node);
  ls_new_type : Node.PageType (Data newLeaf') = PageTypeLeaf;
  ls_next : Node.NextLeafID (Data node') = ID newLeaf;
  ls_new_next : Node.NextLeafID (Data newLeaf') = Node.NextLeafID (Data node);
  ls_parent : Node.ParentID (Data newLeaf') = Node.ParentID (Data node);
  ls_pivot : midKey = default [] (fst <$> cs !! (length cs / 2)%nat)
}.

Lemma same_header_copy nd d from n : same_header (Node.SetNumCells (copy_tail nd d from) n) nd.
Proof. rewrite same_header_set_count. intros i Hi _. apply copy_tail_header. lia. Qed.

Lemma same_header_clear d n to :
  BTreeHeaderSize <= to -> same_header (clear (Node.SetNumCells d n) to PageSize) d.
Proof.
  intros Hto. transitivity (Node.SetNumCells d n); [|apply same_header_set_count].
  intros i Hi _. unfold clear. case_match; [bprop; lia | done].
Qed.

Lemma split_leaf_spec node newLeaf cs :
  leaf_holds (Data node) cs -> 0 <= ID newLeaf < 2 ^ 64 ->
  let '(node', newLeaf', midKey) := split_leaf_pages node newLeaf in
  leaf_split node newLeaf node' newLeaf' midKey cs.
Proof.
  intros Hh Hid. unfold split_leaf_pages.
  set (d := Node.SetNextLeafID (Data node) (ID newLeaf)).
  assert (leaf_holds d cs) as Hd.
  { apply holds_store_header; rewrite ?zlen_le_bytes; try done; unfold BTreeHeaderSize; lia. }
  set (nd := Node.SetParentID _ _). rewrite (nh_count _ _ _ Hd).
  destruct (half_length cs) as [Ehalf Hhalf]. rewrite Ehalf.
  rewrite (find_mid_spec leaf_format d cs (length cs / 2) Hd Hhalf). cbn iota beta.
  set (m := (length cs / 2)%nat) in *. rewrite <- (take_drop m cs) in Hd.
  destruct (holds_split leaf_format _ _ _ Hd) as (H1 & H2 & _).
  pose proof (zlen_nonneg (encs leaf_format (drop m cs))).
  destruct (PageSize <? _) eqn:E; bprop; [lia|]. clear E.
  set (from := BTreeHeaderSize + zlen (encs leaf_format (take m cs))) in *.
  assert (zlen (take m cs) = Z.of_nat m) as Etake by (unfold zlen; rewrite length_take; lia).
  pose proof (same_header_copy nd d from (u16 (zlen cs - Z.of_nat m))) as Hnew.
  pose proof (same_header_clear d (Z.of_nat m) from ltac:(lia)) as Hold.
  split; cbn [Data bump set_Data]; [done|done| | | | | | | |].
  - rewrite <- Etake. by apply (clear_tail_holds leaf_format d _ (drop m cs)).
  - apply (copy_tail_holds leaf_format nd d _ _ _ Hd). unfold zlen. rewrite length_drop. lia.
  - rewrite (PageType_header _ _ Hold). unfold d, Node.PageType, Node.SetNextLeafID. by fields.
  - rewrite (PageType_header _ _ Hnew).
    unfold nd, Node.PageType, Node.SetParentID, Node.SetNextLeafID, Node.SetPageType. by fields.
  - rewrite (NextLeafID_header _ _ Hold). unfold d, Node.NextLeafID, Node.SetNextLeafID. fields. by apply u64_small.
  - rewrite (NextLeafID_header _ _ Hnew). unfold nd, Node.NextLeafID, Node.SetParentID, Node.SetNextLeafID.
    fields. apply u64_small, Uint64_range.
  - rewrite (ParentID_header _ _ Hnew). unfold nd, d, Node.ParentID, Node.SetParentID, Node.SetNextLeafID.
    fields. apply u64_small, Uint64_range.
  - fold m. by destruct (cs !! m) as [[]|].
Qed.

(** What both halves of a split internal node hold. *)
Record internal_split (node newNode node' newNode' : Page) (pivot : bytes)
    (cs1 : list (PageID * bytes)) (c : PageID) (k : bytes) (cs2 : list (PageID * bytes)) : Prop := {
  is_frame : same_frame node node';
  is_new_frame : same_frame newNode newNode';
  is_low : internal_holds (Data node') cs1;
  is_high : internal_holds (Data newNode') cs2;
  is_type : Node.PageType (Data node') = Node.PageType (Data node);
  is_new_type : Node.PageType (Data newNode') = PageTypeInternal;
  is_rightmost : Node.RightmostChildID (Data node') = u32 c;
  is_new_rightmost : Node.RightmostChildID (Data newNode') = Node.RightmostChildID (Data node);
  is_parent : Node.ParentID (Data newNode') = Node.ParentID (Data node);
  is_pivot : pivot = k
}.

Lemma split_internal_spec node newNode cs1 c k cs2 :
  internal_holds (Data node) (cs1 ++ (c, k) :: cs2) ->
  length cs1 = (length (cs1 ++ (c, k) :: cs2) / 2)%nat ->
  let '(node', newNode', pivot) := split_internal_pages node newNode in
  internal_split node newNode node' newNode' pivot cs1 c k cs2.
Proof.
  intros Hh Hlen. unfold split_internal_pages.
  set (cs := cs1 ++ (c, k) :: cs2) in *. rewrite (nh_count _ _ _ Hh).
  destruct (half_length cs) as [Ehalf Hhalf]. rewrite Ehalf.
  rewrite (find_mid_spec internal_format (Data node) cs (length cs / 2) Hh Hhalf). rewrite <- Hlen.
  assert (cs !! length cs1 = Some (c, k)) as -> by by apply list_lookup_middle.
  assert (take (length cs1) cs = cs1) as -> by apply take_app_length. cbn iota beta.
  pose proof (holds_store_header internal_format (Data node) cs 20 (le_bytes 4 c) ltac:(lia)
    ltac:(rewrite zlen_le_bytes; unfold BTreeHeaderSize; lia) Hh) as Hd.
  change (store (Data node) 20 (le_bytes 4 c)) with (Node.SetRightmostChildID (Data node) c) in Hd.
  set (d := Node.SetRightmostChildID (Data node) c) in *. set (nd := Node.SetRightmostChildID _ _).
  assert (cs = (cs1 ++ [(c, k)]) ++ cs2) as Ecs by (unfold cs; by rewrite <- app_assoc).
  pose proof Hd as Hd2. rewrite Ecs in Hd2.
  destruct (holds_split internal_format _ _ _ Hd2) as (H1 & H2 & _).
  set (mid := BTreeHeaderSize + zlen (encs internal_format (cs1 ++ [(c, k)]))) in *.
  assert (BTreeHeaderSize + zlen (encs internal_format cs1) + 10 + zlen k = mid) as ->.
  { unfold mid. rewrite encs_app, zlen_app. unfold encs at 3. cbn [fmap list_fmap concat enc internal_format_spec].
    rewrite app_nil_r, zlen_internal_enc. cbn [snd]. lia. }
  pose proof (zlen_nonneg (encs internal_format cs2)).
  destruct (_ || _) eqn:E; [unfold BTreeHeaderSize, PageSize in *; bprop; lia|]. clear E.
  destruct (PageSize <? mid) eqn:E; [bprop; lia|]. clear E.
  pose proof (same_header_copy nd d mid (u16 (zlen cs - Z.of_nat (length cs1) - 1))) as Hnew.
  pose proof (same_header_clear d (Z.of_nat (length cs1)) mid ltac:(lia)) as Hold.
  split; cbn [Data bump set_Data]; [done|done| | | | | | | |done].
  - apply (clear_tail_holds internal_format d cs1 ((c, k) :: cs2) mid Hd). unfold mid.
    rewrite encs_app, zlen_app. pose proof (zlen_nonneg (encs internal_format [(c, k)])). lia.
  - apply (copy_tail_holds internal_format nd d _ _ _ Hd2). unfold cs.
    rewrite zlen_app, zlen_cons. unfold zlen. lia.
  - rewrite (PageType_header _ _ Hold). unfold d, Node.PageType, Node.SetRightmostChildID. by fields.
  - rewrite (PageType_header _ _ Hnew).
    unfold nd, Node.PageType, Node.SetParentID, Node.SetRightmostChildID, Node.SetPageType. by fields.
  - rewrite (RightmostChildID_header _ _ Hold). unfold d, Node.RightmostChildID, Node.SetRightmostChildID. by fields.
  - rewrite (RightmostChildID_header _ _ Hnew). unfold nd, Node.RightmostChildID, Node.SetRightmostChildID.
    fields. apply u32_small, Uint32_range.
  - rewrite (ParentID_header _ _ Hnew). unfold nd, Node.ParentID, Node.SetParentID, Node.SetRightmostChildID.
    fields. apply u64_small, Uint64_range.
Qed.

(** The root made of two halves. *)
Lemma new_root_spec newRoot k l r :
  zlen k < 2 ^ 14 -> 0 <= l < 2 ^ 64 -> 0 <= r < 2 ^ 32 ->
  let p := new_root_page newRoot k l r in
  same_frame newRoot p /\ Node.PageType (Data p) = PageTypeInternal /\
  internal_holds (Data p) [(l, k)] /\ Node.RightmostChildID (Data p) = r.
Proof.
  intros Hk Hl Hr p. split; [done|]. unfold p, new_root_page. cbn [Data bump set_Data].
  pose proof (zlen_nonneg k).
  rewrite (take_ge k) by (unfold BTreeHeaderSize, PageSize, zlen in *; lia).
  set (d0 := Node.SetNumCells _ 1). unfold PutUint16, PutUint64.
  set (d1 := store (store _ _ _) _ k).
  assert (forall i, d1 i = store d0 BTreeHeaderSize (internal_enc (l, k)) i) as Hd1 by (intros i; apply store_internal_enc).
  assert (same_header d1 d0) as Hhd by (intros i Hi _; rewrite Hd1; apply store_out; lia).
  assert (internal_holds d1 [(l, k)]) as Hh.
  { assert (encs internal_format [(l, k)] = internal_enc (l, k)) as Ee by apply app_nil_r.
    assert (zlen (internal_enc (l, k)) = 10 + zlen k) as El by apply zlen_internal_enc.
    split; [|constructor; [|done]|..].
    - transitivity (Node.NumCells d0); [|unfold d0, Node.NumCells, Node.SetNumCells; by fields].
      apply Uint16_ext. intros i Hi. rewrite Hd1. apply store_out. unfold BTreeHeaderSize. lia.
    - cbn. unfold len16. lia.
    - rewrite Ee, El. unfold BTreeHeaderSize, PageSize. lia.
    - rewrite Ee. rewrite (slice_ext d1 _ _ _ (fun i _ => Hd1 i)). apply slice_store_same. }
  split; [|split].
  - transitivity (Node.PageType d0); [|unfold d0, Node.PageType, Node.SetNumCells, Node.SetPageType; by fields].
    rewrite <- (PageType_header _ _ Hhd). unfold Node.PageType, Node.SetRightmostChildID. by fields.
  - apply holds_store_header; rewrite ?zlen_le_bytes; try done; unfold BTreeHeaderSize; lia.
  - unfold Node.RightmostChildID, Node.SetRightmostChildID. fields. by apply u32_small.
Qed.

(** ** Pages to compute with *)

(** The page of a given type that holds the cells [cs]. *)
Definition node_image {A} (F : Format A) `{FS : !FormatSpec F} (t : Z) (cs : list A) : mem :=
  store (Node.SetNumCells (Node.SetPageType zero_mem t) (u16 (zlen cs))) BTreeHeaderSize (encs F cs).

Lemma node_image_holds {A} (F : Format A) `{FS : !FormatSpec F} t cs :
  Forall (cell_ok F) cs -> BTreeHeaderSize + zlen (encs F cs) <= PageSize -> 0 <= t < 2 ^ 16 ->
  Node.PageType (node_image F t cs) = t /\ node_holds F (node_image F t cs) cs.
Proof.
  intros Hok Hroom Ht. pose proof (zlen_encs F cs). pose proof (zlen_nonneg cs).
  unfold PageSize, BTreeHeaderSize in *. unfold node_image. split; [|split; try done].
  - unfold Node.PageType, Node.SetNumCells, Node.SetPageType, BTreeHeaderSize. fields. by apply u16_small.
  - unfold Node.NumCells, Node.SetNumCells, BTreeHeaderSize. fields. rewrite !u16_small; rewrite ?u16_small; lia.
  - apply slice_store_same.
Qed.

Definition page_image (id : PageID) (d : mem) : Page := mkPage id d 0 false 0.
