(* ===== verification/BTreeNode.v ===== *)
(** What one B-tree page promises: a leaf is a finite map kept in key order, an
    internal node routes every key to one child, a split partitions both, and
    no page, however corrupt, makes an insertion leave the page. *)

From Stdlib Require Import Strings.Byte.
From stdpp Require Import sorting.
From S2P Require Import Common.
From S2P Require Import Prelude.
From S2P Require Import Page.
From S2P Require Import BTreePage.

(** ** Keys in order *)

Definition keys_sorted (ks : list bytes) : Prop := StronglySorted bytes_lt ks.

#[export] Instance keys_sorted_dec ks : Decision (keys_sorted ks).
Proof.
  induction ks as [|k ks IH]; [left; constructor|].
  destruct IH as [Hs|Hs]; [|right; by inversion 1].
  destruct (decide (Forall (bytes_lt k) ks)); [left; by constructor | right; by inversion 1].
Defined.

Lemma keys_sorted_NoDup ks : keys_sorted ks -> NoDup ks.
Proof.
  induction 1 as [|k ks Hs IH Hk]; constructor; [|done].
  intros Hin. rewrite Forall_forall in Hk. by apply (bytes_lt_irrefl k), Hk.
Qed.

Lemma bytes_nlt_le a b : ~ bytes_lt a b -> b = a \/ bytes_lt b a.
Proof. intros Hn. destruct (bytes_lt_total a b) as [|[->|]]; [done | by left | by right]. Qed.

Lemma bytes_le_lt a b c : ~ bytes_lt b a -> bytes_lt b c -> bytes_lt a c.
Proof. intros [->|H1]%bytes_nlt_le H2; [done|]. by transitivity b. Qed.

Section Order.
Context {A : Type} (F : Format A) `{FS : !FormatSpec F}.
Implicit Types cs : list A.

Lemma before_le k cs : Forall (fun c => ~ bytes_lt k (key_of F c)) (before F k cs).
Proof. induction cs as [|c cs IH]; cbn; [constructor|]. case_decide; by constructor. Qed.

Lemma after_gt k cs :
  keys_sorted (key_of F <$> cs) -> Forall (fun c => bytes_lt k (key_of F c)) (after F k cs).
Proof.
  induction cs as [|c cs IH]; cbn; [constructor|]. intros [Hc Hs]%StronglySorted_cons.
  case_decide as Hk; [|by apply IH]. constructor; [done|].
  rewrite Forall_fmap in Hc. eapply Forall_impl; [exact Hc|]. intros x Hx. by transitivity (key_of F c).
Qed.

Lemma after_app_le k cs1 cs2 :
  Forall (fun c => ~ bytes_lt k (key_of F c)) cs1 -> after F k (cs1 ++ cs2) = after F k cs2.
Proof. induction 1 as [|c cs1 Hc _ IH]; [done|]. cbn. by rewrite decide_False. Qed.

Lemma after_app_gt k cs1 c cs2 :
  bytes_lt k (key_of F c) -> after F k (cs1 ++ c :: cs2) = after F k cs1 ++ c :: cs2.
Proof. intros Hc. induction cs1 as [|c' cs1 IH]; cbn; [by rewrite decide_True|]. case_decide; done. Qed.

Lemma sorted_split k cs :
  keys_sorted (key_of F <$> cs) ->
  keys_sorted (key_of F <$> before F k cs) /\ keys_sorted (key_of F <$> after F k cs).
Proof.
  intros Hs. rewrite <- (before_after F k cs) in Hs. rewrite fmap_app in Hs.
  apply StronglySorted_app in Hs as (_ & ? & ?). done.
Qed.

(** A new key between the smaller and the larger ones keeps the order. *)
Lemma splice_sorted k cs :
  k ∉ key_of F <$> cs -> keys_sorted (key_of F <$> cs) ->
  keys_sorted ((key_of F <$> before F k cs) ++ k :: (key_of F <$> after F k cs)).
Proof.
  intros Hk Hs. destruct (sorted_split k cs Hs) as [Hs1 Hs2].
  pose proof (before_le k cs) as Hb. pose proof (after_gt k cs Hs) as Ha.
  assert (forall c, c ∈ before F k cs -> bytes_lt (key_of F c) k) as Hlt.
  { intros c Hc. rewrite Forall_forall in Hb. destruct (bytes_nlt_le _ _ (Hb c Hc)) as [E|?]; [|done].
    destruct Hk. rewrite <- E. apply list_elem_of_fmap_2. rewrite <- (before_after F k cs).
    apply elem_of_app. by left. }
  apply StronglySorted_app_2; [|done|].
  - intros x y (c & -> & Hc)%list_elem_of_fmap [->|(c' & -> & Hc')%list_elem_of_fmap]%elem_of_cons.
    + by apply Hlt.
    + transitivity k; [by apply Hlt|]. rewrite Forall_forall in Ha. by apply Ha.
  - apply StronglySorted_cons. split; [|done]. by rewrite Forall_fmap.
Qed.
End Order.

(** ** A leaf is a map *)

(** The map a list of leaf cells stands for: a lookup finds the first cell. *)
Definition leaf_map (cs : list (bytes * bytes)) : gmap bytes bytes := list_to_map cs.

Lemma leaf_map_purged k cs : leaf_map (purged k cs) = delete k (leaf_map cs).
Proof.
  unfold leaf_map, purged. induction cs as [|[k' v'] cs IH]; [symmetry; apply delete_empty|].
  destruct (decide (k' = k)) as [->|Hne].
  - rewrite filter_cons_False by tauto. rewrite IH. cbn. by rewrite delete_insert_eq.
  - rewrite filter_cons_True by done. cbn. rewrite IH. by rewrite delete_insert_ne.
Qed.

Lemma purged_keys k cs : k ∉ (purged k cs).*1.
Proof. intros ([k' v'] & -> & [Hne _]%list_elem_of_filter)%list_elem_of_fmap. done. Qed.

Lemma purged_sorted k cs : keys_sorted cs.*1 -> keys_sorted (purged k cs).*1.
Proof.
  unfold purged. induction cs as [|[k' v'] cs IH]; [done|]. cbn [fmap list_fmap fst]. intros [Hk Hs]%StronglySorted_cons.
  destruct (decide (k' = k)); [rewrite filter_cons_False by tauto; by apply IH|].
  rewrite filter_cons_True by done. cbn [fmap list_fmap fst]. constructor; [by apply IH|].
  rewrite Forall_forall in *. intros x (c & -> & [_ Hc]%list_elem_of_filter)%list_elem_of_fmap.
  by apply Hk, list_elem_of_fmap_2.
Qed.

Lemma place_perm k v cs : place k v cs ≡ₚ (k, v) :: cs.
Proof. unfold place. by rewrite <- Permutation_middle, (before_after leaf_format). Qed.

Lemma place_sorted k v cs : k ∉ cs.*1 -> keys_sorted cs.*1 -> keys_sorted (place k v cs).*1.
Proof.
  intros Hk Hs. unfold place. rewrite fmap_app.
  exact (splice_sorted leaf_format (FS:=leaf_format_spec) k cs Hk Hs).
Qed.

Lemma leaf_map_place k v cs :
  k ∉ cs.*1 -> keys_sorted cs.*1 -> leaf_map (place k v cs) = <[k := v]> (leaf_map cs).
Proof.
  intros Hk Hs. unfold leaf_map. rewrite (list_to_map_proper _ ((k, v) :: cs)); [done| |apply place_perm].
  rewrite place_perm. cbn. constructor; [done|]. by apply keys_sorted_NoDup.
Qed.

(** The new cells of a leaf after [insertIntoLeaf]. *)
Definition leaf_put (k v : bytes) (cs : list (bytes * bytes)) : list (bytes * bytes) :=
  if leaf_fits k v (purged k cs) then place k v (purged k cs) else purged k cs.

Lemma leaf_put_sorted k v cs : keys_sorted cs.*1 -> keys_sorted (leaf_put k v cs).*1.
Proof.
  intros Hs. unfold leaf_put. pose proof (purged_sorted k cs Hs).
  case_match; [|done]. apply place_sorted; [apply purged_keys|done].
Qed.

Lemma leaf_put_map k v cs :
  keys_sorted cs.*1 ->
  leaf_map (leaf_put k v cs) =
    if leaf_fits k v (purged k cs) then <[k := v]> (leaf_map cs) else delete k (leaf_map cs).
Proof.
  intros Hs. unfold leaf_put. case_match; [|apply leaf_map_purged].
  rewrite leaf_map_place, leaf_map_purged by (apply purged_keys || by apply purged_sorted).
  apply insert_delete_eq.
Qed.

(** [insertIntoLeaf] on a leaf in key order implements the insertion of a
    finite map: when the new cell fits beside the other keys the page keeps
    its order and its map becomes [<[k := v]>]; otherwise it reports
    [ErrPageFull], and the key's old value has already been deleted. *)
Theorem insertIntoLeaf_refines_map p cs k v :
  Node.PageType (Data p) = PageTypeLeaf -> leaf_holds (Data p) cs -> keys_sorted cs.*1 ->
  zlen k + zlen v < 2 ^ 31 ->
  exists p' cs', leaf_holds (Data p') cs' /\ keys_sorted cs'.*1 /\
    same_frame p p' /\ same_header (Data p') (Data p) /\
    if leaf_fits k v (purged k cs)
    then insertIntoLeaf p k v = Ok (p', None) /\ leaf_map cs' = <[k := v]> (leaf_map cs)
    else insertIntoLeaf p k v = Ok (p', Some ErrPageFull) /\ leaf_map cs' = delete k (leaf_map cs).
Proof.
  intros Ht Hh Hs Hkv. destruct (insertIntoLeaf_holds p cs k v Ht Hh Hkv) as (p' & E & Hf & Hhd & Hh').
  fold (leaf_put k v cs) in Hh'. exists p', (leaf_put k v cs).
  split; [done|]. split; [by apply leaf_put_sorted|]. split; [done|]. split; [done|].
  rewrite leaf_put_map by done. by destruct (leaf_fits k v (purged k cs)).
Qed.

(** ** An internal node routes *)

Lemma route_app x cs1 c k cs2 r :
  keys_sorted (cs1 ++ (c, k) :: cs2).*2 ->
  route x (cs1 ++ (c, k) :: cs2) r = if decide (bytes_lt x k) then route x cs1 c else route x cs2 r.
Proof.
  intros Hs. unfold route. case_decide as Hx.
  - rewrite (after_app_gt internal_format) by done. by destruct (after internal_format x cs1) as [|[]].
  - rewrite (after_app_le internal_format); [cbn; by rewrite decide_False|].
    rewrite fmap_app in Hs. apply StronglySorted_app in Hs as (Hlt & _ & _).
    apply Forall_forall. intros c' Hc' Hx'. apply Hx. transitivity c'.2; [done|].
    apply Hlt; [by apply list_elem_of_fmap_2 | left].
Qed.

(** After a pivot is inserted the keys from it up to the next separator go to
    the new child; every other key is routed as before. *)
Lemma route_pivoted x k l r cs rm :
  keys_sorted cs.*2 -> l = route k cs rm ->
  route x (pivoted k l r cs) (pivoted_rightmost k r cs rm) =
  if decide (after internal_format x cs = after internal_format k cs)
  then if decide (bytes_lt x k) then l else r
  else route x cs rm.
Proof.
  intros Hs ->. pose proof (before_after internal_format k cs) as Ecs.
  pose proof (before_le internal_format k cs) as Hb. pose proof (after_gt internal_format (FS:=internal_format_spec) k cs Hs) as Ha.
  unfold pivoted, pivoted_rightmost, route.
  set (cs1 := before internal_format k cs) in *.
  destruct (decide (bytes_lt x k)) as [Hx|Hx].
  - rewrite (after_app_gt internal_format) by done.
    assert (after internal_format x cs = after internal_format x cs1 ++ after internal_format k cs) as Eaf.
    { rewrite <- Ecs at 1. destruct (after internal_format k cs) as [|c cs2]; [by rewrite !app_nil_r|].
      apply (after_app_gt internal_format). apply Forall_cons in Ha as [Hc _]. by transitivity k. }
    rewrite Eaf. destruct (after internal_format x cs1) as [|[c' k'] cs1'] eqn:E1.
    + by rewrite decide_True.
    + rewrite decide_False; [done|]. intros E%(f_equal length). rewrite length_app in E. cbn in E. lia.
  - assert (forall l, after internal_format x (cs1 ++ l) = after internal_format x l) as Hskip.
    { intros l. apply (after_app_le internal_format). eapply Forall_impl; [exact Hb|]. cbn.
      intros c Hc Hx'. destruct (bytes_nlt_le _ _ Hc) as [E|Hck]; [by rewrite E in Hx'|].
      apply Hx. by transitivity c.2. }
    assert (after internal_format x cs = after internal_format x (after internal_format k cs)) as Eaf.
    { rewrite <- Ecs at 1. apply Hskip. }
    rewrite Hskip, Eaf.
    cbn [after key_of internal_format_spec snd]. rewrite decide_False by done.
    destruct (after internal_format k cs) as [|[c k'] cs2]; [by rewrite decide_True|].
    cbn [after key_of internal_format_spec snd]. case_decide as Hx'; [by rewrite decide_True|].
    rewrite decide_False; [done|].
    intros E. assert (length (after internal_format x cs2) <= length cs2)%nat as Hle.
    { rewrite <- (before_after internal_format x cs2) at 2. rewrite length_app. lia. }
    rewrite E in Hle. cbn in Hle. lia.
Qed.

(** No separator of the node lies between the two keys. *)
Definition same_gap (x k : bytes) (cs : list (PageID * bytes)) : Prop :=
  Forall (fun c => bytes_lt x c.2 <-> bytes_lt k c.2) cs.

Lemma same_gap_after x k cs :
  keys_sorted cs.*2 -> same_gap x k cs <-> after internal_format x cs = after internal_format k cs.
Proof.
  intros Hs. split.
  - unfold same_gap. induction 1 as [|c cs Hc _ IH]; [done|]. cbn in *. apply StronglySorted_cons in Hs as [_ Hs].
    destruct (decide (bytes_lt x c.2)), (decide (bytes_lt k c.2)); tauto.
  - intros E. pose proof (before_le internal_format x cs) as Hx. pose proof (before_le internal_format k cs) as Hk.
    pose proof (after_gt internal_format (FS:=internal_format_spec) x cs Hs) as Ax.
    pose proof (after_gt internal_format (FS:=internal_format_spec) k cs Hs) as Ak.
    assert (before internal_format x cs = before internal_format k cs) as Eb.
    { apply (app_inv_tail (after internal_format k cs)). rewrite before_after. rewrite <- E at 1. apply before_after. }
    unfold same_gap. rewrite <- (before_after internal_format k cs). apply Forall_app. split.
    + rewrite Eb in Hx. rewrite Forall_forall in *. intros c Hc. specialize (Hx c Hc). specialize (Hk c Hc). tauto.
    + rewrite E in Ax. rewrite Forall_forall in *. intros c Hc. specialize (Ax c Hc). specialize (Ak c Hc). tauto.
Qed.

#[export] Instance same_gap_dec x k cs : Decision (same_gap x k cs).
Proof. unfold same_gap. apply _. Defined.

Lemma pivoted_sorted k l r cs : k ∉ cs.*2 -> keys_sorted cs.*2 -> keys_sorted (pivoted k l r cs).*2.
Proof.
  intros Hk Hs. unfold pivoted.
  assert ((match after internal_format k cs with (_, k') :: cs2 => (r, k') :: cs2 | [] => [] end).*2 =
    (after internal_format k cs).*2) as E by by destruct (after internal_format k cs) as [|[] ?].
  rewrite fmap_app. cbn [fmap list_fmap snd]. fold (fmap (M:=list) (snd (A:=PageID) (B:=bytes))). rewrite E.
  exact (splice_sorted internal_format (FS:=internal_format_spec) k cs Hk Hs).
Qed.

(** Inserting a pivot into an internal node splits exactly one gap of its
    routing: a key in the pivot's gap goes to the old child below the pivot and
    to the new child from the pivot on, every other key goes where it went
    before; a node without room is left as it was and [ErrPageFull] returned. *)
Theorem insertIntoInternal_routes p cs k l r :
  Node.PageType (Data p) = PageTypeInternal -> internal_holds (Data p) cs -> keys_sorted cs.*2 ->
  zlen k < 2 ^ 16 -> 0 <= r < 2 ^ 32 -> k ∉ cs.*2 -> l = findChildInInternalNode (Data p) k ->
  if internal_fits k cs
  then exists p' cs', insertIntoInternal p k l r = Ok (p', None) /\ same_frame p p' /\
    internal_holds (Data p') cs' /\ keys_sorted cs'.*2 /\
    forall x, findChildInInternalNode (Data p') x =
      if decide (same_gap x k cs) then if decide (bytes_lt x k) then l else r
      else findChildInInternalNode (Data p) x
  else insertIntoInternal p k l r = Ok (p, Some ErrPageFull).
Proof.
  intros Ht Hh Hs Hk Hr Hnew El.
  pose proof (findChild_spec (Data p) cs k Hh) as Ek. rewrite <- El in Ek.
  assert (0 <= l < 2 ^ 64) as Hl.
  { rewrite Ek. unfold route. destruct (after internal_format k cs) as [|[c k'] cs2] eqn:E.
    - pose proof (Uint32_range (Data p) 20). unfold Node.RightmostChildID. lia.
    - destruct Hh as [_ Hok _ _]. rewrite <- (before_after internal_format k cs), E in Hok.
      apply Forall_app in Hok as [_ [[? _] _]%Forall_cons]. done. }
  pose proof (insertIntoInternal_holds p cs k l r Ht Hh Hk Hl Hr) as Hins.
  destruct (internal_fits k cs); [|done].
  destruct Hins as (p' & E & Hf & _ & Hh' & Hrm). exists p', (pivoted k l r cs).
  split; [done|]. split; [done|]. split; [done|]. split; [by apply pivoted_sorted|].
  intros x. rewrite (findChild_spec _ _ x Hh'), Hrm, (route_pivoted x k l r cs) by done.
  rewrite (findChild_spec _ _ x Hh). destruct (decide (same_gap x k cs)) as [G|G].
  - rewrite decide_True; [done|]. by apply same_gap_after.
  - rewrite decide_False; [done|]. by rewrite <- same_gap_after.
Qed.

(** ** A split partitions *)

Lemma leaf_map_app x cs1 k v cs2 :
  keys_sorted (cs1 ++ (k, v) :: cs2).*1 ->
  leaf_map (cs1 ++ (k, v) :: cs2) !! x =
  if decide (bytes_lt x k) then leaf_map cs1 !! x else leaf_map ((k, v) :: cs2) !! x.
Proof.
  intros Hs. rewrite fmap_app in Hs. apply StronglySorted_app in Hs as (Hlt & _ & [Hk _]%StronglySorted_cons).
  unfold leaf_map. rewrite list_to_map_app. case_decide as Hx.
  - rewrite lookup_union_l; [done|]. apply not_elem_of_list_to_map_1.
    intros [->|Hin]%elem_of_cons; [by apply (bytes_lt_irrefl k)|].
    rewrite Forall_forall in Hk. apply (bytes_lt_irrefl x). transitivity k; [done|]. by apply Hk.
  - rewrite lookup_union_r; [done|]. apply not_elem_of_list_to_map_1.
    intros Hin. apply Hx. apply Hlt; [done|left].
Qed.

(** [x] is not below any separator of the cells. *)
Definition above_all (x : bytes) (cs : list (PageID * bytes)) : Prop := Forall (fun c => ~ bytes_lt x c.2) cs.

#[export] Instance above_all_dec x cs : Decision (above_all x cs).
Proof. unfold above_all. apply _. Defined.

(** Only such keys take the rightmost child. *)
Lemma route_rightmost x cs r r' :
  route x cs r' = if decide (above_all x cs) then r' else route x cs r.
Proof.
  unfold route. case_decide as Ha.
  - assert (after internal_format x cs = []) as ->; [|done].
    induction Ha as [|c cs Hc _ IH]; [done|]. cbn [after]. by rewrite decide_False by done.
  - destruct (after internal_format x cs) as [|[] ?] eqn:E; [|done]. exfalso. apply Ha. clear Ha. revert E.
    induction cs as [|c cs IH]; intros E; [constructor|]. cbn [after] in E. case_decide; [done|]. constructor; [done|by apply IH].
Qed.

(** C23: Splitting a page separates the keys.  After a leaf split every key below
    the promoted one is looked up in the left page and every other key in the right
    one with the result it had before, and the two pages are linked in order.  After
    an internal split every key is routed, by the left page below the promoted key
    and by the right page from it on, to the child it had before, with one exception:
    the keys between the last separator of the left page and the promoted key, whose
    child becomes the rightmost child of the left page, are routed to the low four
    bytes of that child's id, as the header stores no more; for ids below 2^32 that
    is the same child. *)
Theorem split_partitions node newPage :
  (forall cs, leaf_holds (Data node) cs -> keys_sorted cs.*1 -> cs <> [] -> 0 <= ID newPage < 2 ^ 64 ->
     let '(node', new', midKey) := split_leaf_pages node newPage in
     exists low high, leaf_holds (Data node') low /\ leaf_holds (Data new') high /\ cs = low ++ high /\
       (forall x, leaf_map cs !! x =
          if decide (bytes_lt x midKey) then leaf_map low !! x else leaf_map high !! x) /\
       Node.NextLeafID (Data node') = ID newPage /\
       Node.NextLeafID (Data new') = Node.NextLeafID (Data node)) /\
  (forall cs, internal_holds (Data node) cs -> keys_sorted cs.*2 -> cs <> [] ->
     let '(node', new', pivot) := split_internal_pages node newPage in
     exists low high, internal_holds (Data node') low /\ internal_holds (Data new') high /\
       forall x, let child := findChildInInternalNode (Data node) x in
         if decide (bytes_lt x pivot)
         then findChildInInternalNode (Data node') x = (if decide (above_all x low) then u32 child else child)
         else findChildInInternalNode (Data new') x = child).
Proof.
  split.
  - intros cs Hh Hs Hne Hid. pose proof (split_leaf_spec node newPage cs Hh Hid) as Hsp.
    destruct (split_leaf_pages node newPage) as [[node' new'] midKey]. destruct Hsp as [_ _ H1 H2 _ _ H3 H4 _ ->].
    exists (take (length cs / 2) cs), (drop (length cs / 2) cs). rewrite take_drop.
    split; [done|]. split; [done|]. split; [done|]. split; [|done]. intros x.
    destruct (lookup_lt_is_Some_2 cs (length cs / 2)) as [[k v] Hmid].
    { destruct cs; [done|]. apply Nat.div_lt; cbn; lia. }
    rewrite Hmid. cbn [fmap option_fmap option_map default fst from_option id].
    pose proof (drop_S cs (k, v) (length cs / 2) Hmid) as Ed. rewrite <- (take_drop (length cs / 2) cs) in Hs |- * at 1.
    rewrite Ed in *. by apply leaf_map_app.
  - intros cs Hh Hs Hne.
    destruct (lookup_lt_is_Some_2 cs (length cs / 2)) as [[c k] Hmid].
    { destruct cs; [done|]. apply Nat.div_lt; cbn; lia. }
    pose proof (take_drop_middle cs (length cs / 2) (c, k) Hmid) as Ecs. set (low := take (length cs / 2) cs) in *.
    pose proof (split_internal_spec node newPage low c k (drop (S (length cs / 2)) cs)) as Hsp.
    rewrite Ecs in Hsp. specialize (Hsp Hh). unfold low in Hsp at 1. rewrite length_take in Hsp.
    destruct (half_length cs) as [_ Hle]. specialize (Hsp ltac:(lia)).
    destruct (split_internal_pages node newPage) as [[node' new'] pivot]. destruct Hsp as [_ _ H1 H2 _ _ H3 H4 _ ->].
    eexists low, _. split; [done|]. split; [done|]. intros x.
    rewrite (findChild_spec _ _ x Hh), (findChild_spec _ _ x H1), (findChild_spec _ _ x H2), H3, H4.
    set (high := drop (S (length cs / 2)) cs) in *. set (rm := Node.RightmostChildID (Data node)).
    assert (route x cs rm = if decide (bytes_lt x k) then route x low c else route x high rm) as ->.
    { rewrite <- Ecs. apply route_app. by rewrite Ecs. }
    cbn zeta. case_decide; [|reflexivity]. rewrite (route_rightmost x low c (u32 c)), (route_rightmost x low 0 c).
    by case_decide.
Qed.

(** ** Any bytes: bounds and termination *)

Section AnyPage.
Context {A : Type} (F : Format A).
Hypothesis size_nonneg : forall d o, 0 <= size F d o.

(** What a body maintains from cell to cell holds at the end, and the loop
    stays in the page. *)
Lemma scan_cells_bounds {S R} d (body : S -> Z -> A -> step S R) (P : S -> Z -> Prop) (Q : R -> Prop) n lo s :
  lo <= PageSize -> P s lo ->
  (forall s o, P s o -> lo <= o -> o + size F d o <= PageSize ->
     match body s o (get F d o) with Continue s' => P s' (o + size F d o) | Return r => Q r end) ->
  match scan_cells F d body n lo s with
  | Returned r => Q r
  | Finished s o | Broken s o => P s o /\ lo <= o <= PageSize
  end.
Proof.
  revert lo s. induction n as [|n IH]; intros lo s Hlo HP Hbody; cbn [scan_cells]; [done|].
  destruct (_ <? _) eqn:E1; bprop; [done|]. destruct (PageSize <? _) eqn:E2; bprop; [done|].
  pose proof (size_nonneg d lo). pose proof (Hbody s lo HP ltac:(lia) E2) as Hstep.
  destruct (body s lo (get F d lo)) as [s'|r]; [|done].
  specialize (IH (lo + size F d lo) s' ltac:(lia) Hstep).
  destruct (scan_cells F d body n _ s') as [r|s0 o|s0 o]; cbn in *;
    [apply IH | destruct IH as [? ?] .. ]; try (split; [done|lia]); intros; apply Hbody; done || lia.
Qed.

(** A body that never returns walks the cells as [skip] does. *)
Lemma scan_cells_skip {S R} d (body : S -> Z -> A -> step S R) n lo s o :
  (forall s o c, exists s', body s o c = Continue s') ->
  scan_cells F d skip n lo tt = Finished tt o ->
  exists s', scan_cells F d body n lo s = Finished s' o.
Proof.
  intros Hb. revert lo s. induction n as [|n IH]; intros lo s; cbn [scan_cells skip].
  { intros [= ->]. eauto. }
  do 2 (destruct (_ <? _); [done|]). destruct (Hb s lo (get F d lo)) as [s' ->]. apply IH.
Qed.
End AnyPage.

Lemma leaf_size_nonneg d o : 0 <= size leaf_format d o.
Proof. cbn. pose proof (Uint16_range d o). pose proof (Uint16_range d (o + 2)). lia. Qed.

(** A page operation that stays within the cells of its own page. *)
Definition confined (p p' : Page) : Prop :=
  same_frame p p' /\ same_header (Data p') (Data p) /\
  forall i, i < 0 \/ PageSize <= i -> Data p' i = Data p i.

#[export] Instance confined_trans : Transitive confined.
Proof.
  intros a b c (F1 & H1 & O1) (F2 & H2 & O2). split; [by transitivity b|]. split; [by rewrite H2|].
  intros i Hi. by rewrite O2, O1.
Qed.

Lemma find_leaf_cell_bounds d k o n :
  find_leaf_cell d k = Some (o, n) ->
  BTreeHeaderSize <= o /\ 4 <= n /\ o + n <= PageSize /\ 1 <= Node.NumCells d.
Proof.
  unfold find_leaf_cell, scan_node. intros E.
  assert (1 <= Node.NumCells d) as Hn.
  { pose proof (Uint16_range d 2). fold (Node.NumCells d) in *.
    destruct (decide (Node.NumCells d = 0)) as [E0|]; [|lia]. by rewrite E0 in E. }
  set (body := fun _ _ _ => _) in E.
  pose proof (scan_cells_bounds leaf_format leaf_size_nonneg d body (fun _ _ => True)
    (fun r => BTreeHeaderSize <= r.1 /\ 4 <= r.2 /\ r.1 + r.2 <= PageSize)
    (Z.to_nat (Node.NumCells d)) BTreeHeaderSize tt ltac:(unfold BTreeHeaderSize, PageSize; lia) I) as Hb.
  destruct (scan_cells _ _ body _ _ _) as [[o' n']|?|?]; [|done|done]. injection E as -> ->.
  destruct Hb as (? & ? & ?); [|by split_and!]. intros s o' _ Ho Hsz. cbn -[PageSize] in *.
  pose proof (Uint16_range d o'). pose proof (Uint16_range d (o' + 2)).
  destruct (bytes_equal _ _); [|done]. cbn [fst snd]. rewrite !zlen_slice by lia. lia.
Qed.

Lemma tail_offset_ge d n t : t <= tail_offset d n t.
Proof.
  revert t. induction n as [|n IH]; intros t; cbn [tail_offset]; [lia|]. case_match; [lia|].
  pose proof (IH (t + (4 + Uint16 d t + Uint16 d (t + 2)))).
  pose proof (Uint16_range d t). pose proof (Uint16_range d (t + 2)). lia.
Qed.

Lemma deleteLeafCell_any p o n :
  BTreeHeaderSize <= o -> 0 <= n -> 1 <= Node.NumCells (Data p) ->
  let '(p', err) := deleteLeafCell p o n in
  confined p p' /\ (err = None -> Node.NumCells (Data p') = Node.NumCells (Data p) - 1).
Proof.
  intros Ho Hn Hc. unfold deleteLeafCell. destruct (_ || _) eqn:B; [by split|]. bprop.
  pose proof (tail_offset_ge (Data p) (Z.to_nat (Node.NumCells (Data p))) BTreeHeaderSize) as Hge.
  set (t := tail_offset _ _ _) in *. split; [split; [done|split]|]; cbn [Data bump set_Data].
  - rewrite same_header_set_count. intros i Hi _. unfold clear, move.
    repeat (case_match; [bprop; lia|]). done.
  - intros i Hi. unfold Node.SetNumCells, PutUint16. rewrite store_out by (rewrite zlen_le_bytes; unfold PageSize in *; lia).
    unfold clear, move. unfold BTreeHeaderSize, PageSize in *. repeat (case_match; [bprop; lia|]). done.
  - intros _. unfold Node.SetNumCells. unfold Node.NumCells at 1. rewrite Uint16_Put.
    pose proof (Uint16_range (Data p) 2) as Hr. fold (Node.NumCells (Data p)) in Hr.
    rewrite !u16_small; rewrite ?u16_small; lia.
Qed.

(** Every round of the purge takes a cell away, whatever the bytes are. *)
Lemma purge_key_any fuel p k :
  Node.NumCells (Data p) < Z.of_nat fuel ->
  exists p' err, purge_key fuel p k = Ok (p', err) /\ confined p p' /\
    Node.NumCells (Data p') <= Node.NumCells (Data p).
Proof.
  revert p. induction fuel as [|fuel IH]; intros p Hf.
  { pose proof (Uint16_range (Data p) 2). unfold Node.NumCells in Hf. lia. }
  cbn [purge_key]. destruct (find_leaf_cell (Data p) k) as [[o n]|] eqn:E.
  - apply find_leaf_cell_bounds in E as (Ho & Hn & _ & Hc).
    pose proof (deleteLeafCell_any p o n Ho ltac:(lia) Hc) as Hdel.
    destruct (deleteLeafCell p o n) as [p1 [err|]] eqn:Ed; destruct Hdel as [Hconf Hcount].
    + exists p1, (Some err). split; [done|]. split; [done|].
      unfold deleteLeafCell in Ed. case_match; simplify_eq. lia.
    + specialize (Hcount eq_refl). destruct (IH p1) as (p2 & err & -> & Hc2 & Hn2); [lia|].
      exists p2, err. split; [done|]. split; [by transitivity p1 | lia].
  - exists p, None. split; [done|]. split; [by split|lia].
Qed.

(** On a leaf the insertion point is a cell boundary before the end. *)
Lemma find_position_bounds d k o :
  scan_node leaf_format d skip tt = Finished tt o ->
  exists found, find_position leaf_format fst d k = (found, o) /\
    BTreeHeaderSize <= default o found <= o /\ o <= PageSize.
Proof.
  intros E. unfold find_position. set (body := fun _ _ _ => _).
  destruct (scan_cells_skip leaf_format d body (Z.to_nat (Node.NumCells d)) BTreeHeaderSize None o)
    as [found Ef]; [|exact E|].
  { intros s o' c. unfold body. destruct s; [eauto|]. destruct (bytes_compare _ _); eauto. }
  unfold scan_node. rewrite Ef. exists found. split; [done|].
  pose proof (scan_cells_bounds leaf_format leaf_size_nonneg d body
    (fun s o => BTreeHeaderSize <= o /\ BTreeHeaderSize <= default o s <= o) (fun _ => False)
    (Z.to_nat (Node.NumCells d)) BTreeHeaderSize None) as Hb.
  rewrite Ef in Hb. destruct Hb as [[? ?] ?]; [unfold BTreeHeaderSize, PageSize; lia | cbn; lia | | split; [done|lia]].
  intros s o' [H1 H2] Ho Hsz. pose proof (leaf_size_nonneg d o'). unfold body.
  destruct s as [o0|]; cbn [default] in *; [cbn in *; lia|].
  destruct (bytes_compare _ _); cbn in *; lia.
Qed.

(** C27: Whatever bytes a leaf page holds (corrupt lengths, a false cell count,
    duplicate keys), [insertIntoLeaf] returns: its purge loop ends, no slice
    leaves the page, and apart from the cell count only bytes of the cell area
    of this page change. *)
Theorem insertIntoLeaf_stays_in_page p k v :
  Node.PageType (Data p) = PageTypeLeaf -> zlen k + zlen v < 2 ^ 31 ->
  exists p' err, insertIntoLeaf p k v = Ok (p', err) /\ confined p p'.
Proof.
  intros Ht Hkv. unfold insertIntoLeaf. pose proof (zlen_nonneg k). pose proof (zlen_nonneg v).
  pose proof (Uint16_range (Data p) 2) as Hn. fold (Node.NumCells (Data p)) in Hn.
  destruct (purge_key_any (S (Z.to_nat (Node.NumCells (Data p)))) p k) as (p1 & err & -> & Hc1 & _); [lia|].
  cbn [mbind result_bind]. destruct err as [err|]; [by exists p1, (Some err)|].
  rewrite (u32_small (4 + _ + _)) by lia. unfold IsSafeForInsert.
  assert (Node.PageType (Data p1) = PageTypeLeaf) as -> by (rewrite <- Ht; apply PageType_header, Hc1).
  rewrite Z.eqb_refl. destruct (scan_node leaf_format (Data p1) skip tt) as [r|[] o|[] o] eqn:Es;
    [by exists p1, (Some ErrPageFull)| |by exists p1, (Some ErrPageFull)].
  destruct (find_position_bounds (Data p1) k o Es) as (found & Ef & Hio & Hhi). rewrite Ef. cbn iota beta.
  unfold PageSize, BTreeHeaderSize in *. rewrite !u32_small by lia.
  destruct (_ <? 32768) eqn:Efit; bprop; [|by exists p1, (Some ErrPageFull)]. cbn [negb].
  set (io := default o found) in *. destruct (32768 <? _) eqn:E; bprop; [lia|].
  destruct (write_leaf_cell_ok (Data p1) io o k v) as (d' & -> & Hd'); [lia|unfold PageSize; lia|].
  cbn [mbind result_bind]. eexists _, None. split; [done|]. transitivity p1; [done|].
  assert (zlen (leaf_enc (k, v)) = 4 + zlen k + zlen v) as Hlen by apply zlen_leaf_enc.
  split; [done|]. cbn [Data bump set_Data]. split.
  - rewrite same_header_set_count. intros i Hi _. rewrite Hd', store_out by (unfold BTreeHeaderSize in *; lia).
    unfold move. case_match; [bprop; unfold BTreeHeaderSize in *; lia | done].
  - intros i Hi. unfold PageSize, Node.SetNumCells, PutUint16 in *.
    rewrite store_out, Hd', store_out by (rewrite ?zlen_le_bytes; lia).
    unfold move. case_match; [bprop; lia | done].
Qed.

(** ** Witnesses *)

Definition demo_cells : list (bytes * bytes) := [(str "b", str "1"); (str "d", str "2"); (str "f", str "3")].
Definition demo_leaf : Page := page_image 1002 (node_image leaf_format PageTypeLeaf demo_cells).

Lemma demo_leaf_holds : Node.PageType (Data demo_leaf) = PageTypeLeaf /\ leaf_holds (Data demo_leaf) demo_cells.
Proof. apply node_image_holds; [repeat constructor | done | done]. Qed.

Definition demo_separators : list (PageID * bytes) := [(1003, str "h"); (1004, str "p")].
Definition demo_internal : Page := page_image 1002 (node_image internal_format PageTypeInternal demo_separators).

Lemma demo_internal_holds :
  Node.PageType (Data demo_internal) = PageTypeInternal /\ internal_holds (Data demo_internal) demo_separators.
Proof. apply node_image_holds; [repeat constructor; done | done | done]. Qed.

Lemma insertIntoLeaf_refines_map_witness :
  exists p' cs', leaf_holds (Data p') cs' /\
    insertIntoLeaf demo_leaf (str "c") (str "9") = Ok (p', None) /\
    leaf_map cs' = <[str "c" := str "9"]> (leaf_map demo_cells).
Proof.
  destruct (insertIntoLeaf_refines_map demo_leaf demo_cells (str "c") (str "9") (proj1 demo_leaf_holds)
    (proj2 demo_leaf_holds) ltac:(apply (bool_decide_unpack _); reflexivity) ltac:(reflexivity))
    as (p' & cs' & H1 & _ & _ & _ & H2 & H3).
  exists p', cs'. split; [exact H1|]. split; [exact H2 | exact H3].
Defined.

Lemma insertIntoInternal_routes_witness :
  exists p', insertIntoInternal demo_internal (str "k") 1004 1005 = Ok (p', None) /\
    findChildInInternalNode (Data p') (str "j") = 1004 /\ findChildInInternalNode (Data p') (str "m") = 1005.
Proof.
  pose proof (insertIntoInternal_routes demo_internal demo_separators (str "k") 1004 1005
    (proj1 demo_internal_holds) (proj2 demo_internal_holds) ltac:(apply (bool_decide_unpack _); reflexivity)
    ltac:(reflexivity) ltac:(lia) ltac:(apply (bool_decide_unpack _); reflexivity) ltac:(reflexivity)) as H.
  destruct H as (p' & cs' & H1 & _ & _ & _ & H2). exists p'. split; [exact H1|].
  split; [rewrite H2; reflexivity | rewrite H2; reflexivity].
Defined.

Lemma insertIntoLeaf_stays_in_page_witness :
  exists p' err, insertIntoLeaf demo_leaf (str "x") (str "y") = Ok (p', err) /\ confined demo_leaf p'.
Proof. exact (insertIntoLeaf_stays_in_page demo_leaf (str "x") (str "y") (proj1 demo_leaf_holds) ltac:(reflexivity)). Defined.

(** A node whose second child has an id of more than four bytes. *)
Definition demo_far : list (PageID * bytes) := [(1003, str "h"); (2 ^ 32 + 7, str "p")].
Definition demo_far_node : Page := page_image 1002 (node_image internal_format PageTypeInternal demo_far).

Lemma demo_far_holds : internal_holds (Data demo_far_node) demo_far.
Proof. apply node_image_holds; [repeat constructor; done | done | done]. Qed.

Lemma split_partitions_witness :
  (let '(node', new', midKey) := split_leaf_pages demo_leaf (page_image 1003 zero_mem) in
   exists low high, leaf_holds (Data node') low /\ leaf_holds (Data new') high /\ demo_cells = low ++ high /\
     Node.NextLeafID (Data node') = 1003) /\
  (let '(node', new', pivot) := split_internal_pages demo_far_node (page_image 1004 zero_mem) in
   exists low high, internal_holds (Data node') low /\ internal_holds (Data new') high /\ pivot = str "p" /\
     findChildInInternalNode (Data demo_far_node) (str "j") = 2 ^ 32 + 7 /\ findChildInInternalNode (Data node') (str "j") = 7 /\
     findChildInInternalNode (Data node') (str "a") = 1003).
Proof.
  split.
  - destruct (split_partitions demo_leaf (page_image 1003 zero_mem)) as [H _].
    specialize (H demo_cells (proj2 demo_leaf_holds) ltac:(apply (bool_decide_unpack _); reflexivity)
      ltac:(discriminate) ltac:(cbn [ID page_image]; lia)).
    destruct (split_leaf_pages demo_leaf (page_image 1003 zero_mem)) as [[node' new'] midKey].
    destruct H as (low & high & H1 & H2 & H3 & _ & H4 & _). exists low, high.
    split; [exact H1|]. split; [exact H2|]. split; [exact H3 | exact H4].
  - destruct (split_partitions demo_far_node (page_image 1004 zero_mem)) as [_ H].
    specialize (H demo_far demo_far_holds ltac:(apply (bool_decide_unpack _); reflexivity) ltac:(discriminate)).
    assert ((split_internal_pages demo_far_node (page_image 1004 zero_mem)).2 = str "p") as Ep by (vm_compute; reflexivity).
    assert (findChildInInternalNode (Data (split_internal_pages demo_far_node (page_image 1004 zero_mem)).1.1) (str "j") = 7) as Ej
      by (vm_compute; reflexivity).
    destruct (split_internal_pages demo_far_node (page_image 1004 zero_mem)) as [[node' new'] pivot]. cbn [fst snd] in Ep, Ej. subst pivot.
    destruct H as (low & high & H1 & H2 & H). exists low, high. split; [exact H1|]. split; [exact H2|]. split; [reflexivity|].
    split; [vm_compute; reflexivity|]. split; [exact Ej|].
    specialize (H (str "a")). cbn zeta in H. rewrite decide_True in H by reflexivity.
    rewrite H. destruct (decide (above_all (str "a") low)); vm_compute; reflexivity.
Defined.
