(* ===== verification/BTree.v ===== *)
(** The B-tree over the buffer pool (btree.go): descents, insertion with
    splits, the leaf cursor, the merge join and the prefix scan.  A page pointer
    is the index of its frame, so every operation works on the pool's frames.
    Latches are not modelled as state: an operation runs to completion, so the
    version check of [Insert] between releasing and retaking a latch always
    succeeds; what remains visible are a second [Lock] of a page the operation
    already holds, its own or that of the pool's flush ([FetchLatched]), which
    never returns ([Hang]), and an [RUnlock] of a latch
    that is not held, which crashes ([Panic]).  A descent takes a bound on its
    length; a tree of height [h] needs [h + 1]. *)

From Stdlib Require Import Strings.Byte.
From S2P Require Import Common.
From S2P Require Import Prelude.
From S2P Require Import VFS.
From S2P Require Import LRU.
From S2P Require Import Page.
From S2P Require Import Telemetry.
From S2P Require Import BufferPool.
From S2P Require Import BTreePage.

Record BTree (D P : Type) := mkBTree {
  tbp : BufferPool D P;
  rootID : PageID
}.
Arguments mkBTree {_ _}.
Arguments tbp {_ _}.
Arguments rootID {_ _}.

(** The error an operation returns, as a result. *)
Definition of_error (err : option error) : result unit :=
  match err with None => Ok tt | Some e => Err e end.

Section Tree.
Context {D P : Type} `{BlockDevice D} `{EvictionPolicy P} `{MapRange}.
Abbreviation pool := (BufferPool D P).
Implicit Types bp : BufferPool D P.
Implicit Types tree : BTree D P.

Definition NewBTree bp (root : PageID) : BTree D P := mkBTree bp root.

(** [p.ID] of a page in a frame. *)
Definition frame_id bp (i : nat) : PageID :=
  match frames bp !! i with Some p => ID p | None => 0 end.

(** ** Descents *)

(** The loop of [FindLeaf] and of [Insert]: the child is fetched before the
    parent is given back. *)
Fixpoint descend (fuel : nat) bp (currID : PageID) (i : nat) (key : bytes) : result nat * pool :=
  match fuel with
  | O => (Hang, bp)
  | S fuel =>
      match frames bp !! i with
      | None => (Panic, bp)
      | Some currNode =>
          if Node.PageType (Data currNode) =? PageTypeInternal
          then
            let childID := findChildInInternalNode (Data currNode) key in
            let '(r, bp) := FetchLatched [i] bp childID in
            match r with
            | Ok j => descend fuel (UnpinPage bp currID false) childID j key
            | Err e => (Err e, UnpinPage bp currID false)
            | Panic => (Panic, bp)
            | Hang => (Hang, bp)
            end
          else (Ok i, bp)
      end
  end.

Definition FindLeaf (fuel : nat) bp (root : PageID) (key : bytes) : result nat * pool :=
  let '(r, bp) := FetchPage bp root in
  match r with
  | Ok i => descend fuel bp root i key
  | _ => (r, bp)
  end.

(** ** Insertion *)

(** The ancestors are the frames of [lockedAncestors], the innermost first. *)
Definition releaseAncestors bp (ancestors : list nat) : pool :=
  fold_left (fun bp i => UnpinPage bp (frame_id bp i) true) ancestors bp.

(** [promote] is [promoteToParent] one level up, given the latched new page. *)
Definition SplitInternalNode
    (promote : nat -> BTree D P -> PageID -> PageID -> bytes -> result unit * BTree D P)
    tree (i : nat) (lockedAncestors : list nat) : result unit * BTree D P :=
  let '(r, bp) := NewPage lockedAncestors (tbp tree) in
  let tree := mkBTree bp (rootID tree) in
  match r with
  | Ok j =>
      if bool_decide (j ∈ lockedAncestors) then (Hang, tree)
      else
        match frames bp !! i, frames bp !! j with
        | Some node, Some newInternal =>
            let '(node, newInternal, pivotKey) := split_internal_pages node newInternal in
            let bp := update_frame j (fun _ => newInternal) (update_frame i (fun _ => node) bp) in
            let '(r, tree) := promote j (mkBTree bp (rootID tree)) (ID node) (ID newInternal) pivotKey in
            (r, mkBTree (UnpinPage (tbp tree) (ID newInternal) true) (rootID tree))
        | _, _ => (Panic, tree)
        end
  | Err e => (Err e, tree)
  | Panic => (Panic, tree)
  | Hang => (Hang, tree)
  end.

(** The new root of a tree whose root was split. *)
Definition growRoot tree (held : list nat) (leftChildID rightChildID : PageID) (pivotKey : bytes) :
    result unit * BTree D P :=
  let '(r, bp) := NewPage held (tbp tree) in
  let tree := mkBTree bp (rootID tree) in
  match r with
  | Ok j =>
      if bool_decide (j ∈ held) then (Hang, tree)
      else
        match frames bp !! j with
        | Some newRoot =>
            let newRoot := new_root_page newRoot pivotKey leftChildID rightChildID in
            let bp := update_frame j (fun _ => newRoot) bp in
            (Ok tt, mkBTree (UnpinPage bp (ID newRoot) true) (ID newRoot))
        | None => (Panic, tree)
        end
  | Err e => (Err e, tree)
  | Panic => (Panic, tree)
  | Hang => (Hang, tree)
  end.

(** [held] are the pages latched by the callers besides the ancestors. *)
Fixpoint promoteToParent (lockedAncestors held : list nat) tree
    (leftChildID rightChildID : PageID) (pivotKey : bytes) {struct lockedAncestors} :
    result unit * BTree D P :=
  if leftChildID =? rootID tree then growRoot tree (lockedAncestors ++ held) leftChildID rightChildID pivotKey
  else
    match lockedAncestors with
    | child :: ((parent :: _) as ancestors) =>
        match frames (tbp tree) !! parent with
        | None => (Panic, tree)
        | Some parentNode =>
            match insertIntoInternal parentNode pivotKey leftChildID rightChildID with
            | Ok (parentNode, err) =>
                let tree := mkBTree (update_frame parent (fun _ => parentNode) (tbp tree)) (rootID tree) in
                match err with
                | None => (Ok tt, tree)
                | Some e =>
                    if errors_Is e ErrPageFull
                    then SplitInternalNode (fun j => promoteToParent ancestors (j :: child :: held)) tree parent
                           (lockedAncestors ++ held)
                    else (Err e, tree)
                end
            | Err e => (Err e, tree)
            | Panic => (Panic, tree)
            | Hang => (Hang, tree)
            end
        end
    | _ => (Panic, tree)
    end.

Definition SplitLeaf tree (i : nat) (lockedAncestors : list nat) : result unit * BTree D P :=
  let '(r, bp) := NewPage lockedAncestors (tbp tree) in
  let tree := mkBTree bp (rootID tree) in
  match r with
  | Ok j =>
      if bool_decide (j ∈ lockedAncestors) then (Hang, tree)
      else
        match frames bp !! i, frames bp !! j with
        | Some node, Some newLeaf =>
            let '(node, newLeaf, midKey) := split_leaf_pages node newLeaf in
            let bp := update_frame j (fun _ => newLeaf) (update_frame i (fun _ => node) bp) in
            let '(r, tree) := promoteToParent lockedAncestors [j] (mkBTree bp (rootID tree))
                                (ID node) (ID newLeaf) midKey in
            (r, mkBTree (UnpinPage (tbp tree) (ID newLeaf) true) (rootID tree))
        | _, _ => (Panic, tree)
        end
  | Err e => (Err e, tree)
  | Panic => (Panic, tree)
  | Hang => (Hang, tree)
  end.

(** The descent of [pessimisticInsert]: every page is latched for writing, and
    a child with room lets go of all its ancestors. *)
Fixpoint descend_locked (fuel : nat) bp (i : nat) (lockedAncestors : list nat) (key : bytes) (reqBytes : Z) :
    result (nat * list nat) * pool :=
  match fuel with
  | O => (Hang, bp)
  | S fuel =>
      match frames bp !! i with
      | None => (Panic, bp)
      | Some currNode =>
          if Node.PageType (Data currNode) =? PageTypeInternal
          then
            let childID := findChildInInternalNode (Data currNode) key in
            let '(r, bp) := FetchLatched lockedAncestors bp childID in
            match r with
            | Ok j =>
                if bool_decide (j ∈ lockedAncestors) then (Hang, bp)
                else
                  match frames bp !! j with
                  | None => (Panic, bp)
                  | Some childNode =>
                      if IsSafeForInsert (Data childNode) reqBytes
                      then descend_locked fuel (releaseAncestors bp lockedAncestors) j [j] key reqBytes
                      else descend_locked fuel bp j (j :: lockedAncestors) key reqBytes
                  end
            | Err e => (Err e, releaseAncestors bp lockedAncestors)
            | Panic => (Panic, bp)
            | Hang => (Hang, bp)
            end
          else (Ok (i, lockedAncestors), bp)
      end
  end.

Definition pessimisticInsert (fuel : nat) tree (key value : bytes) : result unit * BTree D P :=
  let '(r, bp) := FetchPage (tbp tree) (rootID tree) in
  match r with
  | Ok i =>
      let reqBytes := u32 (4 + zlen key + zlen value) in
      let '(r, bp) := descend_locked fuel bp i [i] key reqBytes in
      match r with
      | Ok (i, lockedAncestors) =>
          match frames bp !! i with
          | None => (Panic, mkBTree bp (rootID tree))
          | Some currNode =>
              match insertIntoLeaf currNode key value with
              | Ok (currNode, err) =>
                  let tree := mkBTree (update_frame i (fun _ => currNode) bp) (rootID tree) in
                  let '(r, tree) :=
                    match err with
                    | None => (Ok tt, tree)
                    | Some e =>
                        if errors_Is e ErrPageFull then SplitLeaf tree i lockedAncestors else (Err e, tree)
                    end in
                  (r, mkBTree (releaseAncestors (tbp tree) lockedAncestors) (rootID tree))
              | Err e => (Err e, mkBTree bp (rootID tree))
              | Panic => (Panic, mkBTree bp (rootID tree))
              | Hang => (Hang, mkBTree bp (rootID tree))
              end
          end
      | Err e => (Err e, mkBTree bp (rootID tree))
      | Panic => (Panic, mkBTree bp (rootID tree))
      | Hang => (Hang, mkBTree bp (rootID tree))
      end
  | Err e => (Err e, mkBTree bp (rootID tree))
  | Panic => (Panic, mkBTree bp (rootID tree))
  | Hang => (Hang, mkBTree bp (rootID tree))
  end.

(** The optimistic path: no other operation runs between the two latches, so
    the version is unchanged and the second test of the room agrees with the
    first. *)
Definition Insert (fuel : nat) tree (key value : bytes) : result unit * BTree D P :=
  let reqBytes := u32 (4 + zlen key + zlen value) in
  let '(r, bp) := FindLeaf fuel (tbp tree) (rootID tree) key in
  match r with
  | Ok i =>
      match frames bp !! i with
      | None => (Panic, mkBTree bp (rootID tree))
      | Some currNode =>
          if IsSafeForInsert (Data currNode) reqBytes
          then
            match insertIntoLeaf currNode key value with
            | Ok (node, err) =>
                let bp := update_frame i (fun _ => node) bp in
                (of_error err, mkBTree (UnpinPage bp (ID currNode) true) (rootID tree))
            | Err e => (Err e, mkBTree bp (rootID tree))
            | Panic => (Panic, mkBTree bp (rootID tree))
            | Hang => (Hang, mkBTree bp (rootID tree))
            end
          else pessimisticInsert fuel (mkBTree (UnpinPage bp (ID currNode) false) (rootID tree)) key value
      end
  | Err e => (Err e, mkBTree bp (rootID tree))
  | Panic => (Panic, mkBTree bp (rootID tree))
  | Hang => (Hang, mkBTree bp (rootID tree))
  end.
(** ** The leaf cursor *)

(** [latched] tells whether the cursor still holds the read latch and the pin of
    its page; an error in [Next] leaves it pointing at a page it has released. *)
Record BTreeCursor := mkCursor {
  currNode : option nat;
  latched : bool;
  cellIdx : Z;
  offset : Z;
  isEOF : bool
}.

(** The loop of [NewBTreeCursor] follows the first child to the leftmost leaf.
    The frames of [latches] are those whose latches the caller holds meanwhile. *)
Fixpoint NewBTreeCursor (latches : list nat) (fuel : nat) bp (currID : PageID) : result BTreeCursor * pool :=
  match fuel with
  | O => (Hang, bp)
  | S fuel =>
      let '(r, bp) := FetchLatched latches bp currID in
      match r with
      | Ok i =>
          match frames bp !! i with
          | None => (Panic, bp)
          | Some node =>
              if Node.PageType (Data node) =? PageTypeLeaf
              then (Ok (mkCursor (Some i) true 0 BTreeHeaderSize (Node.NumCells (Data node) =? 0)), bp)
              else if (Node.NumCells (Data node) =? 0) || (PageSize <? BTreeHeaderSize + 10)
              then (Err (Msg "corrupt internal nodes during cursor initialization"), UnpinPage bp currID false)
              else
                let childID := Uint64 (Data node) (BTreeHeaderSize + 2) in
                NewBTreeCursor latches fuel (UnpinPage bp currID false) childID
          end
      | Err e => (Err e, bp)
      | Panic => (Panic, bp)
      | Hang => (Hang, bp)
      end
  end.

(** The end of [Next]: past the last cell the cursor moves to the next leaf. *)
Definition advance_leaf (latches : list nat) bp (c : BTreeCursor) (node : Page) : result unit * BTreeCursor * pool :=
  if latched c
  then
    let bp := UnpinPage bp (ID node) false in
    let nextLeafID := Node.NextLeafID (Data node) in
    if nextLeafID =? 0
    then (Ok tt, mkCursor None false (cellIdx c) (offset c) true, bp)
    else
      let '(r, bp) := FetchLatched latches bp nextLeafID in
      match r with
      | Ok j => (Ok tt, mkCursor (Some j) true 0 BTreeHeaderSize (isEOF c), bp)
      | Err e => (Err e, mkCursor (currNode c) false (cellIdx c) (offset c) (isEOF c), bp)
      | Panic => (Panic, c, bp)
      | Hang => (Hang, c, bp)
      end
  else (Panic, c, bp).

Definition Next (latches : list nat) bp (c : BTreeCursor) : result (bytes * bytes) * BTreeCursor * pool :=
  if isEOF c then (Err EOF, c, bp)
  else if PageSize <? offset c + 4
  then (Err (Msg "cursor out of bounds of active block layout parsing window"), c, bp)
  else
    match currNode c ≫= (frames bp !!.) with
    | None => (Panic, c, bp)
    | Some node =>
        if PageSize <? offset c + size leaf_format (Data node) (offset c)
        then (Err (Msg "corrupt frame cell sizing layout parameters detected"), c, bp)
        else
          let kv := get leaf_format (Data node) (offset c) in
          let c := mkCursor (currNode c) (latched c) (u16 (cellIdx c + 1))
                     (offset c + size leaf_format (Data node) (offset c)) (isEOF c) in
          if Node.NumCells (Data node) <=? cellIdx c
          then
            let '(r, c, bp) := advance_leaf latches bp c node in
            match r with
            | Ok _ => (Ok kv, c, bp)
            | Err e => (Err e, c, bp)
            | Panic => (Panic, c, bp)
            | Hang => (Hang, c, bp)
            end
          else (Ok kv, c, bp)
    end.

(** A cursor that has released its page must not release it again: [RUnlock] of
    an unlocked latch crashes. *)
Definition Close bp (c : BTreeCursor) : result unit * BTreeCursor * pool :=
  match currNode c with
  | None => (Ok tt, c, bp)
  | Some i =>
      if latched c
      then (Ok tt, mkCursor None false (cellIdx c) (offset c) true, UnpinPage bp (frame_id bp i) false)
      else (Panic, c, bp)
  end.

(** ** The merge join *)

Record JoinResult := mkJoin { JoinKey : bytes; LeftValue : bytes; RightValue : bytes }.

(** The latch a cursor holds. *)
Definition latch_of (c : BTreeCursor) : list nat :=
  match currNode c with Some i => if latched c then [i] else [] | None => [] end.

(** The loop, with what the two last [Next] calls returned; both trees live in
    the same pool, and each cursor keeps its latch while the other moves. *)
Fixpoint join_loop (fuel : nat) bp (lc rc : BTreeCursor) (l r : result (bytes * bytes))
    (results : list JoinResult) : result (list JoinResult) * BTreeCursor * BTreeCursor * pool :=
  match fuel with
  | O => (Hang, lc, rc, bp)
  | S fuel =>
      match l, r with
      | Ok (lKey, lVal), Ok (rKey, rVal) =>
          match bytes_compare lKey rKey with
          | Eq =>
              let results := results ++ [mkJoin lKey lVal rVal] in
              let '(l, lc, bp) := Next (latch_of rc) bp lc in
              let '(r, rc, bp) := Next (latch_of lc) bp rc in
              join_loop fuel bp lc rc l r results
          | Lt => let '(l, lc, bp) := Next (latch_of rc) bp lc in join_loop fuel bp lc rc l r results
          | Gt => let '(r, rc, bp) := Next (latch_of lc) bp rc in join_loop fuel bp lc rc l r results
          end
      | Panic, _ | _, Panic => (Panic, lc, rc, bp)
      | Hang, _ | _, Hang => (Hang, lc, rc, bp)
      | Err e, _ =>
          if decide (e = EOF)
          then match r with
               | Err e' => if decide (e' = EOF) then (Ok results, lc, rc, bp) else (Err e', lc, rc, bp)
               | _ => (Ok results, lc, rc, bp)
               end
          else (Err e, lc, rc, bp)
      | _, Err e => if decide (e = EOF) then (Ok results, lc, rc, bp) else (Err e, lc, rc, bp)
      end
  end.

(** Run the deferred [Close] of a cursor. *)
Definition close_after {A} (r : result A) bp (c : BTreeCursor) : result A * pool :=
  let '(rc, _, bp) := Close bp c in
  (match rc with Ok _ => r | Err e => Err e | Panic => Panic | Hang => Hang end, bp).

Definition SortMergeJoin (fuel : nat) bp (leftRoot rightRoot : PageID) : result (list JoinResult) * pool :=
  let '(r, bp) := NewBTreeCursor [] fuel bp leftRoot in
  match r with
  | Ok lc =>
      let '(r, bp) := NewBTreeCursor (latch_of lc) fuel bp rightRoot in
      match r with
      | Ok rc =>
          let '(l, lc, bp) := Next (latch_of rc) bp lc in
          let '(r, rc, bp) := Next (latch_of lc) bp rc in
          let '(res, lc, rc, bp) := join_loop fuel bp lc rc l r [] in
          let '(res, bp) := close_after res bp rc in
          close_after res bp lc
      | Err e => close_after (Err e) bp lc
      | Panic => (Panic, bp)
      | Hang => (Hang, bp)
      end
  | Err e => (Err e, bp)
  | Panic => (Panic, bp)
  | Hang => (Hang, bp)
  end.

(** ** The prefix scan *)

(** The matching cells of one leaf. *)
Definition leaf_matches (d : mem) (prefix : bytes) (acc : list (bytes * bytes)) : list (bytes * bytes) :=
  match scan_node leaf_format d (fun acc _ '(key, val) =>
          if has_prefix key prefix then Continue (acc ++ [(key, val)]) else Continue acc) acc with
  | Returned r => match r : Empty_set with end
  | Finished acc _ | Broken acc _ => acc
  end.

(** The walk along the leaves.  When a fetch fails the deferred function
    releases the previous leaf a second time, which crashes. *)
Fixpoint scan_leaves (fuel : nat) bp (i : nat) (prefix : bytes) (acc : list (bytes * bytes)) :
    result (list (bytes * bytes)) * pool :=
  match fuel with
  | O => (Hang, bp)
  | S fuel =>
      match frames bp !! i with
      | None => (Panic, bp)
      | Some node =>
          let acc := leaf_matches (Data node) prefix acc in
          let nextID := Node.NextLeafID (Data node) in
          let bp := UnpinPage bp (ID node) false in
          if nextID =? 0 then (Ok acc, bp)
          else
            let '(r, bp) := FetchPage bp nextID in
            match r with
            | Ok j => scan_leaves fuel bp j prefix acc
            | Err _ => (Panic, bp)
            | Panic => (Panic, bp)
            | Hang => (Hang, bp)
            end
      end
  end.

Definition Scan (fuel : nat) bp (root : PageID) (prefix : bytes) : result (list (bytes * bytes)) * pool :=
  let '(r, bp) := FindLeaf fuel bp root prefix in
  match r with
  | Ok i => scan_leaves fuel bp i prefix []
  | Err e => (Err e, bp)
  | Panic => (Panic, bp)
  | Hang => (Hang, bp)
  end.
End Tree.
