(* ===== verification/BTreeSpec.v ===== *)
(** What the B-tree stores: the predicate that ties pages to an ordered list of
    leaves, how a key finds its leaf, and the descents through the buffer pool
    on any tree that satisfies it. *)

From Stdlib Require Import Strings.Byte.
From stdpp Require Import sorting.
From S2P Require Import Common.
From S2P Require Import Prelude.
From S2P Require Import VFS.
From S2P Require Import LRU.
From S2P Require Import Page.
From S2P Require Import Telemetry.
From S2P Require Import BufferPool.
From S2P Require Import PoolInv.
From S2P Require Import PoolOps.
From S2P Require Import PoolPins.
From S2P Require Import PoolLatch.
From S2P Require Import BTreePage.
From S2P Require Import BTreeNode.
From S2P Require Import BTree.

(** ** Trees of pages *)

(** Pages with a B-tree header keep all their bytes in the pool: their ids are
    in the range that gets no checksum. *)
Definition tree_page (id : PageID) : Prop := page_id_ok id /\ isBTreeKVPage id = true.

(** Keys from [lo] on and below [hi]. *)
Definition in_range (lo hi : option bytes) (k : bytes) : Prop :=
  match lo with Some l => ~ bytes_lt k l | None => True end /\
  match hi with Some h => bytes_lt k h | None => True end.

(** The leaves of a tree, left to right, with their cells. *)
Abbreviation leaves := (list (PageID * list (bytes * bytes))).

Definition cells_of (ls : leaves) : list (bytes * bytes) := concat ls.*2.

Section Shape.
Context (pg : PageID -> mem).

Record leaf_ok (id : PageID) (lo hi : option bytes) (cs : list (bytes * bytes)) : Prop := {
  lf_page : tree_page id;
  lf_type : Node.PageType (pg id) = PageTypeLeaf;
  lf_holds : leaf_holds (pg id) cs;
  lf_sorted : keys_sorted cs.*1;
  lf_range : Forall (in_range lo hi) cs.*1
}.

(** The children of an internal node and the ranges between its keys. *)
Fixpoint children (T : PageID -> option bytes -> option bytes -> leaves -> list PageID -> Prop)
    (seps : list (PageID * bytes)) (rm : PageID) (lo hi : option bytes) (ls : leaves) (ids : list PageID) : Prop :=
  match seps with
  | [] => T rm lo hi ls ids
  | (c, k) :: seps => exists ls1 ls2 ids1 ids2, T c lo (Some k) ls1 ids1 /\
      children T seps rm (Some k) hi ls2 ids2 /\ ls = ls1 ++ ls2 /\ ids = ids1 ++ ids2
  end.

(** A tree of height [h] rooted at [id]: its leaves and all its pages. *)
Fixpoint subtree (h : nat) (id : PageID) (lo hi : option bytes) (ls : leaves) (ids : list PageID) : Prop :=
  match h with
  | O => exists cs, leaf_ok id lo hi cs /\ ls = [(id, cs)] /\ ids = [id]
  | S h => exists seps ids', tree_page id /\ Node.PageType (pg id) = PageTypeInternal /\
      internal_holds (pg id) seps /\ keys_sorted seps.*2 /\ Forall (in_range lo hi) seps.*2 /\
      children (subtree h) seps (Node.RightmostChildID (pg id)) lo hi ls ids' /\ ids = id :: ids'
  end.

(** Every leaf points to the next one, the last one to none. *)
Fixpoint chain (ls : leaves) : Prop :=
  match ls with
  | [] => True
  | [(id, _)] => Node.NextLeafID (pg id) = 0
  | (id, _) :: (((id', _) :: _) as ls) => Node.NextLeafID (pg id) = id' /\ chain ls
  end.

(** The pages a descent for [x] visits. *)
Inductive path (x : bytes) : nat -> PageID -> PageID -> Prop :=
| path_leaf id : tree_page id -> Node.PageType (pg id) = PageTypeLeaf -> path x 0 id id
| path_step h id lf seps : tree_page id -> Node.PageType (pg id) = PageTypeInternal ->
    internal_holds (pg id) seps -> path x h (route x seps (Node.RightmostChildID (pg id))) lf ->
    path x (S h) id lf.
End Shape.

(** ** Pages up to their image *)

Lemma holds_image {A} (F : Format A) `{FS : !FormatSpec F} d d' cs :
  image_eq 0 d' d -> node_holds F d cs -> node_holds F d' cs.
Proof. intros E. apply holds_ext. intros i Hi. apply E. unfold BTreeHeaderSize, PageSize in *. lia. Qed.

Lemma image_header d d' : image_eq 0 d' d -> same_header d' d.
Proof. intros E i Hi _. apply E. unfold BTreeHeaderSize, PageSize in *. lia. Qed.

Lemma leaf_ok_ext pg pg' id lo hi cs :
  image_eq 0 (pg' id) (pg id) -> leaf_ok pg id lo hi cs -> leaf_ok pg' id lo hi cs.
Proof.
  intros E [H1 H2 H3 H4 H5]. split; try done.
  - by rewrite (PageType_header _ _ (image_header _ _ E)).
  - by apply (holds_image _ (pg id)).
Qed.

Section Children.
Context (T T' : PageID -> option bytes -> option bytes -> leaves -> list PageID -> Prop).

Lemma children_impl seps rm lo hi ls ids :
  (forall c lo hi ls ids', (forall id, id ∈ ids' -> id ∈ ids) -> T c lo hi ls ids' -> T' c lo hi ls ids') ->
  children T seps rm lo hi ls ids -> children T' seps rm lo hi ls ids.
Proof.
  revert lo ls ids. induction seps as [|[c k] seps IH]; intros lo ls ids HT; cbn; [by apply HT|].
  intros (ls1 & ls2 & ids1 & ids2 & H1 & H2 & -> & ->). exists ls1, ls2, ids1, ids2. split_and!; try done.
  - apply HT; [|done]. intros. apply elem_of_app. by left.
  - apply IH; [|done]. intros c' lo' hi' ls' ids' Hin. apply HT. intros. apply elem_of_app. right. by apply Hin.
Qed.

(** What every child guarantees of its keys holds of all of them. *)
Lemma children_range seps rm lo hi ls ids :
  (forall c lo hi ls ids, T c lo hi ls ids -> Forall (in_range lo hi) (cells_of ls).*1) ->
  keys_sorted seps.*2 -> Forall (in_range lo hi) seps.*2 ->
  children T seps rm lo hi ls ids -> Forall (in_range lo hi) (cells_of ls).*1.
Proof.
  intros HT. revert lo ls ids. induction seps as [|[c k] seps IH]; intros lo ls ids Hs Hr; cbn; [apply HT|].
  intros (ls1 & ls2 & ids1 & ids2 & H1 & H2 & -> & ->). cbn in Hs, Hr.
  apply StronglySorted_cons in Hs as [Hk Hs]. apply Forall_cons in Hr as [Hrk Hr].
  unfold cells_of. rewrite fmap_app, concat_app, fmap_app. apply Forall_app. split.
  - apply HT in H1. eapply Forall_impl; [exact H1|]. intros x [Hx1 Hx2]. split; [done|].
    destruct hi as [h|]; [|done]. transitivity k; [done|apply Hrk].
  - apply IH in H2; [|done|].
    + eapply Forall_impl; [exact H2|]. intros x [Hx1 Hx2]. split; [|done].
      destruct lo as [l|]; [|done]. intros Hxl. apply Hx1. destruct Hrk as [Hrk _].
      destruct (bytes_nlt_le _ _ Hrk) as [->|]; [done|]. by transitivity l.
    + rewrite Forall_forall in *. intros x Hx. split; [|by apply Hr].
      intros Hxk. apply (bytes_lt_irrefl k). transitivity x; [by apply Hk|done].
Qed.
End Children.

Lemma subtree_ext pg pg' h id lo hi ls ids :
  (forall id', id' ∈ ids -> image_eq 0 (pg' id') (pg id')) ->
  subtree pg h id lo hi ls ids -> subtree pg' h id lo hi ls ids.
Proof.
  revert id lo hi ls ids. induction h as [|h IH]; intros id lo hi ls ids E; cbn.
  - intros (cs & Hl & -> & ->). exists cs. split; [|done]. apply (leaf_ok_ext pg); [|done]. apply E. by left.
  - intros (seps & ids' & H1 & H2 & H3 & H4 & H5 & H6 & ->). exists seps, ids'.
    assert (image_eq 0 (pg' id) (pg id)) as Eid by (apply E; by left).
    split_and!; try done.
    + by rewrite (PageType_header _ _ (image_header _ _ Eid)).
    + by apply (holds_image _ (pg id)).
    + rewrite (RightmostChildID_header _ _ (image_header _ _ Eid)).
      eapply children_impl; [|exact H6]. intros c lo' hi' ls' ids0 Hin. apply IH.
      intros id' Hid. apply E. right. by apply Hin.
Qed.

Lemma subtree_range pg h id lo hi ls ids :
  subtree pg h id lo hi ls ids -> Forall (in_range lo hi) (cells_of ls).*1.
Proof.
  revert id lo hi ls ids. induction h as [|h IH]; intros id lo hi ls ids; cbn.
  - intros (cs & Hl & -> & ->). unfold cells_of. cbn. rewrite app_nil_r. apply Hl.
  - intros (seps & ids' & _ & _ & _ & H4 & H5 & H6 & _). by eapply children_range.
Qed.

(** ** The leaf of a key *)

Lemma route_cons x c k seps rm :
  route x ((c, k) :: seps) rm = if decide (bytes_lt x k) then c else route x seps rm.
Proof.
  unfold route. cbn [after]. destruct (decide (bytes_lt x (key_of internal_format (c, k)))) as [Hx|Hx];
    [by rewrite decide_True | by rewrite decide_False].
Qed.

Lemma cells_of_app ls1 ls2 : cells_of (ls1 ++ ls2) = cells_of ls1 ++ cells_of ls2.
Proof. unfold cells_of. by rewrite fmap_app, concat_app. Qed.

Lemma above_range x k hi l :
  bytes_lt x k -> Forall (in_range (Some k) hi) l -> Forall (bytes_lt x) l.
Proof.
  intros Hx Hl. eapply Forall_impl; [exact Hl|]. intros y [Hy _].
  destruct (bytes_nlt_le _ _ Hy) as [<-|]; [done|]. by transitivity k.
Qed.

Lemma below_range x k lo l :
  ~ bytes_lt x k -> Forall (in_range lo (Some k)) l -> Forall (fun y => bytes_lt y x) l.
Proof.
  intros Hx Hl. eapply Forall_impl; [exact Hl|]. intros y [_ Hy].
  destruct (bytes_nlt_le _ _ Hx) as [<-|]; [done|]. by transitivity k.
Qed.

(** The child a node routes [x] to, the leaves to the left and right of it, and
    how the node is put together again around a changed child. *)
Lemma children_find T seps rm lo hi ls ids x :
  (forall c lo hi ls ids, T c lo hi ls ids -> Forall (in_range lo hi) (cells_of ls).*1) ->
  keys_sorted seps.*2 -> Forall (in_range lo hi) seps.*2 -> in_range lo hi x ->
  children T seps rm lo hi ls ids ->
  exists lo' hi' ls0 ls1 ls2 ids0 ids1 ids2,
    T (route x seps rm) lo' hi' ls1 ids1 /\ in_range lo' hi' x /\
    ls = ls0 ++ ls1 ++ ls2 /\ ids = ids0 ++ ids1 ++ ids2 /\
    Forall (fun y => bytes_lt y x) (cells_of ls0).*1 /\ Forall (bytes_lt x) (cells_of ls2).*1 /\
    forall (T' : PageID -> option bytes -> option bytes -> leaves -> list PageID -> Prop) ls1',
      (forall c lo hi ls ids', (forall id, id ∈ ids' -> id ∈ ids0 ++ ids2) -> T c lo hi ls ids' -> T' c lo hi ls ids') ->
      T' (route x seps rm) lo' hi' ls1' ids1 -> children T' seps rm lo hi (ls0 ++ ls1' ++ ls2) ids.
Proof.
  intros HT. revert lo ls ids. induction seps as [|[c k] seps IH]; intros lo ls ids Hs Hr Hx.
  { cbn. intros HTr. exists lo, hi, [], ls, [], [], ids, []. cbn. rewrite !app_nil_r. split_and!; try done.
    intros T' ls1' _. by rewrite app_nil_r. }
  cbn [children fmap list_fmap snd] in *. intros (ls1 & ls2 & ids1 & ids2 & H1 & H2 & -> & ->).
  apply StronglySorted_cons in Hs as [Hk Hs]. apply Forall_cons in Hr as [Hrk Hr].
  assert (Forall (in_range (Some k) hi) seps.*2) as Hr'.
  { rewrite Forall_forall in *. intros y Hy. split; [|by apply Hr].
    intros Hyk. apply (bytes_lt_irrefl k). transitivity y; [by apply Hk|done]. }
  rewrite route_cons. case_decide as Hxk.
  - exists lo, (Some k), [], ls1, ls2, [], ids1, ids2. cbn. split_and!; try done.
    + by destruct Hx.
    + eapply above_range; [done|]. by eapply children_range.
    + intros T' ls1' Himpl HT'. exists ls1', ls2, ids1, ids2. split_and!; try done.
      eapply children_impl; [exact Himpl|done].
  - destruct (IH (Some k) ls2 ids2 Hs Hr') as (lo' & hi' & a & b & c' & ia & ib & ic & Ht & Hin & -> & -> & Ha & Hc & Hre);
      [split; [done|apply Hx] | done|].
    exists lo', hi', (ls1 ++ a), b, c', (ids1 ++ ia), ib, ic. split_and!; try done; [by rewrite !app_assoc..| |].
    + rewrite cells_of_app, fmap_app. apply Forall_app. split; [|done].
      eapply below_range; [done|]. by eapply HT.
    + intros T' b' Himpl HT'. exists ls1, (a ++ b' ++ c'), ids1, (ia ++ ib ++ ic).
      split_and!; try done; [| |by rewrite !app_assoc].
      * apply Himpl; [|done]. intros id Hid. rewrite <- app_assoc. apply elem_of_app. by left.
      * apply Hre; [|done]. intros c0 lo0 hi0 ls0 ids0 Hids. apply Himpl.
        intros id Hid. rewrite <- app_assoc. apply elem_of_app. right. by apply Hids.
Qed.

(** The leaf of [x] in a tree: the way to it, its cells, what is to its left and
    right, and the tree around a changed leaf. *)
Record leaf_found (pg : PageID -> mem) (h : nat) (id : PageID) (lo hi : option bytes) (ls : leaves)
    (ids : list PageID) (x : bytes) (lf : PageID) (cs : list (bytes * bytes)) (lo' hi' : option bytes)
    (ls0 ls2 : leaves) : Prop := {
  fd_path : path pg x h id lf;
  fd_leaf : leaf_ok pg lf lo' hi' cs;
  fd_range : in_range lo' hi' x;
  fd_leaves : ls = ls0 ++ (lf, cs) :: ls2;
  fd_in : lf ∈ ids;
  fd_left : Forall (fun y => bytes_lt y x) (cells_of ls0).*1;
  fd_right : Forall (bytes_lt x) (cells_of ls2).*1;
  fd_rebuild : forall pg' cs',
    (forall id', id' ∈ ids -> id' <> lf -> image_eq 0 (pg' id') (pg id')) ->
    leaf_ok pg' lf lo' hi' cs' -> subtree pg' h id lo hi (ls0 ++ (lf, cs') :: ls2) ids
}.

Lemma subtree_find pg h id lo hi ls ids x :
  subtree pg h id lo hi ls ids -> in_range lo hi x -> NoDup ids ->
  exists lf cs lo' hi' ls0 ls2, leaf_found pg h id lo hi ls ids x lf cs lo' hi' ls0 ls2.
Proof.
  revert id lo hi ls ids. induction h as [|h IH]; intros id lo hi ls ids; cbn.
  - intros (cs & Hl & -> & ->) Hx _. exists id, cs, lo, hi, [], []. split; try done.
    + apply path_leaf; apply Hl.
    + by left.
    + intros pg' cs' _ Hl'. by exists cs'.
  - intros (seps & ids' & H1 & H2 & H3 & H4 & H5 & H6 & ->) Hx [Hni Hnd]%NoDup_cons.
    destruct (children_find _ _ _ _ _ _ _ x (fun c lo hi ls ids => subtree_range pg h c lo hi ls ids) H4 H5 Hx H6)
      as (lo' & hi' & a & b & c & ia & ib & ic & Hsub & Hx' & -> & -> & Ha & Hc & Hre).
    apply NoDup_app in Hnd as (Hnda & Hdab & (Hndb & Hdbc & Hndc)%NoDup_app).
    destruct (IH _ _ _ _ _ Hsub Hx' Hndb) as (lf & cs & lo2 & hi2 & b0 & b2 & [Hp Hl Hr -> Hin Hb0 Hb2 Hre2]).
    exists lf, cs, lo2, hi2, (a ++ b0), (b2 ++ c). split; try done.
    + by apply (path_step _ _ _ _ _ seps).
    + by rewrite <- !app_assoc.
    + right. apply elem_of_app. right. apply elem_of_app. by left.
    + rewrite cells_of_app, fmap_app. by apply Forall_app.
    + rewrite cells_of_app, fmap_app. by apply Forall_app.
    + intros pg' cs' Hsame Hl'.
      assert (id <> lf) as Hne.
      { intros ->. apply Hni. apply elem_of_app. right. apply elem_of_app. by left. }
      assert (image_eq 0 (pg' id) (pg id)) as Eid by (apply Hsame; [left|done]).
      exists seps, (ia ++ ib ++ ic). split_and!; try done.
      * by rewrite (PageType_header _ _ (image_header _ _ Eid)).
      * by apply (holds_image _ (pg id)).
      * rewrite (RightmostChildID_header _ _ (image_header _ _ Eid)).
        replace ((a ++ b0) ++ (lf, cs') :: b2 ++ c) with (a ++ (b0 ++ (lf, cs') :: b2) ++ c)
          by (by rewrite <- !app_assoc).
        apply Hre.
        -- intros c0 lo0 hi0 ls0 ids0 Hids. apply subtree_ext. intros id' Hid'. apply Hsame.
           ++ right. apply Hids in Hid'. set_solver.
           ++ intros ->. apply Hids, elem_of_app in Hid' as [Hi|Hi].
              ** apply (Hdab lf Hi). apply elem_of_app. by left.
              ** by apply (Hdbc lf Hin).
        -- apply Hre2; [|done]. intros id' Hid' Hne'. apply Hsame; [|done]. right. set_solver.
Qed.

(** ** The map of a tree *)

Lemma children_sorted T seps rm lo hi ls ids :
  (forall c lo hi ls ids, T c lo hi ls ids -> Forall (in_range lo hi) (cells_of ls).*1) ->
  (forall c lo hi ls ids, T c lo hi ls ids -> keys_sorted (cells_of ls).*1) ->
  keys_sorted seps.*2 -> Forall (in_range lo hi) seps.*2 ->
  children T seps rm lo hi ls ids -> keys_sorted (cells_of ls).*1.
Proof.
  intros HT HS. revert lo ls ids. induction seps as [|[c k] seps IH]; intros lo ls ids Hs Hr; cbn; [apply HS|].
  intros (ls1 & ls2 & ids1 & ids2 & H1 & H2 & -> & ->). cbn in Hs, Hr.
  apply StronglySorted_cons in Hs as [Hk Hs]. apply Forall_cons in Hr as [_ Hr].
  assert (Forall (in_range (Some k) hi) seps.*2) as Hr'.
  { rewrite Forall_forall in *. intros y Hy. split; [|by apply Hr].
    intros Hyk. apply (bytes_lt_irrefl k). transitivity y; [by apply Hk|done]. }
  pose proof (HT _ _ _ _ _ H1) as R1. pose proof (children_range _ _ _ _ _ _ _ HT Hs Hr' H2) as R2.
  rewrite cells_of_app, fmap_app. apply StronglySorted_app_2; [|by eapply HS | by eapply IH].
  intros a b Ha Hb. rewrite Forall_forall in R1, R2. destruct (R1 a Ha) as [_ Hak].
  destruct (R2 b Hb) as [Hbk _]. destruct (bytes_nlt_le _ _ Hbk) as [<-|]; [done|]. by transitivity k.
Qed.

Lemma subtree_sorted pg h id lo hi ls ids :
  subtree pg h id lo hi ls ids -> keys_sorted (cells_of ls).*1.
Proof.
  revert id lo hi ls ids. induction h as [|h IH]; intros id lo hi ls ids; cbn.
  - intros (cs & Hl & -> & ->). unfold cells_of. cbn. rewrite app_nil_r. apply Hl.
  - intros (seps & ids' & _ & _ & _ & H4 & H5 & H6 & _).
    eapply children_sorted; [| |exact H4|exact H5|exact H6]; [intros; by eapply subtree_range | done].
Qed.

(** The map a tree stands for. *)
Definition tree_map (ls : leaves) : gmap bytes bytes := leaf_map (cells_of ls).

Lemma leaf_map_notin k cs : k ∉ cs.*1 -> leaf_map cs !! k = None.
Proof. apply not_elem_of_list_to_map_1. Qed.

Lemma cells_of_middle ls0 lf cs ls2 : cells_of (ls0 ++ (lf, cs) :: ls2) = cells_of ls0 ++ cs ++ cells_of ls2.
Proof. by rewrite cells_of_app. Qed.

Section Found.
Context {pg : PageID -> mem} {h : nat} {id : PageID} {lo hi : option bytes} {ls : leaves} {ids : list PageID}.
Context {x : bytes} {lf : PageID} {cs : list (bytes * bytes)} {lo' hi' : option bytes} {ls0 ls2 : leaves}.
Hypothesis Hfd : leaf_found pg h id lo hi ls ids x lf cs lo' hi' ls0 ls2.

Lemma found_left_none : leaf_map (cells_of ls0) !! x = None.
Proof.
  apply leaf_map_notin. intros Hin. pose proof (fd_left _ _ _ _ _ _ _ _ _ _ _ _ _ _ Hfd) as Hl.
  rewrite Forall_forall in Hl. by apply (bytes_lt_irrefl x), Hl.
Qed.

Lemma found_right_none : leaf_map (cells_of ls2) !! x = None.
Proof.
  apply leaf_map_notin. intros Hin. pose proof (fd_right _ _ _ _ _ _ _ _ _ _ _ _ _ _ Hfd) as Hl.
  rewrite Forall_forall in Hl. by apply (bytes_lt_irrefl x), Hl.
Qed.

(** The key is looked up in its leaf alone. *)
Lemma found_lookup : tree_map ls !! x = leaf_map cs !! x.
Proof.
  rewrite (fd_leaves _ _ _ _ _ _ _ _ _ _ _ _ _ _ Hfd). unfold tree_map, leaf_map.
  rewrite cells_of_middle, !list_to_map_app, lookup_union_r by apply found_left_none.
  destruct (leaf_map cs !! x) as [v|] eqn:E; unfold leaf_map in E.
  - rewrite E. by apply lookup_union_Some_l.
  - rewrite E. apply lookup_union_None. split; [done|apply found_right_none].
Qed.

(** A change of the leaf at [x] is that change of the tree. *)
Lemma found_insert v cs' :
  leaf_map cs' = <[x := v]> (leaf_map cs) -> tree_map (ls0 ++ (lf, cs') :: ls2) = <[x := v]> (tree_map ls).
Proof.
  intros E. rewrite (fd_leaves _ _ _ _ _ _ _ _ _ _ _ _ _ _ Hfd). unfold tree_map.
  rewrite !cells_of_middle. unfold leaf_map in *. rewrite !list_to_map_app, E.
  by rewrite insert_union_r, insert_union_l by apply found_left_none.
Qed.

Lemma found_delete cs' :
  leaf_map cs' = delete x (leaf_map cs) -> tree_map (ls0 ++ (lf, cs') :: ls2) = delete x (tree_map ls).
Proof.
  intros E. rewrite (fd_leaves _ _ _ _ _ _ _ _ _ _ _ _ _ _ Hfd). unfold tree_map.
  rewrite !cells_of_middle. unfold leaf_map in *. rewrite !list_to_map_app, E, !delete_union.
  by rewrite (delete_id (list_to_map (cells_of ls0))), (delete_id (list_to_map (cells_of ls2)))
    by (apply found_left_none || apply found_right_none).
Qed.
End Found.

(** ** Descents through the pool *)

Lemma tree_page_image id d1 d2 : tree_page id -> page_eqv id d1 d2 -> image_eq 0 d1 d2.
Proof. unfold page_eqv. by intros [_ ->]. Qed.

Lemma path_ext pg pg' x h id lf :
  (forall id, tree_page id -> image_eq 0 (pg' id) (pg id)) -> path pg x h id lf -> path pg' x h id lf.
Proof.
  intros E. induction 1 as [id Hp Ht|h id lf seps Hp Ht Hh _ IH];
    pose proof (image_header _ _ (E id Hp)) as Hhd.
  - apply path_leaf; [done|]. by rewrite (PageType_header _ _ Hhd).
  - apply (path_step _ _ _ _ _ seps); [done| | |].
    + by rewrite (PageType_header _ _ Hhd).
    + by apply (holds_image _ (pg id)), Hh; apply E.
    + by rewrite (RightmostChildID_header _ _ Hhd).
Qed.

Lemma path_root pg x h id lf : path pg x h id lf -> tree_page id.
Proof. by destruct 1. Qed.

Lemma path_end pg x h id lf : path pg x h id lf -> tree_page lf.
Proof. by induction 1. Qed.

Definition one (b : bool) : Z := if b then 1 else 0.

Section Descent.
Context {D P : Type} `{DS : BlockDeviceSpec D} `{PS : EvictionPolicySpec P} `{MR : MapRange}.
Implicit Types bp : BufferPool D P.

Lemma same_view_image bp bp' id :
  same_view bp bp' -> tree_page id -> image_eq 0 (view bp' id) (view bp id).
Proof. intros Hv Hp. apply (tree_page_image id); [done|apply Hv]. Qed.

Lemma path_same_view bp bp' x h id lf :
  same_view bp bp' -> path (view bp) x h id lf -> path (view bp') x h id lf.
Proof. intros Hv. apply path_ext. intros. by apply same_view_image. Qed.

(** The state after an operation that changed no page: the pages and the number
    of frames are the same, and the pins are given. *)
Record unchanged bp bp' (f : PageID -> Z) : Prop := {
  un_inv : pool_inv ∅ bp';
  un_view : same_view bp bp';
  un_frames : length (frames bp') = length (frames bp);
  un_pins : forall id, pins bp' id = f id
}.

Lemma fetch_unchanged bp id i bp' :
  pool_inv ∅ bp -> page_id_ok id -> FetchPage bp id = (Ok i, bp') ->
  unchanged bp bp' (fun id' => pins bp id' + one (bool_decide (id' = id))) /\ pageTable bp' !! id = Some i /\
  exists p, frames bp' !! i = Some p /\ ID p = id /\ page_eqv id (Data p) (view bp' id).
Proof.
  intros Hinv Hok Hf. pose proof (FetchPage_pins ∅ _ _ _ _ Hinv Hok Hf) as Hpins. cbn in Hpins.
  pose proof (FetchPage_length ∅ _ _ _ _ Hinv Hf) as Hlen.
  pose proof (FetchPage_spec ∅ _ _ _ _ Hinv Hok Hf) as (Hinv' & Hv & Ht & p & Hp & _).
  destruct (inv_table _ _ Hinv' id i Ht) as (_ & q & Hq & Hid). simplify_eq.
  split; [split; try done|split; [done|]].
  - intros id'. rewrite Hpins. unfold one. by case_bool_decide; case_decide.
  - exists p. split; [done|]. split; [done|]. by rewrite (view_cached bp' _ i p).
Qed.

Lemma unpin_unchanged bp id b :
  pool_inv ∅ bp -> 0 < pins bp id ->
  unchanged bp (UnpinPage bp id b) (fun id' => pins bp id' - one (bool_decide (id' = id))) /\
  pageTable (UnpinPage bp id b) = pageTable bp.
Proof.
  intros Hinv Hpos. pose proof (UnpinPage_pins ∅ bp id b Hinv Hpos) as Hpins.
  destruct (pins_pos _ _ Hpos) as (i & p & Hi & Hp & Hpin).
  destruct (inv_unpin ∅ bp id i p b Hinv Hi Hp ltac:(lia) ltac:(set_solver)) as [Hinv' Hv].
  split; [split; try done|].
  - apply UnpinPage_frames.
  - intros id'. rewrite Hpins. unfold one. by case_bool_decide; case_decide.
  - unfold UnpinPage. by rewrite Hi.
Qed.

Lemma unchanged_trans a b c f g : unchanged a b f -> unchanged b c g -> unchanged a c g.
Proof.
  intros [H1 H2 H3 H4] [G1 G2 G3 G4]. split; try done; [by transitivity b | congruence].
Qed.

Lemma unchanged_pins a b f g : unchanged a b f -> (forall id, f id = g id) -> unchanged a b g.
Proof. intros [H1 H2 H3 H4] E. split; try done. intros id. by rewrite H4. Qed.

(** A failed fetch leaves the pool as it was. *)
Lemma fetch_failed bp id e bp' :
  pool_inv ∅ bp -> page_id_ok id -> FetchPage bp id = (Err e, bp') -> unchanged bp bp' (pins bp).
Proof.
  intros Hinv Hok Hf. pose proof (FetchPage_spec ∅ _ _ _ _ Hinv Hok Hf) as [Hinv' Hv].
  split; [done..| |]; [by apply (FetchPage_length ∅ bp id (Err e))|].
  exact (FetchPage_pins ∅ _ _ _ _ Hinv Hok Hf).
Qed.

(** The page in a pinned frame is the page of the tree. *)
Lemma frame_view bp id i :
  pool_inv ∅ bp -> pageTable bp !! id = Some i ->
  exists p, frames bp !! i = Some p /\ ID p = id /\ view bp id = Data p.
Proof.
  intros Hinv Hi. destruct (inv_table _ _ Hinv id i Hi) as (_ & p & Hp & Hid). exists p.
  split; [done|]. split; [done|]. by apply (view_cached bp id i).
Qed.

(** A descent follows the path of its key and ends with the leaf pinned instead
    of the page it started from. *)
Lemma descend_spec fuel h bp cur i x lf r bp' :
  pool_inv ∅ bp -> path (view bp) x h cur lf -> pageTable bp !! cur = Some i -> 0 < pins bp cur ->
  (h < fuel)%nat -> descend fuel bp cur i x = (r, bp') ->
  match r with
  | Ok j => pageTable bp' !! lf = Some j /\
      unchanged bp bp' (fun id => pins bp id - one (bool_decide (id = cur)) + one (bool_decide (id = lf))) /\
      dirty_count bp' <= dirty_count bp
  | Err _ => unchanged bp bp' (fun id => pins bp id - one (bool_decide (id = cur)))
  | Panic => False
  | Hang => True
  end.
Proof.
  revert h bp cur i. induction fuel as [|fuel IH]; intros h bp cur i Hinv Hpath Hi Hpin Hh; [lia|].
  cbn [descend]. destruct (frame_view bp cur i Hinv Hi) as (p & Hp & Hid & Hview). rewrite Hp.
  destruct Hpath as [cur Hpg Ht|h cur lf seps Hpg Ht Hseps Hpath]; rewrite Hview in *.
  { rewrite Ht. change (PageTypeLeaf =? PageTypeInternal) with false. intros [= <- <-]. split; [done|]. split; [|done].
    split; try done. intros id. unfold one. case_bool_decide; lia. }
  rewrite Ht, Z.eqb_refl. rewrite (findChild_spec _ seps) by done.
  set (child := route x seps _) in *. destruct (path_root _ _ _ _ _ Hpath) as [Hok _].
  destruct (FetchLatched [i] bp child) as [rf bp1] eqn:Hfl.
  destruct (FetchLatched_cases _ _ _ _ _ Hfl) as [Hf| ->]; [|by intros [= <- <-]].
  destruct rf as [j|e| |].
  - destruct (fetch_unchanged bp child j bp1 Hinv Hok Hf) as (U1 & Hj & _). pose proof U1 as [Hinv1 Hv1 _ Hpins1].
    assert (0 < pins bp1 cur) as Hpin1.
    { rewrite Hpins1. unfold one. case_bool_decide; lia. }
    destruct (unpin_unchanged bp1 cur false Hinv1 Hpin1) as [U2 Et]. pose proof U2 as [Hinv2 Hv2 _ Hpins2].
    pose proof (pins_nonneg ∅ bp child Hinv). pose proof (FetchPage_count ∅ bp child j bp1 Hinv Hok Hf) as Hn1.
    pose proof (UnpinPage_count ∅ ∅ bp1 cur false Hinv1 Hinv2) as Hn2. cbn in Hn2.
    intros Hd. apply (IH h) in Hd; [|done| |by rewrite Et| |lia].
    + destruct r as [k|e| |]; try done.
      * destruct Hd as (Hk & Ud & Hn). split; [done|]. split; [|lia].
        eapply unchanged_pins; [exact (unchanged_trans _ _ _ _ _ (unchanged_trans _ _ _ _ _ U1 U2) Ud)|].
        intros id. cbn. rewrite Hpins2, Hpins1. lia.
      * eapply unchanged_pins; [exact (unchanged_trans _ _ _ _ _ (unchanged_trans _ _ _ _ _ U1 U2) Hd)|].
        intros id. cbn. rewrite Hpins2, Hpins1. lia.
    + by apply (path_same_view bp1), (path_same_view bp).
    + rewrite Hpins2, Hpins1. unfold one. destruct (decide (child = cur)) as [->|].
      * rewrite !bool_decide_eq_true_2 by done. lia.
      * rewrite bool_decide_eq_true_2, bool_decide_eq_false_2 by done. lia.
  - pose proof (fetch_failed bp child e bp1 Hinv Hok Hf) as U1. intros [= <- <-].
    destruct (unpin_unchanged bp1 cur false) as [U2 _]; [apply U1|by rewrite (un_pins _ _ _ U1)|].
    eapply unchanged_pins; [exact (unchanged_trans _ _ _ _ _ U1 U2)|]. intros id. cbn. by rewrite (un_pins _ _ _ U1).
  - by apply (FetchPage_spec ∅) in Hf.
  - by intros [= <- <-].
Qed.

Lemma FindLeaf_spec fuel h bp root x lf r bp' :
  pool_inv ∅ bp -> path (view bp) x h root lf -> (h < fuel)%nat ->
  FindLeaf fuel bp root x = (r, bp') ->
  match r with
  | Ok j => pageTable bp' !! lf = Some j /\
      unchanged bp bp' (fun id => pins bp id + one (bool_decide (id = lf))) /\
      dirty_count bp' <= dirty_count bp
  | Err _ => unchanged bp bp' (pins bp)
  | Panic => False
  | Hang => True
  end.
Proof.
  intros Hinv Hpath Hh. destruct (path_root _ _ _ _ _ Hpath) as [Hok _]. unfold FindLeaf.
  destruct (FetchPage bp root) as [[i|e| |] bp1] eqn:Hf.
  - destruct (fetch_unchanged bp root i bp1 Hinv Hok Hf) as (U1 & Hi & _). pose proof U1 as [Hinv1 Hv1 _ Hpins1].
    pose proof (pins_nonneg ∅ bp root Hinv). intros Hd.
    apply (descend_spec fuel h bp1 root i x lf) in Hd; [|done|by apply (path_same_view bp)|done| |done].
    + destruct r as [k|e| |]; try done.
      * destruct Hd as (Hk & Ud & Hn). split; [done|].
        pose proof (FetchPage_count ∅ bp root i bp1 Hinv Hok Hf). split; [|lia].
        eapply unchanged_pins; [exact (unchanged_trans _ _ _ _ _ U1 Ud)|]. intros id. cbn. rewrite Hpins1. lia.
      * eapply unchanged_pins; [exact (unchanged_trans _ _ _ _ _ U1 Hd)|]. intros id. cbn. rewrite Hpins1. lia.
    + rewrite Hpins1. unfold one. rewrite bool_decide_eq_true_2 by done. lia.
  - intros [= <- <-]. by apply (fetch_failed bp root e).
  - by apply (FetchPage_spec ∅) in Hf.
  - by intros [= <- <-].
Qed.
End Descent.

(** ** With the LRU policy on a device without I/O errors every descent ends *)

Section DescentTotal.
Context {D : Type} `{DS : BlockDeviceSpec D} `{RD : !ReliableDevice D} `{MR : MapRange}.
Implicit Types bp : BufferPool D LRUEvictionPolicy.

(** A descent of height [h] cannot run into the pool's flush: it holds no latch
    while it fetches, or too few pages are dirty even if all pages on the way
    were given back as dirty. *)
Definition can_descend (h : nat) bp : Prop := h = 0%nat \/ slack h bp.

(** Two frames besides the pages others hold are enough for any height. *)
Lemma descend_total fuel h bp cur i x lf (held : gset PageID) :
  pool_inv ∅ bp -> path (view bp) x h cur lf -> pageTable bp !! cur = Some i -> 0 < pins bp cur ->
  (forall id, 0 < pins bp id - one (bool_decide (id = cur)) -> id ∈ held) ->
  (S (base.size held) < length (frames bp))%nat -> (h < fuel)%nat -> can_descend h bp ->
  exists j bp', descend fuel bp cur i x = (Ok j, bp').
Proof.
  revert h bp cur i. induction fuel as [|fuel IH]; intros h bp cur i Hinv Hpath Hi Hpin Hheld Hroom Hh Hcan; [lia|].
  cbn [descend]. destruct (frame_view bp cur i Hinv Hi) as (p & Hp & Hid & Hview). rewrite Hp.
  destruct Hpath as [cur Hpg Ht|h cur lf seps Hpg Ht Hseps Hpath]; rewrite Hview in *.
  { rewrite Ht. change (PageTypeLeaf =? PageTypeInternal) with false. eauto. }
  rewrite Ht, Z.eqb_refl. rewrite (findChild_spec _ seps) by done.
  set (child := route x seps _) in *. destruct (path_root _ _ _ _ _ Hpath) as [Hok _].
  destruct (FetchPage_room ∅ bp child ({[cur]} ∪ held) Hinv Hok) as (j & bp1 & Hf).
  { intros id Hpos. destruct (decide (id = cur)) as [->|Hne]; [set_solver|].
    apply elem_of_union_r, Hheld. rewrite bool_decide_eq_false_2 by done. cbn. lia. }
  { pose proof (size_union_alt {[cur]} held) as Hsz. rewrite size_singleton in Hsz.
    pose proof (subseteq_size (held ∖ {[cur]}) held ltac:(set_solver)). lia. }
  destruct Hcan as [?|Hcan]; [done|]. rewrite (FetchLatched_slack _ _ _ _ Hcan), Hf.
  pose proof (FetchPage_slack ∅ _ _ _ _ _ Hinv Hok Hf Hcan) as Hcan1.
  destruct (fetch_unchanged bp child j bp1 Hinv Hok Hf) as (U1 & Hj & _).
  pose proof U1 as [Hinv1 Hv1 Hlen1 Hpins1].
  assert (0 < pins bp1 cur) as Hpin1 by (rewrite Hpins1; unfold one; case_bool_decide; lia).
  destruct (unpin_unchanged bp1 cur false Hinv1 Hpin1) as [[Hinv2 Hv2 Hlen2 Hpins2] Et].
  pose proof (pins_nonneg ∅ bp child Hinv).
  apply (IH h); [done| |by rewrite Et| | |lia|lia|].
  - by apply (path_same_view bp1), (path_same_view bp).
  - rewrite Hpins2, Hpins1. unfold one. destruct (decide (child = cur)) as [->|].
    + rewrite !bool_decide_eq_true_2 by done. lia.
    + rewrite bool_decide_eq_true_2, bool_decide_eq_false_2 by done. lia.
  - intros id. rewrite Hpins2, Hpins1. intros Hpos. apply Hheld. lia.
  - right. apply (slack_le _ (S h)); [lia|]. by apply (UnpinPage_slack ∅ ∅).
Qed.

Lemma FindLeaf_total fuel h bp root x lf (held : gset PageID) :
  pool_inv ∅ bp -> path (view bp) x h root lf -> (forall id, 0 < pins bp id -> id ∈ held) ->
  (S (base.size held) < length (frames bp))%nat -> (h < fuel)%nat -> can_descend h bp ->
  exists j bp', FindLeaf fuel bp root x = (Ok j, bp').
Proof.
  intros Hinv Hpath Hheld Hroom Hh Hcan. destruct (path_root _ _ _ _ _ Hpath) as [Hok _]. unfold FindLeaf.
  destruct (FetchPage_room ∅ bp root held Hinv Hok Hheld ltac:(lia)) as (i & bp1 & Hf). rewrite Hf.
  destruct (fetch_unchanged bp root i bp1 Hinv Hok Hf) as (U1 & Hi & _). pose proof U1 as [Hinv1 Hv1 Hlen1 Hpins1].
  pose proof (pins_nonneg ∅ bp root Hinv).
  apply (descend_total fuel h _ _ _ _ lf held); [done|by apply (path_same_view bp)|done| | |lia|done|].
  - rewrite Hpins1. unfold one. rewrite bool_decide_eq_true_2 by done. lia.
  - intros id. rewrite Hpins1. intros Hpos. apply Hheld. lia.
  - destruct Hcan as [?|Hcan]; [by left|right]. by apply (FetchPage_slack ∅ h bp root i).
Qed.
End DescentTotal.

(** ** All pages of a tree are B-tree pages *)

Lemma children_all T (Q : PageID -> Prop) seps rm lo hi ls ids :
  (forall c lo hi ls ids, T c lo hi ls ids -> forall id, id ∈ ids -> Q id) ->
  children T seps rm lo hi ls ids -> forall id, id ∈ ids -> Q id.
Proof.
  intros HT. revert lo ls ids. induction seps as [|[c k] seps IH]; intros lo ls ids; cbn; [apply HT|].
  intros (ls1 & ls2 & ids1 & ids2 & H1 & H2 & -> & ->) id [Hid|Hid]%elem_of_app; [by eapply HT | by eapply IH].
Qed.

Lemma subtree_pages pg h id lo hi ls ids :
  subtree pg h id lo hi ls ids -> forall id', id' ∈ ids -> tree_page id'.
Proof.
  revert id lo hi ls ids. induction h as [|h IH]; intros id lo hi ls ids; cbn.
  - intros (cs & Hl & -> & ->) id' ->%list_elem_of_singleton. apply Hl.
  - intros (seps & ids' & H1 & _ & _ & _ & _ & H6 & ->) id' [->|Hid]%elem_of_cons; [done|].
    eapply (children_all _ tree_page); [|exact H6|done]. intros c lo' hi' ls' ids0 Hs. by eapply IH.
Qed.

(** The leaves are among the pages, in the same order. *)
Lemma children_leaves T seps rm lo hi ls ids :
  (forall c lo hi ls ids, T c lo hi ls ids -> sublist ls.*1 ids) ->
  children T seps rm lo hi ls ids -> sublist ls.*1 ids.
Proof.
  intros HT. revert lo ls ids. induction seps as [|[c k] seps IH]; intros lo ls ids; cbn; [apply HT|].
  intros (ls1 & ls2 & ids1 & ids2 & H1 & H2 & -> & ->). rewrite fmap_app.
  apply sublist_app; [by eapply HT | by eapply IH].
Qed.

Lemma subtree_leaves pg h id lo hi ls ids : subtree pg h id lo hi ls ids -> sublist ls.*1 ids.
Proof.
  revert id lo hi ls ids. induction h as [|h IH]; intros id lo hi ls ids; cbn.
  - intros (cs & _ & -> & ->). done.
  - intros (seps & ids' & _ & _ & _ & _ & _ & H6 & ->). apply sublist_cons. by eapply children_leaves.
Qed.

(** Every leaf of a tree is a well-formed leaf page. *)
Lemma children_leaf_ok pg T seps rm lo hi ls ids :
  (forall c lo hi ls ids, T c lo hi ls ids -> Forall (fun l => exists lo hi, leaf_ok pg l.1 lo hi l.2) ls) ->
  children T seps rm lo hi ls ids -> Forall (fun l => exists lo hi, leaf_ok pg l.1 lo hi l.2) ls.
Proof.
  intros HT. revert lo ls ids. induction seps as [|[c k] seps IH]; intros lo ls ids; cbn; [apply HT|].
  intros (ls1 & ls2 & ids1 & ids2 & H1 & H2 & -> & ->). apply Forall_app. split; [by eapply HT | by eapply IH].
Qed.

Lemma subtree_leaf_ok pg h id lo hi ls ids :
  subtree pg h id lo hi ls ids -> Forall (fun l => exists lo hi, leaf_ok pg l.1 lo hi l.2) ls.
Proof.
  revert id lo hi ls ids. induction h as [|h IH]; intros id lo hi ls ids; cbn.
  - intros (cs & Hl & -> & ->). constructor; [|done]. by exists lo, hi.
  - intros (seps & ids' & _ & _ & _ & _ & _ & H6 & ->). by eapply children_leaf_ok.
Qed.

(** The chain depends on the headers of the leaves only. *)
Lemma chain_ext pg pg' ls ls' :
  ls'.*1 = ls.*1 -> (forall id, id ∈ ls.*1 -> same_header (pg' id) (pg id)) -> chain pg ls -> chain pg' ls'.
Proof.
  revert ls'. induction ls as [|[id cs] ls IH]; intros [|[id' cs'] ls'] E Hs; try done.
  cbn in E. injection E as -> E.
  assert (Node.NextLeafID (pg' id) = Node.NextLeafID (pg id)) as En by (apply NextLeafID_header, Hs; left).
  destruct ls as [|[id2 cs2] ls], ls' as [|[id3 cs3] ls']; try done; cbn [chain]; rewrite En; [done|].
  intros [Hn Hc]. cbn in E. injection E as -> E. split; [done|].
  apply (IH ((id2, cs3) :: ls')); [cbn; by f_equal| |done]. intros id0 Hid0. apply Hs. by right.
Qed.

(** ** A page holds one list of cells, so a page is the root of one tree *)

Lemma holds_det {A} (F : Format A) `{FS : !FormatSpec F} d cs cs' : node_holds F d cs -> node_holds F d cs' -> cs = cs'.
Proof.
  assert (forall l o acc, scan_list F (R := Empty_set) (fun acc _ c => Continue (acc ++ [c])) l o acc =
    Finished (acc ++ l) (o + zlen (encs F l))) as Hall.
  { induction l as [|c l IH]; intros o acc; cbn [scan_list].
    - change (encs F []) with ([] : bytes). rewrite app_nil_r. f_equal. unfold zlen. cbn. lia.
    - rewrite IH, <- app_assoc. f_equal. change (encs F (c :: l)) with (enc F c ++ encs F l). rewrite zlen_app. lia. }
  intros H1 H2. pose proof (scan_node_list F (R := Empty_set) (fun acc _ c => Continue (acc ++ [c])) d cs [] H1) as E1.
  rewrite (scan_node_list F _ d cs' [] H2), !Hall in E1. by injection E1.
Qed.

Lemma children_det T T' seps rm lo lo' hi hi' ls ls' ids ids' :
  (forall c lo hi ls ids lo' hi' ls' ids', T c lo hi ls ids -> T' c lo' hi' ls' ids' -> ls = ls' /\ ids = ids') ->
  children T seps rm lo hi ls ids -> children T' seps rm lo' hi' ls' ids' -> ls = ls' /\ ids = ids'.
Proof.
  intros HT. revert lo lo' ls ls' ids ids'. induction seps as [|[c k] seps IH]; intros lo lo' ls ls' ids ids'; cbn; [apply HT|].
  intros (a1 & a2 & i1 & i2 & H1 & H2 & -> & ->) (b1 & b2 & j1 & j2 & G1 & G2 & -> & ->).
  destruct (HT _ _ _ _ _ _ _ _ _ H1 G1) as [-> ->]. by destruct (IH _ _ _ _ _ _ H2 G2) as [-> ->].
Qed.

Lemma subtree_det pg h h' id lo lo' hi hi' ls ls' ids ids' :
  subtree pg h id lo hi ls ids -> subtree pg h' id lo' hi' ls' ids' -> h = h' /\ ls = ls' /\ ids = ids'.
Proof.
  revert h' id lo lo' hi hi' ls ls' ids ids'. induction h as [|h IH]; intros [|h'] id lo lo' hi hi' ls ls' ids ids'; cbn.
  - intros (cs & [_ _ H1 _ _] & -> & ->) (cs' & [_ _ H2 _ _] & -> & ->). by destruct (holds_det _ _ _ _ H1 H2).
  - intros (cs & [_ Ht _ _ _] & _) (seps & ids2 & _ & Ht' & _). rewrite Ht in Ht'. done.
  - intros (seps & ids2 & _ & Ht' & _) (cs & [_ Ht _ _ _] & _). rewrite Ht in Ht'. done.
  - intros (seps & i1 & _ & _ & H1 & _ & _ & C1 & ->) (seps' & i2 & _ & _ & H2 & _ & _ & C2 & ->).
    destruct (holds_det _ _ _ _ H1 H2). assert (h = h') as <-.
    { destruct seps as [|[c k] seps]; cbn in C1, C2.
      - by destruct (IH _ _ _ _ _ _ _ _ _ _ C1 C2).
      - destruct C1 as (? & ? & ? & ? & C1 & _), C2 as (? & ? & ? & ? & C2 & _). by destruct (IH _ _ _ _ _ _ _ _ _ _ C1 C2). }
    split; [done|]. assert (ls = ls' /\ i1 = i2) as [-> ->]; [|done]. eapply children_det; [|exact C1|exact C2].
    intros c l1 h1 s1 j1 l2 h2 s2 j2 G1 G2. by destruct (IH _ _ _ _ _ _ _ _ _ _ G1 G2).
Qed.
