(* ===== verification/BTreeLocked.v ===== *)
(** The pessimistic descent of the B-tree: the pages it latches for writing are
    distinct and stay pinned until they are released together. *)

From Stdlib Require Import Strings.Byte.
From stdpp Require Import sorting.
From S2P Require Import Common.
From S2P Require Import Prelude.
From S2P Require Import VFS.
From S2P Require Import LRU.
From S2P Require Import Page.
From S2P Require Import Telemetry.
From S2P Require Import BufferPool.
From S2P Require Import PoolInv.
From S2P Require Import PoolOps.
From S2P Require Import PoolPins.
From S2P Require Import PoolLatch.
From S2P Require Import BTreePage.
From S2P Require Import BTreeNode.
From S2P Require Import BTree.
From S2P Require Import BTreeSpec.

(** ** The pages a descent visits *)

Inductive visits (pg : PageID -> mem) (x : bytes) : nat -> PageID -> list PageID -> Prop :=
| visits_leaf id : visits pg x 0 id []
| visits_step h id seps vs : tree_page id -> internal_holds (pg id) seps ->
    visits pg x h (route x seps (Node.RightmostChildID (pg id))) vs ->
    visits pg x (S h) id (route x seps (Node.RightmostChildID (pg id)) :: vs).

Lemma visits_ext pg pg' x h id vs :
  (forall id, tree_page id -> image_eq 0 (pg' id) (pg id)) -> visits pg x h id vs -> visits pg' x h id vs.
Proof.
  intros E. induction 1 as [id|h id seps vs Hp Hh _ IH]; [constructor|].
  rewrite <- (RightmostChildID_header _ _ (image_header _ _ (E id Hp))) in *.
  constructor; [done|by apply (holds_image _ (pg id)), Hh; apply E|done].
Qed.

(** In a tree they are distinct. *)
Lemma subtree_visits pg h id lo hi ls ids x :
  subtree pg h id lo hi ls ids -> in_range lo hi x -> NoDup ids ->
  exists vs, visits pg x h id vs /\ NoDup (id :: vs) /\ forall v, v ∈ id :: vs -> v ∈ ids.
Proof.
  revert id lo hi ls ids. induction h as [|h IH]; intros id lo hi ls ids; cbn.
  - intros (cs & Hl & -> & ->) Hx Hnd. exists []. split; [constructor|]. done.
  - intros (seps & ids' & H1 & H2 & H3 & H4 & H5 & H6 & ->) Hx [Hni Hnd]%NoDup_cons.
    destruct (children_find _ _ _ _ _ _ _ x (fun c lo hi ls ids => subtree_range pg h c lo hi ls ids) H4 H5 Hx H6)
      as (lo' & hi' & a & b & c & ia & ib & ic & Hsub & Hx' & _ & -> & _).
    apply NoDup_app in Hnd as (_ & _ & (Hndb & _)%NoDup_app).
    destruct (IH _ _ _ _ _ Hsub Hx' Hndb) as (vs & Hv & Hndv & Hin).
    eexists. split; [by constructor|]. split.
    + constructor; [|done]. intros Hid. apply Hni. apply Hin in Hid. set_solver.
    + intros v [->|Hv']%elem_of_cons; [left|]. right. apply Hin in Hv'. set_solver.
Qed.

Section Release.
Context {D P : Type} `{DS : BlockDeviceSpec D} `{PS : EvictionPolicySpec P} `{MR : MapRange}.
Implicit Types bp : BufferPool D P.

(** The frames [anc] hold the pages [aids]. *)
Definition frames_of bp (anc : list nat) (aids : list PageID) : Prop :=
  Forall2 (fun i id => pageTable bp !! id = Some i) anc aids.

Lemma frames_of_table bp bp' anc aids :
  pageTable bp' = pageTable bp -> frames_of bp anc aids -> frames_of bp' anc aids.
Proof. unfold frames_of. by intros ->. Qed.

Lemma releaseAncestors_spec bp anc aids :
  pool_inv ∅ bp -> frames_of bp anc aids -> NoDup aids -> (forall id, id ∈ aids -> 0 < pins bp id) ->
  unchanged bp (releaseAncestors bp anc) (fun id => pins bp id - one (bool_decide (id ∈ aids))) /\
  pageTable (releaseAncestors bp anc) = pageTable bp /\
  dirty_count (releaseAncestors bp anc) <= dirty_count bp + Z.of_nat (length anc).
Proof.
  intros Hinv Hf. revert bp Hinv Hf. induction anc as [|i anc IH] in aids |- *; intros bp Hinv Hf Hnd Hpos.
  { inversion Hf; subst. split; [|split; [done|cbn; lia]]. split; try done. intros id. unfold one.
    rewrite bool_decide_eq_false_2 by set_solver. cbn. lia. }
  inversion Hf as [|i' id anc' aids' Hi Hf']; subst. apply NoDup_cons in Hnd as [Hni Hnd].
  destruct (frame_view bp id i Hinv Hi) as (p & Hp & Hid & _).
  assert (frame_id bp i = id) as Efid by (unfold frame_id; by rewrite Hp).
  destruct (unpin_unchanged bp id true Hinv) as [U1 Et]; [apply Hpos; left|].
  pose proof (UnpinPage_count ∅ ∅ bp id true Hinv (un_inv _ _ _ U1)) as Hn. cbn in Hn.
  destruct (IH aids' (UnpinPage bp id true)) as (U2 & Et2 & Hn2); [apply U1|by eapply frames_of_table|done| |].
  { intros id' Hid'. rewrite (un_pins _ _ _ U1). rewrite bool_decide_eq_false_2 by (intros ->; done).
    cbn. rewrite Z.sub_0_r. apply Hpos. by right. }
  unfold releaseAncestors. cbn [fold_left]. rewrite Efid.
  split; [|split; [by rewrite <- Et|unfold releaseAncestors in Hn2; cbn [length]; lia]].
  eapply unchanged_pins; [exact (unchanged_trans _ _ _ _ _ U1 U2)|]. intros id'. cbn. rewrite (un_pins _ _ _ U1).
  unfold one. destruct (decide (id' = id)) as [->|Hne].
  - rewrite (bool_decide_eq_true_2 (id = id)), (bool_decide_eq_false_2 (id ∈ aids')),
      (bool_decide_eq_true_2 (id ∈ id :: aids')) by (done || left). lia.
  - rewrite (bool_decide_eq_false_2 (id' = id)) by done. rewrite Z.sub_0_r.
    rewrite (bool_decide_ext (id' ∈ aids') (id' ∈ id :: aids')) by set_solver. done.
Qed.

(** Pages that are held keep their frames. *)
Lemma frames_of_fetch bp id j bp' anc aids :
  pool_inv ∅ bp -> page_id_ok id -> FetchPage bp id = (Ok j, bp') ->
  frames_of bp anc aids -> (forall id', id' ∈ aids -> 0 < pins bp id') -> frames_of bp' anc aids.
Proof.
  intros Hinv Hok Hf. induction 1 as [|i a anc aids Hi Ha IH]; intros Hpos; constructor.
  - apply (FetchPage_keeps_frame ∅ bp id j); try done. apply Hpos. left.
  - apply IH. intros id' Hid'. apply Hpos. by right.
Qed.

Lemma frames_of_notin bp anc aids id j :
  pool_inv ∅ bp -> frames_of bp anc aids -> pageTable bp !! id = Some j -> id ∉ aids -> j ∉ anc.
Proof.
  intros Hinv. induction 1 as [|i a anc aids Hi Ha IH]; intros Hj Hni; [apply not_elem_of_nil|].
  apply not_elem_of_cons in Hni as [Hne Hni]. apply not_elem_of_cons. split; [|by apply IH].
  intros ->. by apply Hne, (table_inj ∅ bp _ _ i).
Qed.
End Release.

(** ** The descent *)

Section Locked.
Context {D : Type} `{DS : BlockDeviceSpec D} `{RD : !ReliableDevice D} `{MR : MapRange}.
Implicit Types bp : BufferPool D LRUEvictionPolicy.

Definition held_by (aids : list PageID) (id : PageID) : Z := one (bool_decide (id ∈ aids)).

(** The descent at page [cur] of height [h] on its way to [lf]: it holds [cur] in
    frame [i] and the pages [aids] above it, each once, and will visit [vs]. *)
Record descending (x : bytes) (lf : PageID) (h : nat) bp (cur : PageID) (i : nat) (anc : list nat)
    (aids vs : list PageID) : Prop := mkDescending {
  dc_inv : pool_inv ∅ bp;
  dc_path : path (view bp) x h cur lf;
  dc_visits : visits (view bp) x h cur vs;
  dc_once : NoDup (cur :: vs);
  dc_frames : frames_of bp (i :: anc) (cur :: aids);
  dc_nodup : NoDup (cur :: aids);
  dc_apart : forall v, v ∈ vs -> v ∉ aids;
  dc_pins : forall id, pins bp id = held_by (cur :: aids) id;
  dc_room : (length aids + h + 1 < length (frames bp))%nat;
  dc_slack : h = 0%nat \/ slack (length aids + h) bp
}.

Lemma held_by_push (c : PageID) aids id :
  c ∉ aids -> held_by aids id + one (bool_decide (id = c)) = held_by (c :: aids) id.
Proof.
  intros Hc. unfold held_by, one. destruct (decide (id = c)) as [->|Hne].
  - by rewrite (bool_decide_eq_false_2 (c ∈ aids)), !bool_decide_eq_true_2 by (done || left).
  - rewrite (bool_decide_eq_false_2 (id = c)) by done. rewrite (bool_decide_ext (id ∈ c :: aids) (id ∈ aids)) by set_solver. lia.
Qed.

Lemma held_by_pop (c : PageID) aids id :
  c ∉ aids -> held_by (c :: aids) id - one (bool_decide (id ∈ aids)) = held_by [c] id.
Proof.
  intros Hc. rewrite <- held_by_push, <- (held_by_push c []) by (done || apply not_elem_of_nil). unfold held_by, one.
  rewrite (bool_decide_eq_false_2 (id ∈ [])) by apply not_elem_of_nil. lia.
Qed.

Lemma held_by_pinned aids id : id ∈ aids -> 0 < held_by aids id.
Proof. intros Hid. unfold held_by, one. by rewrite bool_decide_eq_true_2. Qed.

(** The fetch of the child, with every latch of the way kept. *)
Lemma descending_child x lf h bp cur i anc aids vs :
  descending x lf (S h) bp cur i anc aids vs ->
  exists p child vs' j bp1 q, frames bp !! i = Some p /\ Node.PageType (Data p) = PageTypeInternal /\
    findChildInInternalNode (Data p) x = child /\ FetchLatched (i :: anc) bp child = (Ok j, bp1) /\
    (j ∉ i :: anc) /\ frames bp1 !! j = Some q /\ unchanged bp bp1 (held_by (child :: cur :: aids)) /\
    descending x lf h bp1 child j (i :: anc) (cur :: aids) vs'.
Proof.
  intros [Hinv Hpath Hvis Hndv Hfr Hnd Hdis Hpins Hroom [?|Hcan]]; [done|].
  pose proof Hfr as Hi. apply Forall2_cons in Hi as [Hi _].
  destruct (frame_view bp cur i Hinv Hi) as (p & Hp & _ & Hview).
  inversion Hpath as [|h' id' lf' seps _ Ht Hseps Hpath' E1 E2 E3]; subst.
  inversion Hvis as [|h' id' seps' vs' _ Hseps' Hvis' E1 E2 E3]; subst. rewrite Hview in *.
  rewrite <- (findChild_spec _ _ x Hseps) in *. rewrite <- (findChild_spec _ _ x Hseps') in *.
  set (child := findChildInInternalNode (Data p) x) in *. destruct (path_root _ _ _ _ _ Hpath') as [Hok _].
  destruct (FetchPage_room ∅ bp child (list_to_set (cur :: aids)) Hinv Hok) as (j & bp1 & Hf).
  { intros id. rewrite Hpins. unfold held_by, one. case_bool_decide; [|lia]. intros _. by rewrite elem_of_list_to_set. }
  { rewrite size_list_to_set by done. cbn. lia. }
  destruct (fetch_unchanged bp child j bp1 Hinv Hok Hf) as ([Hinv1 Hv1 Hlen1 Hpins1] & Hj & q & Hq & _).
  apply NoDup_cons in Hndv as [Hcur Hndv].
  assert (child ∉ cur :: aids) as Hcn by (apply not_elem_of_cons; split; [intros E; apply Hcur; rewrite E; left|apply Hdis; left]).
  assert (forall id, pins bp1 id = held_by (child :: cur :: aids) id) as Hpins'
    by (intros id; by rewrite Hpins1, Hpins, held_by_push).
  pose proof (frames_of_fetch bp child j bp1 _ _ Hinv Hok Hf Hfr) as Hfr1. specialize (Hfr1 ltac:(intros id Hid; rewrite Hpins; by apply held_by_pinned)).
  exists p, child, vs', j, bp1, q. rewrite (FetchLatched_slack _ _ _ _ Hcan). split_and!; try done; [by eapply frames_of_notin|].
  split; try done.
  - by apply (path_same_view bp).
  - eapply visits_ext; [|exact Hvis']. intros id Hid. by apply same_view_image.
  - by constructor.
  - by constructor.
  - intros v Hv. apply not_elem_of_cons. split; [|apply Hdis; by right]. intros ->. apply Hcur. by right.
  - rewrite Hlen1. cbn [length]. lia.
  - right. cbn [length]. replace (S (length aids) + h)%nat with (length aids + S h)%nat by lia.
    by apply (FetchPage_slack ∅ _ _ _ _ _ Hinv Hok Hf Hcan).
Qed.

(** Letting go of the pages above. *)
Lemma descending_release x lf h bp cur i anc aids vs :
  descending x lf h bp cur i anc aids vs ->
  unchanged bp (releaseAncestors bp anc) (held_by [cur]) /\
  descending x lf h (releaseAncestors bp anc) cur i [] [] vs.
Proof.
  intros [Hinv Hpath Hvis Hndv Hfr Hnd Hdis Hpins Hroom Hcan]. apply Forall2_cons in Hfr as [Hi Hanc].
  apply NoDup_cons in Hnd as [Hcn Hnd].
  destruct (releaseAncestors_spec bp anc aids Hinv Hanc Hnd) as ([Hinv2 Hv2 Hlen2 Hpins2] & Et & Hn2).
  { intros id Hid. rewrite Hpins. apply held_by_pinned. by right. }
  assert (forall id, pins (releaseAncestors bp anc) id = held_by [cur] id) as Hpins'
    by (intros id; by rewrite Hpins2, Hpins, held_by_pop).
  split; [by split|]. split; try done.
  - by apply (path_same_view bp).
  - eapply visits_ext; [|exact Hvis]. intros id Hid. by apply same_view_image.
  - constructor; [by rewrite Et|constructor].
  - apply NoDup_singleton.
  - intros v _. apply not_elem_of_nil.
  - rewrite Hlen2. cbn [length]. lia.
  - destruct Hcan as [->|Hcan]; [by left|right]. pose proof (Forall2_length _ _ _ Hanc). revert Hcan. unfold slack, zlen. rewrite Hlen2.
    cbn [length]. lia.
Qed.

(** The descent ends at the leaf; it holds that leaf and some of the pages
    above it, each once. *)
Lemma descend_locked_run fuel h bp cur i x lf anc aids vs req :
  descending x lf h bp cur i anc aids vs -> (h < fuel)%nat ->
  exists j anc' aids' bp', descend_locked fuel bp i (i :: anc) x req = (Ok (j, j :: anc'), bp') /\
    unchanged bp bp' (held_by (lf :: aids')) /\ frames_of bp' (j :: anc') (lf :: aids') /\
    NoDup (lf :: aids') /\ (length aids' <= length aids + h)%nat.
Proof.
  revert h bp cur i anc aids vs. induction fuel as [|fuel IH]; intros h bp cur i anc aids vs Hd Hh; [lia|].
  cbn [descend_locked]. destruct h as [|h].
  { destruct Hd as [Hinv Hpath _ _ Hfr Hnd _ Hpins _ _]. inversion Hpath as [id Hpg Ht E1 E2 E3|]; subst.
    pose proof Hfr as Hi. apply Forall2_cons in Hi as [Hi _]. destruct (frame_view bp lf i Hinv Hi) as (p & -> & _ & Hview).
    rewrite Hview in Ht. rewrite Ht. change (PageTypeLeaf =? PageTypeInternal) with false.
    exists i, anc, aids, bp. split; [done|]. split; [by split|]. split; [done|]. split; [done|lia]. }
  destruct (descending_child _ _ _ _ _ _ _ _ _ Hd) as (p & child & vs' & j & bp1 & q & -> & -> & -> & -> & Hj & -> & U1 & Hd1).
  rewrite Z.eqb_refl, bool_decide_eq_false_2 by done. destruct (IsSafeForInsert (Data q) req).
  - destruct (descending_release _ _ _ _ _ _ _ _ _ Hd1) as [U2 Hd2].
    destruct (IH h _ child j [] [] vs' Hd2 ltac:(lia)) as (k & anc' & aids' & bp' & E & U & Hfr' & Hnd' & Hl).
    exists k, anc', aids', bp'. split; [done|]. split; [exact (unchanged_trans _ _ _ _ _ (unchanged_trans _ _ _ _ _ U1 U2) U)|].
    split; [done|]. split; [done|cbn [length] in Hl; lia].
  - destruct (IH h bp1 child j _ _ vs' Hd1 ltac:(lia)) as (k & anc' & aids' & bp' & E & U & Hfr' & Hnd' & Hl).
    exists k, anc', aids', bp'. split; [done|]. split; [exact (unchanged_trans _ _ _ _ _ U1 U)|].
    split; [done|]. split; [done|cbn [length] in Hl; lia].
Qed.
End Locked.
