(* ===== verification/BTreeWalk.v ===== *)
(** The leaf cursor, the merge join and the prefix scan of the B-tree: on a tree
    whose leaves are not empty a cursor yields every cell in key order, and the
    join and the scan are those of the maps the trees stand for. *)

From Stdlib Require Import Strings.Byte.
From stdpp Require Import sorting.
From S2P Require Import Common.
From S2P Require Import Prelude.
From S2P Require Import VFS.
From S2P Require Import LRU.
From S2P Require Import Page.
From S2P Require Import Telemetry.
From S2P Require Import BufferPool.
From S2P Require Import PoolInv.
From S2P Require Import PoolOps.
From S2P Require Import PoolPins.
From S2P Require Import PoolLatch.
From S2P Require Import BTreePage.
From S2P Require Import BTreeNode.
From S2P Require Import BTree.
From S2P Require Import BTreeSpec.

(** ** The leaves a cursor walks *)

(** Linked leaves none of which is empty. *)
Definition linked (pg : PageID -> mem) (ls : leaves) : Prop :=
  Forall (fun l => tree_page l.1 /\ leaf_holds (pg l.1) l.2 /\ l.2 <> []) ls /\ chain pg ls.

Lemma linked_ext pg pg' ls :
  (forall id, tree_page id -> image_eq 0 (pg' id) (pg id)) -> linked pg ls -> linked pg' ls.
Proof.
  intros E [Hf Hc]. split.
  - eapply Forall_impl; [exact Hf|]. intros l (Hp & Hh & Hn). split; [done|]. split; [|done].
    apply (holds_image _ (pg l.1)); [by apply E|done].
  - apply (chain_ext pg _ ls); [done| |done]. intros id (l & -> & Hl)%list_elem_of_fmap.
    rewrite Forall_forall in Hf. destruct (Hf l Hl) as [Hp _]. by apply image_header, E.
Qed.

Lemma linked_tail pg l ls : linked pg (l :: ls) -> linked pg ls.
Proof.
  intros [Hf Hc]. apply Forall_cons in Hf as [_ Hf]. split; [done|]. destruct l, ls as [|[]]; [done|]. apply Hc.
Qed.

Lemma tree_page_nonzero id : tree_page id -> id <> 0.
Proof. intros [_ Hb] ->. done. Qed.

(** The next leaf of the first one. *)
Lemma linked_next pg id cs ls :
  linked pg ((id, cs) :: ls) -> Node.NextLeafID (pg id) = match ls with [] => 0 | (id', _) :: _ => id' end.
Proof. intros [_ Hc]. destruct ls as [|[]]; [done|]. apply Hc. Qed.

(** One cell of a leaf. *)
Lemma cell_read d don c todo :
  leaf_holds d (don ++ c :: todo) ->
  let o := BTreeHeaderSize + zlen (encs leaf_format don) in
  size leaf_format d o = zlen (enc leaf_format c) /\ get leaf_format d o = c /\
  o + zlen (enc leaf_format c) <= PageSize /\ 4 <= zlen (enc leaf_format c) /\
  o + zlen (enc leaf_format c) = BTreeHeaderSize + zlen (encs leaf_format (don ++ [c])).
Proof.
  intros Hh o. destruct (holds_split leaf_format _ _ _ Hh) as (H1 & H2 & _ & _ & Hb). fold o in Hb, H1, H2.
  assert (encs leaf_format (c :: todo) = enc leaf_format c ++ encs leaf_format todo) as Ec by done.
  rewrite Ec, zlen_app in *. pose proof (zlen_nonneg (encs leaf_format todo)). pose proof (enc_hdr (F := leaf_format) c).
  rewrite (slice_app d o (o + zlen (enc leaf_format c))) in Hb by lia.
  apply app_inj_1 in Hb as [Hb _]; [|len].
  destruct (enc_read (F := leaf_format) d o c) as [E1 E2]; [|done|].
  { pose proof (nh_ok _ _ _ Hh) as Hok. apply Forall_app in Hok as [_ Hok]. by apply Forall_cons in Hok as [? _]. }
  split; [done|]. split; [done|]. split; [lia|]. split; [lia|].
  unfold o, encs. rewrite fmap_app, concat_app, zlen_app. cbn. rewrite app_nil_r. lia.
Qed.

(** ** The leftmost leaf *)

(** What [NewBTreeCursor] reads as the first child. *)
Definition first_child (d : mem) : PageID := Uint64 d (BTreeHeaderSize + 2).

Fixpoint leftmost (pg : PageID -> mem) (h : nat) (id : PageID) : PageID :=
  match h with O => id | S h => leftmost pg h (first_child (pg id)) end.

(** No node on the left edge of the tree is without separators: the cursor takes
    such a node for a corrupt one. *)
Fixpoint left_edge_ok (pg : PageID -> mem) (h : nat) (id : PageID) : Prop :=
  match h with O => True | S h => Node.NumCells (pg id) <> 0 /\ left_edge_ok pg h (first_child (pg id)) end.

Lemma first_child_spec d c k seps : internal_holds d ((c, k) :: seps) -> first_child d = c.
Proof.
  intros Hh. destruct (holds_split internal_format d [] ((c, k) :: seps) Hh) as (_ & _ & _ & _ & Hb).
  change (zlen (encs internal_format [])) with 0 in Hb. rewrite Z.add_0_r in Hb.
  assert (encs internal_format ((c, k) :: seps) = enc internal_format (c, k) ++ encs internal_format seps) as Ec by done.
  rewrite Ec, zlen_app in Hb. pose proof (zlen_nonneg (encs internal_format seps)).
  pose proof (zlen_nonneg (enc internal_format (c, k))).
  rewrite (slice_app d BTreeHeaderSize (BTreeHeaderSize + zlen (enc internal_format (c, k)))) in Hb by lia.
  apply app_inj_1 in Hb as [Hb _]; [|len].
  destruct (enc_read (F := internal_format) d BTreeHeaderSize (c, k)) as [_ E]; [|done|].
  { pose proof (nh_ok _ _ _ Hh) as Hok. by apply Forall_cons in Hok as [? _]. }
  unfold first_child. cbn in E. by injection E.
Qed.

Lemma left_edge_seps d seps :
  internal_holds d seps -> Node.NumCells d <> 0 -> exists c k seps', seps = (c, k) :: seps' /\ first_child d = c.
Proof.
  intros Hh Hn. rewrite (nh_count _ _ _ Hh) in Hn. destruct seps as [|[c k] seps]; [done|].
  exists c, k, seps. split; [done|]. by eapply first_child_spec.
Qed.

Lemma subtree_leftmost pg h id lo hi ls ids :
  subtree pg h id lo hi ls ids -> left_edge_ok pg h id -> exists cs ls', ls = (leftmost pg h id, cs) :: ls'.
Proof.
  revert id lo hi ls ids. induction h as [|h IH]; intros id lo hi ls ids; cbn [subtree left_edge_ok leftmost].
  - intros (cs & _ & -> & _) _. by exists cs, [].
  - intros (seps & ids' & _ & _ & Hh & _ & _ & Hc & _) [Hn He].
    destruct (left_edge_seps _ _ Hh Hn) as (c & k & seps' & -> & <-). cbn [children] in Hc.
    destruct Hc as (ls1 & ls2 & ids1 & ids2 & H1 & _ & -> & _).
    destruct (IH _ _ _ _ _ H1 He) as (cs & ls' & ->). by eexists _, _.
Qed.

(** The pages of the left edge. *)
Lemma subtree_left pg h id lo hi ls ids :
  subtree pg (S h) id lo hi ls ids -> left_edge_ok pg (S h) id ->
  Node.PageType (pg id) = PageTypeInternal /\ tree_page id /\ Node.NumCells (pg id) <> 0 /\
  left_edge_ok pg h (first_child (pg id)) /\
  exists hi' ls' ids', subtree pg h (first_child (pg id)) lo hi' ls' ids'.
Proof.
  intros (seps & ids' & Hpg & Ht & Hh & _ & _ & Hc & _) [Hn He].
  destruct (left_edge_seps _ _ Hh Hn) as (c & k & seps' & -> & E). cbn [children] in Hc.
  destruct Hc as (ls1 & ls2 & ids1 & ids2 & H1 & _). rewrite E in *. eauto 10.
Qed.

Lemma subtree_root pg h id lo hi ls ids : subtree pg h id lo hi ls ids -> tree_page id.
Proof. destruct h; cbn; [intros (cs & [] & _); done | by intros (? & ? & ? & _)]. Qed.

Lemma left_edge_ext pg pg' h id lo hi ls ids :
  (forall id, tree_page id -> image_eq 0 (pg' id) (pg id)) -> subtree pg h id lo hi ls ids -> left_edge_ok pg h id ->
  left_edge_ok pg' h id /\ leftmost pg' h id = leftmost pg h id.
Proof.
  intros E. revert id lo hi ls ids. induction h as [|h IH]; intros id lo hi ls ids Hsub He; [done|].
  destruct (subtree_left _ _ _ _ _ _ _ Hsub He) as (_ & Hpg & Hn & He' & hi' & ls' & ids' & Hsub').
  destruct (IH _ _ _ _ _ Hsub' He') as [H1 H2]. cbn [left_edge_ok leftmost].
  assert (first_child (pg' id) = first_child (pg id)) as ->.
  { unfold first_child. apply Uint64_ext. intros k Hk. apply (E id Hpg). unfold BTreeHeaderSize, PageSize in *. lia. }
  assert (Node.NumCells (pg' id) = Node.NumCells (pg id)) as ->; [|done].
  unfold Node.NumCells. apply Uint16_ext. intros k Hk. apply (E id Hpg). unfold PageSize. lia.
Qed.

(** A tree a cursor can walk: its leaves are not empty, or it is one leaf. *)
Definition walkable (ls : leaves) : Prop := Forall (fun l => l.2 <> []) ls \/ length ls = 1%nat.

Section Walk.
Context {D : Type} `{DS : BlockDeviceSpec D} `{RD : !ReliableDevice D} `{MR : MapRange}.
Implicit Types bp : BufferPool D LRUEvictionPolicy.
Implicit Types c : BTreeCursor.

(** The page a cursor holds. *)
Definition on (cur : option PageID) (id : PageID) : Z := one (bool_decide (cur = Some id)).

(** Where a cursor stands: the page it holds and the cells it has yet to yield.
    On an empty tree it stands at the end but still holds the leaf. *)
Inductive cursor_at bp c : option PageID -> list (bytes * bytes) -> Prop :=
| at_end : isEOF c = true -> currNode c = None -> cursor_at bp c None []
| at_empty lf i : isEOF c = true -> currNode c = Some i -> latched c = true ->
    pageTable bp !! lf = Some i -> 0 < pins bp lf -> cursor_at bp c (Some lf) []
| at_cell lf i don kv todo ls : isEOF c = false -> currNode c = Some i -> latched c = true ->
    pageTable bp !! lf = Some i -> 0 < pins bp lf ->
    cellIdx c = zlen don -> offset c = BTreeHeaderSize + zlen (encs leaf_format don) ->
    linked (view bp) ((lf, don ++ kv :: todo) :: ls) ->
    cursor_at bp c (Some lf) (kv :: todo ++ cells_of ls).

(** Other clients of the pool keep a cursor in place as long as it keeps its pin. *)
Lemma cursor_at_frame bp bp' f c cur rest :
  cursor_at bp c cur rest -> unchanged bp bp' f ->
  (forall id i, cur = Some id -> pageTable bp !! id = Some i -> pageTable bp' !! id = Some i /\ 0 < f id) ->
  cursor_at bp' c cur rest.
Proof.
  intros Hc [U1 U2 U3 U4] Hcur. destruct Hc as [|lf i ? ? ? Hi|lf i don kv todo ls ? ? ? Hi ? ? ? Hl]; [by constructor|..];
    destruct (Hcur lf i eq_refl Hi) as [Hi' Hf].
  - apply (at_empty _ _ lf i); try done. by rewrite U4.
  - apply (at_cell _ _ lf i don kv todo ls); try done; [by rewrite U4|].
    eapply linked_ext; [|exact Hl]. intros id Hid. by apply same_view_image.
Qed.

(** ** A step of the cursor *)

Lemma on_some id id' : on (Some id) id' = one (bool_decide (id' = id)).
Proof. unfold on. f_equal. apply bool_decide_ext. split; congruence. Qed.

Lemma on_none id : on None id = 0.
Proof. done. Qed.

Lemma enter_leaf bp c lf i cs ls :
  isEOF c = false -> currNode c = Some i -> latched c = true -> pageTable bp !! lf = Some i -> 0 < pins bp lf ->
  cellIdx c = 0 -> offset c = BTreeHeaderSize -> linked (view bp) ((lf, cs) :: ls) ->
  cursor_at bp c (Some lf) (cells_of ((lf, cs) :: ls)).
Proof.
  intros He Hc Hl Hi Hp Hx Ho Hlk. pose proof Hlk as [[(_ & _ & Hne) _]%Forall_cons_1 _]. cbn in Hne.
  destruct cs as [|kv todo]; [done|]. change (cells_of ((lf, kv :: todo) :: ls)) with (kv :: todo ++ cells_of ls).
  by apply (at_cell bp c lf i [] kv todo ls); try done; rewrite ?Hx, ?Ho.
Qed.

(** Past the last cell of a leaf. *)
Lemma advance_run latches bp c lf i p ls (held : gset PageID) :
  pool_inv ∅ bp -> isEOF c = false -> latched c = true -> pageTable bp !! lf = Some i -> frames bp !! i = Some p ->
  0 < pins bp lf -> Node.NextLeafID (view bp lf) = match ls with [] => 0 | (id', _) :: _ => id' end ->
  linked (view bp) ls ->
  (forall id, 0 < pins bp id - on (Some lf) id -> id ∈ held) -> (base.size held < length (frames bp))%nat -> may_fetch latches bp ->
  exists c' cur' bp', advance_leaf latches bp c p = (Ok tt, c', bp') /\ cursor_at bp' c' cur' (cells_of ls) /\
    unchanged bp bp' (fun id => pins bp id - on (Some lf) id + on cur' id) /\
    (forall id j, pageTable bp !! id = Some j -> 0 < pins bp id - on (Some lf) id -> pageTable bp' !! id = Some j) /\
    dirty_count bp' <= dirty_count bp.
Proof.
  intros Hinv He Hl Hi Hp Hpos Hnext Hls Hheld Hroom Hmay. unfold advance_leaf. rewrite Hl.
  destruct (frame_view bp lf i Hinv Hi) as (q & Hq & Hid & Hv). simplify_eq.
  destruct (unpin_unchanged bp (ID p) false Hinv Hpos) as [U1 Et]. pose proof U1 as [Hinv1 Hv1 Hlen1 Hpins1].
  pose proof (UnpinPage_count ∅ ∅ bp (ID p) false Hinv Hinv1) as Hn1. cbn in Hn1.
  set (bp1 := UnpinPage bp (ID p) false) in *. rewrite <- Hv, Hnext.
  destruct ls as [|[id' cs'] ls].
  - eexists _, None, bp1. split; [reflexivity|]. split; [by constructor|]. split; [|split; [by rewrite Et|lia]].
    eapply unchanged_pins; [exact U1|]. intros id. cbn. rewrite on_some, on_none. lia.
  - pose proof Hls as [[[Hpg _] _]%Forall_cons_1 _]. cbn in Hpg. pose proof Hpg as [Hok _].
    rewrite (proj2 (Z.eqb_neq _ _)) by by apply tree_page_nonzero.
    destruct (FetchPage_room ∅ bp1 id' held Hinv1 Hok) as (j & bp2 & Hf).
    { intros id. rewrite Hpins1, <- on_some. apply Hheld. }
    { lia. }
    rewrite FetchLatched_may, Hf by (destruct Hmay; [by left|right]; eapply slack_fewer; [|done|done]; lia).
    pose proof (FetchPage_count ∅ bp1 id' j bp2 Hinv1 Hok Hf) as Hn2.
    destruct (fetch_unchanged bp1 id' j bp2 Hinv1 Hok Hf) as (U2 & Hj & _).
    pose proof U2 as [Hinv2 Hv2 _ Hpins2]. pose proof (pins_nonneg ∅ bp1 id' Hinv1).
    eexists _, (Some id'), bp2. split; [reflexivity|]. split.
    + apply (enter_leaf _ _ _ j); try done.
      * rewrite Hpins2. unfold one. rewrite bool_decide_eq_true_2 by done. lia.
      * eapply linked_ext; [|exact Hls]. intros id Hid'. transitivity (view bp1 id); by apply same_view_image.
    + split; [eapply unchanged_pins; [exact (unchanged_trans _ _ _ _ _ U1 U2)|]|split; [|lia]].
      * intros id. cbn. rewrite Hpins1, !on_some. lia.
      * intros id k Hk Hpk. apply (FetchPage_keeps_frame ∅ bp1 id' j); try done; [by rewrite Et|].
        rewrite Hpins1, <- on_some. done.
Qed.

(** [Next] yields the next cell. *)
Lemma Next_run latches bp c cur kv rest (held : gset PageID) :
  pool_inv ∅ bp -> cursor_at bp c cur (kv :: rest) ->
  (forall id, 0 < pins bp id - on cur id -> id ∈ held) -> (base.size held < length (frames bp))%nat -> may_fetch latches bp ->
  exists c' cur' bp', Next latches bp c = (Ok kv, c', bp') /\ cursor_at bp' c' cur' rest /\
    unchanged bp bp' (fun id => pins bp id - on cur id + on cur' id) /\
    (forall id j, pageTable bp !! id = Some j -> 0 < pins bp id - on cur id -> pageTable bp' !! id = Some j) /\
    dirty_count bp' <= dirty_count bp.
Proof.
  intros Hinv Hc Hheld Hroom Hmay.
  inversion Hc as [| |lf i don kv' todo ls He Hn Hl Hi Hpos Hx Ho Hlk]; subst; clear Hc.
  destruct (frame_view bp lf i Hinv Hi) as (p & Hp & Hid & Hv). pose proof Hlk as [[(_ & Hh & _) _]%Forall_cons_1 _].
  cbn [fst snd] in Hh. rewrite Hv in Hh. destruct (cell_read _ _ _ _ Hh) as (R1 & R2 & R3 & R4 & R5).
  unfold Next. rewrite He, Ho, Hn. cbn [mbind option_bind]. rewrite Hp, R1, R2, Hx.
  rewrite !(proj2 (Z.ltb_ge _ _)) by lia. rewrite (nh_count _ _ _ Hh). cbn [cellIdx].
  pose proof (zlen_encs leaf_format (don ++ kv :: todo)). pose proof (nh_room _ _ _ Hh).
  assert (zlen (don ++ kv :: todo) = zlen don + 1 + zlen todo) as Elen by (rewrite zlen_app; unfold zlen; cbn; lia).
  pose proof (zlen_nonneg don). pose proof (zlen_nonneg todo). unfold BTreeHeaderSize, PageSize in *.
  rewrite u16_small by lia. rewrite Elen. destruct todo as [|kv2 todo].
  - rewrite (proj2 (Z.leb_le _ _)) by (unfold zlen in *; cbn in *; lia).
    set (c1 := mkCursor _ _ _ _ _). destruct (advance_run latches bp c1 lf i p ls held) as (c' & cur' & bp' & E & R); try done.
    { by eapply linked_next. } { by eapply linked_tail. }
    rewrite E. by exists c', cur', bp'.
  - rewrite (proj2 (Z.leb_gt _ _)) by (unfold zlen in *; cbn in *; lia).
    eexists _, (Some lf), bp. split; [reflexivity|]. split; [|split; [|split; [done|lia]]].
    + apply (at_cell bp _ lf i (don ++ [kv]) kv2 todo ls); try done.
      * cbn. rewrite zlen_app. done.
      * by rewrite <- app_assoc.
    + split; [done..|]. intros id. lia.
Qed.

Lemma Next_end latches bp c cur : cursor_at bp c cur [] -> Next latches bp c = (Err EOF, c, bp).
Proof. intros Hc. unfold Next. by inversion Hc as [-> | ? ? -> |]. Qed.

(** The descent of [NewBTreeCursor]. *)
Lemma cursor_descent latches fuel h bp id lo hi ls ids (held : gset PageID) :
  pool_inv ∅ bp -> subtree (view bp) h id lo hi ls ids -> left_edge_ok (view bp) h id ->
  (forall id, 0 < pins bp id -> id ∈ held) -> (base.size held < length (frames bp))%nat -> (h < fuel)%nat -> may_fetch latches bp ->
  exists i p bp', NewBTreeCursor latches fuel bp id =
      (Ok (mkCursor (Some i) true 0 BTreeHeaderSize (Node.NumCells (Data p) =? 0)), bp') /\
    pageTable bp' !! leftmost (view bp) h id = Some i /\ frames bp' !! i = Some p /\
    unchanged bp bp' (fun id' => pins bp id' + on (Some (leftmost (view bp) h id)) id') /\
    (forall id' j, pageTable bp !! id' = Some j -> 0 < pins bp id' -> pageTable bp' !! id' = Some j) /\
    dirty_count bp' <= dirty_count bp.
Proof.
  revert h bp id lo hi ls ids. induction fuel as [|fuel IH]; intros h bp id lo hi ls ids Hinv Hsub Hedge Hheld Hroom Hh Hmay; [lia|].
  cbn [NewBTreeCursor]. pose proof (subtree_root _ _ _ _ _ _ _ Hsub) as Hpg. pose proof Hpg as [Hok _].
  destruct (FetchPage_room ∅ bp id held Hinv Hok Hheld Hroom) as (i & bp1 & Hf).
  rewrite FetchLatched_may, Hf by done. pose proof (FetchPage_count ∅ bp id i bp1 Hinv Hok Hf) as Hn1.
  destruct (fetch_unchanged bp id i bp1 Hinv Hok Hf) as (U1 & Hi & _). pose proof U1 as [Hinv1 Hv1 Hlen1 Hpins1].
  destruct (frame_view bp1 id i Hinv1 Hi) as (p & Hp & Hid & Hv). rewrite Hp.
  assert (image_eq 0 (Data p) (view bp id)) as Himg by (rewrite <- Hv; by apply same_view_image).
  rewrite (PageType_header _ _ (image_header _ _ Himg)).
  destruct h as [|h].
  { destruct Hsub as (cs & [_ Ht _ _ _] & _). rewrite Ht, Z.eqb_refl. cbn [leftmost].
    exists i, p, bp1. split; [done|]. split; [done|]. split; [done|]. split.
    - eapply unchanged_pins; [exact U1|]. intros id'. cbn. by rewrite on_some.
    - split; [|done]. intros id' j Hj Hpos. by apply (FetchPage_keeps_frame ∅ bp id i). }
  destruct (subtree_left _ _ _ _ _ _ _ Hsub Hedge) as (Ht & _ & Hn & Hedge' & hi' & ls' & ids' & Hsub').
  rewrite Ht. change (PageTypeInternal =? PageTypeLeaf) with false. cbn iota.
  assert (Node.NumCells (Data p) = Node.NumCells (view bp id)) as En.
  { unfold Node.NumCells. apply Uint16_ext. intros k Hk. apply Himg. unfold PageSize. lia. }
  rewrite En, (proj2 (Z.eqb_neq _ _) Hn). change (PageSize <? BTreeHeaderSize + 10) with false. cbn [orb].
  assert (Uint64 (Data p) (BTreeHeaderSize + 2) = first_child (view bp id)) as Ec.
  { unfold first_child. apply Uint64_ext. intros k Hk. apply Himg. unfold BTreeHeaderSize, PageSize in *. lia. }
  rewrite Ec. assert (0 < pins bp1 id) as Hpos1.
  { rewrite Hpins1. pose proof (pins_nonneg ∅ bp id Hinv). unfold one. rewrite bool_decide_eq_true_2 by done. lia. }
  destruct (unpin_unchanged bp1 id false Hinv1 Hpos1) as [U2 Et]. pose proof U2 as [Hinv2 Hv2 Hlen2 Hpins2].
  pose proof (UnpinPage_count ∅ ∅ bp1 id false Hinv1 Hinv2) as Hn2. cbn in Hn2.
  pose proof (unchanged_trans _ _ _ _ _ U1 U2) as U. pose proof U as [_ Hvu _ _].
  assert (forall id', pins (UnpinPage bp1 id false) id' = pins bp id') as Hsame.
  { intros id'. rewrite Hpins2, Hpins1. lia. }
  assert (forall id', tree_page id' -> image_eq 0 (view (UnpinPage bp1 id false) id') (view bp id')) as Hext.
  { intros id' Hid'. by apply same_view_image. }
  destruct (left_edge_ext _ _ h _ _ _ _ _ Hext Hsub' Hedge') as [Hedge2 El].
  destruct (IH h (UnpinPage bp1 id false) (first_child (view bp id)) lo hi' ls' ids')
    as (i' & p' & bp' & E & Hi' & Hp' & U' & Hk & Hn3); try done.
  { eapply subtree_ext; [|exact Hsub']. intros id' Hid'. apply Hext. by eapply subtree_pages. }
  { intros id'. rewrite Hsame. apply Hheld. } { lia. } { lia. }
  { destruct Hmay; [by left|right]. eapply slack_fewer; [| |done]; [lia|congruence]. }
  rewrite El in *. exists i', p', bp'. split; [done|]. split; [done|]. split; [done|]. split.
  - eapply unchanged_pins; [exact (unchanged_trans _ _ _ _ _ U U')|]. intros id'. cbn. by rewrite Hsame.
  - split; [|lia]. intros id' j Hj Hpos. apply Hk; [|by rewrite Hsame]. rewrite Et. by apply (FetchPage_keeps_frame ∅ bp id i).
Qed.

Lemma walkable_linked pg h id lo hi ls ids :
  subtree pg h id lo hi ls ids -> chain pg ls -> walkable ls ->
  linked pg ls \/ exists lf, ls = [(lf, [])].
Proof.
  intros Hsub Hch Hw. pose proof (subtree_leaf_ok _ _ _ _ _ _ _ Hsub) as Hok.
  assert (Forall (fun l => l.2 <> []) ls -> linked pg ls) as Hgo.
  { intros Hne. split; [|done]. apply Forall_forall. intros l Hl. rewrite Forall_forall in Hok, Hne.
    destruct (Hok l Hl) as (lo' & hi' & [H1 H2 H3 _ _]). split; [done|]. split; [done|]. by apply Hne. }
  destruct Hw as [Hne|Hlen]; [left; by apply Hgo|].
  destruct ls as [|[lf cs] [|]]; try done. destruct cs as [|kv cs]; [right; by exists lf|left].
  apply Hgo. by constructor.
Qed.

(** A new cursor stands before the first cell of the tree. *)
Lemma NewBTreeCursor_run latches fuel h bp id lo hi ls ids (held : gset PageID) :
  pool_inv ∅ bp -> subtree (view bp) h id lo hi ls ids -> chain (view bp) ls -> left_edge_ok (view bp) h id ->
  walkable ls ->
  (forall id, 0 < pins bp id -> id ∈ held) -> (base.size held < length (frames bp))%nat -> (h < fuel)%nat -> may_fetch latches bp ->
  exists c cur bp', NewBTreeCursor latches fuel bp id = (Ok c, bp') /\ cursor_at bp' c cur (cells_of ls) /\
    unchanged bp bp' (fun id' => pins bp id' + on cur id') /\
    (forall id' j, pageTable bp !! id' = Some j -> 0 < pins bp id' -> pageTable bp' !! id' = Some j) /\
    dirty_count bp' <= dirty_count bp.
Proof.
  intros Hinv Hsub Hch Hedge Hw Hheld Hroom Hh Hmay.
  destruct (cursor_descent latches fuel h bp id lo hi ls ids held) as (i & p & bp' & E & Hi & Hp & U & Hk); try done.
  set (lf := leftmost (view bp) h id) in *. exists (mkCursor (Some i) true 0 BTreeHeaderSize (Node.NumCells (Data p) =? 0)), (Some lf), bp'.
  split; [done|]. split; [|done]. pose proof U as [Hinv' Hv' _ Hpins'].
  assert (0 < pins bp' lf) as Hpos.
  { rewrite Hpins', on_some. pose proof (pins_nonneg ∅ bp lf Hinv). unfold one. rewrite bool_decide_eq_true_2 by done. lia. }
  assert (forall id, tree_page id -> image_eq 0 (view bp' id) (view bp id)) as Hext by (intros; by apply same_view_image).
  destruct (subtree_leftmost _ _ _ _ _ _ _ Hsub Hedge) as (cs & ls' & Els). fold lf in Els.
  assert (leaf_holds (Data p) cs) as Hcs.
  { pose proof (subtree_leaf_ok _ _ _ _ _ _ _ Hsub) as Hok. rewrite Els in Hok.
    apply Forall_cons in Hok as [(lo' & hi' & [L1 _ L3 _ _]) _]. cbn in L1, L3.
    destruct (frame_view bp' lf i Hinv' Hi) as (q & Hq & _ & Hq'). simplify_eq. rewrite <- Hq'.
    apply (holds_image _ (view bp lf)); [by apply Hext|done]. }
  rewrite (nh_count _ _ _ Hcs). destruct (walkable_linked _ _ _ _ _ _ _ Hsub Hch Hw) as [Hl|(lf' & Els')].
  - rewrite Els in *. apply (enter_leaf bp' _ lf i); try done.
    + pose proof Hl as [[(_ & _ & Hne) _]%Forall_cons_1 _]. cbn in Hne. by destruct cs.
    + by eapply linked_ext.
  - rewrite Els in Els'. injection Els' as E1 -> ->. rewrite Els. by apply (at_empty bp' _ lf i).
Qed.

(** [Close] gives the cursor's page back. *)
Lemma Close_run bp c cur rest :
  pool_inv ∅ bp -> cursor_at bp c cur rest ->
  exists c' bp', Close bp c = (Ok tt, c', bp') /\ unchanged bp bp' (fun id => pins bp id - on cur id) /\
    pageTable bp' = pageTable bp /\ dirty_count bp' <= dirty_count bp.
Proof.
  intros Hinv Hc. unfold Close.
  assert (forall lf i, currNode c = Some i -> latched c = true -> pageTable bp !! lf = Some i -> 0 < pins bp lf ->
    cur = Some lf -> exists c' bp', Close bp c = (Ok tt, c', bp') /\ unchanged bp bp' (fun id => pins bp id - on cur id) /\
    pageTable bp' = pageTable bp /\ dirty_count bp' <= dirty_count bp) as Hgo.
  { intros lf i Hn Hl Hi Hpos ->. unfold Close. rewrite Hn, Hl. destruct (frame_view bp lf i Hinv Hi) as (p & Hp & Hid & _).
    unfold frame_id. rewrite Hp, Hid. destruct (unpin_unchanged bp lf false Hinv Hpos) as [U1 Et].
    pose proof (UnpinPage_count ∅ ∅ bp lf false Hinv (un_inv _ _ _ U1)) as Hn1. cbn in Hn1.
    eexists _, _. split; [reflexivity|]. split; [|split; [done|lia]].
    eapply unchanged_pins; [exact U1|]. intros id. cbn. by rewrite on_some. }
  destruct Hc as [He Hn|lf i|lf i]; [|by apply (Hgo lf i)..]. rewrite Hn. exists c, bp. split; [done|]. split; [|done].
  split; [done..|]. intros id. rewrite on_none. lia.
Qed.
End Walk.
