(* ===== verification/BTreeJoin.v ===== *)
(** The merge join and the prefix scan of the B-tree compute the join and the
    prefix of the maps the trees stand for. *)

From Stdlib Require Import Strings.Byte.
From stdpp Require Import sorting.
From S2P Require Import Common.
From S2P Require Import Prelude.
From S2P Require Import VFS.
From S2P Require Import LRU.
From S2P Require Import Page.
From S2P Require Import Telemetry.
From S2P Require Import BufferPool.
From S2P Require Import PoolInv.
From S2P Require Import PoolOps.
From S2P Require Import PoolPins.
From S2P Require Import PoolLatch.
From S2P Require Import BTreePage.
From S2P Require Import BTreeNode.
From S2P Require Import BTree.
From S2P Require Import BTreeSpec.
From S2P Require Import BTreeWalk.

(** ** The join of two maps *)

(** The cells of the left map whose key the right map has, in the order of the
    left list. *)
Definition join_ref (l r : list (bytes * bytes)) : list JoinResult :=
  omap (fun '(k, v) => mkJoin k v <$> leaf_map r !! k) l.

Lemma join_ref_nil l : join_ref l [] = [].
Proof.
  unfold join_ref, leaf_map. induction l as [|[k v] l IH]; [done|]. cbn in *. by rewrite lookup_empty.
Qed.

(** A key of the right map below all left keys does not matter. *)
Lemma join_ref_skip_right (l : list (bytes * bytes)) k w r :
  Forall (bytes_lt k) l.*1 -> join_ref l ((k, w) :: r) = join_ref l r.
Proof.
  intros Hl. unfold join_ref, leaf_map. induction l as [|[k' v'] l IH]; [done|]. cbn in Hl. apply Forall_cons in Hl as [Hk Hl].
  cbn in *. rewrite lookup_insert_ne by (intros ->; by apply (bytes_lt_irrefl k')). by rewrite IH.
Qed.

Lemma join_ref_skip_left k v l (r : list (bytes * bytes)) : Forall (bytes_lt k) r.*1 -> join_ref ((k, v) :: l) r = join_ref l r.
Proof.
  intros Hr. unfold join_ref. cbn. rewrite leaf_map_notin; [done|]. intros Hin. rewrite Forall_forall in Hr.
  by apply (bytes_lt_irrefl k), Hr.
Qed.

Lemma join_ref_match k v w (l r : list (bytes * bytes)) :
  Forall (bytes_lt k) l.*1 -> join_ref ((k, v) :: l) ((k, w) :: r) = mkJoin k v w :: join_ref l r.
Proof.
  intros Hl. rewrite <- (join_ref_skip_right l k w r) by done. unfold join_ref, leaf_map. cbn. by rewrite lookup_insert_eq.
Qed.

Lemma sorted_above (k v : bytes) (l : list (bytes * bytes)) k' :
  keys_sorted ((k, v) :: l).*1 -> bytes_lt k' k -> Forall (bytes_lt k') ((k, v) :: l).*1.
Proof.
  cbn. intros [Hk _]%StronglySorted_cons Hlt. constructor; [done|].
  eapply Forall_impl; [exact Hk|]. intros x Hx. by transitivity k.
Qed.

Section Join.
Context {D : Type} `{DS : BlockDeviceSpec D} `{RD : !ReliableDevice D} `{MR : MapRange}.
Implicit Types bp : BufferPool D LRUEvictionPolicy.

(** What the last [Next] of a cursor returned, and the cells from it on. *)
Definition pending (r : result (bytes * bytes)) (rest full : list (bytes * bytes)) : Prop :=
  match r with
  | Ok kv => full = kv :: rest
  | Err e => e = EOF /\ rest = [] /\ full = []
  | _ => False
  end.

(** Two cursors on one pool and nothing else held. *)
Record cursors bp0 bp (lc rc : BTreeCursor) (restl restr : list (bytes * bytes)) : Prop := {
  cu_left : exists curl curr, cursor_at bp lc curl restl /\ cursor_at bp rc curr restr /\
    unchanged bp0 bp (fun id => on curl id + on curr id);
  cu_room : (2 < length (frames bp))%nat;
  cu_slack : slack 0 bp
}.

Lemma cursors_sym bp0 bp lc rc l r : cursors bp0 bp lc rc l r -> cursors bp0 bp rc lc r l.
Proof.
  intros [(cl & cr & H1 & H2 & U) Hr Hs]. split; [|done|done]. exists cr, cl. split; [done|]. split; [done|].
  eapply unchanged_pins; [exact U|]. intros id. cbn. lia.
Qed.

Lemma on_nonneg cur id : 0 <= on cur id.
Proof. unfold on, one. case_match; lia. Qed.

Lemma on_pos cur id : 0 < on cur id -> cur = Some id.
Proof. unfold on, one. case_bool_decide; [done|lia]. Qed.

(** The left cursor moves, the right one stays. *)
Lemma cursors_next bp0 bp lc rc l r :
  cursors bp0 bp lc rc l r ->
  exists x lc' l' bp', Next (latch_of rc) bp lc = (x, lc', bp') /\ pending x l' l /\ cursors bp0 bp' lc' rc l' r.
Proof.
  intros Hcu. pose proof Hcu as [(cl & cr & H1 & H2 & U) Hr Hsl]. pose proof U as [Hinv Hv Hlen Hpins].
  destruct l as [|kv l].
  { exists (Err EOF), lc, [], bp. split; [by eapply Next_end|]. done. }
  destruct (Next_run (latch_of rc) bp lc cl kv l (match cr with Some id => {[id]} | None => ∅ end) Hinv H1)
    as (lc' & cl' & bp' & E & Hc' & U' & Hk & Hn).
  { intros id. rewrite Hpins. intros Hpos. assert (cr = Some id) as -> by (apply on_pos; lia). set_solver. }
  { destruct cr; rewrite ?size_singleton, ?size_empty; lia. }
  { by right. }
  exists (Ok kv), lc', l, bp'. split; [done|]. split; [done|].
  split; [|by rewrite (un_frames _ _ _ U')|by apply (slack_fewer 0 bp); [|apply U'|]].
  exists cl', cr. split; [done|]. split.
  - eapply cursor_at_frame; [exact H2|exact U'|]. intros id i -> Hi. pose proof (on_nonneg cl' id).
    assert (0 < pins bp id - on cl id).
    { rewrite Hpins, (on_some id id). unfold one. rewrite bool_decide_eq_true_2 by done. lia. }
    split; [by apply Hk|lia].
  - eapply unchanged_pins; [exact (unchanged_trans _ _ _ _ _ U U')|]. intros id. cbn. rewrite Hpins. lia.
Qed.

Lemma join_loop_run fuel bp0 bp lc rc x y l r restl restr acc :
  cursors bp0 bp lc rc restl restr -> pending x restl l -> pending y restr r ->
  keys_sorted l.*1 -> keys_sorted r.*1 -> (length l + length r < fuel)%nat ->
  exists lc' rc' bp' restl' restr', join_loop fuel bp lc rc x y acc = (Ok (acc ++ join_ref l r), lc', rc', bp') /\
    cursors bp0 bp' lc' rc' restl' restr'.
Proof.
  revert bp lc rc x y l r restl restr acc.
  induction fuel as [|fuel IH]; intros bp lc rc x y l r restl restr acc Hcu Hx Hy Hl Hr Hfuel; [lia|].
  cbn [join_loop]. destruct x as [[lk lv]|ex| |]; try done; [|destruct Hx as (-> & -> & ->)];
    (destruct y as [[rk rv]|ey| |]; try done; [|destruct Hy as (-> & -> & ->)]); cbn [pending] in *; subst;
    try (rewrite ?(decide_True (P := EOF = EOF)) by done; rewrite ?join_ref_nil, app_nil_r; eauto 10; fail).
  pose proof Hl as [Hl1 Hl2]%StronglySorted_cons. pose proof Hr as [Hr1 Hr2]%StronglySorted_cons.
  cbn [length] in Hfuel. destruct (bytes_compare lk rk) eqn:E.
  - apply bytes_compare_eq in E. subst rk.
    destruct (cursors_next _ _ _ _ _ _ Hcu) as (x' & lc1 & l1 & bp1 & -> & Hx' & Hcu1).
    destruct (cursors_next _ _ _ _ _ _ (cursors_sym _ _ _ _ _ _ Hcu1)) as (y' & rc1 & r1 & bp2 & -> & Hy' & Hcu2%cursors_sym).
    destruct (IH bp2 lc1 rc1 x' y' restl restr l1 r1 (acc ++ [mkJoin lk lv rv])) as (a & b & c & d & e & -> & Hend); try done; [lia|].
    rewrite <- app_assoc, join_ref_match by done. eauto 10.
  - destruct (cursors_next _ _ _ _ _ _ Hcu) as (x' & lc1 & l1 & bp1 & -> & Hx' & Hcu1).
    destruct (IH bp1 lc1 rc x' (Ok (rk, rv)) restl ((rk, rv) :: restr) l1 restr acc) as (a & b & c & d & e & -> & Hend);
      try done; [cbn; lia|].
    rewrite join_ref_skip_left by (by apply sorted_above). eauto 10.
  - apply bytes_compare_gt in E.
    destruct (cursors_next _ _ _ _ _ _ (cursors_sym _ _ _ _ _ _ Hcu)) as (y' & rc1 & r1 & bp1 & -> & Hy' & Hcu1%cursors_sym).
    destruct (IH bp1 lc rc1 (Ok (lk, lv)) y' ((lk, lv) :: restl) restr restl r1 acc) as (a & b & c & d & e & -> & Hend);
      try done; [cbn; lia|].
    rewrite join_ref_skip_right by (by apply sorted_above). eauto 10.
Qed.

(** A tree in the pool that a cursor can walk. *)
Record walk_tree bp (h : nat) (root : PageID) (ls : leaves) : Prop := {
  wt_tree : exists ids, subtree (view bp) h root None None ls ids;
  wt_chain : chain (view bp) ls;
  wt_edge : left_edge_ok (view bp) h root;
  wt_leaves : walkable ls
}.

Lemma walk_tree_ext bp bp' h root ls : same_view bp bp' -> walk_tree bp h root ls -> walk_tree bp' h root ls.
Proof.
  intros Hv [(ids & Hsub) Hch He Hw].
  assert (forall id, tree_page id -> image_eq 0 (view bp' id) (view bp id)) as Hext by (intros; by apply same_view_image).
  split; [exists ids| |by destruct (left_edge_ext _ (view bp') _ _ _ _ _ _ Hext Hsub He)|done].
  - eapply subtree_ext; [|exact Hsub]. intros id Hid. apply Hext. by eapply subtree_pages.
  - apply (chain_ext (view bp) _ ls); [done| |done]. intros id Hid. apply image_header, Hext.
    eapply subtree_pages; [exact Hsub|]. eapply sublist_subseteq; [by eapply subtree_leaves|done].
Qed.

Lemma walk_tree_sorted bp h root ls : walk_tree bp h root ls -> keys_sorted (cells_of ls).*1.
Proof. intros [(ids & Hsub) _ _ _]. by eapply subtree_sorted. Qed.

Lemma cursors_close {A} bp0 bp lc rc l r (x : result A) :
  cursors bp0 bp lc rc l r ->
  exists bp' cl, close_after x bp rc = (x, bp') /\ cursor_at bp' lc cl l /\ unchanged bp0 bp' (on cl).
Proof.
  intros [(cl & cr & H1 & H2 & U) _ _]. pose proof U as [Hinv _ _ Hpins].
  destruct (Close_run bp rc cr r Hinv H2) as (rc' & bp' & E & U' & Et & _).
  exists bp', cl. unfold close_after. rewrite E. split; [done|]. split.
  - eapply cursor_at_frame; [exact H1|exact U'|]. intros id i -> Hi. rewrite Et. split; [done|].
    rewrite Hpins, (on_some id id). unfold one. rewrite bool_decide_eq_true_2 by done. lia.
  - eapply unchanged_pins; [exact (unchanged_trans _ _ _ _ _ U U')|]. intros id. cbn. rewrite Hpins. lia.
Qed.

Lemma SortMergeJoin_run fuel bp hl hr rootl rootr lsl lsr :
  pool_inv ∅ bp -> (forall id, pins bp id = 0) -> (2 < length (frames bp))%nat -> slack 0 bp ->
  walk_tree bp hl rootl lsl -> walk_tree bp hr rootr lsr ->
  (hl < fuel)%nat -> (hr < fuel)%nat -> (length (cells_of lsl) + length (cells_of lsr) < fuel)%nat ->
  exists bp', SortMergeJoin fuel bp rootl rootr = (Ok (join_ref (cells_of lsl) (cells_of lsr)), bp') /\
    unchanged bp bp' (fun _ => 0).
Proof.
  intros Hinv Hidle Hroom Hsl Hl Hr Hfl Hfr Hf. pose proof (walk_tree_sorted _ _ _ _ Hl). pose proof (walk_tree_sorted _ _ _ _ Hr).
  unfold SortMergeJoin. pose proof Hl as [(idsl & Hsubl) Hchl Hel Hwl].
  destruct (NewBTreeCursor_run [] fuel hl bp rootl None None lsl idsl ∅) as (lc & cl & bp1 & -> & Hlc & U1 & _ & Hn1); try done.
  { intros id. rewrite Hidle. lia. } { rewrite size_empty. lia. } { by left. }
  pose proof U1 as [Hinv1 Hv1 Hlen1 Hpins1]. destruct (walk_tree_ext _ _ _ _ _ Hv1 Hr) as [(idsr & Hsubr) Hchr Her Hwr].
  destruct (NewBTreeCursor_run (latch_of lc) fuel hr bp1 rootr None None lsr idsr (match cl with Some id => {[id]} | None => ∅ end))
    as (rc & cr & bp2 & -> & Hrc & U2 & Hk & Hn2); try done.
  { intros id. rewrite Hpins1, Hidle. intros Hpos. assert (cl = Some id) as -> by (apply on_pos; lia). set_solver. }
  { destruct cl; rewrite ?size_singleton, ?size_empty; lia. }
  { right. by apply (slack_fewer 0 bp). }
  assert (cursors bp bp2 lc rc (cells_of lsl) (cells_of lsr)) as Hcu.
  { assert (length (frames bp2) = length (frames bp)) as Hlen2 by (rewrite (un_frames _ _ _ U2); done).
    split; [|lia|apply (slack_fewer 0 bp); [lia|done..]]. exists cl, cr. split; [|split; [done|]].
    - eapply cursor_at_frame; [exact Hlc|exact U2|]. intros id i -> Hi. pose proof (on_nonneg cr id).
      assert (0 < pins bp1 id).
      { rewrite Hpins1, Hidle, (on_some id id). unfold one. by rewrite bool_decide_eq_true_2. }
      split; [by apply Hk|lia].
    - eapply unchanged_pins; [exact (unchanged_trans _ _ _ _ _ U1 U2)|]. intros id. cbn. rewrite Hpins1, Hidle. lia. }
  destruct (cursors_next _ _ _ _ _ _ Hcu) as (x & lc1 & l1 & bp3 & -> & Hx & Hcu1).
  destruct (cursors_next _ _ _ _ _ _ (cursors_sym _ _ _ _ _ _ Hcu1)) as (y & rc1 & r1 & bp4 & -> & Hy & Hcu2%cursors_sym).
  destruct (join_loop_run fuel bp bp4 lc1 rc1 x y _ _ l1 r1 [] Hcu2 Hx Hy) as (lc' & rc' & bp5 & l' & r' & -> & Hcu3); try done.
  cbn [app]. destruct (cursors_close _ _ _ _ _ _ (Ok (join_ref (cells_of lsl) (cells_of lsr))) Hcu3)
    as (bp6 & cl' & -> & Hlc' & U6).
  destruct (Close_run bp6 lc' cl' l' (un_inv _ _ _ U6) Hlc') as (lc'' & bp7 & E & U7 & _).
  unfold close_after. rewrite E. exists bp7. split; [done|].
  eapply unchanged_pins; [exact (unchanged_trans _ _ _ _ _ U6 U7)|]. intros id. cbn. rewrite (un_pins _ _ _ U6). lia.
Qed.
End Join.

(** ** The prefix scan *)

Definition matching (p : bytes) (cs : list (bytes * bytes)) : list (bytes * bytes) :=
  filter (fun c => has_prefix c.1 p = true) cs.

Lemma matching_app p cs1 cs2 : matching p (cs1 ++ cs2) = matching p cs1 ++ matching p cs2.
Proof. apply filter_app. Qed.

(** A key with a prefix does not sort before it. *)
Lemma prefix_ge k p : has_prefix k p = true -> ~ bytes_lt k p.
Proof.
  intros (t & ->)%has_prefix_spec. unfold bytes_lt. induction p as [|x p IH]; cbn; [by destruct t|].
  by rewrite Z.compare_refl.
Qed.

Lemma matching_below p cs : Forall (fun k => bytes_lt k p) cs.*1 -> matching p cs = [].
Proof.
  unfold matching. induction cs as [|c cs IH]; [done|]. cbn [fmap list_fmap]. intros [Hc Hcs]%Forall_cons.
  rewrite filter_cons_False; [by apply IH|]. by intros Hp%prefix_ge.
Qed.

Lemma leaf_matches_spec d cs p acc : leaf_holds d cs -> leaf_matches d p acc = acc ++ matching p cs.
Proof.
  intros Hh. unfold leaf_matches. rewrite (scan_node_list leaf_format _ d cs) by done.
  generalize BTreeHeaderSize as o. clear Hh. revert acc.
  induction cs as [|[k v] cs IH]; intros acc o; [cbn; by rewrite app_nil_r|]. cbn [scan_list].
  unfold matching. destruct (has_prefix k p) eqn:E.
  - rewrite filter_cons_True by done. rewrite IH. by rewrite <- app_assoc.
  - rewrite filter_cons_False by (cbn; by rewrite E). apply IH.
Qed.

Section Scan.
Context {D : Type} `{DS : BlockDeviceSpec D} `{RD : !ReliableDevice D} `{MR : MapRange}.
Implicit Types bp : BufferPool D LRUEvictionPolicy.

(** Leaves in the pool, linked; they may be empty. *)
Definition leaf_chain (pg : PageID -> mem) (ls : leaves) : Prop :=
  Forall (fun l => tree_page l.1 /\ leaf_holds (pg l.1) l.2) ls /\ chain pg ls.

Lemma leaf_chain_ext pg pg' ls :
  (forall id, tree_page id -> image_eq 0 (pg' id) (pg id)) -> leaf_chain pg ls -> leaf_chain pg' ls.
Proof.
  intros E [Hf Hc]. split.
  - eapply Forall_impl; [exact Hf|]. intros l (Hp & Hh). split; [done|]. apply (holds_image _ (pg l.1)); [by apply E|done].
  - apply (chain_ext pg _ ls); [done| |done]. intros id (l & -> & Hl)%list_elem_of_fmap.
    rewrite Forall_forall in Hf. destruct (Hf l Hl) as [Hp _]. by apply image_header, E.
Qed.

Lemma scan_leaves_run fuel bp i lf cs ls p acc :
  pool_inv ∅ bp -> leaf_chain (view bp) ((lf, cs) :: ls) -> pageTable bp !! lf = Some i ->
  (forall id, pins bp id = one (bool_decide (id = lf))) -> (0 < length (frames bp))%nat -> (length ls < fuel)%nat ->
  exists bp', scan_leaves fuel bp i p acc = (Ok (acc ++ matching p (cells_of ((lf, cs) :: ls))), bp') /\
    unchanged bp bp' (fun _ => 0).
Proof.
  revert bp i lf cs ls acc. induction fuel as [|fuel IH]; intros bp i lf cs ls acc Hinv Hch Hi Hpins Hroom Hf; [lia|].
  cbn [scan_leaves]. destruct (frame_view bp lf i Hinv Hi) as (pg & Hp & Hid & Hv). rewrite Hp, Hid.
  pose proof Hch as [[[_ Hh] Hls]%Forall_cons Hc]. cbn [fst snd] in Hh. rewrite Hv in Hh.
  rewrite (leaf_matches_spec _ cs) by done.
  assert (0 < pins bp lf) as Hpos by (rewrite Hpins; unfold one; by rewrite bool_decide_eq_true_2).
  destruct (unpin_unchanged bp lf false Hinv Hpos) as [U1 Et]. pose proof U1 as [Hinv1 Hv1 Hlen1 Hpins1].
  assert (forall id, pins (UnpinPage bp lf false) id = 0) as Hidle by (intros id; rewrite Hpins1, Hpins; lia).
  change (cells_of ((lf, cs) :: ls)) with (cs ++ cells_of ls). rewrite matching_app, app_assoc. rewrite <- Hv.
  destruct ls as [|[lf2 cs2] ls].
  { cbn [chain] in Hc. rewrite Hc. cbn. rewrite app_nil_r. eexists. split; [reflexivity|].
    eapply unchanged_pins; [exact U1|]. intros id. cbn. rewrite Hpins. lia. }
  destruct Hc as [-> Hc]. pose proof Hls as [[Hpg _] _]%Forall_cons. cbn in Hpg. pose proof Hpg as [Hok _].
  rewrite (proj2 (Z.eqb_neq _ _)) by by apply tree_page_nonzero.
  destruct (FetchPage_room ∅ (UnpinPage bp lf false) lf2 ∅ Hinv1 Hok) as (j & bp2 & Hfe);
    [intros id; rewrite Hidle; lia | rewrite size_empty; lia|]. rewrite Hfe.
  destruct (fetch_unchanged _ lf2 j bp2 Hinv1 Hok Hfe) as (U2 & Hj & _).
  pose proof (unchanged_trans _ _ _ _ _ U1 U2) as U. pose proof U as [Hinv2 Hv2 Hlen2 Hpins2].
  destruct (IH bp2 j lf2 cs2 ls (acc ++ matching p cs)) as (bp3 & -> & U3); try done.
  - eapply leaf_chain_ext; [|split; [exact Hls|exact Hc]]. intros id Hid'. by apply same_view_image.
  - intros id. rewrite Hpins2, Hidle. lia.
  - lia.
  - cbn in Hf. lia.
  - eexists. split; [reflexivity|]. exact (unchanged_trans _ _ _ _ _ U U3).
Qed.

Lemma chain_suffix pg ls0 ls : chain pg (ls0 ++ ls) -> chain pg ls.
Proof.
  induction ls0 as [|[id cs] ls0 IH]; [done|]. intros Hc. apply IH. cbn [app chain] in Hc.
  destruct (ls0 ++ ls) as [|[]]; [done|]. apply Hc.
Qed.

Lemma Scan_run fuel h bp root ls ids p :
  pool_inv ∅ bp -> (forall id, pins bp id = 0) -> (2 <= length (frames bp))%nat ->
  subtree (view bp) h root None None ls ids -> NoDup ids -> chain (view bp) ls ->
  (h < fuel)%nat -> can_descend h bp -> (length ls <= fuel)%nat ->
  exists bp', Scan fuel bp root p = (Ok (matching p (cells_of ls)), bp') /\ unchanged bp bp' (fun _ => 0).
Proof.
  intros Hinv Hidle Hroom Hsub Hnd Hch Hh Hcan Hf.
  destruct (subtree_find _ _ _ _ _ _ _ p Hsub ltac:(done) Hnd) as (lf & cs & lo & hi & ls0 & ls2 & Hfd).
  pose proof (fd_path _ _ _ _ _ _ _ _ _ _ _ _ _ _ Hfd) as Hpath.
  destruct (FindLeaf_total fuel h bp root p lf ∅ Hinv Hpath) as (i & bp1 & E);
    [intros id; rewrite Hidle; lia | rewrite size_empty; lia | done | done|].
  pose proof (FindLeaf_spec fuel h _ _ p lf _ _ Hinv Hpath Hh E) as (Hi & U & _). pose proof U as [Hinv1 Hv1 Hlen1 Hpins1].
  unfold Scan. rewrite E. pose proof (fd_leaves _ _ _ _ _ _ _ _ _ _ _ _ _ _ Hfd) as Els.
  destruct (scan_leaves_run fuel bp1 i lf cs ls2 p []) as (bp2 & -> & U2); try done.
  - apply (leaf_chain_ext (view bp)); [intros; by apply same_view_image|].
    rewrite Els in Hch. split; [|by eapply chain_suffix]. apply subtree_leaf_ok in Hsub. rewrite Els in Hsub.
    apply Forall_app in Hsub as [_ Hsub]. eapply Forall_impl; [exact Hsub|]. by intros l (lo' & hi' & []).
  - intros id. rewrite Hpins1, Hidle. lia.
  - lia.
  - rewrite Els, length_app in Hf. cbn in Hf. lia.
  - exists bp2. split; [|exact (unchanged_trans _ _ _ _ _ U U2)]. do 2 f_equal. cbn [app].
    rewrite Els, cells_of_app, matching_app, (matching_below p (cells_of ls0)); [done|]. apply Hfd.
Qed.
End Scan.
