(* ===== verification/KVRecover.v ===== *)
(** Salvaging key-value entries from raw page bytes (kv_store.go): slotted
    records and JSON objects that follow a [data:] key, wherever they lie.  A
    loop over the offsets of [raw] is a recursion over its suffixes. *)

From Stdlib Require Import Strings.Byte.
From S2P Require Import Common.
From S2P Require Import Prelude.
From S2P Require Import Page.
From S2P Require Import Slotted.

(** ** Key classes *)

Definition in_byte_range (b lo hi : byte) : bool := (b2z lo <=? b2z b) && (b2z b <=? b2z hi).

Definition isKVKeyChar (b : byte) : bool :=
  in_byte_range b Byte.x61 Byte.x7a || in_byte_range b Byte.x41 Byte.x5a ||
  in_byte_range b Byte.x30 Byte.x39 ||
  bool_decide (b ∈ [Byte.x3a; Byte.x5f; Byte.x2d; Byte.x2e; Byte.x2b]).

Definition isRecoverableDataKey (key : bytes) : bool :=
  existsb (has_prefix key)
    [str "data:user:"; str "data:session:"; str "data:oidc_"; str "data:policy:"; str "data:mesh_";
     str "data:client:"; str "mail:box:"; str "mail:msg:"; str "mail:mbx:"].

(** Keys that are written twice and flushed (kv_replica.go). *)
Definition isDurableIdentityKey (key : bytes) : bool :=
  existsb (has_prefix key) [str "data:user:"; str "data:oidc_"; str "data:client:"] ||
  bytes_equal key (str "data:oidc_master_key").

(** ** JSON objects *)

(** The loop of [extractJSONObject]: the bytes read so far, in reverse. *)
Fixpoint json_scan (raw : bytes) (depth : Z) (inString escaped : bool) (seen : bytes) : option bytes :=
  match raw with
  | [] => None
  | b :: raw =>
      let seen := b :: seen in
      if inString then
        if escaped then json_scan raw depth true false seen
        else if bool_decide (b = Byte.x5c) then json_scan raw depth true true seen
        else if bool_decide (b = Byte.x22) then json_scan raw depth false false seen
        else json_scan raw depth true false seen
      else if bool_decide (b = Byte.x22) then json_scan raw depth true escaped seen
      else if bool_decide (b = Byte.x7b) then json_scan raw (depth + 1) false escaped seen
      else if bool_decide (b = Byte.x7d) then
        if depth - 1 =? 0 then Some (rev seen) else json_scan raw (depth - 1) false escaped seen
      else json_scan raw depth false escaped seen
  end.

(** The object and its length; [nil] and 0 when there is none. *)
Definition extractJSONObject (raw : bytes) : option bytes * Z :=
  match raw with
  | b :: _ =>
      if bool_decide (b = Byte.x7b)
      then match json_scan raw 0 false false [] with
           | Some obj => (Some obj, zlen obj)
           | None => (None, 0)
           end
      else (None, 0)
  | [] => (None, 0)
  end.

(** ** Entries *)

(** A longer value replaces a shorter one. *)
Definition recoverKVEntry (out : gmap bytes bytes) (key value : bytes) : gmap bytes bytes :=
  if bool_decide (key = []) || bool_decide (value = []) then out
  else if zlen (default [] (out !! key)) <? zlen value then <[key := value]> out else out.

(** What the loop body of [recoverSlottedKVFromRaw] sees at one offset. *)
Definition slotted_entry (now : Z) (raw : bytes) : option (bytes * bytes) :=
  let txnID := le_val (take 8 raw) in
  let expiresAt := i64 (le_val (take 8 (drop 8 raw))) in
  let keyLen := le_val (take 4 (drop 16 raw)) in
  let valLen := le_val (take 4 (drop 20 raw)) in
  if (txnID =? 0) || (keyLen =? 0) || (256 <? keyLen) || (valLen =? 0) || (16384 <? valLen) then None
  else if negb (expiresAt =? 0) && (expiresAt <=? now) then None
  else if zlen raw <? 24 + keyLen + valLen then None
  else
    let key := take (Z.to_nat keyLen) (drop 24 raw) in
    if isRecoverableDataKey key
    then Some (key, take (Z.to_nat valLen) (drop (24 + Z.to_nat keyLen) raw)) else None.

Definition add_entry (out : gmap bytes bytes) (e : option (bytes * bytes)) : gmap bytes bytes :=
  match e with Some (key, value) => recoverKVEntry out key value | None => out end.

Fixpoint recover_slotted_from (now : Z) (raw : bytes) (out : gmap bytes bytes) : gmap bytes bytes :=
  match raw with
  | [] => out
  | _ :: rest =>
      recover_slotted_from now rest
        (if 24 <? zlen raw then add_entry out (slotted_entry now raw) else out)
  end.

Definition recoverSlottedKVFromRaw (now : Z) (raw : bytes) : gmap bytes bytes :=
  recover_slotted_from now raw ∅.

Fixpoint take_key (raw : bytes) : bytes :=
  match raw with
  | b :: raw => if isKVKeyChar b then b :: take_key raw else []
  | [] => []
  end.

(** What the loop body of [recoverJSONKVFromRaw] sees at one offset. *)
Definition json_entry (raw : bytes) : option (bytes * bytes) :=
  let marker := str "data:" in
  if has_prefix raw marker then
    let name := take_key (drop (length marker) raw) in
    let key := marker ++ name in
    let rest := drop (length key) raw in
    if bool_decide (name = []) || negb (has_prefix rest [Byte.x7b]) || negb (isRecoverableDataKey key)
    then None
    else match extractJSONObject rest with (Some val, _) => Some (key, val) | (None, _) => None end
  else None.

Fixpoint recover_json_from (raw : bytes) (out : gmap bytes bytes) : gmap bytes bytes :=
  match raw with
  | [] => out
  | _ :: rest =>
      recover_json_from rest
        (if zlen (str "data:") <? zlen raw then add_entry out (json_entry raw) else out)
  end.

Definition recoverJSONKVFromRaw (raw : bytes) : gmap bytes bytes := recover_json_from raw ∅.

(** * Correctness *)

(** ** The longest value wins *)

(** [out] has for the key a value at least as long as [value]. *)
Definition covers (out : gmap bytes bytes) (key value : bytes) : Prop :=
  exists v, out !! key = Some v /\ zlen value <= zlen v.

Lemma recoverKVEntry_covers out key value :
  key <> [] -> value <> [] -> covers (recoverKVEntry out key value) key value.
Proof.
  intros Hk Hv. unfold recoverKVEntry, covers. rewrite !bool_decide_eq_false_2 by done. cbn [orb].
  destruct (_ <? _) eqn:E; bprop.
  - exists value. by rewrite lookup_insert_eq.
  - destruct (out !! key) as [v|]; cbn in E; [by exists v|].
    destruct value; [done|]. unfold zlen in E. cbn in E. lia.
Qed.

Lemma recoverKVEntry_mono out key value k v :
  covers out k v -> covers (recoverKVEntry out key value) k v.
Proof.
  intros (v' & Hv' & Hlen). unfold recoverKVEntry. destruct (_ || _); [by exists v'|].
  destruct (_ <? _) eqn:E; [bprop|by exists v']. destruct (decide (key = k)) as [->|Hne].
  - rewrite Hv' in E. cbn in E. exists value. rewrite lookup_insert_eq. split; [done|lia].
  - exists v'. by rewrite lookup_insert_ne.
Qed.

Lemma recoverKVEntry_lookup out key value k v :
  recoverKVEntry out key value !! k = Some v -> out !! k = Some v \/ (k = key /\ v = value).
Proof.
  unfold recoverKVEntry. destruct (_ || _); [by left|]. destruct (_ <? _); [|by left].
  intros [[<- <-]|[_ ?]]%lookup_insert_Some; [by right | by left].
Qed.

(** ** A scan over all offsets *)

Section Offsets.
Context (at_offset : bytes -> option (bytes * bytes)) (from : bytes -> gmap bytes bytes -> gmap bytes bytes).
Context (least : Z).
Hypothesis from_nil : forall out, from [] out = out.
Hypothesis from_cons : forall b rest out,
  from (b :: rest) out = from rest (if least <? zlen (b :: rest) then add_entry out (at_offset (b :: rest)) else out).

Lemma from_mono raw out k v : covers out k v -> covers (from raw out) k v.
Proof.
  revert out. induction raw as [|b raw IH]; intros out Hc; [by rewrite from_nil|].
  rewrite from_cons. apply IH. destruct (_ <? _); [|done].
  destruct (at_offset (b :: raw)) as [[]|]; [by apply recoverKVEntry_mono | done].
Qed.

(** Complete: an entry at any offset is covered. *)
Lemma from_complete pre raw out k v :
  at_offset raw = Some (k, v) -> least < zlen raw -> 0 <= least -> k <> [] -> v <> [] ->
  covers (from (pre ++ raw) out) k v.
Proof.
  intros E Hlen H0 Hk Hv. revert out. induction pre as [|b pre IH]; intros out; cbn [app].
  - destruct raw as [|b raw]; [unfold zlen in Hlen; cbn in Hlen; lia|].
    rewrite from_cons. destruct (_ <? _) eqn:B; bprop; [|lia]. rewrite E. apply from_mono.
    by apply recoverKVEntry_covers.
  - rewrite from_cons. apply IH.
Qed.

(** Sound: every entry was there or was read at some offset. *)
Lemma from_sound raw out k v :
  from raw out !! k = Some v ->
  out !! k = Some v \/ exists pre suf, raw = pre ++ suf /\ at_offset suf = Some (k, v).
Proof.
  revert out. induction raw as [|b raw IH]; intros out; [rewrite from_nil; by left|].
  rewrite from_cons. intros [E|(pre & suf & -> & E)]%IH.
  - destruct (_ <? _); [|by left]. destruct (at_offset (b :: raw)) as [[k' v']|] eqn:Ea; [|by left].
    apply recoverKVEntry_lookup in E as [?|[-> ->]]; [by left|]. right. by exists [], (b :: raw).
  - right. by exists (b :: pre), suf.
Qed.
End Offsets.

(** ** Slotted records *)

(** A record the salvage accepts: used by some transaction, not expired, with a
    key of a durable class and lengths within the limits of the scan. *)
Definition salvageable (now : Z) (r : record) : Prop :=
  record_ok r /\ txnID r <> 0 /\ 1 <= zlen (key r) <= 256 /\ 1 <= zlen (val r) <= 16384 /\
  (i64 (expiresAt r) = 0 \/ now < i64 (expiresAt r)) /\ isRecoverableDataKey (key r) = true.

Lemma le_val_le_bytes n z : 0 <= z < 2 ^ (8 * Z.of_nat n) -> le_val (le_bytes n z) = z.
Proof. intros. rewrite le_val_bytes. by apply Z.mod_small. Qed.

Lemma slotted_entry_complete now r post :
  salvageable now r -> slotted_entry now (encode_record r ++ post) = Some (key r, val r).
Proof.
  intros ([Ht He] & Ht0 & Hk & Hv & Hexp & Hrec). unfold slotted_entry, encode_record.
  rewrite <- !app_assoc.
  set (a := le_bytes 8 (txnID r)). set (b := le_bytes 8 (expiresAt r)).
  set (c := le_bytes 4 (zlen (key r))). set (d := le_bytes 4 (zlen (val r))).
  assert (length a = 8%nat /\ length b = 8%nat /\ length c = 4%nat /\ length d = 4%nat) as (La & Lb & Lc & Ld)
    by (unfold a, b, c, d; rewrite !length_le_bytes; done).
  rewrite (take_app_length' a) by lia.
  rewrite (drop_app_length' a _ 8) by lia. rewrite (take_app_length' b) by lia.
  rewrite !(app_assoc a b), (drop_app_length' (a ++ b) _ 16) by (rewrite length_app; lia).
  rewrite (take_app_length' c) by lia.
  rewrite !(app_assoc (a ++ b) c), (drop_app_length' ((a ++ b) ++ c) _ 20) by (rewrite !length_app; lia).
  rewrite (take_app_length' d) by lia.
  rewrite !(app_assoc ((a ++ b) ++ c) d), (drop_app_length' (((a ++ b) ++ c) ++ d) _ 24) by (rewrite !length_app; lia).
  assert (le_val a = txnID r) as -> by (apply le_val_le_bytes; cbn; lia).
  assert (le_val b = expiresAt r) as -> by (apply le_val_le_bytes; cbn; lia).
  assert (le_val c = zlen (key r)) as -> by (apply le_val_le_bytes; cbn; lia).
  assert (le_val d = zlen (val r)) as -> by (apply le_val_le_bytes; cbn; lia).
  destruct (_ || _) eqn:B; [bprop; lia|]. clear B.
  destruct (negb _ && _) eqn:B; [bprop; lia|]. clear B.
  destruct (_ <? _) eqn:B; [bprop|].
  { revert B. rewrite !zlen_app. unfold a, b, c, d. rewrite !zlen_le_bytes. pose proof (zlen_nonneg post). lia. }
  rewrite (take_app_length' (key r)) by (unfold zlen; lia). rewrite Hrec. do 2 f_equal.
  rewrite app_assoc, (drop_app_length' (_ ++ key r)), (take_app_length' (val r)); [done|unfold zlen; lia|].
  rewrite !length_app, La, Lb, Lc, Ld. unfold zlen. lia.
Qed.

Lemma take_drop_add {A} (l : list A) n m : take m (drop n l) ++ drop (n + m) l = drop n l.
Proof. rewrite <- drop_drop. apply take_drop. Qed.

Lemma slotted_entry_sound now raw k v :
  slotted_entry now raw = Some (k, v) ->
  exists r post, raw = encode_record r ++ post /\ salvageable now r /\ k = key r /\ v = val r.
Proof.
  unfold slotted_entry.
  set (a := take 8 raw). set (b := take 8 (drop 8 raw)).
  set (c := take 4 (drop 16 raw)). set (d := take 4 (drop 20 raw)).
  intros E. case_match eqn:B1; [done|]. case_match eqn:B2; [done|]. case_match eqn:B3; [done|].
  case_match eqn:B4; [|done]. injection E as <- <-. set (kl := le_val c) in *. set (vl := le_val d) in *.
  rewrite !orb_false_iff in B1. destruct B1 as ((((B1 & ?) & ?) & ?) & ?).
  apply andb_false_iff in B2. rewrite negb_false_iff in B2. rewrite Z.eqb_eq, Z.leb_gt in B2. bprop.
  pose proof (le_val_range c) as [Rc _]. pose proof (le_val_range d) as [Rd _]. fold kl in Rc. fold vl in Rd.
  assert (24 + Z.to_nat kl + Z.to_nat vl <= length raw)%nat as Hlen by (unfold zlen in *; lia).
  assert (length a = 8%nat /\ length b = 8%nat /\ length c = 4%nat /\ length d = 4%nat) as (La & Lb & Lc & Ld)
    by (unfold a, b, c, d; rewrite !length_take, ?length_drop; lia).
  set (k := take (Z.to_nat kl) (drop 24 raw)) in *. set (v := take (Z.to_nat vl) (drop (24 + Z.to_nat kl) raw)).
  assert (zlen k = kl /\ zlen v = vl) as [Hk Hv]
    by (unfold k, v, zlen; rewrite !length_take, !length_drop; lia).
  exists (mkRecord (le_val a) (le_val b) k v), (drop (24 + Z.to_nat kl + Z.to_nat vl) raw). split_and!; try done.
  - unfold encode_record. cbn [txnID expiresAt key val]. rewrite Hk, Hv. unfold kl, vl.
    rewrite !le_bytes_val by done. rewrite <- !app_assoc.
    rewrite <- (take_drop 8 raw) at 1. fold a. f_equal.
    rewrite <- (take_drop_add raw 8 8). fold b. f_equal. change (8 + 8)%nat with 16%nat.
    rewrite <- (take_drop_add raw 16 4). fold c. f_equal. change (16 + 4)%nat with 20%nat.
    rewrite <- (take_drop_add raw 20 4). fold d. f_equal. change (20 + 4)%nat with 24%nat.
    rewrite <- (take_drop_add raw 24 (Z.to_nat kl)). fold k. f_equal.
    symmetry. apply take_drop_add.
  - pose proof (le_val_range a) as Ra. pose proof (le_val_range b) as Rb. unfold zlen in Ra, Rb.
    rewrite La in Ra. rewrite Lb in Rb. split; [split; [exact Ra | exact Rb]|].
    cbn [txnID expiresAt key val]. rewrite Hk, Hv. split_and!; done || lia.
Qed.

(** ** JSON objects *)

(** The scan stops at a prefix and does not look further. *)
Lemma json_scan_prefix raw depth s e seen obj :
  json_scan raw depth s e seen = Some obj ->
  exists used rest, raw = used ++ rest /\ obj = rev seen ++ used /\
    forall rest', json_scan (used ++ rest') depth s e seen = Some obj.
Proof.
  revert depth s e seen. induction raw as [|b raw IH]; intros depth s e seen; cbn [json_scan]; [done|].
  assert (forall depth' s' e',
    (forall rest', json_scan (b :: rest') depth s e seen = json_scan rest' depth' s' e' (b :: seen)) ->
    json_scan raw depth' s' e' (b :: seen) = Some obj ->
    exists used rest, b :: raw = used ++ rest /\ obj = rev seen ++ used /\
      forall rest', json_scan (used ++ rest') depth s e seen = Some obj) as Hgo.
  { intros depth' s' e' Hstep (used & rest & -> & -> & Hall)%IH. exists (b :: used), rest.
    split; [done|]. split; [cbn; by rewrite <- app_assoc|]. intros rest'. cbn [app]. by rewrite Hstep, Hall. }
  destruct s; [destruct e|]; repeat case_bool_decide; subst;
    try (apply Hgo; intros rest'; cbn [json_scan]; rewrite ?bool_decide_eq_true_2, ?bool_decide_eq_false_2 by done; reflexivity).
  destruct (depth - 1 =? 0) eqn:Ed; [|apply Hgo; intros rest'; cbn; by rewrite Ed].
  intros [= <-]. exists [Byte.x7d], raw. split; [done|]. split; [done|]. intros rest'. cbn. by rewrite Ed.
Qed.

Lemma extractJSONObject_prefix raw obj n :
  extractJSONObject raw = (Some obj, n) ->
  n = zlen obj /\ exists rest, raw = obj ++ rest /\
    forall rest', extractJSONObject (obj ++ rest') = (Some obj, zlen obj).
Proof.
  unfold extractJSONObject. destruct raw as [|b raw]; [done|]. case_bool_decide as Hb; [|done].
  destruct (json_scan _ _ _ _ _) as [o|] eqn:E; [|done]. intros [= -> <-]. split; [done|].
  apply json_scan_prefix in E as (used & rest & Eraw & -> & Hall). cbn [rev app] in *.
  exists rest. split; [done|]. intros rest'. pose proof (Hall rest') as Hr.
  destruct used as [|b' used]; [by pose proof (Hall []) |]. cbn [app] in *. injection Eraw as -> ->.
  rewrite bool_decide_eq_true_2 by done. by rewrite Hr.
Qed.

(** A JSON entry at an offset: a recoverable [data:] key directly followed by a
    complete object. *)
Lemma json_entry_sound raw k v :
  json_entry raw = Some (k, v) ->
  isRecoverableDataKey k = true /\ exists rest, raw = k ++ v ++ rest /\
    extractJSONObject (v ++ rest) = (Some v, zlen v).
Proof.
  unfold json_entry. destruct (has_prefix raw (str "data:")) eqn:Hp; [|done].
  apply has_prefix_spec in Hp as [t ->]. rewrite (drop_app_length (str "data:") t).
  assert (exists u, t = take_key t ++ u) as [u Et].
  { clear. induction t as [|b t IH]; [by exists []|]. cbn.
    destruct (isKVKeyChar b); [|by exists (b :: t)]. destruct IH as [u Eu]. exists u. cbn. by rewrite <- Eu. }
  set (name := take_key t) in *. rewrite Et, app_assoc, (drop_app_length (str "data:" ++ name) u). clear Et.
  destruct (_ || _) eqn:B; [done|]. rewrite !orb_false_iff, !negb_false_iff in B. destruct B as ((_ & _) & Hrec).
  destruct (extractJSONObject _) as [[obj|] n] eqn:E; [|done]. intros [= <- <-].
  apply extractJSONObject_prefix in E as (_ & rest & -> & Hall). split; [done|].
  exists rest. split; [done|apply Hall].
Qed.

(** The salvage of raw pages is exact up to the length of values: a live
    slotted record with a durable key, at any offset whatever surrounds it, is
    recovered with its value or a longer one of the same key; every recovered
    pair is such a record somewhere in the page; and every pair recovered from
    JSON is a durable key directly followed by that complete object. *)
Theorem salvage_exact now raw :
  (forall pre r post, raw = pre ++ encode_record r ++ post -> salvageable now r ->
     covers (recoverSlottedKVFromRaw now raw) (key r) (val r)) /\
  (forall k v, recoverSlottedKVFromRaw now raw !! k = Some v ->
     exists pre r post, raw = pre ++ encode_record r ++ post /\ salvageable now r /\ k = key r /\ v = val r) /\
  (forall k v, recoverJSONKVFromRaw raw !! k = Some v ->
     isRecoverableDataKey k = true /\ exists pre post, raw = pre ++ k ++ v ++ post).
Proof.
  split_and!.
  - intros pre r post -> Hr. pose proof Hr as (_ & _ & Hk & Hv & _).
    apply (from_complete (slotted_entry now) (recover_slotted_from now) 24); try done.
    + by apply slotted_entry_complete.
    + unfold encode_record. rewrite !zlen_app, !zlen_le_bytes. pose proof (zlen_nonneg post). lia.
    + intros E. rewrite E in Hk. unfold zlen in Hk. cbn in Hk. lia.
    + intros E. rewrite E in Hv. unfold zlen in Hv. cbn in Hv. lia.
  - intros k v E. apply (from_sound (slotted_entry now) (recover_slotted_from now) 24) in E; try done.
    destruct E as [E|(pre & suf & -> & E)]; [by rewrite lookup_empty in E|].
    apply slotted_entry_sound in E as (r & post & -> & Hr & -> & ->). by exists pre, r, post.
  - intros k v E. apply (from_sound json_entry recover_json_from (zlen (str "data:"))) in E; try done.
    destruct E as [E|(pre & suf & -> & E)]; [by rewrite lookup_empty in E|].
    apply json_entry_sound in E as (Hrec & rest & -> & _). split; [done|]. by exists pre, rest.
Qed.

(** A stray record in the middle of other bytes. *)
Lemma salvage_exact_witness :
  let r := mkRecord 7 0 (str "data:user:ann") (str "profile") in
  covers (recoverSlottedKVFromRaw 100 (str "garbage" ++ encode_record r ++ str "tail"))
    (str "data:user:ann") (str "profile").
Proof.
  intros r. apply (proj1 (salvage_exact 100 (str "garbage" ++ encode_record r ++ str "tail"))
    (str "garbage") r (str "tail") eq_refl).
  unfold salvageable, record_ok. split_and!; try reflexivity; try (cbn; lia); try (cbn; intros E; discriminate E).
  left. reflexivity.
Defined.
