(* ===== verification/KVStore.v ===== *)
(** The key-value store over one B-tree (kv_store.go): lookup, insertion with
    the flush of durable keys, deletion, the prefix iterator, and opening a root
    page with the recovery of what it held before.  The store's tree and its
    database share one buffer pool, so the state is the database and the root
    page id the tree currently has in memory.  The transaction handles carry no
    state ([Commit] and [Abort] of a [btreeTxn] do nothing) and are left out. *)

From Stdlib Require Import Strings.Byte.
From S2P Require Import Common.
From S2P Require Import Prelude.
From S2P Require Import VFS.
From S2P Require Import LRU.
From S2P Require Import Page.
From S2P Require Import Slotted.
From S2P Require Import Telemetry.
From S2P Require Import BufferPool.
From S2P Require Import WAL.
From S2P Require Import DBPage.
From S2P Require Import DB.
From S2P Require Import BTreePage.
From S2P Require Import BTree.
From S2P Require Import KVRecover.

(** ** Pages of the store *)

Definition LegacyKVPageID : PageID := 1000.

Definition btreePageNeedsReset (d : mem) : bool :=
  let pt := Node.PageType d in
  if negb (pt =? PageTypeLeaf) && negb (pt =? PageTypeInternal) then true
  else 512 <? Node.NumCells d.

Definition resetBTreePage (d : mem) : mem :=
  let d := Node.BTreeInit d in
  let d := Node.SetPageType d PageTypeLeaf in
  let d := Node.SetNumCells d 0 in
  let d := Node.SetNextLeafID d 0 in
  let d := Node.SetParentID d 0 in
  clear d BTreeHeaderSize PageSize.

(** The value [Get] finds in a leaf. *)
Definition leaf_lookup (d : mem) (key : bytes) : option bytes :=
  match scan_node leaf_format d (fun _ _ '(cellKey, cellVal) =>
          if bytes_equal key cellKey then Return cellVal else Continue tt) tt with
  | Returned v => Some v
  | _ => None
  end.

(** What [Delete] does to a leaf. *)
Definition delete_leaf_key (p : Page) (key : bytes) : Page * option error :=
  let d := Data p in
  let numCells := Node.NumCells d in
  match find_leaf_cell d key with
  | None => (p, Some (Msg "key not found"))
  | Some (offset, cellBytes) =>
      match scan_node leaf_format d skip tt with
      | Finished _ totalSize | Broken _ totalSize =>
          if (offset + cellBytes <=? totalSize) && (totalSize <=? PageSize)
          then
            let d := move d offset (offset + cellBytes) (totalSize - cellBytes - offset) in
            let d := clear d (totalSize - cellBytes) totalSize in
            (set_dirty true (bump (set_Data p (Node.SetNumCells d (u16 (numCells - 1))))), None)
          else (p, Some (Msg "delete compaction failed for key"))
      | Returned _ => (p, Some (Msg "key not found"))
      end
  end.

(** ** The store *)

(** The fixed root pages of the other trees. *)
Definition LogBTreeRootPageID : PageID := 1001.
Definition ColdLogBTreeRootPageID : PageID := 1003.
Definition DNSBTreeRootPageID : PageID := 1012.

Record BTreeKVStore (D P : Type) := mkKV {
  kdb : DB D P;
  kroot : PageID
}.
Arguments mkKV {_ _}.
Arguments kdb {_ _}.
Arguments kroot {_ _}.

Section Store.
Context {D P : Type} `{BlockDevice D} `{EvictionPolicy P} `{MapRange}.
Context (fuel : nat).
Abbreviation store := (BTreeKVStore D P).
Abbreviation kv := (io (BTreeKVStore D P)).

Definition with_db {A} (f : DB D P -> result A * DB D P) : kv A := fun s =>
  let '(r, db) := f (kdb s) in (r, mkKV db (kroot s)).

Definition with_pool {A} (f : BufferPool D P -> result A * BufferPool D P) : kv A :=
  with_db (fun db => let '(r, pool) := f (bp db) in (r, set_bp pool db)).

Definition with_tree {A} (f : BTree D P -> result A * BTree D P) : kv A := fun s =>
  let '(r, tree) := f (mkBTree (bp (kdb s)) (kroot s)) in
  (r, mkKV (set_bp (tbp tree) (kdb s)) (rootID tree)).

Definition page_of (i : nat) : kv Page := fun s =>
  match frames (bp (kdb s)) !! i with Some p => (Ok p, s) | None => (Panic, s) end.

Definition set_page (i : nat) (p : Page) : kv unit :=
  with_pool (fun pool => (Ok tt, update_frame i (fun _ => p) pool)).

Definition unpin (id : PageID) (dirty : bool) : kv unit :=
  with_pool (fun pool => (Ok tt, UnpinPage pool id dirty)).

Definition Flush : kv unit := with_pool FlushAll.

Definition find_leaf (key : bytes) : kv nat := fun s =>
  with_pool (fun pool => FindLeaf fuel pool (kroot s) key) s.

Definition Get (key : bytes) : kv bytes :=
  i ← find_leaf key;
  node ← page_of i;
  _ ← unpin (ID node) false;
  of_result (match leaf_lookup (Data node) key with
             | Some v => Ok v
             | None => Err (Msg "key not found")
             end).

Definition Put (key value : bytes) : kv unit :=
  _ ← with_tree (fun tree => Insert fuel tree key value);
  if isDurableIdentityKey key || has_prefix key (str "data:session:") || has_prefix key (str "mail:")
  then Flush else mret tt.

Definition Delete (key : bytes) : kv unit :=
  i ← find_leaf key;
  node ← page_of i;
  let '(node', err) := delete_leaf_key node key in
  _ ← set_page i node';
  _ ← unpin (ID node) true;
  of_result (of_error err).

(** ** The iterator *)

Record btreeIterator := mkIterator {
  cursor : option BTreeCursor;
  prefix : bytes
}.

(** A tree that cannot be opened looks empty. *)
Definition NewIterator (p : bytes) : kv btreeIterator := fun s =>
  (r ← try (with_pool (fun pool => NewBTreeCursor [] fuel pool (kroot s)));
   mret (match r with inr c => mkIterator (Some c) p | inl _ => mkIterator None [] end)) s.

(** [Next] of the cursor of an iterator. *)
Definition cursor_next (c : BTreeCursor) (s : store) : result (bytes * bytes) * BTreeCursor * store :=
  let '(r, c, pool) := Next [] (bp (kdb s)) c in
  (r, c, mkKV (set_bp pool (kdb s)) (kroot s)).

(** The loop skips the keys before the prefix. *)
Fixpoint iterator_next (rounds : nat) (c : BTreeCursor) (p : bytes) (s : store) :
    result (bytes * bytes) * BTreeCursor * store :=
  match rounds with
  | O => (Hang, c, s)
  | S rounds =>
      let '(r, c, s) := cursor_next c s in
      match r with
      | Ok (k, v) =>
          if bool_decide (p = []) then (Ok (k, v), c, s)
          else if has_prefix k p then (Ok (k, v), c, s)
          else match bytes_compare k p with
               | Gt => (Err EOF, c, s)
               | _ => iterator_next rounds c p s
               end
      | _ => (r, c, s)
      end
  end.

(** Read an iterator until its first error; what the callers do with it. *)
Fixpoint drain (rounds : nat) (c : BTreeCursor) (p : bytes) (acc : list (bytes * bytes)) (s : store) :
    result (list (bytes * bytes)) * BTreeCursor * store :=
  match rounds with
  | O => (Hang, c, s)
  | S rounds =>
      let '(r, c, s) := iterator_next fuel c p s in
      match r with
      | Ok kv => drain rounds c p (acc ++ [kv]) s
      | Err _ => (Ok acc, c, s)
      | Panic => (Panic, c, s)
      | Hang => (Hang, c, s)
      end
  end.

(** Read an iterator to its end and close it. *)
Definition drain_and_close (c : BTreeCursor) (p : bytes) : kv (list (bytes * bytes)) := fun s =>
  let '(r, c, s) := drain fuel c p [] s in
  let '(r, pool) := close_after r (bp (kdb s)) c in
  (r, mkKV (set_bp pool (kdb s)) (kroot s)).

Definition iterate_all (p : bytes) : kv (list (bytes * bytes)) :=
  it ← NewIterator p;
  match cursor it with
  | None => mret []
  | Some c => drain_and_close c (prefix it)
  end.

(** ** Recovery and opening *)

(** [now] and [now'] are the clock when the page is scanned for visible and for
    stray records. *)
Definition recoverLegacyKVRecords (pageID : PageID) (raw : bytes) (now now' : Z) : kv (gmap bytes bytes) :=
  txn ← with_db (fun db => let '(id, db) := BeginTxn db in (Ok id, db));
  r ← try (with_db (fun db => DB.Scan db pageID txn (str "data:") now
             (fun key value out => (true, recoverKVEntry out key value)) ∅));
  _ ← with_db (fun db => (Ok tt, CommitTxn db txn));
  let out := match r with inr out => out | inl _ => ∅ end in
  let add out m := fold_left (fun out '(k, v) => recoverKVEntry out k v) (range m) out in
  mret (add (add out (recoverSlottedKVFromRaw now' raw)) (recoverJSONKVFromRaw raw)).

Fixpoint import_loop (l : list (bytes * bytes)) (imported : Z) : kv Z :=
  match l with
  | [] => mret imported
  | (key, value) :: l =>
      existing ← try (Get key);
      if (match existing with inr v => zlen value <=? zlen v | inl _ => false end)
      then import_loop l imported
      else
        r ← try (Put key value);
        import_loop l (match r with inr _ => imported + 1 | inl _ => imported end)
  end.

Definition importRecoveredKV (recovered : gmap bytes bytes) : kv Z :=
  import_loop (range recovered) 0.

Fixpoint delete_loop (l : list bytes) (removed : Z) : kv Z :=
  match l with
  | [] => mret removed
  | key :: l =>
      r ← try (Delete key);
      delete_loop l (match r with inr _ => removed + 1 | inl _ => removed end)
  end.

Fixpoint collect_prefixes (prefixes : list bytes) (toDelete : list bytes) : kv (list bytes) :=
  match prefixes with
  | [] => mret toDelete
  | p :: prefixes =>
      found ← iterate_all p;
      collect_prefixes prefixes (toDelete ++ found.*1)
  end.

Definition purgeEphemeralKVKeys : kv Z :=
  toDelete ← collect_prefixes
    [str "state:grant:"; str "state:log:"; str "transaction_ledger:"; str "state:pop:"] [];
  delete_loop toDelete 0.

(** [rawPage.ID = rootID] on a page allocated under another id. *)
Definition rename_frame (id : PageID) (p : Page) : Page :=
  mkPage id (Data p) (PinCount p) (IsDirty p) (MemVersion p).

(** Fetch the root page, or allocate one and rename it. *)
Definition claim_root (root : PageID) : kv nat :=
  r ← try (with_pool (fun pool => FetchPage pool root));
  match r with
  | inr i => mret i
  | inl _ =>
      i ← with_pool (NewPage []);
      _ ← with_pool (fun pool => (Ok tt, update_frame i (rename_frame root) pool));
      mret i
  end.

Definition ResetBTreeRoot (root : PageID) : kv unit :=
  i ← claim_root root;
  page ← page_of i;
  _ ← set_page i (set_dirty true (set_Data page (resetBTreePage (Data page))));
  _ ← unpin (ID page) true;
  Flush.

(** [NewBTreeKVStoreWithRoot] on a database and a root: the state it leaves is
    the store.  A root that can be neither fetched nor allocated panics. *)
Definition open_root (root : PageID) (now now' : Z) : kv unit :=
  r ← try (claim_root root);
  match r with
  | inl _ => of_result Panic
  | inr i =>
      page ← page_of i;
      let needsReset := btreePageNeedsReset (Data page) in
      recovered ← (if (root =? LegacyKVPageID) || needsReset
                   then recoverLegacyKVRecords root (slice (Data page) 0 PageSize) now now'
                   else mret ∅);
      page ← page_of i;
      _ ← (if needsReset
           then set_page i (set_dirty true (set_Data page (resetBTreePage (Data page))))
           else mret tt);
      _ ← unpin (ID page) true;
      imported ← importRecoveredKV recovered;
      removed ← purgeEphemeralKVKeys;
      if needsReset || (0 <? imported) || (0 <? removed) then ignore Flush else mret tt
  end.

Definition NewBTreeKVStoreWithRoot (db : DB D P) (root : PageID) (now now' : Z) : result unit * store :=
  open_root root now now' (mkKV db root).
End Store.
