(* ===== verification/KVSpec.v ===== *)
(** What the key-value store promises: on any well-formed tree [Get] is the
    lookup of the map the tree stands for, and [Put] and [Delete] are its
    insertion and deletion when the leaf has room, through the buffer pool with
    its evictions. *)

From Stdlib Require Import Strings.Byte.
From stdpp Require Import sorting.
From S2P Require Import Common.
From S2P Require Import Prelude.
From S2P Require Import VFS.
From S2P Require Import LRU.
From S2P Require Import Page.
From S2P Require Import Slotted.
From S2P Require Import Telemetry.
From S2P Require Import BufferPool.
From S2P Require Import PoolInv.
From S2P Require Import PoolOps.
From S2P Require Import PoolPins.
From S2P Require Import PoolLatch.
From S2P Require Import WAL.
From S2P Require Import DBPage.
From S2P Require Import DB.
From S2P Require Import BTreePage.
From S2P Require Import BTreeNode.
From S2P Require Import BTree.
From S2P Require Import BTreeSpec.
From S2P Require Import KVRecover.
From S2P Require Import KVStore.

(** ** Calls *)

Definition found (o : option bytes) : result bytes := match o with Some v => Ok v | None => Err (Msg "key not found") end.

(** A value that counts as present. *)
Definition nonempty (o : option bytes) : option bytes := match o with Some ((_ :: _) as v) => Some v | _ => None end.

Lemma try_found {S} (m : io S bytes) (s : S) o s' :
  m s = (found o, s') -> try m s = (Ok (match o with Some v => inr v | None => inl (Msg "key not found") end), s').
Proof. intros E. unfold try. rewrite E. by destruct o. Qed.

(** ** One leaf *)

Lemma leaf_lookup_spec d cs k : leaf_holds d cs -> leaf_lookup d k = leaf_map cs !! k.
Proof.
  intros Hh. unfold leaf_lookup. rewrite (scan_node_list leaf_format _ d cs) by done.
  generalize BTreeHeaderSize as o. clear Hh. unfold leaf_map.
  induction cs as [|[k' v'] cs IH]; intros o; [done|]. cbn [scan_list list_to_map foldr fst snd].
  destruct (bytes_equal k k') eqn:E; unfold bytes_equal in E.
  - apply bool_decide_eq_true in E. subst k'. symmetry. apply lookup_insert_eq.
  - apply bool_decide_eq_false in E. rewrite lookup_insert_ne by done. apply IH.
Qed.

(** Only the bytes, the version and the dirty flag of a page change. *)
Definition same_holder (p p' : Page) : Prop := ID p' = ID p /\ PinCount p' = PinCount p.

Lemma delete_leaf_key_spec p cs k :
  leaf_holds (Data p) cs -> NoDup cs.*1 ->
  match leaf_map cs !! k with
  | None => delete_leaf_key p k = (p, Some (Msg "key not found"))
  | Some _ => exists p', delete_leaf_key p k = (p', None) /\ same_holder p p' /\
      same_header (Data p') (Data p) /\ leaf_holds (Data p') (purged k cs)
  end.
Proof.
  intros Hh Hnd. unfold delete_leaf_key. pose proof (find_leaf_cell_spec (Data p) cs k Hh) as Hfind.
  destruct (find_leaf_cell (Data p) k) as [[o n]|].
  - destruct Hfind as (cs1 & c & cs2 & -> & Hc & Hcs1 & -> & ->).
    assert (Forall (fun c => c.1 <> k) cs2) as Hcs2.
    { rewrite fmap_app in Hnd. apply NoDup_app in Hnd as (_ & _ & Hnd). cbn in Hnd.
      apply NoDup_cons in Hnd as [Hni _]. apply Forall_forall. intros c' Hc' E. apply Hni.
      rewrite Hc, <- E. by apply list_elem_of_fmap_2. }
    assert (purged k (cs1 ++ c :: cs2) = cs1 ++ cs2) as Epur.
    { unfold purged. rewrite filter_app, filter_cons_False by tauto.
      by rewrite !filter_id by (by apply Forall_forall). }
    assert (exists v, leaf_map (cs1 ++ c :: cs2) !! k = Some v) as [v ->].
    { unfold leaf_map. rewrite list_to_map_app, lookup_union_r.
      - destruct c as [k' v']. cbn in Hc. subst k'. exists v'. apply lookup_insert_eq.
      - apply not_elem_of_list_to_map_1. intros (c' & E & Hc')%list_elem_of_fmap.
        rewrite Forall_forall in Hcs1. by apply (Hcs1 c' Hc'). }
    rewrite (scan_node_list leaf_format _ _ _ _ Hh), scan_list_skip.
    destruct (deleteLeafCell_spec p cs1 c cs2 Hh) as (p1 & Ed & Hf & Hhd & Hh1).
    destruct (holds_split leaf_format _ _ _ Hh) as (H1 & H2 & H3 & _).
    unfold deleteLeafCell in Ed. destruct Hh as [Hn Hok Hroom Hb].
    assert (Z.to_nat (Node.NumCells (Data p)) = length (cs1 ++ c :: cs2)) as En by (rewrite Hn; apply Nat2Z.id).
    rewrite En, (tail_offset_list _ _ _ Hok Hroom Hb) in Ed.
    destruct (_ || _) eqn:B in Ed; [done|]. injection Ed as <-. bprop.
    rewrite (proj2 (Z.leb_le _ _)), (proj2 (Z.leb_le _ _)) by lia. cbn [andb].
    eexists. split; [done|]. rewrite Epur. split; [done|]. by split.
  - rewrite (leaf_map_notin k cs); [done|]. intros (c & E & Hc)%list_elem_of_fmap.
    rewrite Forall_forall in Hfind. by apply (Hfind c Hc).
Qed.

(** ** Writing a held page back *)

Definition set_version (v : Z) (p : Page) : Page := mkPage (ID p) (Data p) (PinCount p) (IsDirty p) v.

Section WriteBack.
Context {D P : Type} `{DS : BlockDeviceSpec D} `{PS : EvictionPolicySpec P} `{MR : MapRange}.
Implicit Types bp : BufferPool D P.

Lemma write_unpin_split bp id i p p' :
  pageTable bp !! id = Some i -> frames bp !! i = Some p -> same_holder p p' ->
  UnpinPage (update_frame i (fun _ => p') bp) id true =
  update_frame i (set_version (MemVersion p'))
    (UnpinPage (update_frame i (fun p => set_Data p (Data p')) bp) id true).
Proof.
  intros Hi Hp [Hid Hpin]. unfold UnpinPage. cbn. rewrite Hi. unfold update_frame, set_frames. cbn. f_equal.
  apply list_eq. intros j. destruct (decide (i = j)) as [<-|Hne].
  - rewrite !list_lookup_alter_eq, Hp. cbn. unfold set_version, set_dirty, add_pin, set_Data. cbn. congruence.
  - by rewrite !list_lookup_alter_ne.
Qed.

(** A held page gets new contents and is given back dirty: that page changed
    and no other, and one pin of it is gone. *)
Lemma write_unpin bp id i p p' :
  pool_inv ∅ bp -> pageTable bp !! id = Some i -> frames bp !! i = Some p -> 0 < PinCount p ->
  same_holder p p' ->
  let bp' := UnpinPage (update_frame i (fun _ => p') bp) id true in
  pool_inv ∅ bp' /\ page_eqv id (view bp' id) (Data p') /\
  (forall id', id' <> id -> page_eqv id' (view bp' id') (view bp id')) /\
  (forall id', pins bp' id' = pins bp id' - one (bool_decide (id' = id))) /\
  length (frames bp') = length (frames bp).
Proof.
  intros Hinv Hi Hp Hpin Hsame bp'.
  destruct (modify_unpin ∅ bp id i p (Data p') Hinv Hi Hp ltac:(lia) ltac:(set_solver)) as (H1 & H2 & H3).
  set (bp1 := UnpinPage (update_frame i (fun p => set_Data p (Data p')) bp) id true) in *.
  assert (bp' = update_frame i (set_version (MemVersion p')) bp1) as E
    by exact (write_unpin_split bp id i p p' Hi Hp Hsame).
  destruct (inv_update_frame ∅ bp1 i (set_version (MemVersion p'))) as [Hinv' Hv]; [done| | |].
  { intros q Hq. split; [done|]. exact (inv_pins _ _ H1 i q Hq). }
  { intros q Hq _. split_and!; try done. }
  rewrite <- E in Hinv', Hv. split; [done|]. split; [|split; [|split]].
  - by rewrite (Hv id).
  - intros id' Hne. by rewrite (Hv id'), (H3 id').
  - intros id'. pose proof (inv_start ∅ bp id i p Hinv Hi Hp Hpin) as Hb.
    destruct (inv_modify _ bp id i (Data p') Hb Hi ltac:(set_solver)) as (Hm & _ & _).
    assert (forall id0, pins (update_frame i (fun p => set_Data p (Data p')) bp) id0 = pins bp id0) as Hpm
      by (apply update_frame_pins; done).
    rewrite E, update_frame_pins by done. unfold bp1.
    rewrite (UnpinPage_pins _ _ _ _ Hm); [|rewrite Hpm, (pins_cached bp id i p) by done; done].
    rewrite Hpm. unfold one. by case_bool_decide; case_decide.
  - unfold bp'. rewrite UnpinPage_frames. cbn. apply length_alter.
Qed.
End WriteBack.

(** ** The store and its map *)

Section Rep.
Context {D P : Type} `{DS : BlockDeviceSpec D} `{PS : EvictionPolicySpec P} `{MR : MapRange}.
Implicit Types s : BTreeKVStore D P.

Abbreviation pool_of s := (bp (kdb s)).

(** The store holds a well-formed tree of height [h] with the leaves [ls], and no
    operation is under way. *)
Record kv_rep (h : nat) (ls : leaves) s : Prop := {
  kr_inv : pool_inv ∅ (pool_of s);
  kr_idle : forall id, pins (pool_of s) id = 0;
  kr_frames : (h + 3 <= length (frames (pool_of s)))%nat;
  kr_tree : exists ids, subtree (view (pool_of s)) h (kroot s) None None ls ids /\ NoDup ids;
  kr_chain : chain (view (pool_of s)) ls
}.

(** The pages of the store's tree. *)
Definition tree_pages s (ids : list PageID) : Prop :=
  exists h ls, subtree (view (pool_of s)) h (kroot s) None None ls ids.

(** What an operation leaves alone: the transaction state, the root and every
    page but the leaves [ls]. *)
Record kv_outside (ls : leaves) s s' : Prop := {
  ko_root : kroot s' = kroot s;
  ko_txns : activeTxns (kdb s') = activeTxns (kdb s) /\ nextTxnID (kdb s') = nextTxnID (kdb s);
  ko_frames : length (frames (pool_of s')) = length (frames (pool_of s));
  ko_pages : forall id, id ∉ ls.*1 -> page_eqv id (view (pool_of s') id) (view (pool_of s) id)
}.

(** The tree keeps its pages besides. *)
Record kv_frame (ls : leaves) s s' : Prop := {
  kf_outside : kv_outside ls s s';
  kf_tree : forall ids, tree_pages s ids -> tree_pages s' ids
}.

Lemma kf_root ls s s' : kv_frame ls s s' -> kroot s' = kroot s.
Proof. intros Hf. apply Hf. Qed.

Lemma tree_pages_view s s' ids :
  kroot s' = kroot s -> same_view (pool_of s) (pool_of s') -> tree_pages s ids -> tree_pages s' ids.
Proof.
  intros Hr Hv (h & ls & Hsub). exists h, ls. rewrite Hr. apply (subtree_ext (view (pool_of s))); [|done].
  intros id Hid. apply same_view_image; [done|]. by eapply subtree_pages.
Qed.

Lemma tree_pages_det s i j : tree_pages s i -> tree_pages s j -> i = j.
Proof. intros (h & ls & H1) (h' & ls' & H2). by destruct (subtree_det _ _ _ _ _ _ _ _ _ _ _ _ H1 H2) as (_ & _ & ->). Qed.

Definition with_pool_of (pool : BufferPool D P) s : BTreeKVStore D P := mkKV (set_bp pool (kdb s)) (kroot s).

(** The tree is in the pages alone. *)
Lemma kv_rep_view h ls s pool db :
  kv_rep h ls s -> pool_inv ∅ pool -> same_view (pool_of s) pool -> (forall id, pins pool id = 0) ->
  (h + 3 <= length (frames pool))%nat -> kv_rep h ls (mkKV (set_bp pool db) (kroot s)).
Proof.
  intros [H1 H2 H3 (ids & Hsub & Hnd) H5] Hinv Hv Hidle Hlen. split; cbn; try done.
  - exists ids. split; [|done]. apply (subtree_ext (view (pool_of s))); [|done].
    intros id Hid. apply same_view_image; [done|]. by eapply subtree_pages.
  - apply (chain_ext (view (pool_of s)) _ ls); [done| |done]. intros id Hid. apply image_header, same_view_image; [done|].
    eapply subtree_pages; [exact Hsub|]. eapply sublist_subseteq; [by eapply subtree_leaves|done].
Qed.

(** A tree whose pages are all as they were. *)
Lemma kv_rep_other db db' r h ls i :
  kv_rep h ls (mkKV db r) -> tree_pages (mkKV db r) i -> pool_inv ∅ (bp db') -> (forall id, pins (bp db') id = 0) ->
  length (frames (bp db')) = length (frames (bp db)) ->
  (forall id, id ∈ i -> page_eqv id (view (bp db') id) (view (bp db) id)) ->
  kv_rep h ls (mkKV db' r) /\ tree_pages (mkKV db' r) i.
Proof.
  intros Hrep Hi Hinv Hidle Hlen Hpages. pose proof Hrep as [G1 G2 G3 (i2 & Hsub & Hnd) G5]. cbn in *.
  assert (i = i2) as <- by (eapply tree_pages_det; [exact Hi|by eexists _, _]).
  assert (forall id, id ∈ i -> image_eq 0 (view (bp db') id) (view (bp db) id)) as Hext.
  { intros id Hid. apply (tree_page_image id); [by eapply subtree_pages|]. by apply Hpages. }
  assert (subtree (view (bp db')) h r None None ls i) as Hsub' by (eapply subtree_ext; [|exact Hsub]; done).
  split; [|by eexists _, _]. split; cbn; [done|done|lia|by exists i|].
  apply (chain_ext (view (bp db)) _ ls); [done| |done]. intros id Hid. apply image_header, Hext.
  eapply sublist_subseteq; [by eapply subtree_leaves|done].
Qed.

Lemma kv_rep_unchanged h ls s pool f :
  kv_rep h ls s -> unchanged (pool_of s) pool f -> (forall id, f id = 0) ->
  kv_rep h ls (with_pool_of pool s) /\ kv_frame ls s (with_pool_of pool s).
Proof.
  intros Hrep [U1 U2 U3 U4] Hf. split; [|split; [done|intros ids; by apply tree_pages_view]].
  apply (kv_rep_view h ls s); [done..| |rewrite U3; apply Hrep]. intros id. by rewrite U4, Hf.
Qed.

(** The leaf of a key in the store's tree. *)
Lemma kv_find h ls s k :
  kv_rep h ls s ->
  exists ids lf cs lo hi ls0 ls2,
    leaf_found (view (pool_of s)) h (kroot s) None None ls ids k lf cs lo hi ls0 ls2 /\
    subtree (view (pool_of s)) h (kroot s) None None ls ids /\ NoDup ids.
Proof.
  intros [_ _ _ (ids & Hsub & Hnd) _]. destruct (subtree_find _ _ _ _ _ _ _ k Hsub ltac:(done) Hnd)
    as (lf & cs & lo & hi & ls0 & ls2 & Hfd). by exists ids, lf, cs, lo, hi, ls0, ls2.
Qed.

(** A leaf written back, and then whatever else was held given back: the tree
    around the leaf is kept. *)
Lemma kv_rep_write h ls s ids k lf cs lo hi ls0 ls2 pool f i p p' cs' pool' :
  kv_rep h ls s -> subtree (view (pool_of s)) h (kroot s) None None ls ids -> NoDup ids ->
  leaf_found (view (pool_of s)) h (kroot s) None None ls ids k lf cs lo hi ls0 ls2 ->
  unchanged (pool_of s) pool f -> 0 < f lf ->
  pageTable pool !! lf = Some i -> frames pool !! i = Some p -> same_holder p p' ->
  same_header (Data p') (Data p) -> leaf_holds (Data p') cs' -> keys_sorted cs'.*1 ->
  (forall x, x ∈ cs'.*1 -> x ∈ cs.*1 \/ x = k) ->
  unchanged (UnpinPage (update_frame i (fun _ => p') pool) lf true) pool' (fun _ => 0) ->
  kv_rep h (ls0 ++ (lf, cs') :: ls2) (with_pool_of pool' s) /\ kv_frame ls s (with_pool_of pool' s).
Proof.
  intros Hrep Hsub Hnd Hfd [U1 U2 U3 U4] Hf Hi Hp Hsame Hhd Hcs' Hsort Hkeys [V1 V2 V3 V4].
  destruct Hfd as [Hpath Hleaf Hrange Els Hin _ _ Hre].
  assert (0 < PinCount p) as Hpin by (by rewrite <- (pins_cached pool lf i p), U4 by done).
  destruct (write_unpin pool lf i p p' U1 Hi Hp Hpin Hsame) as (W1 & W2 & W3 & _ & W5).
  assert (forall id, id <> lf -> page_eqv id (view pool' id) (view (pool_of s) id)) as Hoth.
  { intros id Hne. rewrite (V2 id), (W3 id Hne). apply U2. }
  pose proof (path_end _ _ _ _ _ Hpath) as Hlfp.
  assert (image_eq 0 (view pool' lf) (Data p')) as Hlf.
  { apply (tree_page_image lf); [done|]. by rewrite (V2 lf). }
  assert (image_eq 0 (Data p) (view (pool_of s) lf)) as Hold.
  { rewrite <- (view_cached pool lf i p) by done. by apply same_view_image. }
  assert (same_header (view pool' lf) (view (pool_of s) lf)) as Hhdr.
  { rewrite (image_header _ _ Hlf), Hhd. by apply image_header. }
  assert (subtree (view pool') h (kroot s) None None (ls0 ++ (lf, cs') :: ls2) ids) as Hsub'.
  { apply Hre.
    + intros id Hid Hne. apply (tree_page_image id); [by eapply subtree_pages|]. by apply Hoth.
    + destruct Hleaf as [L1 L2 L3 L4 L5]. split; try done.
      * cbn. by rewrite (PageType_header _ _ Hhdr).
      * by apply (holds_image _ (Data p')).
      * apply Forall_forall. intros x [Hx| ->]%Hkeys; [|done]. rewrite Forall_forall in L5. by apply L5. }
  split; [split; [done|done| |by exists ids|]|split; [split; [done|done|cbn; congruence|]|]].
  - cbn. rewrite V3, W5, U3. apply Hrep.
  - cbn. apply (chain_ext (view (pool_of s)) _ ls); [|intros id Hid|apply Hrep].
    + rewrite Els, !fmap_app. done.
    + destruct (decide (id = lf)) as [->|Hne]; [done|]. apply image_header, (tree_page_image id); [|by apply Hoth].
      eapply subtree_pages; [exact Hsub|]. eapply sublist_subseteq; [exact (subtree_leaves _ _ _ _ _ _ _ Hsub)|done].
  - intros id Hid. apply Hoth. intros ->. apply Hid. rewrite Els, fmap_app. apply elem_of_app. right. by left.
  - intros ids' (h' & ls' & Hs'). destruct (subtree_det _ _ _ _ _ _ _ _ _ _ _ _ Hsub Hs') as (_ & _ & <-). by eexists _, _.
Qed.

(** The leaf was the only page held. *)
Lemma write_unpin_only bp lf i p p' :
  pool_inv ∅ bp -> pageTable bp !! lf = Some i -> frames bp !! i = Some p ->
  (forall id, pins bp id = one (bool_decide (id = lf))) -> same_holder p p' ->
  let bp' := UnpinPage (update_frame i (fun _ => p') bp) lf true in unchanged bp' bp' (fun _ => 0).
Proof.
  intros Hinv Hi Hp Hpins Hsame bp'.
  destruct (write_unpin bp lf i p p' Hinv Hi Hp) as (W1 & _ & _ & W4 & _); [|done|].
  { rewrite <- (pins_cached bp lf i p), Hpins by done. unfold one. by rewrite bool_decide_eq_true_2. }
  split; [done|done|done|]. intros id. unfold bp'. rewrite W4, Hpins. lia.
Qed.

Corollary kv_rep_write_only h ls s ids k lf cs lo hi ls0 ls2 pool i p p' cs' :
  kv_rep h ls s -> subtree (view (pool_of s)) h (kroot s) None None ls ids -> NoDup ids ->
  leaf_found (view (pool_of s)) h (kroot s) None None ls ids k lf cs lo hi ls0 ls2 ->
  unchanged (pool_of s) pool (fun id => one (bool_decide (id = lf))) ->
  pageTable pool !! lf = Some i -> frames pool !! i = Some p -> same_holder p p' ->
  same_header (Data p') (Data p) -> leaf_holds (Data p') cs' -> keys_sorted cs'.*1 ->
  (forall x, x ∈ cs'.*1 -> x ∈ cs.*1 \/ x = k) ->
  let s' := with_pool_of (UnpinPage (update_frame i (fun _ => p') pool) lf true) s in
  kv_rep h (ls0 ++ (lf, cs') :: ls2) s' /\ kv_frame ls s s'.
Proof.
  intros Hrep Hsub Hnd Hfd U Hi Hp Hsame Hhd Hcs' Hsort Hkeys s'.
  apply (kv_rep_write h ls s ids k lf cs lo hi ls0 ls2 pool _ i p p' cs' _ Hrep Hsub Hnd Hfd U); try done.
  - unfold one. by rewrite bool_decide_eq_true_2.
  - apply (write_unpin_only _ _ _ p); try done; apply U.
Qed.
End Rep.

(** ** The operations *)

Section Operations.
Context {D : Type} `{DS : BlockDeviceSpec D} `{RD : !ReliableDevice D} `{MR : MapRange}.
Implicit Types s : BTreeKVStore D LRUEvictionPolicy.

(** The leaf of a key, found and pinned. *)
Record at_leaf s (pool : BufferPool D LRUEvictionPolicy) (lf : PageID) (i : nat) (p : Page)
    (cs : list (bytes * bytes)) : Prop := {
  al_unchanged : unchanged (bp (kdb s)) pool (fun id => one (bool_decide (id = lf)));
  al_table : pageTable pool !! lf = Some i;
  al_frame : frames pool !! i = Some p;
  al_id : ID p = lf;
  al_type : Node.PageType (Data p) = PageTypeLeaf;
  al_holds : leaf_holds (Data p) cs;
  al_dirty : dirty_count pool <= dirty_count (bp (kdb s))
}.

(** A descent in a tree of this height ends: the rounds are enough and it does
    not wait for itself in the pool's flush. *)
Definition descends (fuel h : nat) s : Prop := (h < fuel)%nat /\ can_descend h (bp (kdb s)).

(** A tree that is one leaf: no descent in it holds a latch while it fetches. *)
Definition flat (fuel h : nat) : Prop := h = 0%nat /\ (h < fuel)%nat.

Lemma flat_descends fuel h s : flat fuel h -> descends fuel h s.
Proof. intros [H0 Hf]. split; [done|by left]. Qed.

Lemma FindLeaf_run fuel h ls s ids k lf cs lo hi ls0 ls2 :
  kv_rep h ls s -> descends fuel h s ->
  leaf_found (view (bp (kdb s))) h (kroot s) None None ls ids k lf cs lo hi ls0 ls2 ->
  exists i pool p, FindLeaf fuel (bp (kdb s)) (kroot s) k = (Ok i, pool) /\ at_leaf s pool lf i p cs.
Proof.
  intros [Hinv Hidle Hfr _ _] [Hh Hcan] [Hpath Hleaf _ _ _ _ _ _].
  destruct (FindLeaf_total fuel h (bp (kdb s)) (kroot s) k lf ∅ Hinv Hpath) as (i & pool & E).
  { intros id. rewrite Hidle. lia. }
  { rewrite size_empty. lia. }
  { done. }
  { done. }
  pose proof (FindLeaf_spec fuel h _ _ k lf _ _ Hinv Hpath Hh E) as (Hi & U & Hn).
  pose proof (unchanged_pins _ _ _ (fun id => one (bool_decide (id = lf))) U
    ltac:(intros id; cbn; rewrite Hidle; lia)) as U'.
  destruct (frame_view pool lf i (un_inv _ _ _ U') Hi) as (p & Hp & Hid & Hv).
  assert (image_eq 0 (Data p) (view (bp (kdb s)) lf)) as Himg.
  { rewrite <- Hv. apply same_view_image; [apply U' | by eapply path_end]. }
  exists i, pool, p. split; [done|]. destruct Hleaf as [L1 L2 L3 L4 L5]. split; try done.
  - by rewrite (PageType_header _ _ (image_header _ _ Himg)).
  - by apply (holds_image _ (view (bp (kdb s)) lf)).
Qed.

Lemma Get_run fuel h ls s k :
  kv_rep h ls s -> descends fuel h s ->
  exists s', Get fuel k s =
    (match tree_map ls !! k with Some v => Ok v | None => Err (Msg "key not found") end, s') /\
    kv_rep h ls s' /\ kv_frame ls s s'.
Proof.
  intros Hrep Hh. destruct (kv_find h ls s k Hrep) as (ids & lf & cs & lo & hi & ls0 & ls2 & Hfd & _).
  destruct (FindLeaf_run fuel h ls s ids k lf cs lo hi ls0 ls2 Hrep Hh Hfd) as (i & pool & p & E & [U Hi Hp Hid Ht Hcs]).
  unfold Get, find_leaf, with_pool, with_db, page_of, unpin, of_result, mbind, io_bind.
  cbn [kdb kroot bp set_bp]. rewrite E. cbn [kdb kroot bp set_bp]. rewrite Hp. cbn [kdb kroot bp set_bp].
  rewrite Hid, (leaf_lookup_spec _ cs), <- (found_lookup Hfd) by done.
  destruct (unpin_unchanged pool lf false) as [U2 _]; [apply U|rewrite (un_pins _ _ _ U); unfold one; by rewrite bool_decide_eq_true_2|].
  destruct (kv_rep_unchanged h ls s _ _ Hrep (unchanged_trans _ _ _ _ _ U U2)) as [Hrep' Hframe].
  { intros id. cbn. rewrite (un_pins _ _ _ U). lia. }
  eexists. split; [reflexivity|]. done.
Qed.

Lemma Delete_run fuel h ls s k :
  kv_rep h ls s -> descends fuel h s ->
  exists s' ls', Delete fuel k s =
    (match tree_map ls !! k with Some _ => Ok tt | None => Err (Msg "key not found") end, s') /\
    kv_rep h ls' s' /\ tree_map ls' = delete k (tree_map ls) /\ kv_frame ls s s'.
Proof.
  intros Hrep Hh. destruct (kv_find h ls s k Hrep) as (ids & lf & cs & lo & hi & ls0 & ls2 & Hfd & Hsub & Hnd).
  destruct (FindLeaf_run fuel h ls s ids k lf cs lo hi ls0 ls2 Hrep Hh Hfd) as (i & pool & p & E & [U Hi Hp Hid Ht Hcs]).
  unfold Delete, find_leaf, with_pool, with_db, page_of, of_result, mbind, io_bind.
  cbn [kdb kroot bp set_bp]. rewrite E. cbn [kdb kroot bp set_bp]. rewrite Hp. cbn [kdb kroot bp set_bp].
  pose proof (fd_leaf _ _ _ _ _ _ _ _ _ _ _ _ _ _ Hfd) as [_ _ _ Hsorted _].
  pose proof (delete_leaf_key_spec p cs k Hcs (keys_sorted_NoDup _ Hsorted)) as Hdel.
  rewrite <- (found_lookup Hfd) in Hdel. rewrite Hid. destruct (tree_map ls !! k) as [v|] eqn:Ek.
  - destruct Hdel as (p' & -> & Hsame & Hhd & Hcs'). unfold set_page, unpin, with_pool, with_db.
    cbn [kdb kroot bp set_bp of_error].
    eexists _, (ls0 ++ (lf, purged k cs) :: ls2). split; [reflexivity|].
    destruct (kv_rep_write_only h ls s ids k lf cs lo hi ls0 ls2 pool i p p' (purged k cs)) as [Hrep' Hframe]; try done.
    + by apply purged_sorted.
    + intros x (c & -> & [_ Hc]%list_elem_of_filter)%list_elem_of_fmap. left. by apply list_elem_of_fmap_2.
    + split; [done|]. split; [|done]. apply (found_delete Hfd). apply leaf_map_purged.
  - rewrite Hdel. unfold set_page, unpin, with_pool, with_db. cbn [kdb kroot bp set_bp of_error].
    eexists _, (ls0 ++ (lf, cs) :: ls2). split; [reflexivity|].
    destruct (kv_rep_write_only h ls s ids k lf cs lo hi ls0 ls2 pool i p p cs) as [Hrep' Hframe]; try done.
    + intros x Hx. by left.
    + split; [done|]. split; [|done]. rewrite delete_id by done. by rewrite (fd_leaves _ _ _ _ _ _ _ _ _ _ _ _ _ _ Hfd).
Qed.

(** A leaf that is written and given back is the only page that becomes dirty. *)
Lemma write_unpin_count (pool : BufferPool D LRUEvictionPolicy) lf i p' :
  let pool' := UnpinPage (update_frame i (fun _ => p') pool) lf true in
  pool_inv ∅ pool -> pool_inv ∅ pool' -> pageTable pool !! lf = Some i -> dirty_count pool' <= dirty_count pool + 1.
Proof.
  intros pool' Hinv Hinv' Hi. apply (dirty_count_incl ∅ ∅ pool pool' [i] Hinv Hinv'). intros j Hj.
  destruct (decide (j = i)) as [->|Hne]; [left; by apply list_elem_of_singleton|right].
  apply (dirty_frames_in ∅ _) in Hj as (id' & q & Hid & Hq & Hd); [|done]. apply (dirty_frames_in ∅ pool); [done|].
  unfold pool', UnpinPage in Hid, Hq. cbn [pageTable update_frame set_frames] in Hid, Hq. rewrite Hi in Hid, Hq.
  rewrite !lookup_update_frame, !decide_False in Hq by done. by exists id', q.
Qed.

Lemma Delete_dirt fuel h ls s k r s' :
  kv_rep h ls s -> descends fuel h s -> Delete fuel k s = (r, s') ->
  dirty_count (bp (kdb s')) <= dirty_count (bp (kdb s)) + 1.
Proof.
  intros Hrep Hh Ed. destruct (kv_find h ls s k Hrep) as (ids & lf & cs & lo & hi & ls0 & ls2 & Hfd & Hsub & Hnd).
  destruct (Delete_run fuel h ls s k Hrep Hh) as (s1 & ls1 & Ed' & [Hinv' _ _ _ _] & _).
  rewrite Ed in Ed'. injection Ed' as _ ->.
  destruct (FindLeaf_run fuel h ls s ids k lf cs lo hi ls0 ls2 Hrep Hh Hfd) as (i & pool & p & E & [U Hi Hp Hid _ _ Hn]).
  revert Ed. unfold Delete, find_leaf, with_pool, with_db, page_of, of_result, mbind, io_bind.
  cbn [kdb kroot bp set_bp]. rewrite E. cbn [kdb kroot bp set_bp]. rewrite Hp. cbn [kdb kroot bp set_bp]. rewrite Hid.
  destruct (delete_leaf_key p k) as [p' err]. unfold set_page, unpin, with_pool, with_db. cbn [kdb kroot bp set_bp].
  intros [= _ <-]. cbn [kdb kroot bp set_bp] in *.
  pose proof (write_unpin_count pool lf i p' (un_inv _ _ _ U) Hinv' Hi). lia.
Qed.
End Operations.
