(* ===== verification/PoolTrace.v ===== *)
(** The pool in the middle of an operation that holds several pages: what every
    page shows, who is pinned, where the next page is allocated and how many
    pages are dirty, and how the steps of the tree's split change it. *)

From Stdlib Require Import Strings.Byte.
From stdpp Require Import functions.
From S2P Require Import Common.
From S2P Require Import Prelude.
From S2P Require Import VFS.
From S2P Require Import LRU.
From S2P Require Import Page.
From S2P Require Import Telemetry.
From S2P Require Import BufferPool.
From S2P Require Import PoolInv.
From S2P Require Import PoolOps.
From S2P Require Import PoolPins.
From S2P Require Import PoolLatch.
From S2P Require Import PoolAlloc.
From S2P Require Import BTreePage.
From S2P Require Import BTreeSpec.
From S2P Require Import KVSpec.

Section Trace.
Context {D : Type} `{DS : BlockDeviceSpec D} `{RD : !ReliableDevice D} `{MR : MapRange}.
Implicit Types bp : BufferPool D LRUEvictionPolicy.

(** The pages [held], each pinned once, may be under modification; [pg] is what
    the pages show, [n] the id of the next new page, [c] a bound of the dirty pages and
    [L] the number of frames. *)
Record pool_at (held : gset PageID) (pg : PageID -> mem) (n : PageID) (c : Z) (L : nat) bp : Prop := {
  pa_inv : pool_inv held bp;
  pa_view : forall id, page_eqv id (view bp id) (pg id);
  pa_pins : forall id, pins bp id = one (bool_decide (id ∈ held));
  pa_frames : length (frames bp) = L;
  pa_inside : inside bp;
  pa_next : next_page bp = n;
  pa_dirt : dirty_count bp <= c
}.

(** Pages keep their frames while they are held. *)
Definition keeps_frames (held : gset PageID) bp bp' : Prop :=
  forall id i, id ∈ held -> pageTable bp !! id = Some i -> pageTable bp' !! id = Some i.

Lemma pool_at_may held pg n c L bp latches :
  pool_at held pg n c L bp -> 5 * c < 4 * Z.of_nat L -> may_fetch latches bp.
Proof. intros [_ _ _ HL _ _ Hc] Hs. right. unfold slack, zlen. rewrite HL. lia. Qed.

Lemma held_pins held pg n c L bp id : pool_at held pg n c L bp -> 0 < pins bp id <-> id ∈ held.
Proof. intros Hat. rewrite (pa_pins _ _ _ _ _ _ Hat id). unfold one. by case_bool_decide. Qed.

Lemma pins_add (held : gset PageID) id id' :
  id ∉ held -> one (bool_decide (id' ∈ held)) + (if decide (id' = id) then 1 else 0) = one (bool_decide (id' ∈ {[id]} ∪ held)).
Proof.
  intros Hn. unfold one. destruct (decide (id' = id)) as [->|Hne].
  - by rewrite bool_decide_eq_false_2, bool_decide_eq_true_2 by set_solver.
  - rewrite (bool_decide_ext (id' ∈ {[id]} ∪ held) (id' ∈ held)) by set_solver. lia.
Qed.

Lemma pins_sub (held : gset PageID) id id' :
  id ∈ held -> one (bool_decide (id' ∈ held)) - (if decide (id' = id) then 1 else 0) = one (bool_decide (id' ∈ held ∖ {[id]})).
Proof.
  intros Hn. unfold one. destruct (decide (id' = id)) as [->|Hne].
  - by rewrite bool_decide_eq_true_2, bool_decide_eq_false_2 by set_solver.
  - rewrite (bool_decide_ext (id' ∈ held ∖ {[id]}) (id' ∈ held)) by set_solver. lia.
Qed.

(** A page that is not held is fetched. *)
Lemma fetch_at held pg n c L bp id :
  pool_at held pg n c L bp -> id ∉ held -> on_disk (disk bp) id -> (base.size held < L)%nat ->
  exists i bp', FetchPage bp id = (Ok i, bp') /\ pageTable bp' !! id = Some i /\
    pool_at ({[id]} ∪ held) pg n c L bp' /\ keeps_frames held bp bp'.
Proof.
  intros Hat Hn Hon Hroom. pose proof Hat as [Hinv Hv Hp HL Hin Hnx Hc]. pose proof Hon as [Hok _].
  destruct (FetchPage_room held bp id held Hinv Hok) as (i & bp' & Hf); [by intros id' ?%(held_pins _ _ _ _ _ _ _ Hat)|lia|].
  exists i, bp'. split; [done|]. pose proof (FetchPage_spec held bp id _ bp' Hinv Hok Hf) as (Hinv' & Hv' & Hi & _).
  split; [done|]. pose proof (FetchPage_pins held bp id _ bp' Hinv Hok Hf) as Hp'. cbn in Hp'.
  assert (forall id', pins bp' id' = one (bool_decide (id' ∈ {[id]} ∪ held))) as Hp2.
  { intros id'. by rewrite Hp', Hp, pins_add. }
  split; [split|].
  - apply busy_pins; [done|]. rewrite Hp2. unfold one. by rewrite bool_decide_eq_true_2 by set_solver.
  - intros id'. by rewrite (Hv' id').
  - done.
  - by rewrite (FetchPage_length held bp id _ bp' Hinv Hf).
  - by apply (FetchPage_inside held bp id i bp').
  - unfold next_page in *. by rewrite (FetchPage_size bp id _ bp' Hin Hok Hf).
  - pose proof (FetchPage_count held bp id i bp' Hinv Hok Hf). lia.
  - intros id' j Hid' Hj. apply (FetchPage_keeps_frame held bp id i bp'); try done. by apply (held_pins _ _ _ _ _ _ _ Hat).
Qed.

(** A held page gets new contents in its frame. *)
Lemma store_at held pg n c L bp id i p p' :
  pool_at held pg n c L bp -> id ∈ held -> pageTable bp !! id = Some i -> frames bp !! i = Some p -> same_frame p p' ->
  pool_at held (<[id := Data p']> pg) n c L (update_frame i (fun _ => p') bp).
Proof.
  intros [Hinv Hv Hp HL Hin Hnx Hc] HX Hi Hpi (Hid & Hpin & Hd).
  set (f := fun q => set_version (MemVersion p') (set_Data q (Data p'))).
  assert (update_frame i (fun _ => p') bp = update_frame i f bp) as ->.
  { unfold update_frame. rewrite !(alter_insert _ i _ p Hpi). unfold f, set_version, set_Data. cbn.
    rewrite <- Hid, <- Hpin, <- Hd. by destruct p'. }
  destruct (inv_modify held bp id i (Data p') Hinv Hi HX) as (M1 & M2 & M3). set (bp1 := update_frame i _ bp) in *.
  assert (update_frame i f bp = update_frame i (set_version (MemVersion p')) bp1) as E.
  { unfold bp1, update_frame, set_frames, f. cbn. f_equal.
    apply list_eq. intros j. destruct (decide (i = j)) as [->|]; [by rewrite !list_lookup_alter_eq, Hpi|by rewrite !list_lookup_alter_ne]. }
  destruct (inv_update_frame held bp1 i (set_version (MemVersion p'))) as [N1 N2]; [done| | |].
  { intros q Hq. split; [done|]. exact (inv_pins _ _ M1 i q Hq). }
  { intros q Hq Ht. split_and!; try done. intros Hq'. destruct (inv_busy _ _ M1 _ Hq') as (j & q2 & Hj & Hq2 & Hpos).
    rewrite Hj in Ht. injection Ht as ->. rewrite Hq in Hq2. by simplify_eq. }
  rewrite <- E in N1, N2. split.
  - done.
  - intros id'. rewrite (N2 id'). destruct (decide (id = id')) as [<-|Hne].
    + by rewrite M2, fn_lookup_insert.
    + by rewrite M3, fn_lookup_insert_ne.
  - intros id'. by rewrite update_frame_pins.
  - cbn. by rewrite length_alter.
  - eapply (inside_step bp _ i f); done.
  - done.
  - enough (dirty_count (update_frame i f bp) <= dirty_count bp) by lia.
    apply (dirt_kept_count held held); [done..|]. by apply (dirt_update _ _ i f).
Qed.

(** A new page: the next one is behind it. *)
Lemma alloc_at held pg n c L bp latches :
  pool_at held pg n c L bp -> n ∉ held -> page_id_ok n -> may_fetch latches bp -> (base.size held < L)%nat ->
  exists i d bp', NewPage latches bp = (Ok i, bp') /\ pageTable bp' !! n = Some i /\
    pool_at ({[n]} ∪ held) (<[n := d]> pg) (n + 1) c L bp' /\ keeps_frames held bp bp'.
Proof.
  intros Hat Hn Hok Hmay Hroom. pose proof Hat as [Hinv Hv Hp HL Hin Hnx Hc].
  destruct (NewPage_run latches held bp held Hinv Hin) as (i & bp' & E & [A1 A2 A3 A4 A5 A6 A7 A8 A9]);
    [by rewrite Hnx|done|by intros id' ?%(held_pins _ _ _ _ _ _ _ Hat)|lia|]. rewrite Hnx in *.
  exists i, (view bp' n), bp'. split; [done|]. split; [done|]. split; [split; try done|].
  - intros id. destruct (decide (n = id)) as [<-|Hne]; [by rewrite fn_lookup_insert|].
    rewrite fn_lookup_insert_ne, (A3 id) by done. apply Hv.
  - intros id. by rewrite A4, Hp, pins_add.
  - congruence.
  - lia.
  - intros id j Hid Hj. apply A6; [done|]. by apply (held_pins _ _ _ _ _ _ _ Hat).
Qed.

(** A held page is given back, dirty. *)
Lemma unpin_at held pg n c L bp id :
  pool_at held pg n c L bp -> id ∈ held -> pool_at (held ∖ {[id]}) pg n (c + 1) L (UnpinPage bp id true) /\
  pageTable (UnpinPage bp id true) = pageTable bp.
Proof.
  intros Hat HX. pose proof Hat as [Hinv Hv Hp HL Hin Hnx Hc].
  destruct (inv_busy _ _ Hinv id HX) as (i & p & Hi & Hpi & Hpos).
  destruct (inv_finish held bp id i p Hinv Hi Hpi ltac:(lia)) as [Hinv' Hv'].
  destruct (UnpinPage_inside bp id true Hin) as [Hsz Hin'].
  split; [split; try done|unfold UnpinPage; by rewrite Hi].
  - intros id'. by rewrite (Hv' id').
  - intros id'. rewrite (UnpinPage_pins held bp id true Hinv) by by apply (held_pins _ _ _ _ _ _ _ Hat).
    by rewrite Hp, pins_sub.
  - by rewrite UnpinPage_frames.
  - unfold next_page in *. by rewrite Hsz.
  - pose proof (UnpinPage_count held _ bp id true Hinv Hinv') as Hn. cbn in Hn. lia.
Qed.

(** The frame of a held page. *)
Lemma held_frame held pg n c L bp id i :
  pool_at held pg n c L bp -> pageTable bp !! id = Some i ->
  exists p, frames bp !! i = Some p /\ ID p = id /\ page_eqv id (Data p) (pg id).
Proof.
  intros [Hinv Hv _ _ _ _ _] Hi. destruct (inv_table _ _ Hinv id i Hi) as (_ & p & Hp & Hid).
  exists p. split; [done|]. split; [done|]. rewrite <- (view_cached bp id i p Hi Hp). apply Hv.
Qed.
End Trace.
