(* ===== verification/KVPut.v ===== *)
(** Insertion into the key-value store: the optimistic path when the leaf has
    room, and the pessimistic path when it has room once the key's old cell is
    gone. *)

From Stdlib Require Import Strings.Byte.
From stdpp Require Import sorting.
From S2P Require Import Common.
From S2P Require Import Prelude.
From S2P Require Import VFS.
From S2P Require Import LRU.
From S2P Require Import Page.
From S2P Require Import Slotted.
From S2P Require Import Telemetry.
From S2P Require Import BufferPool.
From S2P Require Import PoolInv.
From S2P Require Import PoolOps.
From S2P Require Import PoolPins.
From S2P Require Import PoolLatch.
From S2P Require Import WAL.
From S2P Require Import DBPage.
From S2P Require Import DB.
From S2P Require Import BTreePage.
From S2P Require Import BTreeNode.
From S2P Require Import BTree.
From S2P Require Import BTreeSpec.
From S2P Require Import BTreeLocked.
From S2P Require Import KVRecover.
From S2P Require Import KVStore.
From S2P Require Import KVSpec.

Section Put.
Context {D : Type} `{DS : BlockDeviceSpec D} `{RD : !ReliableDevice D} `{MR : MapRange}.
Implicit Types s : BTreeKVStore D LRUEvictionPolicy.

Lemma same_frame_holder p p' : same_frame p p' -> same_holder p p'.
Proof. by intros (? & ? & _). Qed.

Lemma leaf_put_keys k v cs x : x ∈ (leaf_put k v cs).*1 -> x ∈ cs.*1 \/ x = k.
Proof.
  assert (forall x, x ∈ (purged k cs).*1 -> x ∈ cs.*1) as Hp.
  { intros y (c & -> & [_ Hc]%list_elem_of_filter)%list_elem_of_fmap. by apply list_elem_of_fmap_2. }
  unfold leaf_put. destruct (leaf_fits k v (purged k cs)); [|auto].
  rewrite (place_perm k v (purged k cs)). cbn. rewrite elem_of_cons. naive_solver.
Qed.

Lemma kv_outside_trans ls s1 s2 s3 : kv_outside ls s1 s2 -> kv_outside ls s2 s3 -> kv_outside ls s1 s3.
Proof.
  intros [A1 [A2 A3] A5 A4] [B1 [B2 B3] B5 B4]. split; [congruence | split; congruence | congruence|].
  intros id Hid. by rewrite (B4 id Hid), (A4 id Hid).
Qed.

Lemma kv_frame_trans ls s1 s2 s3 : kv_frame ls s1 s2 -> kv_frame ls s2 s3 -> kv_frame ls s1 s3.
Proof. intros [A1 A2] [B1 B2]. split; [by eapply kv_outside_trans | auto]. Qed.

(** The room test of [Insert], before the old cell is purged. *)
Lemma room_test d cs k v :
  Node.PageType d = PageTypeLeaf -> leaf_holds d cs -> zlen k + zlen v < 2 ^ 31 ->
  IsSafeForInsert d (u32 (4 + zlen k + zlen v)) = leaf_fits k v cs.
Proof.
  intros Ht Hh Hkv. pose proof (zlen_nonneg k). pose proof (zlen_nonneg v).
  rewrite (u32_small (4 + _ + _)) by lia. rewrite (IsSafeForInsert_leaf d cs) by done.
  pose proof (nh_room _ _ _ Hh) as Hroom. pose proof (zlen_nonneg (encs leaf_format cs)).
  unfold PageSize, BTreeHeaderSize in *. by rewrite u32_small by (unfold PageSize, BTreeHeaderSize in *; lia).
Qed.

(** A leaf with room before the purge has room after it. *)
Lemma fits_purged k v cs : leaf_fits k v cs = true -> leaf_fits k v (purged k cs) = true.
Proof.
  unfold leaf_fits. rewrite !Z.ltb_lt. assert (zlen (encs leaf_format (purged k cs)) <= zlen (encs leaf_format cs)); [|lia].
  unfold purged. induction cs as [|c cs IH]; [done|]. rewrite filter_cons. unfold encs in *. cbn [fmap list_fmap concat].
  pose proof (zlen_nonneg (enc leaf_format c)).
  case_decide; cbn [fmap list_fmap concat]; rewrite ?zlen_app; lia.
Qed.

(** The leaf is written, and it and the pages above it that the descent still
    holds are given back. *)
Lemma write_release bp lf j p p' anc aids :
  pool_inv ∅ bp -> frames_of bp (j :: anc) (lf :: aids) -> NoDup (lf :: aids) ->
  (forall id, pins bp id = held_by (lf :: aids) id) -> frames bp !! j = Some p -> ID p = lf -> same_holder p p' ->
  unchanged (UnpinPage (update_frame j (fun _ => p') bp) lf true)
    (releaseAncestors (update_frame j (fun _ => p') bp) (j :: anc)) (fun _ => 0).
Proof.
  intros Hinv [Hj Hanc]%Forall2_cons [Hni Hnd]%NoDup_cons Hpins Hp Hid Hsh.
  assert (0 < PinCount p) as Hpin.
  { rewrite <- (pins_cached bp lf j p), Hpins by done. unfold held_by, one. by rewrite bool_decide_eq_true_2 by left. }
  destruct (write_unpin bp lf j p p' Hinv Hj Hp Hpin Hsh) as (W1 & _ & _ & W4 & _).
  set (bp3 := UnpinPage (update_frame j (fun _ => p') bp) lf true) in *.
  assert (releaseAncestors (update_frame j (fun _ => p') bp) (j :: anc) = releaseAncestors bp3 anc) as ->.
  { unfold releaseAncestors. cbn [fold_left]. f_equal. unfold bp3. f_equal. unfold frame_id. cbn.
    rewrite list_lookup_alter_eq, Hp. cbn. destruct Hsh as [-> _]. done. }
  assert (forall id, pins bp3 id = one (bool_decide (id ∈ aids))) as Hp3.
  { intros id. rewrite W4, Hpins. unfold held_by, one. destruct (decide (id = lf)) as [->|Hne].
    - rewrite (bool_decide_eq_true_2 (lf ∈ lf :: aids)), (bool_decide_eq_true_2 (lf = lf)),
        (bool_decide_eq_false_2 (lf ∈ aids)) by (done || left). done.
    - rewrite (bool_decide_eq_false_2 (id = lf)) by done.
      rewrite (bool_decide_ext (id ∈ lf :: aids) (id ∈ aids)) by set_solver. lia. }
  destruct (releaseAncestors_spec bp3 anc aids W1) as [U3 _]; [|done| |].
  { eapply frames_of_table; [|exact Hanc]. unfold bp3, UnpinPage. cbn. by rewrite Hj. }
  { intros id Hid'. rewrite Hp3. unfold one. by rewrite bool_decide_eq_true_2. }
  eapply unchanged_pins; [exact U3|]. intros id. cbn. rewrite Hp3. lia.
Qed.

(** The pessimistic path: the leaf is written and the pages above it that the
    descent still holds are given back. *)
Lemma pessimistic_run fuel h ls s k v ids lf cs lo hi ls0 ls2 :
  kv_rep h ls s -> descends fuel h s -> zlen k + zlen v < 2 ^ 31 ->
  subtree (view (bp (kdb s))) h (kroot s) None None ls ids -> NoDup ids ->
  leaf_found (view (bp (kdb s))) h (kroot s) None None ls ids k lf cs lo hi ls0 ls2 ->
  leaf_fits k v (purged k cs) = true ->
  exists pool, pessimisticInsert fuel (mkBTree (bp (kdb s)) (kroot s)) k v = (Ok tt, mkBTree pool (kroot s)) /\
    kv_rep h (ls0 ++ (lf, leaf_put k v cs) :: ls2) (with_pool_of pool s) /\ kv_frame ls s (with_pool_of pool s).
Proof.
  intros Hrep [Hh Hcan] Hkv Hsub Hnd Hfd Hfit. pose proof Hrep as [Hinv Hidle Hfr _ _].
  pose proof (fd_path _ _ _ _ _ _ _ _ _ _ _ _ _ _ Hfd) as Hpath.
  pose proof (fd_leaf _ _ _ _ _ _ _ _ _ _ _ _ _ _ Hfd) as Hleaf.
  destruct (path_root _ _ _ _ _ Hpath) as [Hok _].
  unfold pessimisticInsert. cbn [tbp rootID].
  destruct (FetchPage_room ∅ (bp (kdb s)) (kroot s) ∅ Hinv Hok) as (i & bp1 & Hf);
    [intros id; rewrite Hidle; lia | rewrite size_empty; lia|].
  rewrite Hf. destruct (fetch_unchanged _ _ i bp1 Hinv Hok Hf) as (U1 & Hi & _).
  pose proof U1 as [Hinv1 Hv1 Hlen1 Hpins1].
  destruct (subtree_visits _ _ _ _ _ _ _ k Hsub ltac:(done) Hnd) as (vs & Hvis & Hndv & _).
  destruct (descend_locked_run fuel h bp1 (kroot s) i k lf [] [] vs (u32 (4 + zlen k + zlen v)))
    as (j & anc & aids & bp2 & E & U2 & Hfr2 & Hnd2 & _); [split; try done|done|].
  { by apply (path_same_view (bp (kdb s))). }
  { eapply visits_ext; [|exact Hvis]. intros id Hid. by apply same_view_image. }
  { by constructor. }
  { apply NoDup_singleton. }
  { intros v' _. apply not_elem_of_nil. }
  { intros id. rewrite Hpins1, Hidle. unfold held_by, one.
    rewrite (bool_decide_ext (id ∈ [kroot s]) (id = kroot s)) by apply list_elem_of_singleton. lia. }
  { rewrite Hlen1. cbn [length]. lia. }
  { destruct Hcan as [?|Hs]; [by left|right]. by apply (FetchPage_slack ∅ h (bp (kdb s)) (kroot s) i). }
  rewrite E. pose proof (unchanged_trans _ _ _ _ _ U1 U2) as U. pose proof U2 as [Hinv2 _ _ Hpins2].
  pose proof Hfr2 as [Hj Hanc]%Forall2_cons. destruct (frame_view bp2 lf j Hinv2 Hj) as (p & Hp & Hid & Hview).
  rewrite Hp. assert (image_eq 0 (Data p) (view (bp (kdb s)) lf)) as Himg.
  { rewrite <- Hview. apply same_view_image; [apply U | by eapply path_end]. }
  destruct Hleaf as [_ L2 L3 L4 _].
  destruct (insertIntoLeaf_holds p cs k v) as (p' & Ei & Hsf & Hhd & Hcs');
    [by rewrite (PageType_header _ _ (image_header _ _ Himg)) | by apply (holds_image _ (view (bp (kdb s)) lf)) | done|].
  rewrite Ei, Hfit. cbn [tbp rootID]. pose proof (same_frame_holder _ _ Hsf) as Hsh.
  eexists. split; [reflexivity|].
  apply (kv_rep_write h ls s ids k lf cs lo hi ls0 ls2 bp2 _ j p p' (leaf_put k v cs) _ Hrep Hsub Hnd Hfd U); try done.
  - unfold held_by, one. by rewrite bool_decide_eq_true_2 by left.
  - by apply leaf_put_sorted.
  - apply leaf_put_keys.
  - by apply (write_release bp2 lf j p p' anc aids).
Qed.

(** ** The leaf of a key *)

Lemma path_det pg x h id lf lf' : path pg x h id lf -> path pg x h id lf' -> lf = lf'.
Proof.
  intros Hp. revert lf'. induction Hp as [id Hpg Ht|h id lf seps Hpg Ht Hh _ IH]; intros lf' Hp'.
  { by inversion Hp'. }
  inversion Hp' as [|h' id' lf'' seps' _ _ Hh' Hp'']; subst. apply IH.
  by rewrite <- (findChild_spec _ _ _ Hh), (findChild_spec _ _ _ Hh').
Qed.

(** The leaf the tree sends [k] to has room for the cell once the key's old cell
    is gone. *)
Definition room_for h (ls : leaves) s (k v : bytes) : Prop :=
  exists lf cs, path (view (bp (kdb s))) k h (kroot s) lf /\ (lf, cs) ∈ ls /\ leaf_fits k v (purged k cs) = true.

Lemma kv_find_room h ls s k v :
  kv_rep h ls s -> room_for h ls s k v ->
  exists ids lf cs lo hi ls0 ls2,
    leaf_found (view (bp (kdb s))) h (kroot s) None None ls ids k lf cs lo hi ls0 ls2 /\
    subtree (view (bp (kdb s))) h (kroot s) None None ls ids /\ NoDup ids /\
    leaf_fits k v (purged k cs) = true.
Proof.
  intros Hrep (lf & cs & Hpath & Hin & Hfit).
  destruct (kv_find h ls s k Hrep) as (ids & lf' & cs' & lo & hi & ls0 & ls2 & Hfd & Hsub & Hnd).
  exists ids, lf', cs', lo, hi, ls0, ls2. split; [done|]. split; [done|]. split; [done|].
  destruct (path_det _ _ _ _ _ _ Hpath (fd_path _ _ _ _ _ _ _ _ _ _ _ _ _ _ Hfd)).
  enough (cs = cs') as <- by done.
  assert (NoDup ls.*1) as Hnd' by (eapply sublist_NoDup; [exact Hnd|by eapply subtree_leaves]).
  assert ((lf, cs') ∈ ls) as Hin'.
  { rewrite (fd_leaves _ _ _ _ _ _ _ _ _ _ _ _ _ _ Hfd). apply elem_of_app. right. left. }
  apply (elem_of_list_to_map_1 (M := gmap PageID)) in Hin, Hin'; [|done..]. congruence.
Qed.

Lemma Insert_run fuel h ls s k v :
  kv_rep h ls s -> descends fuel h s -> zlen k + zlen v < 2 ^ 31 -> room_for h ls s k v ->
  exists pool ls', Insert fuel (mkBTree (bp (kdb s)) (kroot s)) k v = (Ok tt, mkBTree pool (kroot s)) /\
    kv_rep h ls' (with_pool_of pool s) /\ tree_map ls' = <[k := v]> (tree_map ls) /\
    kv_frame ls s (with_pool_of pool s).
Proof.
  intros Hrep Hh Hkv Hroom.
  destruct (kv_find_room h ls s k v Hrep Hroom) as (ids & lf & cs & lo & hi & ls0 & ls2 & Hfd & Hsub & Hnd & Hfit).
  destruct (FindLeaf_run fuel h ls s ids k lf cs lo hi ls0 ls2 Hrep Hh Hfd) as (i & pool & p & E & [U Hi Hp Hid Ht Hcs Hn]).
  pose proof (fd_leaf _ _ _ _ _ _ _ _ _ _ _ _ _ _ Hfd) as [_ _ _ Hsorted _].
  assert (tree_map (ls0 ++ (lf, leaf_put k v cs) :: ls2) = <[k := v]> (tree_map ls)) as Emap.
  { apply (found_insert Hfd). rewrite leaf_put_map by done. by rewrite Hfit. }
  unfold Insert. cbn [tbp rootID]. rewrite E, Hp, Hid, (room_test _ cs) by done.
  destruct (leaf_fits k v cs).
  - destruct (insertIntoLeaf_holds p cs k v Ht Hcs Hkv) as (p' & Ei & Hsf & Hhd & Hcs').
    rewrite Ei, Hfit. cbn [of_error]. eexists _, _. split; [reflexivity|].
    destruct (kv_rep_write_only h ls s ids k lf cs lo hi ls0 ls2 pool i p p' (leaf_put k v cs)) as [Hr Hf]; try done.
    + by apply same_frame_holder.
    + by apply leaf_put_sorted.
    + intros x. apply leaf_put_keys.
  - destruct (unpin_unchanged pool lf false) as [U2 _]; [apply U|rewrite (un_pins _ _ _ U); unfold one; by rewrite bool_decide_eq_true_2|].
    pose proof (unchanged_trans _ _ _ _ _ U U2) as U3.
    set (pool1 := UnpinPage pool lf false) in *. set (s1 := with_pool_of pool1 s).
    destruct (kv_rep_unchanged h ls s _ _ Hrep U3) as [Hrep1 Hfr1]; [intros id; cbn; rewrite (un_pins _ _ _ U); lia|].
    assert (room_for h ls s1 k v) as Hroom1.
    { destruct Hroom as (lf' & cs' & Hpath & Hin & Hf'). exists lf', cs'. split; [|done].
      apply (path_same_view (bp (kdb s))); [apply U3|done]. }
    assert (descends fuel h s1) as Hh1.
    { pose proof (UnpinPage_count ∅ ∅ pool lf false (un_inv _ _ _ U) (un_inv _ _ _ U3)) as Hn1. cbn in Hn1.
      destruct Hh as [Hh [?|Hs]]; (split; [done|]); [by left|right].
      apply (slack_fewer h (bp (kdb s))); [cbn; unfold pool1; lia|apply U3|done]. }
    destruct (kv_find_room h ls s1 k v Hrep1 Hroom1)
      as (ids' & lf' & cs' & lo' & hi' & ls0' & ls2' & Hfd' & Hsub' & Hnd' & Hfit').
    destruct (pessimistic_run fuel h ls s1 k v ids' lf' cs' lo' hi' ls0' ls2') as (pool2 & E2 & Hr & Hf); try done.
    exists pool2, (ls0' ++ (lf', leaf_put k v cs') :: ls2'). split; [exact E2|]. split; [done|].
    pose proof (fd_leaf _ _ _ _ _ _ _ _ _ _ _ _ _ _ Hfd') as [_ _ _ Hsorted' _].
    split; [|by apply (kv_frame_trans ls s s1)].
    apply (found_insert Hfd'). rewrite leaf_put_map by done. by rewrite Hfit'.
Qed.

(** ** The store's insertion *)

(** The keys [Put] flushes at once. *)
Definition durable_key (k : bytes) : bool :=
  isDurableIdentityKey k || has_prefix k (str "data:session:") || has_prefix k (str "mail:").

(** Every pool opened on the store's device shows the tree [ls], whatever its
    size, policy and metrics. *)
Definition on_device h (ls : leaves) s : Prop :=
  forall n ev m db, policy_ok ev -> tracked ev = ∅ -> (h + 3 <= n)%nat ->
    kv_rep (P := LRUEvictionPolicy) h ls
      (mkKV (set_bp (NewBufferPool (disk (bp (kdb s))) n ev m) db) (kroot s)).

Lemma NewBufferPool_idle (dev : D) n (ev : LRUEvictionPolicy) m id : pins (NewBufferPool dev n ev m) id = 0.
Proof. unfold pins. cbn. by rewrite lookup_empty. Qed.

Lemma Flush_run h ls s :
  kv_rep h ls s ->
  exists r s', Flush s = (r, s') /\ returns r = true /\ kv_rep h ls s' /\ (forall l, kv_frame l s s') /\
    (r = Ok tt -> on_device h ls s').
Proof.
  intros Hrep. unfold Flush, with_pool, with_db.
  destruct (FlushAll (bp (kdb s))) as [r pool] eqn:E. exists r. eexists. split; [reflexivity|].
  destruct (FlushAll_spec ∅ _ r pool (kr_inv _ _ _ Hrep) E) as (Hr & Hinv & Hview & Hsh & Hp & _ & _).
  split; [done|]. assert (unchanged (bp (kdb s)) pool (fun _ => 0)) as U.
  { split; [done|done|apply Hsh|]. intros id. rewrite <- (kr_idle _ _ _ Hrep id). unfold pins.
    rewrite (shape_table _ _ Hsh). destruct (pageTable (bp (kdb s)) !! id) as [i|] eqn:Hi; [|done].
    destruct (inv_table _ _ (kr_inv _ _ _ Hrep) id i Hi) as (_ & p & Hpi & _).
    destruct (Hp i p Hpi) as (q & -> & _ & Hq). by rewrite Hpi. }
  destruct (kv_rep_unchanged h ls s pool _ Hrep U ltac:(done)) as [Hrep' _]. split; [done|].
  split; [intros l; split; [split; [done|done|apply Hsh|done]|intros ids; by apply tree_pages_view]|].
  intros -> n ev m db Hpo Htr Hn. cbn.
  destruct (flush_reopen _ pool n ev m (kr_inv _ _ _ Hrep) E Hpo Htr) as [Hinv2 Hv2].
  apply (kv_rep_view h ls s); [done..|apply NewBufferPool_idle|]. cbn. by rewrite repeat_length.
Qed.

Lemma Put_run fuel h ls s k v :
  kv_rep h ls s -> descends fuel h s -> zlen k + zlen v < 2 ^ 31 -> room_for h ls s k v ->
  exists r s' ls', Put fuel k v s = (r, s') /\ returns r = true /\
    kv_rep h ls' s' /\ tree_map ls' = <[k := v]> (tree_map ls) /\ kv_frame ls s s' /\
    if durable_key k then (r = Ok tt -> on_device h ls' s') else r = Ok tt.
Proof.
  intros Hrep Hh Hkv Hroom.
  destruct (Insert_run fuel h ls s k v Hrep Hh Hkv Hroom) as (pool & ls' & E & Hrep' & Emap & Hfr).
  unfold Put, with_tree, mbind, io_bind. rewrite E. cbn [tbp rootID]. fold (durable_key k).
  change (mkKV (set_bp pool (kdb s)) (kroot s)) with (with_pool_of pool s).
  destruct (durable_key k).
  - destruct (Flush_run h ls' _ Hrep') as (r & s' & Ef & Hr & Hrep2 & Hfr2 & Hdev).
    exists r, s', ls'. split; [done|]. split; [done|]. split; [done|]. split; [done|].
    split; [|done]. exact (kv_frame_trans _ _ _ _ Hfr (Hfr2 ls)).
  - eexists _, _, ls'. split; [reflexivity|]. done.
Qed.
End Put.
