(* ===== verification/KVProps.v ===== *)
(** The theorems of the key-value store: lookup, insertion, deletion and the
    reset of a root page, on any device without I/O errors. *)

From Stdlib Require Import Strings.Byte.
From stdpp Require Import sorting.
From S2P Require Import Common.
From S2P Require Import Prelude.
From S2P Require Import VFS.
From S2P Require Import LRU.
From S2P Require Import Page.
From S2P Require Import Slotted.
From S2P Require Import Telemetry.
From S2P Require Import BufferPool.
From S2P Require Import PoolInv.
From S2P Require Import PoolOps.
From S2P Require Import PoolPins.
From S2P Require Import PoolLatch.
From S2P Require Import WAL.
From S2P Require Import DBPage.
From S2P Require Import DB.
From S2P Require Import BTreePage.
From S2P Require Import BTreeNode.
From S2P Require Import BTree.
From S2P Require Import BTreeSpec.
From S2P Require Import BTreeLocked.
From S2P Require Import KVRecover.
From S2P Require Import KVStore.
From S2P Require Import KVSpec.
From S2P Require Import KVPut.

(** ** A reset root *)

Lemma resetBTreePage_spec d :
  Node.PageType (resetBTreePage d) = PageTypeLeaf /\ Node.NextLeafID (resetBTreePage d) = 0 /\
  leaf_holds (resetBTreePage d) [].
Proof.
  unfold resetBTreePage, Node.PageType, Node.NextLeafID. split; [|split; [|split]].
  - unfold Node.SetParentID, Node.SetNextLeafID, Node.SetNumCells, Node.SetPageType, BTreeHeaderSize, PageSize. by fields.
  - unfold Node.SetParentID, Node.SetNextLeafID, BTreeHeaderSize, PageSize. by fields.
  - unfold Node.NumCells, Node.SetParentID, Node.SetNextLeafID, Node.SetNumCells, BTreeHeaderSize, PageSize. by fields.
  - constructor.
  - done.
  - apply slice_nil. done.
Qed.

Section Store.
Context {D : Type} `{DS : BlockDeviceSpec D} `{RD : !ReliableDevice D} `{MR : MapRange}.
Implicit Types s : BTreeKVStore D LRUEvictionPolicy.

Lemma ResetBTreeRoot_run s :
  pool_inv ∅ (bp (kdb s)) -> (forall id, pins (bp (kdb s)) id = 0) -> (3 <= length (frames (bp (kdb s))))%nat ->
  tree_page (kroot s) ->
  exists r s', ResetBTreeRoot (kroot s) s = (r, s') /\ returns r = true /\
    kv_rep 0 [(kroot s, [])] s' /\ kv_outside [(kroot s, [])] s s' /\
    (r = Ok tt -> on_device 0 [(kroot s, [])] s').
Proof.
  intros Hinv Hidle Hlen Hpg. pose proof Hpg as [Hok _].
  unfold ResetBTreeRoot, claim_root, with_pool, with_db, page_of, set_page, unpin, try, mbind, io_bind, mret, io_ret.
  destruct (FetchPage_room ∅ (bp (kdb s)) (kroot s) ∅ Hinv Hok) as (i & pool & Hf);
    [intros id; rewrite Hidle; lia | rewrite size_empty; lia|].
  rewrite Hf. cbn [kdb kroot bp set_bp]. destruct (fetch_unchanged _ _ i pool Hinv Hok Hf) as ([U1 U2 U3 U4] & Hi & _).
  destruct (frame_view pool (kroot s) i U1 Hi) as (p & Hp & Hid & _). rewrite Hp, Hid. cbn [kdb kroot bp set_bp].
  unfold with_pool, with_db. cbn [kdb kroot bp set_bp].
  set (p' := set_dirty true (set_Data p (resetBTreePage (Data p)))).
  assert (0 < PinCount p) as Hpin.
  { rewrite <- (pins_cached pool (kroot s) i p), U4, Hidle by done. unfold one. by rewrite bool_decide_eq_true_2. }
  destruct (write_unpin pool (kroot s) i p p' U1 Hi Hp Hpin ltac:(done)) as (W1 & W2 & W3 & W4 & W5).
  set (pool' := UnpinPage _ _ _) in *. destruct (resetBTreePage_spec (Data p)) as (R1 & R2 & R3).
  assert (image_eq 0 (view pool' (kroot s)) (resetBTreePage (Data p))) as Himg by by apply (tree_page_image (kroot s)).
  assert (kv_rep 0 [(kroot s, [])] (with_pool_of pool' s)) as Hrep.
  { split; cbn; [done| |lia| |].
    - intros id. rewrite W4, U4, Hidle. lia.
    - exists [kroot s]. split; [|apply NoDup_singleton]. exists []. split; [|done].
      split; [done| |by apply (holds_image _ (resetBTreePage (Data p)))|constructor|constructor].
      by rewrite (PageType_header _ _ (image_header _ _ Himg)).
    - by rewrite (NextLeafID_header _ _ (image_header _ _ Himg)). }
  destruct (Flush_run 0 _ _ Hrep) as (r & s' & E & Hr & Hrep' & Hfr & Hdev). exists r, s'.
  split; [exact E|]. split; [done|]. split; [done|]. split; [|done].
  apply (kv_outside_trans _ s (with_pool_of pool' s)); [|apply Hfr]. split; [done|done|cbn; congruence|].
  intros id Hn. cbn. rewrite (W3 id), (U2 id); [done|]. intros ->. apply Hn. left.
Qed.

(** ** A flush that cannot fail *)

Lemma flush_frames_reliable l (pool : BufferPool D LRUEvictionPolicy) :
  (forall i, i ∈ l -> exists p, frames pool !! i = Some p /\ page_id_ok (ID p)) ->
  exists pool', flush_frames l None pool = (Ok None, pool').
Proof.
  revert pool. induction l as [|i l IH]; intros pool Hl; [by eexists|]. cbn [flush_frames].
  destruct (Hl i) as (p & Hp & Hok); [left|]. cbn [update_frame set_frames frames disk].
  rewrite list_lookup_alter_eq, Hp. cbn [fmap option_fmap option_map].
  destruct (WritePage_reliable (disk pool) (ID (stamp p)) (Data (stamp p))) as (dev & ->); [by rewrite stamp_ID|].
  apply IH. intros j Hj. destruct (Hl j) as (q & Hq & Hqok); [by right|]. cbn.
  destruct (decide (j = i)) as [->|Hne].
  - simplify_eq. rewrite !list_lookup_alter_eq, Hp. cbn. eexists. split; [done|]. cbn. by rewrite stamp_ID.
  - rewrite !list_lookup_alter_ne by done. eauto.
Qed.

Lemma Flush_reliable s :
  pool_inv ∅ (bp (kdb s)) -> (forall d : D, (Sync d).1 = None) -> exists s', Flush s = (Ok tt, s').
Proof.
  intros Hinv Hsync. unfold Flush, with_pool, with_db, FlushAll. set (pool1 := fold_left _ _ _).
  pose proof (pin_all_spec ∅ _ (bp (kdb s)) Hinv (NoDup_dirty_frames ∅ _ Hinv)) as (H1 & _ & H3 & _).
  destruct (flush_frames_reliable (dirty_frames (bp (kdb s))) pool1) as (pool2 & E).
  { intros i Hi. unfold dirty_frames in Hi. apply list_elem_of_filter in Hi as [_ Hi].
    apply list_elem_of_fmap in Hi as ((id & j) & -> & Hin). apply elem_of_range in Hin. cbn.
    rewrite <- (shape_table _ _ H3) in Hin. destruct (inv_table _ _ H1 id j Hin) as (Hok & p & Hp & <-). eauto. }
  rewrite E. destruct (Sync (disk pool2)) as [e dev] eqn:Es. pose proof (Hsync (disk pool2)) as Hn.
  rewrite Es in Hn. cbn in Hn. subst e. eauto.
Qed.

(** A flush that succeeds leaves nothing dirty. *)
Lemma Flush_clean s s' :
  pool_inv ∅ (bp (kdb s)) -> Flush s = (Ok tt, s') -> dirty_count (bp (kdb s')) = 0.
Proof.
  unfold Flush, with_pool, with_db. intros Hinv. destruct (FlushAll (bp (kdb s))) as [r pool] eqn:E. intros [= -> <-].
  destruct (FlushAll_spec ∅ _ _ pool Hinv E) as (_ & Hinv' & _ & _ & _ & _ & Hclean). cbn [kdb bp set_bp].
  unfold dirty_count. destruct (dirty_frames pool) as [|i l] eqn:El; [done|].
  assert (i ∈ dirty_frames pool) as (id & p & Hid & Hp & Hd)%(dirty_frames_in ∅) by (rewrite El; left || done); [|done].
  by rewrite (Hclean eq_refl id i p Hid Hp) in Hd.
Qed.

(** ** Operations *)

(** On a well-formed tree of any height, when the descent does not wait for
    itself, [Get] is the lookup of the map the tree stands for: it returns the value of the key, or the error for a key
    that is not there, whatever the descent evicts; the tree, the root and the
    transactions are as before and no page stays pinned. *)
Theorem Get_is_lookup fuel h ls s k :
  kv_rep h ls s -> descends fuel h s ->
  exists s', Get fuel k s =
    (match tree_map ls !! k with Some v => Ok v | None => Err (Msg "key not found") end, s') /\
    kv_rep h ls s' /\ kv_frame ls s s'.
Proof. apply Get_run. Qed.

(** C7: When the leaf has room for the cell (its old cell not counted), [Put]
    makes the tree stand for [<[k := v]>] of its map, on the optimistic and on
    the pessimistic path, and changes no page outside the tree's leaves.  In a
    tree of more than one page the pool must be below the flush threshold, as
    the flush would wait for the latches of the descent.  A key that is not durable is stored without a flush.  For a durable key - or a
    session or a mail - a [Put] that reports success has the whole tree on the
    device: every pool opened there shows it. *)
Theorem Put_inserts fuel h ls s k v :
  kv_rep h ls s -> descends fuel h s -> zlen k + zlen v < 2 ^ 31 -> room_for h ls s k v ->
  exists r s' ls', Put fuel k v s = (r, s') /\ returns r = true /\
    kv_rep h ls' s' /\ tree_map ls' = <[k := v]> (tree_map ls) /\ kv_frame ls s s' /\
    if durable_key k then (r = Ok tt -> on_device h ls' s') else r = Ok tt.
Proof. apply Put_run. Qed.

(** [Delete] removes the key from the map of the tree and reports a key that
    was not there; nothing else in the tree or outside it changes. *)
Theorem Delete_deletes fuel h ls s k :
  kv_rep h ls s -> descends fuel h s ->
  exists s' ls', Delete fuel k s =
    (match tree_map ls !! k with Some _ => Ok tt | None => Err (Msg "key not found") end, s') /\
    kv_rep h ls' s' /\ tree_map ls' = delete k (tree_map ls) /\ kv_frame ls s s'.
Proof. apply Delete_run. Qed.

(** [ResetBTreeRoot] on any contents of the page makes it the root of an
    empty tree and keeps every other page; when it reports success the empty
    tree is on the device. *)
Theorem ResetBTreeRoot_empties s :
  pool_inv ∅ (bp (kdb s)) -> (forall id, pins (bp (kdb s)) id = 0) -> (3 <= length (frames (bp (kdb s))))%nat ->
  tree_page (kroot s) ->
  exists r s', ResetBTreeRoot (kroot s) s = (r, s') /\ returns r = true /\
    kv_rep 0 [(kroot s, [])] s' /\ kv_outside [(kroot s, [])] s s' /\
    (r = Ok tt -> on_device 0 [(kroot s, [])] s').
Proof. apply ResetBTreeRoot_run. Qed.
End Store.

(** ** Sequences of operations *)

Inductive kv_op :=
| OpGet (k : bytes)
| OpPut (k v : bytes)
| OpDelete (k : bytes).

(** The abstract store: a finite map. *)
Definition map_op (op : kv_op) (m : gmap bytes bytes) : result bytes * gmap bytes bytes :=
  match op with
  | OpGet k => (match m !! k with Some v => Ok v | None => Err (Msg "key not found") end, m)
  | OpPut k v => (Ok [], <[k := v]> m)
  | OpDelete k => (match m !! k with Some _ => Ok [] | None => Err (Msg "key not found") end, delete k m)
  end.

Fixpoint map_ops (ops : list kv_op) (m : gmap bytes bytes) : list (result bytes) * gmap bytes bytes :=
  match ops with
  | [] => ([], m)
  | op :: ops => let '(r, m) := map_op op m in let '(rs, m) := map_ops ops m in (r :: rs, m)
  end.

(** The bytes the cells of a map take in a leaf. *)
Definition map_bytes (m : gmap bytes bytes) : Z := zlen (encs leaf_format (map_to_list m)).

(** Everything the sequence ever holds fits in one leaf. *)
Fixpoint stays_small (ops : list kv_op) (m : gmap bytes bytes) : Prop :=
  match ops with
  | [] => True
  | op :: ops => BTreeHeaderSize + map_bytes (map_op op m).2 < PageSize /\ stays_small ops (map_op op m).2
  end.

Section Sequence.
Context {D P : Type} `{BlockDevice D} `{EvictionPolicy P} `{MapRange}.
Implicit Types s : BTreeKVStore D P.

Definition run_op (fuel : nat) (op : kv_op) s : result bytes * BTreeKVStore D P :=
  match op with
  | OpGet k => Get fuel k s
  | OpPut k v => (_ ← Put fuel k v; mret []) s
  | OpDelete k => (_ ← Delete fuel k; mret []) s
  end.

Fixpoint run_ops (fuel : nat) (ops : list kv_op) s : list (result bytes) * BTreeKVStore D P :=
  match ops with
  | [] => ([], s)
  | op :: ops => let '(r, s) := run_op fuel op s in let '(rs, s) := run_ops fuel ops s in (r :: rs, s)
  end.
End Sequence.

(** ** The room a small map needs *)

Lemma encs_perm l1 l2 : l1 ≡ₚ l2 -> zlen (encs leaf_format l1) = zlen (encs leaf_format l2).
Proof.
  unfold encs. induction 1; cbn [fmap list_fmap concat]; rewrite ?zlen_app; lia.
Qed.

Lemma zlen_encs_app (l1 l2 : list (bytes * bytes)) :
  zlen (encs leaf_format (l1 ++ l2)) = zlen (encs leaf_format l1) + zlen (encs leaf_format l2).
Proof. unfold encs. by rewrite fmap_app, concat_app, zlen_app. Qed.

Lemma map_bytes_insert cs k v :
  NoDup cs.*1 -> map_bytes (<[k := v]> (leaf_map cs)) = 4 + zlen k + zlen v + zlen (encs leaf_format (purged k cs)).
Proof.
  intros Hnd. unfold map_bytes.
  rewrite <- insert_delete_eq, <- leaf_map_purged. change (<[k := v]> (leaf_map (purged k cs))) with (leaf_map ((k, v) :: purged k cs)).
  unfold leaf_map. rewrite (encs_perm _ ((k, v) :: purged k cs)).
  - unfold encs. cbn [fmap list_fmap concat]. rewrite zlen_app.
    cbn [enc leaf_format_spec]. rewrite zlen_leaf_enc. cbn [fst snd]. lia.
  - apply map_to_list_to_map. cbn. constructor; [apply purged_keys|].
    unfold purged. eapply sublist_NoDup; [exact Hnd|]. apply fmap_sublist, sublist_filter.
Qed.

Section Refinement.
Context {D : Type} `{DS : BlockDeviceSpec D} `{RD : !ReliableDevice D} `{MR : MapRange}.
Implicit Types s : BTreeKVStore D LRUEvictionPolicy.

Lemma small_room h ls s k v :
  kv_rep h ls s -> BTreeHeaderSize + map_bytes (<[k := v]> (tree_map ls)) < PageSize ->
  zlen k + zlen v < 2 ^ 31 /\ room_for h ls s k v.
Proof.
  intros Hrep Hsmall. destruct (kv_find h ls s k Hrep) as (ids & lf & cs & lo & hi & ls0 & ls2 & Hfd & Hsub & Hnd).
  assert (NoDup (cells_of ls).*1) as Hc by (eapply keys_sorted_NoDup, subtree_sorted; exact Hsub).
  unfold tree_map in Hsmall. rewrite (map_bytes_insert _ k v Hc) in Hsmall.
  pose proof (zlen_nonneg (encs leaf_format (purged k (cells_of ls)))).
  pose proof (zlen_nonneg k). pose proof (zlen_nonneg v). unfold BTreeHeaderSize, PageSize in Hsmall.
  split; [lia|]. exists lf, cs. pose proof (fd_leaves _ _ _ _ _ _ _ _ _ _ _ _ _ _ Hfd) as Els.
  split; [by apply Hfd|]. split; [rewrite Els; apply elem_of_app; right; left|].
  unfold leaf_fits, BTreeHeaderSize, PageSize. apply Z.ltb_lt.
  rewrite Els, cells_of_middle in Hsmall. unfold purged in *. rewrite !filter_app, !zlen_encs_app in Hsmall.
  pose proof (zlen_nonneg (encs leaf_format (filter (fun c : bytes * bytes => c.1 <> k) (cells_of ls0)))).
  pose proof (zlen_nonneg (encs leaf_format (filter (fun c : bytes * bytes => c.1 <> k) (cells_of ls2)))). lia.
Qed.

(** In a tree of one leaf. *)
Lemma root_leaf_room id cs s k v :
  kv_rep 0 [(id, cs)] s -> kroot s = id -> leaf_fits k v (purged k cs) = true -> room_for 0 [(id, cs)] s k v.
Proof.
  intros [_ _ _ (ids & (cs' & [L1 L2 _ _ _] & _) & _) _] <- Hf. exists (kroot s), cs.
  split; [by constructor|]. split; [left|done].
Qed.

Lemma Put_ok_run fuel h ls s k v :
  kv_rep h ls s -> descends fuel h s -> (forall d : D, (Sync d).1 = None) ->
  zlen k + zlen v < 2 ^ 31 -> room_for h ls s k v ->
  exists s' ls', Put fuel k v s = (Ok tt, s') /\ kv_rep h ls' s' /\ tree_map ls' = <[k := v]> (tree_map ls) /\
    kv_frame ls s s'.
Proof.
  intros Hrep Hh Hsync Hkv Hroom.
  destruct (Insert_run fuel h ls s k v Hrep Hh Hkv Hroom) as (pool & ls' & E & Hrep' & Emap & Hfr).
  unfold Put, with_tree, mbind, io_bind. rewrite E. cbn [tbp rootID]. fold (durable_key k).
  change (mkKV (set_bp pool (kdb s)) (kroot s)) with (with_pool_of pool s).
  destruct (durable_key k); [|eexists _, ls'; by split; [reflexivity|]].
  destruct (Flush_run h ls' _ Hrep') as (r & s' & Ef & _ & Hrep2 & Hfr2 & _).
  destruct (Flush_reliable _ (kr_inv _ _ _ Hrep') Hsync) as (s'' & Ef').
  rewrite Ef in Ef'. injection Ef' as -> _. exists s', ls'. split; [exact Ef|].
  split; [done|]. split; [done|]. by apply (kv_frame_trans _ _ (with_pool_of pool s)).
Qed.

Lemma run_op_spec fuel h ls s op :
  kv_rep h ls s -> flat fuel h -> (forall d : D, (Sync d).1 = None) ->
  BTreeHeaderSize + map_bytes (map_op op (tree_map ls)).2 < PageSize ->
  exists s' ls', run_op fuel op s = ((map_op op (tree_map ls)).1, s') /\
    kv_rep h ls' s' /\ tree_map ls' = (map_op op (tree_map ls)).2.
Proof.
  intros Hrep Hh Hsync Hsmall. destruct op as [k|k v|k]; cbn in *.
  - destruct (Get_run fuel h ls s k Hrep (flat_descends _ _ _ Hh)) as (s' & -> & Hrep' & _). by exists s', ls.
  - destruct (small_room h ls s k v Hrep Hsmall) as [Hkv Hroom].
    destruct (Put_ok_run fuel h ls s k v Hrep (flat_descends _ _ _ Hh) Hsync Hkv Hroom) as (s' & ls' & E & Hrep' & Emap & _).
    exists s', ls'. unfold mbind, io_bind. by rewrite E.
  - destruct (Delete_run fuel h ls s k Hrep (flat_descends _ _ _ Hh)) as (s' & ls' & E & Hrep' & Emap & _).
    exists s', ls'. unfold mbind, io_bind. rewrite E. split; [by destruct (tree_map ls !! k)|done].
Qed.

(** The store refines a finite map.  Started on a one-leaf tree that stands for
    [m], any sequence of [Get], [Put] and [Delete] whose map always fits in one leaf
    gives exactly the answers of the map, and ends in a tree that stands for the
    final map. *)
Theorem store_refines_map fuel h ls s ops :
  kv_rep h ls s -> flat fuel h -> (forall d : D, (Sync d).1 = None) -> stays_small ops (tree_map ls) ->
  exists s' ls', run_ops fuel ops s = ((map_ops ops (tree_map ls)).1, s') /\
    kv_rep h ls' s' /\ tree_map ls' = (map_ops ops (tree_map ls)).2.
Proof.
  intros Hrep Hh Hsync. revert ls s Hrep. induction ops as [|op ops IH]; intros ls s Hrep Hsmall.
  { by exists s, ls. }
  destruct Hsmall as [H1 H2]. cbn [run_ops map_ops].
  destruct (run_op_spec fuel h ls s op Hrep Hh Hsync H1) as (s1 & ls1 & -> & Hrep1 & E1).
  destruct (map_op op (tree_map ls)) as [r m]. cbn in *. subst m.
  destruct (IH ls1 s1 Hrep1 H2) as (s2 & ls2 & -> & Hrep2 & E2).
  destruct (map_ops ops (tree_map ls1)) as [rs m]. by exists s2, ls2.
Qed.
End Refinement.

(** ** Witnesses *)

#[local] Existing Instance canonical_range.

(** A store on an empty device, its root page reset. *)
Definition demo_fresh : BTreeKVStore MemDevice LRUEvictionPolicy :=
  mkKV (NewDB (NewBufferPool NewMemDevice 8 NewLRUEvictionPolicy None) (NewBatchingWAL []) None) 1002.
Definition demo_store : BTreeKVStore MemDevice LRUEvictionPolicy := (ResetBTreeRoot 1002 demo_fresh).2.

Lemma demo_fresh_inv : pool_inv ∅ (bp (kdb demo_fresh)).
Proof. apply inv_new; [apply lru_inv_new | done | intros id _; apply empty_disk_sum]. Qed.

Lemma demo_root : tree_page 1002.
Proof. split; [unfold page_id_ok; lia | reflexivity]. Qed.

Lemma demo_store_rep : kv_rep 0 [(1002, [])] demo_store.
Proof.
  destruct (ResetBTreeRoot_run demo_fresh demo_fresh_inv (NewBufferPool_idle _ _ _ _) ltac:(cbn; lia) demo_root)
    as (r & s' & E & _ & Hrep & _). unfold demo_store. cbn [kroot demo_fresh] in E. by rewrite E.
Qed.

Lemma demo_store_root : kroot demo_store = 1002.
Proof.
  destruct (ResetBTreeRoot_run demo_fresh demo_fresh_inv (NewBufferPool_idle _ _ _ _) ltac:(cbn; lia) demo_root)
    as (r & s' & E & _ & _ & Hfr & _). unfold demo_store. cbn [kroot demo_fresh] in E. rewrite E.
  exact (ko_root _ _ _ Hfr).
Qed.

Lemma demo_room k v : leaf_fits k v [] = true -> room_for 0 [(1002, [])] demo_store k v.
Proof. exact (root_leaf_room 1002 [] demo_store k v demo_store_rep demo_store_root). Qed.

Lemma demo_flat : flat 1 0.
Proof. split; [done|lia]. Qed.

Lemma demo_descends s : descends (D := MemDevice) 1 0 s.
Proof. apply flat_descends, demo_flat. Qed.

Lemma ResetBTreeRoot_empties_witness :
  exists r s', ResetBTreeRoot 1002 demo_fresh = (r, s') /\ kv_rep 0 [(1002, [])] s'.
Proof.
  destruct (ResetBTreeRoot_empties demo_fresh demo_fresh_inv (NewBufferPool_idle _ _ _ _) ltac:(cbn; lia) demo_root)
    as (r & s' & E & _ & Hrep & _). exists r, s'. split; [exact E | exact Hrep].
Defined.

Lemma Get_is_lookup_witness :
  exists s', Get 1 (str "a") demo_store = (Err (Msg "key not found"), s') /\ kv_rep 0 [(1002, [])] s'.
Proof.
  destruct (Get_is_lookup 1 0 _ demo_store (str "a") demo_store_rep (demo_descends _)) as (s' & E & Hrep & _).
  exists s'. split; [exact E | exact Hrep].
Defined.

Lemma Put_inserts_witness :
  exists r s' ls', Put 1 (str "mail:1") (str "v") demo_store = (r, s') /\
    tree_map ls' = {[str "mail:1" := str "v"]} /\ (r = Ok tt -> on_device 0 ls' s').
Proof.
  destruct (Put_inserts 1 0 _ demo_store (str "mail:1") (str "v") demo_store_rep (demo_descends _) ltac:(reflexivity)
    (demo_room (str "mail:1") (str "v") eq_refl)) as (r & s' & ls' & E & _ & _ & Em & _ & Hd).
  exists r, s', ls'. split; [exact E | split; [exact Em | exact Hd]].
Defined.

Lemma Delete_deletes_witness :
  exists s' ls', Delete 1 (str "a") demo_store = (Err (Msg "key not found"), s') /\ kv_rep 0 ls' s'.
Proof.
  destruct (Delete_deletes 1 0 _ demo_store (str "a") demo_store_rep (demo_descends _)) as (s' & ls' & E & Hrep & _).
  exists s', ls'. split; [exact E | exact Hrep].
Defined.

Definition demo_ops : list kv_op :=
  [OpPut (str "b") (str "1"); OpPut (str "a") (str "2"); OpGet (str "b"); OpDelete (str "b"); OpGet (str "b")].

Lemma store_refines_map_witness :
  exists s' ls', run_ops 1 demo_ops demo_store =
      ([Ok []; Ok []; Ok (str "1"); Ok []; Err (Msg "key not found")], s') /\
    tree_map ls' = {[str "a" := str "2"]}.
Proof.
  destruct (store_refines_map 1 0 _ demo_store demo_ops demo_store_rep demo_flat ltac:(reflexivity))
    as (s' & ls' & E & _ & Em).
  - cbn [stays_small demo_ops]. repeat split.
  - exists s', ls'. split; [exact E|]. rewrite Em. apply (bool_decide_unpack _). reflexivity.
Defined.
