(* ===== verification/KVIter.v ===== *)
(** The prefix iterator of the key-value store, and the theorems on reading a
    whole tree: the iterator, the scan and the join. *)

From Stdlib Require Import Strings.Byte.
From stdpp Require Import sorting.
From S2P Require Import Common.
From S2P Require Import Prelude.
From S2P Require Import VFS.
From S2P Require Import LRU.
From S2P Require Import Page.
From S2P Require Import Slotted.
From S2P Require Import Telemetry.
From S2P Require Import BufferPool.
From S2P Require Import PoolInv.
From S2P Require Import PoolOps.
From S2P Require Import PoolPins.
From S2P Require Import PoolLatch.
From S2P Require Import WAL.
From S2P Require Import DBPage.
From S2P Require Import DB.
From S2P Require Import BTreePage.
From S2P Require Import BTreeNode.
From S2P Require Import BTree.
From S2P Require Import BTreeSpec.
From S2P Require Import BTreeLocked.
From S2P Require Import BTreeWalk.
From S2P Require Import BTreeJoin.
From S2P Require Import KVRecover.
From S2P Require Import KVStore.
From S2P Require Import KVSpec.
From S2P Require Import KVPut.
From S2P Require Import KVProps.

(** A key that sorts after a prefix without having it is past all keys that have
    it. *)
Lemma above_prefix p k k' :
  bytes_lt p k -> has_prefix k p = false -> bytes_lt k k' -> has_prefix k' p = false.
Proof.
  unfold bytes_lt. revert k k'. induction p as [|x p IH]; intros [|y k] [|z k']; cbn; try done.
  intros Hp Hn Hk. case_bool_decide as Exy; cbn in *.
  - subst y. rewrite Z.compare_refl in Hp. case_bool_decide as Exz; cbn; [|done]. subst z.
    rewrite Z.compare_refl in Hk. by apply (IH k).
  - case_bool_decide as Exz; cbn; [|done]. subst z. exfalso. rewrite (Z.compare_antisym (b2z x) (b2z y)) in Hk.
    destruct (b2z x ?= b2z y) eqn:E; [|done|done]. apply Z.compare_eq in E. by apply Exy, b2z_inj.
Qed.

Lemma matching_above p k cs :
  bytes_lt p k -> has_prefix k p = false -> Forall (bytes_lt k) cs.*1 -> matching p cs = [].
Proof.
  intros Hp Hn. unfold matching. induction cs as [|c cs IH]; [done|]. cbn [fmap list_fmap]. intros [Hc Hcs]%Forall_cons.
  rewrite filter_cons_False; [by apply IH|]. by rewrite (above_prefix p k).
Qed.

Section Iterator.
Context {D : Type} `{DS : BlockDeviceSpec D} `{RD : !ReliableDevice D} `{MR : MapRange}.
Implicit Types s : BTreeKVStore D LRUEvictionPolicy.

(** A cursor is open on the store's pool and nothing else is held; no page has
    become dirty. *)
Definition iterating s (pool : BufferPool D LRUEvictionPolicy) (c : BTreeCursor) (rest : list (bytes * bytes)) : Prop :=
  exists cur, cursor_at pool c cur rest /\ unchanged (bp (kdb s)) pool (on cur) /\
    dirty_count pool <= dirty_count (bp (kdb s)).

Lemma cursor_next_run s pool c kv rest :
  (0 < length (frames (bp (kdb s))))%nat -> iterating s pool c (kv :: rest) ->
  exists c' pool', cursor_next c (with_pool_of pool s) = (Ok kv, c', with_pool_of pool' s) /\ iterating s pool' c' rest.
Proof.
  intros Hroom (cur & Hc & U & Hn). pose proof U as [Hinv Hv Hlen Hpins].
  destruct (Next_run [] pool c cur kv rest ∅ Hinv Hc) as (c' & cur' & pool' & E & Hc' & U' & _ & Hn').
  { intros id. rewrite Hpins. lia. } { rewrite size_empty. lia. } { by left. }
  exists c', pool'. unfold cursor_next. cbn [with_pool_of kdb kroot bp set_bp]. rewrite E. split; [done|]. exists cur'.
  split; [done|]. split; [|lia]. eapply unchanged_pins; [exact (unchanged_trans _ _ _ _ _ U U')|]. intros id. cbn. rewrite Hpins. lia.
Qed.

(** The iterator skips to the next key with the prefix, or ends where there is
    none. *)
Lemma iterator_next_run rounds s pool c p rest :
  (0 < length (frames (bp (kdb s))))%nat -> iterating s pool c rest -> keys_sorted rest.*1 -> (length rest < rounds)%nat ->
  exists r c' pool' rest', iterator_next rounds c p (with_pool_of pool s) = (r, c', with_pool_of pool' s) /\
    iterating s pool' c' rest' /\
    match r with
    | Ok kv => matching p rest = kv :: matching p rest' /\ keys_sorted rest'.*1 /\ (length rest' < length rest)%nat
    | Err e => matching p rest = [] /\ e = EOF
    | _ => False
    end.
Proof.
  intros Hroom. revert pool c rest. induction rounds as [|rounds IH]; intros pool c rest Hit Hs Hf; [lia|].
  cbn [iterator_next]. destruct rest as [|[k v] rest].
  { pose proof Hit as (cur & Hc & _ & _). unfold cursor_next. cbn [with_pool_of kdb kroot bp set_bp]. rewrite (Next_end _ _ _ _ Hc).
    eexists (Err EOF), c, pool, []. split; [done|]. by split. }
  destruct (cursor_next_run s pool c (k, v) rest Hroom Hit) as (c' & pool' & -> & Hit').
  cbn [fmap list_fmap fst] in Hs. apply StronglySorted_cons in Hs as [Hk Hs].
  assert (has_prefix k p = true -> matching p ((k, v) :: rest) = (k, v) :: matching p rest) as Hyes.
  { intros Hp. unfold matching. by rewrite filter_cons_True. }
  assert (has_prefix k p = false -> matching p ((k, v) :: rest) = matching p rest) as Hno.
  { intros Hp. unfold matching. rewrite filter_cons_False; [done|]. cbn. by rewrite Hp. }
  case_bool_decide as Ep.
  { subst p. eexists (Ok (k, v)), c', pool', rest. split; [done|]. split; [done|]. split; [by apply Hyes|]. split; [done|cbn; lia]. }
  destruct (has_prefix k p) eqn:E.
  { eexists (Ok (k, v)), c', pool', rest. split; [done|]. split; [done|]. split; [by apply Hyes|]. split; [done|cbn; lia]. }
  rewrite (Hno eq_refl). destruct (bytes_compare k p) eqn:Ec.
  3:{ apply bytes_compare_gt in Ec. eexists (Err EOF), c', pool', rest. split; [done|]. split; [done|]. split; [|done]. by apply (matching_above p k). }
  all: destruct (IH pool' c' rest Hit' Hs ltac:(cbn in Hf; lia)) as (r & c2 & pool2 & rest2 & -> & Hit2 & Hr);
    exists r, c2, pool2, rest2; split; [done|]; split; [done|]; destruct r; try done;
    destruct Hr as (? & ? & ?); split; [done|]; split; [done|cbn; lia].
Qed.

Lemma drain_run fuel rounds s pool c p acc rest :
  (0 < length (frames (bp (kdb s))))%nat -> iterating s pool c rest -> keys_sorted rest.*1 ->
  (length rest < fuel)%nat -> (length rest < rounds)%nat ->
  exists c' pool' rest', drain fuel rounds c p acc (with_pool_of pool s) = (Ok (acc ++ matching p rest), c', with_pool_of pool' s) /\
    iterating s pool' c' rest'.
Proof.
  intros Hroom. revert pool c acc rest. induction rounds as [|rounds IH]; intros pool c acc rest Hit Hs Hf Hr; [lia|].
  cbn [drain]. destruct (iterator_next_run fuel s pool c p rest Hroom Hit Hs Hf) as (r & c' & pool' & rest' & -> & Hit' & Hres).
  destruct r as [kv|e| |]; try done.
  - destruct Hres as (-> & Hs' & Hlen). destruct (IH pool' c' (acc ++ [kv]) rest' Hit' Hs') as (c2 & pool2 & rest2 & -> & Hit2); [lia..|].
    rewrite <- app_assoc. by exists c2, pool2, rest2.
  - rewrite (proj1 Hres), app_nil_r. by exists c', pool', rest'.
Qed.

(** The store's tree can be walked. *)
Definition kv_walk h (ls : leaves) s : Prop := left_edge_ok (view (bp (kdb s))) h (kroot s) /\ walkable ls.

Lemma iterate_all_run fuel h ls s p :
  kv_rep h ls s -> kv_walk h ls s -> (h < fuel)%nat -> (length (cells_of ls) < fuel)%nat ->
  exists pool, iterate_all fuel p s = (Ok (matching p (cells_of ls)), with_pool_of pool s) /\
    unchanged (bp (kdb s)) pool (fun _ => 0) /\ dirty_count pool <= dirty_count (bp (kdb s)).
Proof.
  intros Hrep [Hedge Hw] Hh Hf. pose proof Hrep as [Hinv Hidle Hfr (ids & Hsub & Hnd) Hch].
  destruct (NewBTreeCursor_run [] fuel h (bp (kdb s)) (kroot s) None None ls ids ∅) as (c & cur & pool & E & Hc & U & _ & Hn); try done.
  { intros id. rewrite Hidle. lia. } { rewrite size_empty. lia. } { by left. }
  assert (iterating s pool c (cells_of ls)) as Hit.
  { exists cur. split; [done|]. split; [|done]. eapply unchanged_pins; [exact U|]. intros id. cbn. rewrite Hidle. lia. }
  destruct (drain_run fuel fuel s pool c p [] (cells_of ls)) as (c' & pool' & rest' & Ed & cur' & Hc' & U' & Hn'); try done.
  { lia. } { by eapply subtree_sorted. }
  destruct (Close_run pool' c' cur' rest' (un_inv _ _ _ U') Hc') as (c2 & pool2 & Ec & U2 & _ & Hn2).
  assert (iterate_all fuel p s = (Ok (matching p (cells_of ls)), with_pool_of pool2 s)) as Ei.
  { unfold iterate_all, NewIterator, try, with_pool, with_db, mbind, io_bind, mret, io_ret. rewrite E.
    cbn [cursor prefix]. unfold drain_and_close.
    change (mkKV (set_bp pool (kdb s)) (kroot s)) with (with_pool_of pool s). rewrite Ed.
    cbn [with_pool_of kdb kroot bp set_bp app]. unfold close_after. by rewrite Ec. }
  eexists. split; [exact Ei|]. split; [|lia]. eapply unchanged_pins; [exact (unchanged_trans _ _ _ _ _ U' U2)|].
  intros id. cbn. rewrite (un_pins _ _ _ U'). lia.
Qed.

(** Reading keeps the tree walkable. *)
Lemma kv_walk_unchanged h ls s pool f :
  kv_rep h ls s -> kv_walk h ls s -> unchanged (bp (kdb s)) pool f -> kv_walk h ls (with_pool_of pool s).
Proof.
  intros [_ _ _ (ids & Hsub & _) _] [He Hw] U. split; [|done].
  refine (proj1 (left_edge_ext (view (bp (kdb s))) _ h (kroot s) None None ls ids _ Hsub He)).
  intros id Hid. by apply same_view_image; [apply U|].
Qed.
End Iterator.
