(* ===== verification/KVLatch.v ===== *)
(** Tree operations that wait for themselves: a descent holds the latch of a page
    while it fetches the next one, and the flush a full-of-dirty-pages pool makes
    inside the fetch takes the latch of every dirty page. *)

From Stdlib Require Import Strings.Byte.
From S2P Require Import Common.
From S2P Require Import Prelude.
From S2P Require Import VFS.
From S2P Require Import LRU.
From S2P Require Import Page.
From S2P Require Import Telemetry.
From S2P Require Import BufferPool.
From S2P Require Import PoolInv.
From S2P Require Import PoolOps.
From S2P Require Import PoolPins.
From S2P Require Import PoolLatch.
From S2P Require Import WAL.
From S2P Require Import DBPage.
From S2P Require Import DB.
From S2P Require Import BTreePage.
From S2P Require Import BTreeNode.
From S2P Require Import BTree.
From S2P Require Import BTreeSpec.
From S2P Require Import KVRecover.
From S2P Require Import KVStore.
From S2P Require Import KVSpec.

Section Stall.
Context {D P : Type} `{DS : BlockDeviceSpec D} `{PS : EvictionPolicySpec P} `{MR : MapRange}.
Implicit Types s : BTreeKVStore D P.

(** The root is a dirty internal node in the cache, the child the key goes to is
    not cached, and the pool has reached its flush threshold. *)
Record saturated s (k : bytes) : Prop := {
  sat_inv : pool_inv ∅ (bp (kdb s));
  sat_root : exists i p, pageTable (bp (kdb s)) !! kroot s = Some i /\ frames (bp (kdb s)) !! i = Some p /\
    IsDirty p = true /\ Node.PageType (Data p) = PageTypeInternal /\
    pageTable (bp (kdb s)) !! findChildInInternalNode (Data p) k = None;
  sat_due : flush_due (bp (kdb s)) = true
}.

(** A hit changes no dirty flag. *)
Lemma hit_dirty_frames (pool : BufferPool D P) i :
  dirty_frames (update_frame i (add_pin 1) pool) = dirty_frames pool.
Proof.
  unfold dirty_frames. apply list_filter_iff. intros j. unfold frame_dirty. rewrite lookup_update_frame.
  case_decide; [subst j; by destruct (frames pool !! i)|done].
Qed.

Lemma FindLeaf_stalls fuel s k :
  saturated s k -> (FindLeaf (S fuel) (bp (kdb s)) (kroot s) k).1 = Hang.
Proof.
  intros [Hinv (i & p & Hi & Hp & Hd & Ht & Hc) Hdue].
  destruct (inv_table _ _ Hinv _ _ Hi) as (Hok & _).
  destruct (FetchPage (bp (kdb s)) (kroot s)) as [r pool] eqn:Hf.
  pose proof (FetchPage_spec ∅ _ _ _ _ Hinv Hok Hf) as Hs. unfold FindLeaf. rewrite Hf.
  unfold FetchPage in Hf. rewrite Hi in Hf. injection Hf as <- Epool.
  destruct Hs as (Hinv' & _ & _ & _). cbn [descend].
  assert (frames pool !! i = Some (add_pin 1 p)) as Hp'.
  { subst pool. cbn. by rewrite list_lookup_alter_eq, Hp. }
  rewrite Hp'. cbn [Data add_pin]. rewrite Ht, Z.eqb_refl.
  assert (pageTable pool = pageTable (bp (kdb s))) as Et by by subst pool.
  rewrite (FetchLatched_hangs ∅ [i] pool _ i (add_pin 1 p) (kroot s)); try done; [|by rewrite Et|left|by rewrite Et].
  revert Hdue. unfold flush_due, dirty_count. subst pool. rewrite hit_dirty_frames. cbn. unfold zlen. by rewrite length_alter.
Qed.

(** Every lookup, insertion and deletion then waits for itself and never
    returns: the descent holds the latch of the dirty root while the pool's
    flush waits for it, with the pool and the tree locked. *)
Theorem saturated_pool_stalls fuel s k v :
  saturated s k ->
  (Get (S fuel) k s).1 = Hang /\ (Put (S fuel) k v s).1 = Hang /\ (Delete (S fuel) k s).1 = Hang.
Proof.
  intros Hsat%(FindLeaf_stalls fuel).
  unfold Get, Put, Delete, with_tree, Insert, find_leaf, with_pool, with_db, mbind, io_bind. cbn [tbp rootID].
  destruct (FindLeaf (S fuel) (bp (kdb s)) (kroot s) k) as [r pool]. cbn in Hsat. by subst r.
Qed.
End Stall.

(** ** Witness *)

#[local] Existing Instance canonical_range.

(** A pool of one frame that holds the root of a tree of two levels, changed and
    not yet written. *)
Definition small_pool : BufferPool MemDevice LRUEvictionPolicy :=
  NewBufferPool NewMemDevice 1 NewLRUEvictionPolicy None.

Lemma small_pool_inv : pool_inv ∅ small_pool.
Proof. apply inv_new; [apply lru_inv_new | done | intros id _; apply empty_disk_sum]. Qed.

Definition demo_saturated (pool : BufferPool MemDevice LRUEvictionPolicy) : BTreeKVStore MemDevice LRUEvictionPolicy :=
  mkKV (NewDB pool (NewBatchingWAL []) None) 1002.

Lemma small_pool_dirty (d : mem) :
  exists pool : BufferPool MemDevice LRUEvictionPolicy, exists i q, pool_inv ∅ pool /\
    pageTable pool !! 1002 = Some i /\ frames pool !! i = Some q /\ Data q = d /\ IsDirty q = true /\
    pageTable pool !! 1004 = None /\ flush_due pool = true.
Proof.
  assert (page_id_ok 1002) as Hok by (unfold page_id_ok; lia).
  destruct (FetchPage_room ∅ small_pool 1002 ∅ small_pool_inv Hok) as (i & bp1 & Hf).
  { intros id. unfold pins. cbn. rewrite lookup_empty. lia. } { rewrite size_empty. cbn. lia. }
  destruct (FetchPage_spec ∅ _ _ _ _ small_pool_inv Hok Hf) as (Hinv & _ & Hi & p & Hp & Hpin & _).
  pose proof (FetchPage_length ∅ _ _ _ _ small_pool_inv Hf) as Hlen. cbn in Hlen. clear Hf.
  destruct (modify_unpin ∅ bp1 1002 i p d Hinv Hi Hp ltac:(lia) (not_elem_of_empty _)) as (Hinv2 & _ & _).
  set (pool := UnpinPage _ 1002 true) in *.
  assert (pageTable pool = pageTable bp1) as Et by (unfold pool, UnpinPage; cbn; by rewrite Hi).
  assert (exists q, frames pool !! i = Some q /\ Data q = d /\ IsDirty q = true) as (q & Hq & Hd & Hdirty).
  { unfold pool, UnpinPage. change (pageTable (update_frame i _ bp1)) with (pageTable bp1). rewrite Hi.
    rewrite !lookup_update_frame, !decide_True, Hp by done. eexists. split; [reflexivity|]. split; reflexivity. }
  assert (length (frames pool) = 1%nat) as Hlen2 by (unfold pool; rewrite UnpinPage_frames; cbn; by rewrite length_alter).
  assert (i ∈ dirty_frames pool) as Hin by (apply (dirty_frames_in ∅); [done|]; exists 1002, q; by rewrite Et).
  exists pool, i, q. rewrite Et. split_and!; try done.
  - destruct (pageTable bp1 !! 1004) as [j|] eqn:Hj; [|done]. exfalso.
    pose proof (inv_cover _ _ Hinv) as Hcov. rewrite Hlen in Hcov.
    assert (base.size ({[1002%Z; 1004%Z]} : gset PageID) <= base.size (dom (pageTable bp1)))%nat as Hsz.
    { apply subseteq_size. intros id. rewrite elem_of_union, !elem_of_singleton, elem_of_dom. intros [-> | ->]; eauto. }
    rewrite size_dom, size_union, !size_singleton in Hsz by set_solver. lia.
  - unfold flush_due, dirty_count, zlen. rewrite Hlen2.
    apply list_elem_of_lookup_1 in Hin as [n Hn]. apply lookup_lt_Some in Hn.
    apply andb_true_iff. split; [done|]. apply Z.leb_le. lia.
Qed.

Lemma saturated_demo : exists pool, saturated (demo_saturated pool) (str "j").
Proof.
  destruct (small_pool_dirty (Data demo_internal)) as (pool & i & q & Hinv & Hi & Hq & Hd & Hdirty & Hno & Hdue).
  exists pool. split; [exact Hinv| |exact Hdue]. exists i, q. rewrite Hd.
  split; [exact Hi|]. split; [exact Hq|]. split; [exact Hdirty|]. split; [apply demo_internal_holds|].
  rewrite (findChild_spec _ demo_separators) by apply demo_internal_holds. exact Hno.
Qed.

Lemma saturated_pool_stalls_witness :
  exists pool, (Get 1 (str "j") (demo_saturated pool)).1 = Hang.
Proof.
  destruct saturated_demo as (pool & Hsat). exists pool.
  exact (proj1 (saturated_pool_stalls 0 (demo_saturated pool) (str "j") [] Hsat)).
Defined.
