(* ===== verification/KVSplit.v ===== *)
(** A full root leaf: the split of the tree's only page through the pool, with
    its two allocations, the new root and the record that caused it. *)

From Stdlib Require Import Strings.Byte.
From stdpp Require Import sorting functions.
From S2P Require Import Common.
From S2P Require Import Prelude.
From S2P Require Import VFS.
From S2P Require Import LRU.
From S2P Require Import Page.
From S2P Require Import Telemetry.
From S2P Require Import BufferPool.
From S2P Require Import PoolInv.
From S2P Require Import PoolOps.
From S2P Require Import PoolPins.
From S2P Require Import PoolLatch.
From S2P Require Import PoolAlloc.
From S2P Require Import WAL.
From S2P Require Import DBPage.
From S2P Require Import DB.
From S2P Require Import BTreePage.
From S2P Require Import BTreeNode.
From S2P Require Import BTree.
From S2P Require Import BTreeSpec.
From S2P Require Import KVRecover.
From S2P Require Import KVStore.
From S2P Require Import KVSpec.
From S2P Require Import PoolTrace.
From S2P Require Import KVPut.

Section Split.
Context {D : Type} `{DS : BlockDeviceSpec D} `{RD : !ReliableDevice D} `{MR : MapRange}.
Implicit Types bp : BufferPool D LRUEvictionPolicy.

(** The frame of a new page is not one of the latched frames. *)
Lemma new_frame_unlatched held pg n c L bp bp' j latches :
  pool_at ({[n]} ∪ held) pg (n + 1) c L bp' -> n ∉ held -> pageTable bp' !! n = Some j -> keeps_frames held bp bp' ->
  Forall (fun i => exists id, id ∈ held /\ pageTable bp !! id = Some i) latches -> j ∉ latches.
Proof.
  intros Hat Hn Hj Hk Hl Hin. rewrite Forall_forall in Hl. destruct (Hl j Hin) as (id & Hid & Hi).
  apply Hn. by rewrite <- (table_inj _ bp' id n j (pa_inv _ _ _ _ _ _ Hat) (Hk id j Hid Hi) Hj).
Qed.

(** The new root takes the next page and points to both halves. *)
Lemma growRoot_at held pg n c L bp root latches l r pivot :
  pool_at held pg n c L bp -> n ∉ held -> tree_page n -> 5 * c < 4 * Z.of_nat L -> (base.size held < L)%nat ->
  Forall (fun i => exists id, id ∈ held /\ pageTable bp !! id = Some i) latches ->
  zlen pivot < 2 ^ 14 -> 0 <= l < 2 ^ 64 -> 0 <= r < 2 ^ 32 ->
  exists d bp', growRoot (mkBTree bp root) latches l r pivot = (Ok tt, mkBTree bp' n) /\
    pool_at held (<[n := d]> pg) (n + 1) (c + 1) L bp' /\ keeps_frames held bp bp' /\
    Node.PageType d = PageTypeInternal /\ internal_holds d [(l, pivot)] /\ Node.RightmostChildID d = r.
Proof.
  intros Hat Hn [Hok _] Hc Hroom Hl Hpv Hlr Hrr. unfold growRoot. cbn [tbp rootID].
  destruct (alloc_at held pg n c L bp latches Hat Hn Hok (pool_at_may _ _ _ _ _ _ _ Hat Hc) Hroom)
    as (j & d0 & bp1 & E & Hj & Hat1 & Hk). rewrite E.
  rewrite bool_decide_eq_false_2 by by eapply new_frame_unlatched.
  destruct (held_frame _ _ _ _ _ _ n j Hat1 Hj) as (p & Hp & Hid & _). rewrite Hp.
  destruct (new_root_spec p pivot l r Hpv Hlr Hrr) as (Hsf & Ht & Hh & Hr).
  set (p' := new_root_page p pivot l r) in *.
  pose proof (store_at _ _ _ _ _ bp1 n j p p' Hat1 ltac:(set_solver) Hj Hp Hsf) as Hat2.
  assert (ID p' = n) as -> by by rewrite (proj1 Hsf).
  destruct (unpin_at _ _ _ _ _ _ n Hat2 ltac:(set_solver)) as [Hat3 Et].
  assert (({[n]} ∪ held) ∖ {[n]} = held) as E1 by set_solver. rewrite E1 in Hat3.
  exists (Data p'). eexists. split; [reflexivity|]. split; [|split; [|done]].
  - destruct Hat3 as [B1 B2 B3 B4 B5 B6 B7]. split; try done. intros id. rewrite (B2 id).
    destruct (decide (n = id)) as [<-|Hne]; [by rewrite !fn_lookup_insert|by rewrite !fn_lookup_insert_ne].
  - intros id i Hid' Hi. rewrite Et. cbn. by apply Hk.
Qed.

(** What the pages of a split root show: the halves of [cs] in the old page and
    in [n], and the pivot in the new root [n + 1]. *)
Record root_split (pg : PageID -> mem) (root n : PageID) (cs : list (bytes * bytes)) : Prop := {
  rs_low_type : Node.PageType (pg root) = PageTypeLeaf;
  rs_low : leaf_holds (pg root) (take (length cs / 2) cs);
  rs_low_next : Node.NextLeafID (pg root) = n;
  rs_high_type : Node.PageType (pg n) = PageTypeLeaf;
  rs_high : leaf_holds (pg n) (drop (length cs / 2) cs);
  rs_high_next : Node.NextLeafID (pg n) = 0;
  rs_type : Node.PageType (pg (n + 1)) = PageTypeInternal;
  rs_pivot : internal_holds (pg (n + 1)) [(root, default [] (fst <$> cs !! (length cs / 2)%nat))];
  rs_rightmost : Node.RightmostChildID (pg (n + 1)) = n
}.

(** A record on a root leaf that is to be split: the two next page ids are free
    for tree pages, the pool is below its flush threshold and the pivot fits. *)
Record can_split (root n : PageID) (cs : list (bytes * bytes)) (c : Z) (L : nat) : Prop := {
  cs_root : tree_page root /\ root < n;
  cs_low_page : tree_page n;
  cs_new_root : tree_page (n + 1);
  cs_narrow : n < 2 ^ 32;
  cs_keys : Forall (fun kv => zlen kv.1 < 2 ^ 14) cs;
  cs_slack : 5 * c < 4 * Z.of_nat L;
  cs_frames : (3 <= L)%nat
}.

Lemma pivot_short (cs : list (bytes * bytes)) m :
  Forall (fun kv => zlen kv.1 < 2 ^ 14) cs -> zlen (default [] (fst <$> cs !! m)) < 2 ^ 14.
Proof.
  intros Hcs. destruct (cs !! m) as [kv|] eqn:E; [|done]. cbn. rewrite Forall_lookup in Hcs. by apply (Hcs m).
Qed.

Lemma SplitLeaf_at pg n c L bp root i cs :
  pool_at {[root]} pg n c L bp -> pageTable bp !! root = Some i ->
  leaf_holds (pg root) cs -> Node.PageType (pg root) = PageTypeLeaf -> Node.NextLeafID (pg root) = 0 ->
  can_split root n cs c L ->
  exists pg' bp', SplitLeaf (mkBTree bp root) i [i] = (Ok tt, mkBTree bp' (n + 1)) /\
    pool_at {[root]} pg' (n + 2) (c + 2) L bp' /\ pageTable bp' !! root = Some i /\ root_split pg' root n cs /\
    forall id, id ∉ [root; n; n + 1] -> pg' id = pg id.
Proof.
  intros Hat Hi Hcs Ht Hnx [[Hroot Hlt] Hpn Hpn1 Hnar Hkeys Hc HL].
  unfold SplitLeaf. cbn [tbp rootID].
  destruct (alloc_at {[root]} pg n c L bp [i] Hat) as (j & d0 & bp1 & E & Hj & Hat1 & Hk);
    [set_solver by lia|apply Hpn|by eapply pool_at_may|rewrite size_singleton; lia|]. rewrite E.
  assert (root ≠ n /\ root ≠ n + 1) as [Hn1 Hn2] by lia.
  pose proof (Hk root i ltac:(set_solver) Hi) as Hi1.
  rewrite bool_decide_eq_false_2.
  2:{ eapply new_frame_unlatched; [exact Hat1|set_solver|exact Hj|exact Hk|]. repeat constructor. exists root. set_solver. }
  destruct (held_frame _ _ _ _ _ _ root i Hat1 Hi1) as (p & Hp & Hid & Himg).
  destruct (held_frame _ _ _ _ _ _ n j Hat1 Hj) as (q & Hq & Hidq & _). rewrite Hp, Hq.
  rewrite fn_lookup_insert_ne in Himg by done. apply (tree_page_image root) in Himg; [|done].
  pose proof (split_leaf_spec p q cs (holds_image _ _ _ _ Himg Hcs)) as Hsp.
  destruct (split_leaf_pages p q) as [[p' q'] pivot].
  destruct Hsp as [S1 S2 S3 S4 S5 S6 S7 S8 _ S10]; [unfold tree_page, page_id_ok in Hpn; lia|].
  assert (ID p' = root) as -> by by rewrite (proj1 S1). assert (ID q' = n) as -> by by rewrite (proj1 S2).
  pose proof (store_at _ _ _ _ _ bp1 root i p p' Hat1 ltac:(set_solver) Hi1 Hp S1) as Hat2.
  assert (j <> i) as Hji.
  { intros ->. apply Hn1. exact (table_inj _ bp1 _ _ i (pa_inv _ _ _ _ _ _ Hat1) Hi1 Hj). }
  assert (frames (update_frame i (fun _ => p') bp1) !! j = Some q) as Hq2 by (cbn; by rewrite list_lookup_alter_ne).
  pose proof (store_at _ _ _ _ _ _ n j q q' Hat2 ltac:(set_solver) Hj Hq2 S2) as Hat3.
  set (bp2 := update_frame j _ _) in *. cbn [promoteToParent rootID app]. rewrite Z.eqb_refl.
  destruct (growRoot_at _ _ (n + 1) c L bp2 root [i; j] root n pivot Hat3) as (d & bp3 & Eg & Hat4 & Hk4 & G1 & G2 & G3);
    [set_solver by lia|done|done| | |rewrite S10; by apply pivot_short|destruct Hroot as [Hr0 _]; unfold page_id_ok in Hr0; lia| |].
  { rewrite size_union, !size_singleton by set_solver by lia. lia. }
  { repeat constructor; [exists root|exists n]; (split; [set_solver|done]). }
  { destruct Hpn as [Hpn0 _]. unfold page_id_ok in Hpn0. lia. }
  rewrite Eg. cbn [tbp rootID].
  destruct (unpin_at _ _ _ _ _ _ n Hat4 ltac:(set_solver)) as [Hat5 Et].
  assert (({[n]} ∪ {[root]}) ∖ {[n]} =@{gset PageID} {[root]}) as Eh by set_solver by lia. rewrite Eh in Hat5.
  eexists _, _. split; [reflexivity|]. replace (n + 2) with (n + 1 + 1) by lia. replace (c + 2) with (c + 1 + 1) by lia.
  split; [exact Hat5|]. split; [rewrite Et; by apply Hk4; [set_solver|]|].
  pose proof (image_header _ _ Himg) as Hhd.
  split; [split|].
  all: try (rewrite ?fn_lookup_insert_ne, ?fn_lookup_insert, ?fn_lookup_insert_ne, ?fn_lookup_insert by lia); try done.
  - by rewrite S5, (PageType_header _ _ Hhd).
  - congruence.
  - by rewrite S8, (NextLeafID_header _ _ Hhd).
  - by rewrite <- S10.
  - intros id Hni. rewrite !fn_lookup_insert_ne; [done|..]; set_solver.
Qed.
(** ** The tree of two leaves *)

Lemma halves_range (cs : list (bytes * bytes)) :
  keys_sorted cs.*1 ->
  let pivot := default [] (fst <$> cs !! (length cs / 2)%nat) in
  Forall (in_range None (Some pivot)) (take (length cs / 2) cs).*1 /\
  Forall (in_range (Some pivot) None) (drop (length cs / 2) cs).*1.
Proof.
  intros Hs pivot. set (m := (length cs / 2)%nat) in *. destruct (cs !! m) as [kv|] eqn:E.
  - pose proof (take_drop_middle cs m kv E) as Ecs. cbn in pivot. rewrite <- Ecs, fmap_app in Hs.
    apply StronglySorted_app in Hs as (Hlt & _ & [Hk _]%StronglySorted_cons). rewrite (drop_S cs kv m E).
    split; apply Forall_forall; intros x Hx; split; try done.
    + apply Hlt; [done|left].
    + cbn. cbn [fmap list_fmap] in Hx. apply elem_of_cons in Hx as [->|Hx]; [apply bytes_lt_irrefl|].
      rewrite Forall_forall in Hk. intros Hxp. apply (bytes_lt_irrefl x). transitivity pivot; [done|]. by apply Hk.
  - apply lookup_ge_None_1 in E. assert (length cs = 0)%nat as ->%length_zero_iff_nil; [|by split; constructor].
    destruct (decide (length cs = 0)%nat) as [|Hn]; [done|]. exfalso. pose proof (Nat.div_lt (length cs) 2). unfold m in E. lia.
Qed.

Lemma root_split_tree pg root n cs :
  root_split pg root n cs -> keys_sorted cs.*1 -> tree_page root -> tree_page n -> tree_page (n + 1) -> root < n ->
  let ls := [(root, take (length cs / 2) cs); (n, drop (length cs / 2) cs)] in
  subtree pg 1 (n + 1) None None ls [n + 1; root; n] /\ NoDup [n + 1; root; n] /\ chain pg ls.
Proof.
  intros [R1 R2 R3 R4 R5 R6 R7 R8 R9] Hs Hr Hn Hn1 Hlt ls. destruct (halves_range cs Hs) as [Hlo Hhi].
  set (m := (length cs / 2)%nat) in *. rewrite <- (take_drop m cs), fmap_app in Hs.
  apply StronglySorted_app in Hs as (_ & Hs1 & Hs2).
  split; [|split; [|by split]].
  - eexists _, [root; n]. split; [done|]. split; [done|]. split; [exact R8|]. split; [repeat constructor|].
    split; [by repeat constructor|]. split; [|done]. cbn [children]. rewrite R9.
    exists [(root, take m cs)], [(n, drop m cs)], [root], [n]. split; [by exists (take m cs)|].
    split; [by exists (drop m cs)|done].
  - assert (n + 1 <> root /\ n + 1 <> n /\ root <> n) as (? & ? & ?) by lia.
    repeat (apply NoDup_cons; split; [set_solver|]). apply NoDup_nil_2.
Qed.

(** ** The insertion *)

Implicit Types s : BTreeKVStore D LRUEvictionPolicy.

(** The root page and the next two are ready for a split. *)
Record full_root s (cs : list (bytes * bytes)) : Prop := {
  fr_rep : kv_rep 0 [(kroot s, cs)] s;
  fr_inside : inside (bp (kdb s));
  fr_root : on_disk (disk (bp (kdb s))) (kroot s);
  fr_split : can_split (kroot s) (next_page (bp (kdb s))) cs (dirty_count (bp (kdb s)) + 4) (length (frames (bp (kdb s))));
  fr_frames : (4 <= length (frames (bp (kdb s))))%nat
}.

Lemma can_split_purged root n cs c L k c' :
  c' <= c -> can_split root n cs c L -> can_split root n (purged k cs) c' L.
Proof.
  intros Hc [H1 H2 H3 H4 H5 H6 H7]. split; try done; [|lia]. unfold purged. apply Forall_forall.
  intros kv [_ Hin]%list_elem_of_filter. rewrite Forall_forall in H5. by apply H5.
Qed.

Lemma idle_at bp :
  pool_inv ∅ bp -> (forall id, pins bp id = 0) -> inside bp ->
  pool_at ∅ (view bp) (next_page bp) (dirty_count bp) (length (frames bp)) bp.
Proof. intros Hinv Hidle Hin. by split. Qed.

(** A page fetched and given back unchanged. *)
Lemma unpin_fetched pg n c L bp root i bp' :
  pool_at ∅ pg n c L bp -> on_disk (disk bp) root -> (0 < L)%nat -> FetchPage bp root = (Ok i, bp') -> pool_at {[root]} pg n c L bp' ->
  pool_at ∅ pg n c L (UnpinPage bp' root false) /\ on_disk (disk (UnpinPage bp' root false)) root.
Proof.
  intros [Hinv Hv Hp HL Hin Hnx Hc] [Hok Hend] Hpos Hf Hat. destruct (fetch_unchanged _ _ i bp' Hinv Hok Hf) as (U1 & _ & _).
  destruct (unpin_unchanged bp' root false (un_inv _ _ _ U1)) as [U2 _]; [by apply (held_pins _ _ _ _ _ _ _ Hat), elem_of_singleton|].
  destruct (UnpinPage_inside bp' root false (pa_inside _ _ _ _ _ _ Hat)) as [Hsz Hin'].
  assert (dev_size (disk (UnpinPage bp' root false)) = dev_size (disk bp)) as Esz.
  { rewrite Hsz. exact (FetchPage_size bp root _ bp' Hin Hok Hf). }
  pose proof (UnpinPage_count ∅ ∅ bp' root false (un_inv _ _ _ U1) (un_inv _ _ _ U2)) as Hn. cbn in Hn.
  pose proof (pa_dirt _ _ _ _ _ _ Hat). destruct U2 as [V1 V2 V3 V4]. split; [split; try done|].
  - intros id. rewrite (V2 id). apply Hat.
  - intros id. rewrite V4, (pa_pins _ _ _ _ _ _ Hat id). unfold one.
    rewrite (bool_decide_ext (id ∈ {[root]}) (id = root)) by set_solver. rewrite (bool_decide_eq_false_2 (id ∈ ∅)) by set_solver. lia.
  - rewrite V3. apply Hat.
  - unfold next_page in *. by rewrite Esz.
  - lia.
  - split; [done|]. by rewrite Esz.
Qed.

(** The optimistic look at the leaf: it is held while its room is tested. *)
Lemma FindLeaf_at pg n c L bp root k fuel :
  pool_at ∅ pg n c L bp -> on_disk (disk bp) root -> tree_page root -> Node.PageType (pg root) = PageTypeLeaf -> (0 < L)%nat ->
  exists i bp' p, FetchPage bp root = (Ok i, bp') /\ FindLeaf (S fuel) bp root k = (Ok i, bp') /\
    (forall req, descend_locked (S fuel) bp' i [i] k req = (Ok (i, [i]), bp')) /\
    pool_at {[root]} pg n c L bp' /\ pageTable bp' !! root = Some i /\ frames bp' !! i = Some p /\ ID p = root /\
    image_eq 0 (Data p) (pg root) /\
    pool_at ∅ pg n c L (UnpinPage bp' root false) /\ on_disk (disk (UnpinPage bp' root false)) root.
Proof.
  intros Hat Hon Hpg Ht HL. destruct (fetch_at ∅ pg n c L bp root Hat) as (i & bp' & Hf & Hi & Hat' & _);
    [set_solver|done|by rewrite size_empty|]. rewrite union_empty_r_L in Hat'.
  destruct (held_frame _ _ _ _ _ _ root i Hat' Hi) as (p & Hp & Hid & Himg).
  apply (tree_page_image root) in Himg; [|done]. exists i, bp', p. split; [done|].
  unfold FindLeaf. rewrite Hf. cbn [descend descend_locked]. rewrite Hp.
  rewrite (PageType_header _ _ (image_header _ _ Himg)), Ht. change (PageTypeLeaf =? PageTypeInternal) with false.
  do 7 (split; [done|]). apply (unpin_fetched pg n c L bp root i bp'); done.
Qed.

(** The pessimistic path on the full root: the old cell is gone, the rest is
    split over two leaves below a new root, and the new cell is in none. *)
Lemma pessimistic_split fuel s cs k v pg c :
  pool_at ∅ pg (next_page (bp (kdb s))) c (length (frames (bp (kdb s)))) (bp (kdb s)) ->
  on_disk (disk (bp (kdb s))) (kroot s) -> leaf_ok pg (kroot s) None None cs -> Node.NextLeafID (pg (kroot s)) = 0 ->
  zlen k + zlen v < 2 ^ 31 -> leaf_fits k v (purged k cs) = false ->
  can_split (kroot s) (next_page (bp (kdb s))) (purged k cs) c (length (frames (bp (kdb s)))) ->
  exists pg' pool, pessimisticInsert (S fuel) (mkBTree (bp (kdb s)) (kroot s)) k v =
      (Ok tt, mkBTree pool (next_page (bp (kdb s)) + 1)) /\
    pool_at ∅ pg' (next_page (bp (kdb s)) + 2) (c + 3) (length (frames (bp (kdb s)))) pool /\
    root_split pg' (kroot s) (next_page (bp (kdb s))) (purged k cs).
Proof.
  set (n := next_page _). set (L := length _). set (root := kroot s).
  intros Hat Hon [Hpg Ht Hh Hs _] Hnx Hkv Hfit Hcan. unfold pessimisticInsert. cbn [tbp rootID].
  destruct (FindLeaf_at pg n c L (bp (kdb s)) root k fuel Hat Hon Hpg Ht) as (i & bp1 & p & Hf & _ & Hd & Hat1 & Hi & Hp & Hid & Himg & _);
    [pose proof (cs_frames _ _ _ _ _ Hcan); lia|].
  rewrite Hf, Hd, Hp. pose proof (image_header _ _ Himg) as Hhd.
  destruct (insertIntoLeaf_holds p cs k v) as (p' & Ei & Hsf & Hhd' & Hcs');
    [by rewrite (PageType_header _ _ Hhd)|by apply (holds_image _ (pg root))|done|].
  rewrite Ei, Hfit in *. change (errors_Is ErrPageFull ErrPageFull) with true. cbn iota.
  pose proof (store_at _ _ _ _ _ _ root i p p' Hat1 ltac:(set_solver) Hi Hp Hsf) as Hat2.
  destruct (SplitLeaf_at _ n c L _ root i (purged k cs) Hat2 Hi) as (pg' & bp2 & Es & Hat3 & Hi3 & Hsp & _);
    rewrite ?fn_lookup_insert; [done| | |done|].
  { by rewrite (PageType_header _ _ Hhd'), (PageType_header _ _ Hhd). }
  { by rewrite (NextLeafID_header _ _ Hhd'), (NextLeafID_header _ _ Hhd). }
  rewrite Es. cbn [tbp rootID]. unfold releaseAncestors. cbn [fold_left].
  destruct (held_frame _ _ _ _ _ _ root i Hat3 Hi3) as (q & Hq & Hidq & _).
  assert (frame_id bp2 i = root) as -> by (unfold frame_id; by rewrite Hq).
  destruct (unpin_at _ _ _ _ _ _ root Hat3 ltac:(set_solver)) as [Hat4 _]. rewrite difference_diag_L in Hat4.
  eexists pg', _. split; [reflexivity|]. replace (c + 3) with (c + 2 + 1) by lia. done.
Qed.

(** ** The store *)

Lemma Insert_full_root fuel s cs k v :
  full_root s cs -> zlen k + zlen v < 2 ^ 31 -> leaf_fits k v (purged k cs) = false ->
  let n := next_page (bp (kdb s)) in let cs' := purged k cs in
  exists pool, Insert (S fuel) (mkBTree (bp (kdb s)) (kroot s)) k v = (Ok tt, mkBTree pool (n + 1)) /\
    kv_rep 1 [(kroot s, take (length cs' / 2) cs'); (n, drop (length cs' / 2) cs')] (mkKV (set_bp pool (kdb s)) (n + 1)) /\
    slack 1 pool.
Proof.
  intros [Hrep Hin Hon Hcan HL] Hkv Hfit n cs'. pose proof Hrep as [Hinv Hidle _ (ids & Hsub & _) Hchain].
  destruct Hsub as (cs0 & Hleaf & [= <-] & _). cbn in Hchain. pose proof (cs_root _ _ _ _ _ Hcan) as [Hpg Hlt].
  pose proof (idle_at _ Hinv Hidle Hin) as Hat. fold n in Hat, Hcan, Hlt. pose proof (lf_type _ _ _ _ _ Hleaf) as Ht.
  unfold Insert. cbn [tbp rootID].
  destruct (FindLeaf_at _ n _ _ (bp (kdb s)) (kroot s) k fuel Hat Hon Hpg Ht)
    as (i & bp1 & p & _ & Hf & _ & _ & _ & Hp & Hid & Himg & Hat2 & Hon2); [lia|].
  rewrite Hf, Hp, (room_test _ cs), Hid; [|by rewrite (PageType_header _ _ (image_header _ _ Himg))| |done].
  2:{ apply (holds_image _ (view (bp (kdb s)) (kroot s))); [done|apply Hleaf]. }
  destruct (leaf_fits k v cs) eqn:Hfit0; [by rewrite (fits_purged _ _ _ Hfit0) in Hfit|].
  set (pool1 := UnpinPage bp1 (kroot s) false) in *. set (s1 := with_pool_of pool1 s).
  assert (next_page pool1 = n) as E1 by apply Hat2.
  assert (length (frames pool1) = length (frames (bp (kdb s)))) as E2 by apply Hat2. rewrite <- E2, <- E1 in Hat2.
  destruct (pessimistic_split fuel s1 cs k v (view (bp (kdb s))) (dirty_count (bp (kdb s)))) as (pg' & pool & E & Hat3 & Hsp); try done.
  { cbn. rewrite E1, E2. apply (can_split_purged _ _ _ (dirty_count (bp (kdb s)) + 4)); [lia|done]. }
  cbn [s1 with_pool_of kdb kroot bp set_bp] in E, Hat3, Hsp. rewrite E1 in *. exists pool. split; [exact E|].
  destruct (root_split_tree pg' (kroot s) n cs' Hsp) as (T1 & T2 & T3);
    [apply purged_sorted, Hleaf|done|apply Hcan|apply Hcan|done|].
  destruct Hat3 as [B1 B2 B3 B4 _ _ B7].
  assert (forall id, tree_page id -> image_eq 0 (view pool id) (pg' id)) as Hext by (intros id Hid'; by apply (tree_page_image id)).
  split; [split; cbn [kdb kroot bp set_bp]; try done|].
  - rewrite B4. lia.
  - exists [n + 1; kroot s; n]. split; [|done]. apply (subtree_ext pg'); [|done]. intros id Hid'. apply Hext. by eapply subtree_pages.
  - eapply (chain_ext pg'); [reflexivity| |exact T3]. intros id Hid'. apply image_header, Hext.
    eapply subtree_pages; [exact T1|]. eapply sublist_subseteq; [exact (subtree_leaves _ _ _ _ _ _ _ T1)|done].
  - pose proof (cs_slack _ _ _ _ _ Hcan) as Hsl. unfold slack, zlen. rewrite B4. lia.
Qed.

(** C22: A [Put] that finds the root leaf full returns success and loses the
    record.  On a store whose tree is one leaf, with the next two page ids free
    for tree pages and room in the pool, it splits the leaf: the old page keeps
    the lower half of the cells, the next page of the device gets the upper
    half, the page behind it becomes the root above both, and the store's map
    has neither the new value of the key nor the one it had, while every other
    key reads as before. *)
Theorem Put_full_root_drops_record fuel s cs k v :
  full_root s cs -> zlen k + zlen v < 2 ^ 31 -> leaf_fits k v (purged k cs) = false -> durable_key k = false ->
  let n := next_page (bp (kdb s)) in let cs' := purged k cs in
  let ls := [(kroot s, take (length cs' / 2) cs'); (n, drop (length cs' / 2) cs')] in
  exists s', Put (S (S fuel)) k v s = (Ok tt, s') /\ kroot s' = n + 1 /\ kv_rep 1 ls s' /\
    tree_map ls = delete k (tree_map [(kroot s, cs)]) /\
    forall k', (Get (S (S fuel)) k' s').1 =
      if decide (k' = k) then Err (Msg "key not found") else (Get (S (S fuel)) k' s).1.
Proof.
  intros Hfull Hkv Hfit Hdur n cs' ls.
  destruct (Insert_full_root (S fuel) s cs k v Hfull Hkv Hfit) as (pool & E & Hrep & Hsl). fold n cs' ls in E, Hrep.
  assert (tree_map ls = delete k (tree_map [(kroot s, cs)])) as Em.
  { unfold tree_map, cells_of, ls. cbn [fmap list_fmap concat snd]. rewrite !app_nil_r, take_drop. apply leaf_map_purged. }
  unfold Put, with_tree, mbind, io_bind. rewrite E. cbn [tbp rootID]. fold (durable_key k). rewrite Hdur.
  eexists. split; [reflexivity|]. split; [done|]. split; [exact Hrep|]. split; [done|]. intros k'.
  destruct (Get_run (S (S fuel)) 1 ls _ k' Hrep) as (s1 & -> & _); [split; [lia|by right]|].
  destruct (Get_run (S (S fuel)) 0 _ s k' (fr_rep _ _ Hfull)) as (s2 & -> & _); [split; [lia|by left]|].
  rewrite Em. cbn [fst]. case_decide as Hk; [subst k'; by rewrite lookup_delete_eq|by rewrite lookup_delete_ne].
Qed.
End Split.

(** ** Witness *)

#[local] Existing Instance canonical_range.

Definition big_value : bytes := replicate (Z.to_nat 20000) Byte.x61.
Definition big_cells : list (bytes * bytes) := [(str "a", big_value)].

Lemma big_length : zlen big_value = 20000.
Proof. unfold big_value, zlen. rewrite length_replicate. apply Z2Nat.id. lia. Qed.

(** A store on a device with one page, a leaf of one large cell. *)
Definition demo_full (dev : MemDevice) : BTreeKVStore MemDevice LRUEvictionPolicy :=
  mkKV (NewDB (NewBufferPool dev 8 NewLRUEvictionPolicy None) (NewBatchingWAL []) None) 1002.

Lemma big_leaf (d : mem) :
  d = node_image leaf_format PageTypeLeaf big_cells -> Node.PageType d = PageTypeLeaf /\ leaf_holds d big_cells /\ Node.NextLeafID d = 0.
Proof.
  assert (zlen (encs leaf_format big_cells) = 20005) as El.
  { unfold encs, big_cells. cbn [fmap list_fmap concat]. rewrite app_nil_r. change (enc leaf_format) with leaf_enc.
    rewrite zlen_leaf_enc. cbn [fst snd]. rewrite big_length. done. }
  intros ->. destruct (node_image_holds leaf_format PageTypeLeaf big_cells) as [H1 H2]; [|by rewrite El|done|].
  { constructor; [|constructor]. cbn. unfold len16. by rewrite big_length. }
  split; [exact H1|]. split; [exact H2|]. unfold node_image, Node.NextLeafID, Node.SetNumCells, Node.SetPageType, BTreeHeaderSize. by fields.
Qed.

Lemma full_demo : exists dev, full_root (demo_full dev) big_cells /\ next_page (bp (kdb (demo_full dev))) = ColdLogBTreeRootPageID.
Proof.
  assert (page_id_ok 1002) as Hok by (unfold page_id_ok; lia).
  remember (node_image leaf_format PageTypeLeaf big_cells) as d eqn:Ed. destruct (big_leaf d Ed) as (Ht & Hh & Hnx). clear Ed.
  destruct (WritePage_reliable NewMemDevice 1002 d Hok) as (dev & Hw). exists dev.
  pose proof (WritePage_size _ _ _ _ _ Hok Hw) as Hsz. rewrite Z.max_r in Hsz by done.
  destruct (WritePage_spec _ _ _ _ _ Hok Hw) as (_ & Hsame & Hoth). specialize (Hsame eq_refl). clear Hw.
  assert (forall id, view (NewBufferPool dev 8 NewLRUEvictionPolicy None) id = disk_page dev id) as Hview.
  { intros id. unfold view. cbn. by rewrite lookup_empty. }
  assert (next_page (bp (kdb (demo_full dev))) = 1003) as Hn by (unfold next_page; cbn [demo_full kdb bp NewDB NewBufferPool disk]; by rewrite Hsz).
  split; [|exact Hn]. split.
  - split.
    + apply inv_new; [apply lru_inv_new|done|]. intros id Hid. destruct (decide (id = 1002)) as [->|Hne]; [by apply sum_btree|].
      eapply checksum_ok_ext; [by apply Hoth|apply empty_disk_sum].
    + intros id. apply NewBufferPool_idle.
    + cbn. lia.
    + exists [1002]. split; [|apply NoDup_singleton]. exists big_cells. split; [|done]. cbn [demo_full kdb bp NewDB kroot].
      split; rewrite ?Hview; [split; done| | | |].
      * by rewrite (PageType_header _ _ (image_header _ _ Hsame)).
      * by apply (holds_image _ d).
      * repeat constructor.
      * by repeat constructor.
    + cbn [chain demo_full kdb bp NewDB kroot]. by rewrite Hview, (NextLeafID_header _ _ (image_header _ _ Hsame)).
  - intros id i p. cbn. by rewrite lookup_empty.
  - split; [done|]. cbn [demo_full kdb bp NewDB NewBufferPool disk kroot]. by rewrite Hsz.
  - rewrite Hn. by repeat constructor.
  - cbn. lia.
Qed.

Lemma Put_full_root_drops_record_witness :
  exists dev s', Put 2 (str "b") big_value (demo_full dev) = (Ok tt, s') /\ (Get 2 (str "b") s').1 = Err (Msg "key not found").
Proof.
  destruct full_demo as (dev & Hfull & _). exists dev.
  destruct (Put_full_root_drops_record 0 (demo_full dev) big_cells (str "b") big_value Hfull
    ltac:(rewrite big_length; reflexivity) ltac:(unfold leaf_fits; rewrite big_length; vm_compute; reflexivity) ltac:(reflexivity))
    as (s' & E & _ & _ & _ & Hget).
  exists s'. split; [exact E|]. rewrite (Hget (str "b")). reflexivity.
Defined.

(** A new page is taken by the size of the device alone: the split of the store
    at root 1002 takes the root page of the cold log store for its upper half. *)
Lemma split_takes_reserved_root :
  exists dev s', Put 2 (str "b") big_value (demo_full dev) = (Ok tt, s') /\
    kv_rep 1 [(BTreeRootPageID, []); (ColdLogBTreeRootPageID, big_cells)] s'.
Proof.
  destruct full_demo as (dev & Hfull & Hn). exists dev.
  destruct (Insert_full_root 1 (demo_full dev) big_cells (str "b") big_value Hfull) as (pool & E & Hrep & _);
    [by rewrite big_length|unfold leaf_fits; rewrite big_length; vm_compute; reflexivity|].
  rewrite Hn in *. eexists. split; [|exact Hrep]. unfold Put, with_tree, mbind, io_bind. rewrite E. reflexivity.
Qed.

(** On a page with an id below 1000 the pool writes its checksum over the type
    and the count of a tree node, when the page is written back. *)
Lemma stamp_clobbers_node p :
  isBTreeKVPage (ID p) = false ->
  Node.PageType (Data (stamp p)) + 2 ^ 16 * Node.NumCells (Data (stamp p)) = u32 (ComputeChecksum (Data p)).
Proof.
  intros Hid. unfold stamp. rewrite Hid. cbn [Data set_Data]. unfold SetChecksum. set (v := ComputeChecksum (Data p)).
  rewrite <- (Uint32_Put (Data p) 0 v). unfold Node.PageType, Node.NumCells, Uint16, Uint32.
  generalize (PutUint32 (Data p) 0 v) as d. intros d.
  change (slice d 0 (0 + 4)) with [d 0; d 1; d 2; d 3]. change (slice d 0 (0 + 2)) with [d 0; d 1].
  change (slice d 2 (2 + 2)) with [d 2; d 3]. cbn [le_val]. lia.
Qed.
