(* ===== verification/KVOpen.v ===== *)
(** Opening a key-value store on a root page: what is purged, what is kept and
    what is reset. *)

From Stdlib Require Import Strings.Byte.
From stdpp Require Import sorting.
From S2P Require Import Common.
From S2P Require Import Prelude.
From S2P Require Import VFS.
From S2P Require Import LRU.
From S2P Require Import Page.
From S2P Require Import Slotted.
From S2P Require Import Telemetry.
From S2P Require Import BufferPool.
From S2P Require Import PoolInv.
From S2P Require Import PoolOps.
From S2P Require Import PoolPins.
From S2P Require Import PoolLatch.
From S2P Require Import WAL.
From S2P Require Import DBPage.
From S2P Require Import DB.
From S2P Require Import BTreePage.
From S2P Require Import BTreeNode.
From S2P Require Import BTree.
From S2P Require Import BTreeSpec.
From S2P Require Import BTreeLocked.
From S2P Require Import BTreeWalk.
From S2P Require Import BTreeJoin.
From S2P Require Import KVRecover.
From S2P Require Import KVStore.
From S2P Require Import KVSpec.
From S2P Require Import KVPut.
From S2P Require Import KVProps.
From S2P Require Import KVIter.

(** ** The purge *)

Definition ephemeral_prefixes : list bytes :=
  [str "state:grant:"; str "state:log:"; str "transaction_ledger:"; str "state:pop:"].

Definition ephemeral (k : bytes) : bool := existsb (has_prefix k) ephemeral_prefixes.

Definition ephemeral_keys (cs : list (bytes * bytes)) : list bytes :=
  concat ((fun p => (matching p cs).*1) <$> ephemeral_prefixes).

Lemma elem_of_ephemeral_keys k cs : k ∈ ephemeral_keys cs <-> k ∈ cs.*1 /\ ephemeral k = true.
Proof.
  unfold ephemeral_keys, ephemeral. rewrite list_elem_of_In, in_concat, existsb_exists. split.
  - intros (ks & (p & -> & Hp)%list_elem_of_In%list_elem_of_fmap & Hk%list_elem_of_In).
    apply list_elem_of_fmap in Hk as (c & -> & [Hpre Hc]%list_elem_of_filter).
    split; [by apply list_elem_of_fmap_2|]. exists p. split; [by apply list_elem_of_In|done].
  - intros [(c & -> & Hc)%list_elem_of_fmap (p & Hp & Hpre)]. exists (matching p cs).*1. split.
    + apply list_elem_of_In, list_elem_of_fmap. exists p. split; [done|by apply list_elem_of_In].
    + apply list_elem_of_In, list_elem_of_fmap_2, list_elem_of_filter. done.
Qed.

(** No two of the prefixes begin the same key, so no key is collected twice. *)
Lemma matching_disjoint p q k cs :
  (forall t t', p ++ t <> q ++ t') -> k ∈ (matching p cs).*1 -> k ∉ (matching q cs).*1.
Proof.
  intros Hpq (c & -> & [(t & Ht)%has_prefix_spec _]%list_elem_of_filter)%list_elem_of_fmap
    (c' & E & [(t' & Ht')%has_prefix_spec _]%list_elem_of_filter)%list_elem_of_fmap.
  apply (Hpq t t'). congruence.
Qed.

Lemma ephemeral_keys_NoDup cs : NoDup cs.*1 -> NoDup (ephemeral_keys cs).
Proof.
  intros Hnd. assert (forall p, NoDup (matching p cs).*1) as Hm.
  { intros p. eapply sublist_NoDup; [exact Hnd|]. apply fmap_sublist, sublist_filter. }
  unfold ephemeral_keys, ephemeral_prefixes. cbn [fmap list_fmap concat]. rewrite app_nil_r.
  repeat (apply NoDup_app; split; [apply Hm|split; [|]]); try apply Hm; intros k Hk;
    rewrite ?not_elem_of_app; split_and?; (eapply matching_disjoint; [|exact Hk]); intros t t'; discriminate.
Qed.

(** Deleting keys one by one. *)
Lemma delete_all_lookup (l : list bytes) (m : gmap bytes bytes) k :
  fold_left (fun m k => delete k m) l m !! k = if decide (k ∈ l) then None else m !! k.
Proof.
  revert m. induction l as [|x l IH]; intros m; [done|]. cbn [fold_left]. rewrite IH.
  destruct (decide (k = x)) as [->|Hne].
  - rewrite lookup_delete_eq, (decide_True (P := x ∈ x :: l)) by left. by case_decide.
  - rewrite lookup_delete_ne by done. destruct (decide (k ∈ l)).
    + by rewrite decide_True by (by right).
    + rewrite decide_False; [done|]. by apply not_elem_of_cons.
Qed.

Section Open.
Context {D : Type} `{DS : BlockDeviceSpec D} `{RD : !ReliableDevice D} `{MR : MapRange}.
Implicit Types s : BTreeKVStore D LRUEvictionPolicy.

(** Room for [n] more dirty pages, for a tree of height [h]. *)
Definition spare (n fuel h : nat) s : Prop := (h < fuel)%nat /\ (h = 0%nat \/ slack (n + h) (bp (kdb s))).

Lemma spare_descends n fuel h s : spare n fuel h s -> descends fuel h s.
Proof. intros [Hh [?|Hs]]; (split; [done|]); [by left|right]. by apply (slack_le _ (n + h)); [lia|]. Qed.

Lemma spare_spend m n fuel h s s' :
  length (frames (bp (kdb s'))) = length (frames (bp (kdb s))) ->
  dirty_count (bp (kdb s')) <= dirty_count (bp (kdb s)) + Z.of_nat m -> spare (m + n) fuel h s -> spare n fuel h s'.
Proof. intros Hl Hd [Hh [?|Hs]]; (split; [done|]); [by left|right]. revert Hs. unfold slack, zlen. lia. Qed.

Lemma delete_loop_run fuel h ls s l n :
  kv_rep h ls s -> spare (length l) fuel h s -> NoDup l -> (forall k, k ∈ l -> is_Some (tree_map ls !! k)) ->
  exists s' ls', delete_loop fuel l n s = (Ok (n + zlen l), s') /\ kv_rep h ls' s' /\
    tree_map ls' = fold_left (fun m k => delete k m) l (tree_map ls) /\ kroot s' = kroot s.
Proof.
  revert ls s n. induction l as [|k l IH]; intros ls s n Hrep Hsp Hnd Hin.
  { exists s, ls. cbn. by rewrite Z.add_0_r. }
  apply NoDup_cons in Hnd as [Hk Hnd]. destruct (Hin k) as [v Hv]; [left|].
  pose proof (spare_descends _ _ _ _ Hsp) as Hh.
  destruct (Delete_run fuel h ls s k Hrep Hh) as (s1 & ls1 & E & Hrep1 & Em & Hfr).
  pose proof (Delete_dirt fuel h ls s k _ s1 Hrep Hh E) as Hn. rewrite Hv in E.
  cbn [delete_loop]. unfold try, mbind, io_bind. rewrite E.
  destruct (IH ls1 s1 (n + 1) Hrep1) as (s2 & ls2 & -> & Hrep2 & Em2 & Er); [|done| |].
  { apply (spare_spend 1 _ fuel h s); [apply Hfr|exact Hn|exact Hsp]. }
  { intros x Hx. rewrite Em, lookup_delete_ne by (intros ->; done). apply Hin. by right. }
  exists s2, ls2. rewrite Em2, Em, Er. split; [do 2 f_equal; unfold zlen; cbn [length]; lia|].
  split; [done|]. split; [done|]. apply Hfr.
Qed.

Lemma collect_run fuel h ls s ps acc :
  kv_rep h ls s -> kv_walk h ls s -> (h < fuel)%nat -> (length (cells_of ls) < fuel)%nat ->
  exists s', collect_prefixes fuel ps acc s = (Ok (acc ++ concat ((fun p => (matching p (cells_of ls)).*1) <$> ps)), s') /\
    kv_rep h ls s' /\ kroot s' = kroot s /\ length (frames (bp (kdb s'))) = length (frames (bp (kdb s))) /\
    dirty_count (bp (kdb s')) <= dirty_count (bp (kdb s)).
Proof.
  intros Hrep Hw Hh Hf. revert s acc Hrep Hw. induction ps as [|p ps IH]; intros s acc Hrep Hw.
  { exists s. cbn. by rewrite app_nil_r. }
  destruct (iterate_all_run fuel h ls s p Hrep Hw Hh Hf) as (pool & E & U & Hn).
  cbn [collect_prefixes]. unfold mbind, io_bind. rewrite E.
  destruct (kv_rep_unchanged h ls s pool _ Hrep U ltac:(done)) as [Hrep1 _].
  destruct (IH _ (acc ++ (matching p (cells_of ls)).*1) Hrep1 (kv_walk_unchanged _ _ _ _ _ Hrep Hw U))
    as (s2 & -> & Hrep2 & Er & El & Hn2).
  exists s2. rewrite Er, El. cbn [fmap list_fmap concat]. rewrite app_assoc. cbn [with_pool_of kdb bp set_bp] in *.
  split; [done|]. split; [done|]. split; [done|]. split; [apply U|lia].
Qed.

Lemma purge_run fuel h ls s :
  kv_rep h ls s -> kv_walk h ls s -> spare (length (ephemeral_keys (cells_of ls))) fuel h s ->
  (length (cells_of ls) < fuel)%nat ->
  exists s' ls', purgeEphemeralKVKeys fuel s = (Ok (zlen (ephemeral_keys (cells_of ls))), s') /\
    kv_rep h ls' s' /\ kroot s' = kroot s /\
    tree_map ls' = filter (fun kv => ephemeral kv.1 = false) (tree_map ls).
Proof.
  intros Hrep Hw Hsp Hf. unfold purgeEphemeralKVKeys, mbind, io_bind.
  destruct (collect_run fuel h ls s ephemeral_prefixes [] Hrep Hw (proj1 Hsp) Hf) as (s1 & E & Hrep1 & Er1 & El1 & Hn1).
  fold ephemeral_prefixes. rewrite E. cbn [app]. fold (ephemeral_keys (cells_of ls)).
  assert (NoDup (cells_of ls).*1) as Hnd.
  { destruct Hrep as [_ _ _ (ids & Hsub & _) _]. eapply keys_sorted_NoDup, subtree_sorted. exact Hsub. }
  assert (forall k, k ∈ (cells_of ls).*1 <-> is_Some (tree_map ls !! k)) as Hdom.
  { intros k. unfold tree_map, leaf_map. split.
    - intros ([k' v] & -> & Hc)%list_elem_of_fmap. exists v. by apply elem_of_list_to_map_1.
    - intros [v Hv]. apply elem_of_list_to_map_2 in Hv. apply (list_elem_of_fmap_2 fst _ _ Hv). }
  destruct (delete_loop_run fuel h ls s1 (ephemeral_keys (cells_of ls)) 0 Hrep1)
    as (s2 & ls2 & -> & Hrep2 & Em & Er2); [|by apply ephemeral_keys_NoDup| |].
  { apply (spare_spend 0 _ fuel h s); [done|lia|done]. }
  { intros k [Hk _]%elem_of_ephemeral_keys. by apply Hdom. }
  exists s2, ls2. split; [done|]. split; [done|]. split; [congruence|].
  apply map_eq. intros k. rewrite Em, delete_all_lookup, map_lookup_filter.
  destruct (tree_map ls !! k) as [v|] eqn:Ek; [|by case_decide]. cbn [mbind option_bind].
  destruct (ephemeral k) eqn:Ee.
  - rewrite decide_True by (apply elem_of_ephemeral_keys; split; [apply Hdom; eauto|done]).
    by rewrite option_guard_False by (cbn [fst]; by rewrite Ee).
  - rewrite decide_False by (intros [_ ?]%elem_of_ephemeral_keys; congruence).
    by rewrite option_guard_True.
Qed.

(** ** Opening a well-formed tree *)

Lemma claim_root_run s :
  pool_inv ∅ (bp (kdb s)) -> (forall id, pins (bp (kdb s)) id = 0) -> (0 < length (frames (bp (kdb s))))%nat ->
  page_id_ok (kroot s) ->
  exists i p pool, claim_root (kroot s) s = (Ok i, with_pool_of pool s) /\
    unchanged (bp (kdb s)) pool (on (Some (kroot s))) /\ pageTable pool !! kroot s = Some i /\
    frames pool !! i = Some p /\ ID p = kroot s /\ view pool (kroot s) = Data p /\
    dirty_count pool <= dirty_count (bp (kdb s)).
Proof.
  intros Hinv Hidle Hlen Hok. unfold claim_root, with_pool, with_db, try, mbind, io_bind, mret, io_ret.
  destruct (FetchPage_room ∅ (bp (kdb s)) (kroot s) ∅ Hinv Hok) as (i & pool & Hf);
    [intros id; rewrite Hidle; lia | rewrite size_empty; lia|].
  rewrite Hf. destruct (fetch_unchanged _ _ i pool Hinv Hok Hf) as (U & Hi & _).
  destruct (frame_view pool (kroot s) i (un_inv _ _ _ U) Hi) as (p & Hp & Hid & Hv).
  exists i, p, pool. split; [done|]. split; [|pose proof (FetchPage_count ∅ _ _ _ _ Hinv Hok Hf); by split_and!].
  eapply unchanged_pins; [exact U|]. intros id. cbn. rewrite Hidle, on_some. lia.
Qed.

Lemma import_empty fuel s : importRecoveredKV fuel ∅ s = (Ok 0, s).
Proof.
  unfold importRecoveredKV. assert (range (∅ : gmap bytes bytes) = []) as ->; [|done].
  apply Permutation_nil. rewrite range_perm, map_to_list_empty. done.
Qed.

Lemma open_run fuel h ls s now now' :
  kv_rep h ls s -> kv_walk h ls s -> spare (1 + length (ephemeral_keys (cells_of ls))) fuel h s ->
  (length (cells_of ls) < fuel)%nat ->
  kroot s <> LegacyKVPageID -> Node.NumCells (view (bp (kdb s)) (kroot s)) <= 512 ->
  exists s' ls', NewBTreeKVStoreWithRoot fuel (kdb s) (kroot s) now now' = (Ok tt, s') /\
    kv_rep h ls' s' /\ kroot s' = kroot s /\
    tree_map ls' = filter (fun kv => ephemeral kv.1 = false) (tree_map ls).
Proof.
  intros Hrep Hw Hsp Hf Hleg Hsmall. pose proof Hrep as [Hinv Hidle Hfr (ids & Hsub & Hnd) Hch].
  pose proof (subtree_root _ _ _ _ _ _ _ Hsub) as Hpg.
  destruct (claim_root_run s Hinv Hidle ltac:(lia) ltac:(apply Hpg)) as (i & p & pool & Ec & U & Hi & Hp & Hid & Hv & Hn).
  assert (image_eq 0 (Data p) (view (bp (kdb s)) (kroot s))) as Himg.
  { rewrite <- Hv. by apply same_view_image; [apply U|]. }
  assert (btreePageNeedsReset (Data p) = false) as Enr.
  { unfold btreePageNeedsReset. rewrite (PageType_header _ _ (image_header _ _ Himg)).
    assert (Node.NumCells (Data p) = Node.NumCells (view (bp (kdb s)) (kroot s))) as ->.
    { unfold Node.NumCells. apply Uint16_ext. intros k Hk. apply Himg. unfold PageSize. lia. }
    rewrite (proj2 (Z.ltb_ge _ _) Hsmall). destruct h as [|h].
    - destruct Hsub as (cs & [_ Ht _ _ _] & _). by rewrite Ht.
    - destruct Hsub as (seps & ids' & _ & Ht & _). by rewrite Ht. }
  assert (0 < pins pool (kroot s)) as Hpos.
  { rewrite (un_pins _ _ _ U), on_some. unfold one. by rewrite bool_decide_eq_true_2. }
  destruct (unpin_unchanged pool (kroot s) true (un_inv _ _ _ U) Hpos) as [U2 _].
  pose proof (unchanged_trans _ _ _ _ _ U U2) as U3. set (pool1 := UnpinPage pool (kroot s) true) in *.
  assert (unchanged (bp (kdb s)) pool1 (fun _ => 0)) as U4.
  { eapply unchanged_pins; [exact U3|]. intros id. cbn. rewrite (un_pins _ _ _ U), on_some. lia. }
  destruct (kv_rep_unchanged h ls s pool1 _ Hrep U4 ltac:(done)) as [Hrep1 _].
  pose proof (UnpinPage_count ∅ ∅ pool (kroot s) true (un_inv _ _ _ U) (un_inv _ _ _ U4)) as Hn1. cbn in Hn1.
  assert (spare (length (ephemeral_keys (cells_of ls))) fuel h (with_pool_of pool1 s)) as Hsp1.
  { apply (spare_spend 1 _ fuel h s); [apply U4|cbn; unfold pool1; lia|done]. }
  destruct (purge_run fuel h ls _ Hrep1 (kv_walk_unchanged _ _ _ _ _ Hrep Hw U4) Hsp1 Hf) as (s2 & ls2 & Ep & Hrep2 & Er & Em).
  assert (open_root fuel (kroot s) now now' s =
    (if (0 <? zlen (ephemeral_keys (cells_of ls))) then ignore Flush else mret tt) s2) as Eo.
  { unfold open_root, try, mbind, io_bind. rewrite Ec. unfold page_of. cbn [with_pool_of kdb bp set_bp]. rewrite Hp, Enr.
    rewrite (proj2 (Z.eqb_neq _ _) Hleg). cbn [orb]. unfold mret, io_ret. cbn [with_pool_of kdb bp set_bp]. rewrite Hp, Hid.
    change (unpin (kroot s) true (with_pool_of pool s)) with (Ok tt, with_pool_of pool1 s).
    cbn iota beta. by rewrite import_empty, Ep. }
  unfold NewBTreeKVStoreWithRoot.
  replace (mkKV (kdb s) (kroot s)) with s by by destruct s. rewrite Eo.
  destruct (0 <? zlen (ephemeral_keys (cells_of ls))).
  - destruct (Flush_run h ls2 s2 Hrep2) as (r & s3 & Ef & Hr & Hrep3 & Hfr3 & _). exists s3, ls2.
    unfold ignore, try, mbind, io_bind. rewrite Ef. split; [by destruct r|]. split; [done|].
    split; [|done]. by rewrite (kf_root _ _ _ (Hfr3 ls2)).
  - by exists s2, ls2.
Qed.
End Open.

(** ** Reading a whole tree *)

Section Reading.
Context {D : Type} `{DS : BlockDeviceSpec D} `{RD : !ReliableDevice D} `{MR : MapRange}.
Implicit Types s : BTreeKVStore D LRUEvictionPolicy.

(** C25: Reading an iterator to its end yields exactly the cells whose key has the
    prefix, in key order, each once - all of them for the empty prefix - and
    closing it leaves the store as it was with nothing pinned.  The tree must
    have no empty leaf unless it is a single one. *)
Theorem iterator_yields_prefix fuel h ls s p :
  kv_rep h ls s -> kv_walk h ls s -> (h < fuel)%nat -> (length (cells_of ls) < fuel)%nat ->
  exists s', iterate_all fuel p s = (Ok (matching p (cells_of ls)), s') /\ kv_rep h ls s' /\ kv_frame ls s s'.
Proof.
  intros Hrep Hw Hh Hf. destruct (iterate_all_run fuel h ls s p Hrep Hw Hh Hf) as (pool & E & U & _).
  exists (with_pool_of pool s). split; [done|]. by apply (kv_rep_unchanged h ls s pool (fun _ => 0)).
Qed.

(** [Scan] of the B-tree returns exactly the cells with the prefix, in key
    order, also over empty leaves, and gives every page back. *)
Theorem Scan_is_prefix_filter fuel h ls s p :
  kv_rep h ls s -> descends fuel h s -> (length ls <= fuel)%nat ->
  exists pool, BTree.Scan fuel (bp (kdb s)) (kroot s) p = (Ok (matching p (cells_of ls)), pool) /\
    kv_rep h ls (with_pool_of pool s).
Proof.
  intros Hrep [Hh Hcan] Hf. pose proof Hrep as [Hinv Hidle Hfr (ids & Hsub & Hnd) Hch].
  destruct (Scan_run fuel h (bp (kdb s)) (kroot s) ls ids p) as (pool & E & U); try done; [lia|].
  exists pool. split; [done|]. by apply (kv_rep_unchanged h ls s pool (fun _ => 0)).
Qed.

(** C26: [SortMergeJoin] of two trees a cursor can walk - no leaf is empty unless
    the tree is a single leaf, and no internal node of the left edge is without
    separators - computes the join of their maps: one result for every key both
    have, in key order, with both values; it terminates (with fuel above the heights
    and the number of cells of both), and both cursors are closed.  The pool has
    nothing pinned and more than two frames, and must be below its flush threshold,
    as each cursor holds a latch while the other fetches. *)
Theorem SortMergeJoin_is_join fuel (pool : BufferPool D LRUEvictionPolicy) hl hr rootl rootr lsl lsr :
  pool_inv ∅ pool -> (forall id, pins pool id = 0) -> (2 < length (frames pool))%nat -> slack 0 pool ->
  walk_tree pool hl rootl lsl -> walk_tree pool hr rootr lsr ->
  (hl < fuel)%nat -> (hr < fuel)%nat -> (length (cells_of lsl) + length (cells_of lsr) < fuel)%nat ->
  exists pool', SortMergeJoin fuel pool rootl rootr =
      (Ok (omap (fun '(k, v) => mkJoin k v <$> tree_map lsr !! k) (cells_of lsl)), pool') /\
    unchanged pool pool' (fun _ => 0).
Proof. apply SortMergeJoin_run. Qed.

(** C24: Opening a store on a well-formed tree that a cursor can walk keeps its
    data: exactly the keys with one of the four ephemeral prefixes are gone from the
    map, every other key has its value.  The conditions: no leaf is empty unless the
    tree is a single leaf, and no internal node of the left edge is without
    separators (deletes can leave such trees, which the cursor misreads); the root is
    not the page of the legacy format and holds at most 512 cells; the fuel exceeds
    the height and the number of cells; in a tree of more than one page the root and
    the pages of the deleted keys do not bring the pool to its flush threshold. *)
Theorem open_keeps_data fuel h ls s now now' :
  kv_rep h ls s -> kv_walk h ls s -> spare (1 + length (ephemeral_keys (cells_of ls))) fuel h s ->
  (length (cells_of ls) < fuel)%nat ->
  kroot s <> LegacyKVPageID -> Node.NumCells (view (bp (kdb s)) (kroot s)) <= 512 ->
  exists s' ls', NewBTreeKVStoreWithRoot fuel (kdb s) (kroot s) now now' = (Ok tt, s') /\
    kv_rep h ls' s' /\ kroot s' = kroot s /\
    tree_map ls' = filter (fun kv => ephemeral kv.1 = false) (tree_map ls).
Proof. apply open_run. Qed.
End Reading.

(** A leaf page that is well formed but holds more than 512 cells is taken for
    corrupt when a store is opened on it: [btreePageNeedsReset] asks for a
    reset, and the reset page is an empty leaf.  Such pages fit the format
    (cells take four bytes and their contents). *)
Theorem crowded_root_is_reset d cs :
  Node.PageType d = PageTypeLeaf -> leaf_holds d cs -> 512 < zlen cs ->
  btreePageNeedsReset d = true /\ leaf_holds (resetBTreePage d) [].
Proof.
  intros Ht Hh Hn. split; [|apply resetBTreePage_spec]. unfold btreePageNeedsReset.
  rewrite Ht, (nh_count _ _ _ Hh). cbn [negb andb Z.eqb]. change (PageTypeLeaf =? PageTypeLeaf) with true.
  cbn [negb andb]. by apply Z.ltb_lt.
Qed.

(** ** Witnesses *)

#[local] Existing Instance canonical_range.

(** The demonstration store after one insertion and a flush. *)
Lemma demo_put : exists s ls, kv_rep 0 ls s /\ kv_walk 0 ls s /\ slack 0 (bp (kdb s)) /\ kroot s = 1002 /\
  tree_map ls = {[str "b" := str "1"]} /\ length (cells_of ls) = 1%nat /\
  Node.NumCells (view (bp (kdb s)) (kroot s)) <= 512.
Proof.
  destruct (Put_run 1 0 _ demo_store (str "b") (str "1") demo_store_rep (demo_descends _) ltac:(reflexivity)
    (demo_room (str "b") (str "1") eq_refl)) as (r1 & s1 & ls & _ & _ & Hrep1 & Em & Hfr1 & _).
  destruct (Flush_run 0 ls s1 Hrep1) as (r & s & Ef & _ & Hrep & Hfr2 & _).
  destruct (Flush_reliable s1 (kr_inv _ _ _ Hrep1) (fun _ => eq_refl)) as (s2 & Ef2). rewrite Ef in Ef2. injection Ef2 as -> _.
  pose proof (Flush_clean s1 s (kr_inv _ _ _ Hrep1) Ef) as Hclean.
  pose proof (kv_frame_trans _ _ _ _ Hfr1 (Hfr2 _)) as Hfr.
  pose proof Hrep as [_ _ _ (ids & Hsub & _) _]. destruct Hsub as (cs & Hleaf & -> & _).
  assert (length cs = 1%nat) as Hlen.
  { unfold tree_map, leaf_map, cells_of in Em. cbn in Em. rewrite app_nil_r in Em.
    pose proof (f_equal base.size Em) as Esz. rewrite map_size_insert_None, map_size_empty in Esz by apply lookup_empty.
    rewrite map_size_list_to_map in Esz; [done|]. apply keys_sorted_NoDup, Hleaf. }
  exists s, [(kroot s, cs)]. split; [done|]. split; [split; [done|by right]|].
  split; [unfold slack; rewrite Hclean; pose proof (kr_frames _ _ _ Hrep); unfold zlen; lia|].
  split; [rewrite (kf_root _ _ _ Hfr); exact demo_store_root|]. split; [exact Em|].
  unfold cells_of. cbn. rewrite app_nil_r. split; [done|].
  rewrite (nh_count _ _ _ (lf_holds _ _ _ _ _ Hleaf)). unfold zlen. lia.
Qed.

Lemma iterator_yields_prefix_witness :
  exists s ls s', tree_map ls = {[str "b" := str "1"]} /\
    iterate_all 2 (str "b") s = (Ok (matching (str "b") (cells_of ls)), s').
Proof.
  destruct demo_put as (s & ls & Hrep & Hw & _ & _ & Em & Hlen & _).
  destruct (iterator_yields_prefix 2 0 ls s (str "b") Hrep Hw ltac:(lia) ltac:(rewrite Hlen; lia)) as (s' & E & _).
  exists s, ls, s'. split; [exact Em | exact E].
Defined.

Lemma Scan_is_prefix_filter_witness :
  exists pool, BTree.Scan 1 (bp (kdb demo_store)) (kroot demo_store) (str "b") = (Ok [], pool).
Proof.
  destruct (Scan_is_prefix_filter 1 0 [(1002, [])] demo_store (str "b") demo_store_rep (demo_descends _) ltac:(cbn; lia))
    as (pool & E & _). exists pool. exact E.
Defined.

Lemma SortMergeJoin_is_join_witness :
  exists s ls pool, tree_map ls = {[str "b" := str "1"]} /\
    SortMergeJoin 3 (bp (kdb s)) 1002 1002 =
      (Ok (omap (fun '(k, v) => mkJoin k v <$> tree_map ls !! k) (cells_of ls)), pool).
Proof.
  destruct demo_put as (s & ls & Hrep & [He Hw] & Hsl & Er & Em & Hlen & _).
  pose proof Hrep as [Hinv Hidle Hfr (ids & Hsub & Hnd) Hch]. rewrite Er in *.
  assert (walk_tree (bp (kdb s)) 0 1002 ls) as Hwt by (split; [by exists ids | done..]).
  destruct (SortMergeJoin_is_join 3 (bp (kdb s)) 0 0 1002 1002 ls ls Hinv Hidle ltac:(lia) Hsl Hwt Hwt ltac:(lia) ltac:(lia)
    ltac:(rewrite Hlen; lia)) as (pool & E & _).
  exists s, ls, pool. split; [exact Em | exact E].
Defined.

Lemma open_keeps_data_witness :
  exists s s' ls', NewBTreeKVStoreWithRoot 2 (kdb s) 1002 0 0 = (Ok tt, s') /\
    tree_map ls' = {[str "b" := str "1"]}.
Proof.
  destruct demo_put as (s & ls & Hrep & Hw & _ & Er & Em & Hlen & Hsm).
  destruct (open_keeps_data 2 0 ls s 0 0 Hrep Hw ltac:(split; [lia|by left]) ltac:(rewrite Hlen; lia)
    ltac:(rewrite Er; discriminate) Hsm) as (s' & ls' & E & _ & _ & Em').
  exists s, s', ls'. rewrite Er in E. split; [exact E|]. rewrite Em', Em. apply (bool_decide_unpack _). reflexivity.
Defined.

(** 513 cells with the key of their number. *)
Definition crowded_cells : list (bytes * bytes) := (fun n => (le_bytes 2 (Z.of_nat n), [])) <$> seq 0 513.

Lemma crowded_root_is_reset_witness :
  btreePageNeedsReset (node_image leaf_format PageTypeLeaf crowded_cells) = true.
Proof.
  destruct (node_image_holds leaf_format PageTypeLeaf crowded_cells) as [Ht Hh].
  - apply Forall_fmap, Forall_forall. intros n _. split; cbn; done.
  - apply Z.leb_le. reflexivity.
  - split; [apply Z.leb_le | apply Z.ltb_lt]; reflexivity.
  - exact (proj1 (crowded_root_is_reset _ crowded_cells Ht Hh ltac:(apply Z.ltb_lt; reflexivity))).
Defined.
