(* ===== verification/KVReplica.v ===== *)
(** The replicating store (kv_replica.go): durable identity keys are written to
    the primary tree, to a replica tree on the same database and to a mirror
    file, and are read back from whichever of the three still has them.  The
    file system, any operation of which may fail, and the JSON package are
    parameters; the mutex of the mirror is not modelled. *)

From Stdlib Require Import Strings.Byte.
From S2P Require Import Common.
From S2P Require Import Prelude.
From S2P Require Import VFS.
From S2P Require Import LRU.
From S2P Require Import Page.
From S2P Require Import Slotted.
From S2P Require Import Telemetry.
From S2P Require Import BufferPool.
From S2P Require Import WAL.
From S2P Require Import Segment.
From S2P Require Import Utf8.
From S2P Require Import DBPage.
From S2P Require Import DB.
From S2P Require Import BTreePage.
From S2P Require Import BTree.
From S2P Require Import KVRecover.
From S2P Require Import KVStore.

(** ** The environment *)

(** The file operations the mirror uses: a read, and operations that report
    whether they succeeded. *)
Class FileSystem (F : Type) := {
  ReadFile : F -> bytes -> option bytes;
  MkdirAll : F -> bytes -> bool * F;
  WriteFile : F -> bytes -> bytes -> bool * F;
  Rename : F -> bytes -> bytes -> bool * F;
  RemoveFile : F -> bytes -> bool * F
}.

(** The document of the mirror; the time is in nanoseconds. *)
Record identityMirrorFile := mkMirrorFile {
  Version : Z;
  UpdatedAt : Z;
  Keys : gmap bytes bytes
}.

(** The JSON text of the document;
    [Unmarshal] gives no map for a document that does not parse or has none. *)
Class MirrorCodec := {
  Marshal : identityMirrorFile -> option bytes;
  Unmarshal : bytes -> option (gmap bytes bytes)
}.

(** What package os documents: a write that reports success has stored its data,
    and a rename that does has moved them.  Any operation may fail. *)
Class FileSystemSpec (F : Type) `{FileSystem F} := {
  write_read : forall f p c f', WriteFile f p c = (true, f') -> ReadFile f' p = Some c;
  rename_read : forall f p q c f', ReadFile f p = Some c -> Rename f p q = (true, f') -> ReadFile f' q = Some c
}.

(** What package json documents: a document with keys in UTF-8 and a time in the
    range of a 64-bit clock is written to a text that reads back as the same keys;
    the keys of any text read are in UTF-8, as other bytes are replaced by U+FFFD. *)
Class MirrorCodecSpec `{MirrorCodec} := {
  marshal_round : forall doc, map_Forall (fun k _ => valid_utf8 k) (Keys doc) -> 0 <= UpdatedAt doc < 2 ^ 63 ->
    exists raw, Marshal doc = Some raw /\ raw <> [] /\ Unmarshal raw = Some (Keys doc);
  unmarshal_utf8 : forall raw m, Unmarshal raw = Some m -> map_Forall (fun k _ => valid_utf8 k) m
}.

(** ** Paths (package path/filepath, with [/] as separator) *)

Fixpoint split_path (cur : bytes) (p : bytes) : list bytes :=
  match p with
  | [] => [rev cur]
  | c :: p => if Byte.eqb c x2f then rev cur :: split_path [] p else split_path (c :: cur) p
  end.

Fixpoint join_path (l : list bytes) : bytes :=
  match l with
  | [] => []
  | [c] => c
  | c :: l => c ++ x2f :: join_path l
  end.

(** One element of a path; the elements kept so far are in reverse. *)
Definition clean_step (rooted : bool) (kept : list bytes) (c : bytes) : list bytes :=
  if bool_decide (c = []) || bool_decide (c = str ".") then kept
  else if bool_decide (c = str "..")
  then match kept with
       | [] => if rooted then [] else [c]
       | t :: rest => if bool_decide (t = str "..") then c :: kept else rest
       end
  else c :: kept.

Definition Clean (p : bytes) : bytes :=
  let rooted := match p with c :: _ => Byte.eqb c x2f | [] => false end in
  let body := join_path (rev (fold_left (clean_step rooted) (split_path [] p) [])) in
  if rooted then x2f :: body else if bool_decide (body = []) then str "." else body.

(** All but the last element. *)
Definition Dir (p : bytes) : bytes :=
  Clean (match rev (split_path [] p) with
         | [] | [_] => []
         | _ :: l => join_path (rev l) ++ [x2f]
         end).

Module Replica.

Definition IdentityReplicaRootPageID : PageID := 1016.

Record ReplicatingKVStore (D P F : Type) := mkRepl {
  rdb : DB D P;
  primary : PageID;
  replica : PageID;
  mirrorPath : bytes;
  files : F
}.
Arguments mkRepl {_ _ _}.
Arguments rdb {_ _ _}.
Arguments primary {_ _ _}.
Arguments replica {_ _ _}.
Arguments mirrorPath {_ _ _}.
Arguments files {_ _ _}.

Section Store.
Context {D P F : Type} `{BlockDevice D} `{EvictionPolicy P} `{MapRange} `{FileSystem F} `{MirrorCodec}.
Context (fuel : nat).
Abbreviation repl := (ReplicatingKVStore D P F).
Abbreviation rkv := (io (ReplicatingKVStore D P F)).

(** A call on one of the two trees; they share the database. *)
Definition on_primary {A} (m : io (BTreeKVStore D P) A) : rkv A := fun s =>
  let '(r, k) := m (mkKV (rdb s) (primary s)) in
  (r, mkRepl (kdb k) (kroot k) (replica s) (mirrorPath s) (files s)).

Definition on_replica {A} (m : io (BTreeKVStore D P) A) : rkv A := fun s =>
  let '(r, k) := m (mkKV (rdb s) (replica s)) in
  (r, mkRepl (kdb k) (primary s) (kroot k) (mirrorPath s) (files s)).

(** ** The mirror *)

Definition mirrorLoad : rkv (option (gmap bytes bytes)) := fun s =>
  (Ok (if bool_decide (mirrorPath s = []) then None
       else match ReadFile (files s) (mirrorPath s) with
            | None | Some [] => None
            | Some raw => Unmarshal raw
            end), s).

Definition mirrorGet (key : bytes) : rkv (option bytes) :=
  m ← mirrorLoad;
  mret (match m with
        | None => None
        | Some m => match m !! key with
                    | None | Some [] => None
                    | Some v => Some v
                    end
        end).

Definition tmp_path (path : bytes) : bytes := path ++ str ".tmp".

(** The document is written to a temporary file and renamed over the old one;
    when the rename fails the old one is removed and the rename tried again. *)
Definition save_file (path raw : bytes) (f : F) : F :=
  let '(ok, f) := MkdirAll f (Dir path) in
  if negb ok then f
  else
    let '(ok, f) := WriteFile f (tmp_path path) raw in
    if negb ok then f
    else
      let '(ok, f) := Rename f (tmp_path path) path in
      if ok then f
      else
        let '(_, f) := RemoveFile f path in
        (Rename f (tmp_path path) path).2.

Definition mirrorSave (now : Z) (keys : gmap bytes bytes) : rkv unit := fun s =>
  (Ok tt,
   if bool_decide (mirrorPath s = []) then s
   else match Marshal (mkMirrorFile 1 now keys) with
        | None => s
        | Some raw => mkRepl (rdb s) (primary s) (replica s) (mirrorPath s) (save_file (mirrorPath s) raw (files s))
        end).

Definition mirrorPut (now : Z) (key value : bytes) : rkv unit := fun s =>
  (if bool_decide (mirrorPath s = []) || bool_decide (value = []) then mret tt
   else
     m ← mirrorLoad;
     mirrorSave now (<[key := value]> (default ∅ m))) s.

Definition mirrorDelete (now : Z) (key : bytes) : rkv unit := fun s =>
  (if bool_decide (mirrorPath s = []) then mret tt
   else
     m ← mirrorLoad;
     match m with
     | None => mret tt
     | Some m => mirrorSave now (delete key m)
     end) s.

(** ** The operations *)

(** The end of [Get], when the primary tree has no value: one found in the
    replica or the mirror is written back. *)
Definition fallback (key : bytes) (err : option error) : rkv bytes :=
  rVal ← try (on_replica (KVStore.Get fuel key));
  match rVal with
  | inr ((_ :: _) as rVal) =>
      _ ← ignore (on_primary (KVStore.Put fuel key rVal));
      _ ← ignore (on_primary KVStore.Flush);
      mret rVal
  | _ =>
      mVal ← mirrorGet key;
      match mVal with
      | Some mVal =>
          _ ← ignore (on_primary (KVStore.Put fuel key mVal));
          _ ← ignore (on_replica (KVStore.Put fuel key mVal));
          _ ← ignore (on_primary KVStore.Flush);
          _ ← ignore (on_replica KVStore.Flush);
          mret mVal
      | None => of_result (Err (default (Msg "key not found") err))
      end
  end.

Definition Get (key : bytes) : rkv bytes :=
  r ← try (on_primary (KVStore.Get fuel key));
  match r with
  | inr ((_ :: _) as val) => mret val
  | inr [] => if isDurableIdentityKey key then fallback key None else mret []
  | inl e => if isDurableIdentityKey key then fallback key (Some e) else of_result (Err e)
  end.

Definition Put (now : Z) (key value : bytes) : rkv unit :=
  _ ← on_primary (KVStore.Put fuel key value);
  if negb (isDurableIdentityKey key) || bool_decide (value = []) then mret tt
  else
    r ← try (on_replica (KVStore.Put fuel key value));
    match r with
    | inl e => of_result (Err (Wrap "identity replica put" e))
    | inr _ =>
        _ ← on_replica KVStore.Flush;
        mirrorPut now key value
    end.

Definition Delete (now : Z) (key : bytes) : rkv unit :=
  err ← try (on_primary (KVStore.Delete fuel key));
  _ ← (if isDurableIdentityKey key
       then
         _ ← ignore (on_replica (KVStore.Delete fuel key));
         _ ← ignore (on_replica KVStore.Flush);
         mirrorDelete now key
       else mret tt);
  of_result (match err with inl e => Err e | inr u => Ok u end).

Definition NewIterator (p : bytes) : rkv btreeIterator := on_primary (KVStore.NewIterator fuel p).

Definition Flush : rkv unit :=
  _ ← on_primary KVStore.Flush;
  on_replica KVStore.Flush.

(** ** Bringing the three copies together *)

(** Keep the longer value. *)
Definition merge_entry (out : gmap bytes bytes) (k v : bytes) : gmap bytes bytes :=
  match out !! k with
  | None => <[k := v]> out
  | Some existing => if zlen existing <? zlen v then <[k := v]> out else out
  end.

Definition durable_prefixes : list bytes :=
  [str "data:user:"; str "data:oidc_"; str "data:client:"; str "data:oidc_master_key"].

(** One prefix of [scanDurable]: an error or an empty value ends it. *)
Fixpoint scan_durable_prefix (rounds : nat) (c : BTreeCursor) (p : bytes) (out : gmap bytes bytes)
    (s : BTreeKVStore D P) : result (gmap bytes bytes) * BTreeCursor * BTreeKVStore D P :=
  match rounds with
  | O => (Hang, c, s)
  | S rounds =>
      let '(r, c, s) := iterator_next fuel c p s in
      match r with
      | Ok (k, v) =>
          if bool_decide (v = []) then (Ok out, c, s)
          else scan_durable_prefix rounds c p (if isDurableIdentityKey k then merge_entry out k v else out) s
      | Err _ => (Ok out, c, s)
      | Panic => (Panic, c, s)
      | Hang => (Hang, c, s)
      end
  end.

Definition scan_durable_close (c : BTreeCursor) (p : bytes) (out : gmap bytes bytes) : io (BTreeKVStore D P) (gmap bytes bytes) :=
  fun s =>
    let '(r, c, s) := scan_durable_prefix fuel c p out s in
    let '(r, pool) := close_after r (bp (kdb s)) c in
    (r, mkKV (set_bp pool (kdb s)) (kroot s)).

Fixpoint scanDurable (prefixes : list bytes) (out : gmap bytes bytes) : io (BTreeKVStore D P) (gmap bytes bytes) :=
  match prefixes with
  | [] => mret out
  | p :: prefixes =>
      it ← KVStore.NewIterator fuel p;
      out ← match cursor it with
            | None => mret out
            | Some c => scan_durable_close c (prefix it) out
            end;
      scanDurable prefixes out
  end.

Definition ensurePresent (key val : bytes) : io (BTreeKVStore D P) bool :=
  existing ← try (KVStore.Get fuel key);
  if (match existing with inr ((_ :: _) as e) => zlen val <=? zlen e | _ => false end)
  then mret false
  else
    r ← try (KVStore.Put fuel key val);
    mret (match r with inr _ => true | inl _ => false end).

Fixpoint restore_loop (l : list (bytes * bytes)) (restored : Z) : rkv Z :=
  match l with
  | [] => mret restored
  | (key, v) :: l =>
      p ← on_primary (ensurePresent key v);
      r ← on_replica (ensurePresent key v);
      restore_loop l (restored + Z.b2z p + Z.b2z r)
  end.

(** Entries of the mirror with an empty value are skipped. *)
Definition merge_mirror (merged : gmap bytes bytes) (m : option (gmap bytes bytes)) : gmap bytes bytes :=
  fold_left (fun (out : gmap bytes bytes) (e : bytes * bytes) => if bool_decide (e.2 = []) then out else merge_entry out e.1 e.2)
    (range (default ∅ m)) merged.

Definition rehydrate (now : Z) : rkv Z :=
  merged ← on_primary (scanDurable durable_prefixes ∅);
  merged ← on_replica (scanDurable durable_prefixes merged);
  m ← mirrorLoad;
  let merged := merge_mirror merged m in
  if bool_decide (merged = ∅) then mret 0
  else
    restored ← restore_loop (range merged) 0;
    _ ← ignore (on_primary KVStore.Flush);
    _ ← ignore (on_replica KVStore.Flush);
    _ ← mirrorSave now merged;
    mret restored.

(** ** Opening *)

(** [path] is the path of the operating system file the device is, empty for
    any other device. *)
Definition identityMirrorPath (path : bytes) : bytes :=
  if bool_decide (path = []) then [] else path ++ str ".identity.json".

(** The clock readings are taken from [now] in the order of the calls. *)
Definition NewReplicatingKVStore (root : PageID) (db : DB D P) (path : bytes) (f : F) (now : nat -> Z) :
    result unit * repl :=
  (_ ← on_replica (fun s => open_root fuel (kroot s) (now 0%nat) (now 1%nat) s);
   _ ← rehydrate (now 2%nat);
   mret tt)
  (mkRepl db root IdentityReplicaRootPageID (identityMirrorPath path) f).

(** The once-only migration of the legacy page. *)
Definition migrate_legacy (now : nat -> Z) : io (BTreeKVStore D P) unit :=
  r ← try (with_pool (fun pool => FetchPage pool LegacyKVPageID));
  match r with
  | inl _ => mret tt
  | inr i =>
      legacy ← page_of i;
      recovered ← recoverLegacyKVRecords LegacyKVPageID (slice (Data legacy) 0 PageSize) (now 0%nat) (now 1%nat);
      _ ← unpin LegacyKVPageID false;
      _ ← importRecoveredKV fuel recovered;
      ignore KVStore.Flush
  end.

(** [migrated] tells whether the process has run the migration before. *)
Definition NewBTreeKVStore (db : DB D P) (migrated : bool) (path : bytes) (f : F) (now : nat -> Z) :
    result unit * repl :=
  let '(r, s) :=
    (_ ← open_root fuel BTreeRootPageID (now 0%nat) (now 1%nat);
     if migrated then mret tt else migrate_legacy (fun i => now (2 + i)%nat)) (mkKV db BTreeRootPageID) in
  match r with
  | Ok _ => NewReplicatingKVStore (kroot s) (kdb s) path f (fun i => now (4 + i)%nat)
  | r => (r, mkRepl (kdb s) (kroot s) IdentityReplicaRootPageID (identityMirrorPath path) f)
  end.
End Store.
End Replica.

Example Dir_examples :
  Dir (str "db.identity.json") = str "." /\ Dir (str "/db.json") = str "/" /\ Dir (str "/var//lib/./x/../db.json") = str "/var/lib" /\
  Dir (str "../a/../../b.json") = str "../..".
Proof. by vm_compute. Qed.
