(* ===== verification/KVReplicaSpec.v ===== *)
(** What the replicating store promises: two trees on one database that do not
    share pages, dual writes, and reads that survive the loss of one copy. *)

From Stdlib Require Import Strings.Byte.
From stdpp Require Import sorting.
From S2P Require Import Common.
From S2P Require Import Prelude.
From S2P Require Import VFS.
From S2P Require Import LRU.
From S2P Require Import Page.
From S2P Require Import Slotted.
From S2P Require Import Telemetry.
From S2P Require Import BufferPool.
From S2P Require Import PoolInv.
From S2P Require Import PoolOps.
From S2P Require Import PoolPins.
From S2P Require Import WAL.
From S2P Require Import DBPage.
From S2P Require Import DB.
From S2P Require Import BTreePage.
From S2P Require Import BTreeNode.
From S2P Require Import BTree.
From S2P Require Import BTreeSpec.
From S2P Require Import BTreeLocked.
From S2P Require Import BTreeWalk.
From S2P Require Import BTreeJoin.
From S2P Require Import Segment.
From S2P Require Import Utf8.
From S2P Require Import KVRecover.
From S2P Require Import KVStore.
From S2P Require Import KVSpec.
From S2P Require Import KVPut.
From S2P Require Import KVProps.
From S2P Require Import KVIter.
From S2P Require Import KVOpen.
From S2P Require Import KVReplica.

(** ** Two trees on one database *)

Section Trees.
Context {D : Type} `{DS : BlockDeviceSpec D} `{RD : !ReliableDevice D} `{MR : MapRange}.
Implicit Types db : DB D LRUEvictionPolicy.

Record trees db (r1 : PageID) (h1 : nat) (l1 : leaves) (r2 : PageID) (h2 : nat) (l2 : leaves) : Prop := {
  tr_first : kv_rep h1 l1 (mkKV db r1);
  tr_second : kv_rep h2 l2 (mkKV db r2);
  tr_disjoint : forall i1 i2 id, tree_pages (mkKV db r1) i1 -> tree_pages (mkKV db r2) i2 -> id ∈ i1 -> id ∉ i2
}.

Lemma trees_sym db r1 h1 l1 r2 h2 l2 : trees db r1 h1 l1 r2 h2 l2 -> trees db r2 h2 l2 r1 h1 l1.
Proof. intros [H1 H2 H3]. split; [done|done|]. intros i1 i2 id Hi1 Hi2 Hid Hid'. by apply (H3 i2 i1 id). Qed.

(** A change inside the pages of the first tree keeps the second. *)
Lemma trees_change db r1 h1 l1 r2 h2 l2 s' h1' l1' i1 :
  trees db r1 h1 l1 r2 h2 l2 -> tree_pages (mkKV db r1) i1 -> kv_rep h1' l1' s' -> kroot s' = r1 ->
  length (frames (bp (kdb s'))) = length (frames (bp db)) ->
  (forall id, id ∉ i1 -> page_eqv id (view (bp (kdb s')) id) (view (bp db) id)) ->
  (forall i id, tree_pages s' i -> id ∈ i -> id ∈ i1) ->
  trees (kdb s') r1 h1' l1' r2 h2 l2.
Proof.
  intros [H1 H2 H3] Hi1 Hrep Hr Hlen Hpages Hin. destruct s' as [db' r']. cbn in *. subst r'.
  pose proof H2 as [_ _ _ (i2 & Hsub & _) _]. assert (tree_pages (mkKV db r2) i2) as Hi2 by by eexists _, _.
  destruct (kv_rep_other db db' r2 h2 l2 i2 H2 Hi2) as [Hrep2 Hi2']; [apply Hrep|apply Hrep|done| |].
  { intros id Hid. apply Hpages. intros Hid'. by apply (H3 i1 i2 id). }
  split; [done|done|]. intros i i' id Ht Ht' Hid Hid'. pose proof (Hin i id Ht Hid) as Hid1.
  rewrite (tree_pages_det _ _ _ Ht' Hi2') in Hid'. by apply (H3 i1 i2 id).
Qed.

(** A root page outside a tree, reset to be a second tree. *)
Lemma trees_open db r1 h1 l1 i1 r2 s' :
  kv_rep h1 l1 (mkKV db r1) -> tree_pages (mkKV db r1) i1 -> r2 ∉ i1 ->
  kv_rep 0 [(r2, [])] s' -> kv_outside [(r2, [])] (mkKV db r2) s' -> trees (kdb s') r1 h1 l1 r2 0 [(r2, [])].
Proof.
  intros Hrep Hi1 Hr Hrep2 [K1 _ K2 K3]. destruct s' as [db' r']. cbn in *. subst r'.
  destruct (kv_rep_other db db' r1 h1 l1 i1 Hrep Hi1) as [Hrep' Hi1']; [apply Hrep2|apply Hrep2|done| |].
  { intros id Hid. apply K3. intros ->%list_elem_of_singleton. done. }
  split; [done|done|]. intros i i' id Ht Ht' Hid Hid'. rewrite (tree_pages_det _ _ _ Ht Hi1') in Hid.
  pose proof Hrep2 as [_ _ _ (j & Hsub & _) _]. assert (i' = j) as -> by (eapply tree_pages_det; [exact Ht'|by eexists _, _]).
  destruct Hsub as (cs & _ & _ & ->). apply list_elem_of_singleton in Hid' as ->. done.
Qed.

Lemma trees_pages db r1 h1 l1 r2 h2 l2 :
  trees db r1 h1 l1 r2 h2 l2 -> exists i1, tree_pages (mkKV db r1) i1 /\ r1 ∈ i1 /\ forall id, id ∈ l1.*1 -> id ∈ i1.
Proof.
  intros [[_ _ _ (i1 & Hsub & _) _] _ _]. exists i1. split; [by eexists _, _|]. split.
  - destruct h1; [destruct Hsub as (cs & _ & _ & ->)|destruct Hsub as (? & ? & ? & ? & ? & ? & ? & ? & ->)]; left.
  - intros id Hid. eapply sublist_subseteq; [by eapply subtree_leaves|done].
Qed.

(** An operation on the first tree keeps the second. *)
Lemma trees_frame db r1 h1 l1 r2 h2 l2 s' l1' :
  trees db r1 h1 l1 r2 h2 l2 -> kv_rep h1 l1' s' -> kv_frame l1 (mkKV db r1) s' ->
  trees (kdb s') r1 h1 l1' r2 h2 l2.
Proof.
  intros Ht Hrep [[K1 _ K2 K3] K4]. destruct (trees_pages _ _ _ _ _ _ _ Ht) as (i1 & Hi1 & _ & Hl).
  apply (trees_change db r1 h1 l1 r2 h2 l2 s' h1 l1' i1); try done.
  - intros id Hid. apply K3. intros Hid'. by apply Hid, Hl.
  - intros i id Hi Hid. by rewrite (tree_pages_det s' i1 i (K4 i1 Hi1) Hi).
Qed.

(** So does a reset of its root. *)
Lemma trees_reset db r1 h1 l1 r2 h2 l2 s' :
  trees db r1 h1 l1 r2 h2 l2 -> kv_rep 0 [(r1, [])] s' -> kv_outside [(r1, [])] (mkKV db r1) s' ->
  trees (kdb s') r1 0 [(r1, [])] r2 h2 l2.
Proof.
  intros Ht Hrep [K1 _ K2 K3]. destruct (trees_pages _ _ _ _ _ _ _ Ht) as (i1 & Hi1 & Hr & _).
  apply (trees_change db r1 h1 l1 r2 h2 l2 s' 0 [(r1, [])] i1); try done.
  - intros id Hid. apply K3. intros ->%list_elem_of_singleton. done.
  - intros i id Hi Hid. pose proof Hrep as [_ _ _ (j & Hsub & _) _].
    assert (i = j) as -> by (eapply tree_pages_det; [exact Hi|by eexists _, _]).
    destruct Hsub as (cs & _ & _ & ->). apply list_elem_of_singleton in Hid as ->. by rewrite K1.
Qed.
End Trees.

(** ** The store *)

Section Replicated.
Context {D F : Type} `{DS : BlockDeviceSpec D} `{RD : !ReliableDevice D} `{MR : MapRange}.
Context `{FS0 : FileSystem F} `{MC0 : MirrorCodec}.
Context (Hsync : forall d : D, (Sync d).1 = None).
Implicit Types s : Replica.ReplicatingKVStore D LRUEvictionPolicy F.

Definition twin s hp lp hr lr : Prop := trees (Replica.rdb s) (Replica.primary s) hp lp (Replica.replica s) hr lr.

(** The roots and the files are as they were. *)
Record elsewhere s s' : Prop := {
  el_primary : Replica.primary s' = Replica.primary s;
  el_replica : Replica.replica s' = Replica.replica s;
  el_path : Replica.mirrorPath s' = Replica.mirrorPath s;
  el_files : Replica.files s' = Replica.files s
}.

#[local] Instance elsewhere_trans : Transitive elsewhere.
Proof. intros a b c [] []. split; congruence. Qed.

#[local] Instance elsewhere_refl : Reflexive elsewhere.
Proof. by split. Qed.

(** A call on one tree, lifted. *)
Lemma on_primary_frame {A} (m : io (BTreeKVStore D LRUEvictionPolicy) A) s r k hp lp hr lr lp' :
  twin s hp lp hr lr -> m (mkKV (Replica.rdb s) (Replica.primary s)) = (r, k) ->
  kv_rep hp lp' k -> kv_frame lp (mkKV (Replica.rdb s) (Replica.primary s)) k ->
  exists s', Replica.on_primary m s = (r, s') /\ twin s' hp lp' hr lr /\ elsewhere s s'.
Proof.
  intros Ht E Hrep Hfr. unfold Replica.on_primary. rewrite E. pose proof (kf_root _ _ _ Hfr) as Er. cbn in Er.
  eexists. split; [reflexivity|]. split; [|by split]. unfold twin. cbn. rewrite Er. by eapply trees_frame.
Qed.

Lemma on_replica_frame {A} (m : io (BTreeKVStore D LRUEvictionPolicy) A) s r k hp lp hr lr lr' :
  twin s hp lp hr lr -> m (mkKV (Replica.rdb s) (Replica.replica s)) = (r, k) ->
  kv_rep hr lr' k -> kv_frame lr (mkKV (Replica.rdb s) (Replica.replica s)) k ->
  exists s', Replica.on_replica m s = (r, s') /\ twin s' hp lp hr lr' /\ elsewhere s s'.
Proof.
  intros Ht%trees_sym E Hrep Hfr. unfold Replica.on_replica. rewrite E. pose proof (kf_root _ _ _ Hfr) as Er. cbn in Er.
  eexists. split; [reflexivity|]. split; [|by split]. unfold twin. cbn. rewrite Er. apply trees_sym. by eapply trees_frame.
Qed.

(** The map with the new entry fits in one leaf. *)
Definition small (m : gmap bytes bytes) (k v : bytes) : Prop := BTreeHeaderSize + map_bytes (<[k := v]> m) < PageSize.

Lemma primary_get fuel s hp lp hr lr k :
  twin s hp lp hr lr -> flat fuel hp ->
  exists s', Replica.on_primary (KVStore.Get fuel k) s = (found (tree_map lp !! k), s') /\ twin s' hp lp hr lr /\ elsewhere s s'.
Proof.
  intros Ht Hh. destruct (Get_run fuel hp lp _ k (tr_first _ _ _ _ _ _ _ Ht) (flat_descends _ _ _ Hh)) as (x & E & Hrep & Hfr).
  exact (on_primary_frame _ s _ x hp lp hr lr lp Ht E Hrep Hfr).
Qed.

Lemma replica_get fuel s hp lp hr lr k :
  twin s hp lp hr lr -> flat fuel hr ->
  exists s', Replica.on_replica (KVStore.Get fuel k) s = (found (tree_map lr !! k), s') /\ twin s' hp lp hr lr /\ elsewhere s s'.
Proof.
  intros Ht Hh. destruct (Get_run fuel hr lr _ k (tr_second _ _ _ _ _ _ _ Ht) (flat_descends _ _ _ Hh)) as (x & E & Hrep & Hfr).
  exact (on_replica_frame _ s _ x hp lp hr lr lr Ht E Hrep Hfr).
Qed.

Lemma primary_put fuel s hp lp hr lr k v :
  twin s hp lp hr lr -> flat fuel hp -> small (tree_map lp) k v ->
  exists s' lp', Replica.on_primary (KVStore.Put fuel k v) s = (Ok tt, s') /\ twin s' hp lp' hr lr /\ elsewhere s s' /\
    tree_map lp' = <[k := v]> (tree_map lp).
Proof.
  intros Ht Hh Hs. pose proof (tr_first _ _ _ _ _ _ _ Ht) as Hrep. destruct (small_room hp lp _ k v Hrep Hs) as [Hkv Hroom].
  destruct (Put_ok_run fuel hp lp _ k v Hrep (flat_descends _ _ _ Hh) Hsync Hkv Hroom) as (x & lp' & E & Hrep' & Em & Hfr).
  destruct (on_primary_frame _ s _ x hp lp hr lr lp' Ht E Hrep' Hfr) as (s' & E' & Ht' & He). by exists s', lp'.
Qed.

Lemma replica_put fuel s hp lp hr lr k v :
  twin s hp lp hr lr -> flat fuel hr -> small (tree_map lr) k v ->
  exists s' lr', Replica.on_replica (KVStore.Put fuel k v) s = (Ok tt, s') /\ twin s' hp lp hr lr' /\ elsewhere s s' /\
    tree_map lr' = <[k := v]> (tree_map lr).
Proof.
  intros Ht Hh Hs. pose proof (tr_second _ _ _ _ _ _ _ Ht) as Hrep. destruct (small_room hr lr _ k v Hrep Hs) as [Hkv Hroom].
  destruct (Put_ok_run fuel hr lr _ k v Hrep (flat_descends _ _ _ Hh) Hsync Hkv Hroom) as (x & lr' & E & Hrep' & Em & Hfr).
  destruct (on_replica_frame _ s _ x hp lp hr lr lr' Ht E Hrep' Hfr) as (s' & E' & Ht' & He). by exists s', lr'.
Qed.

Lemma primary_delete fuel s hp lp hr lr k :
  twin s hp lp hr lr -> flat fuel hp ->
  exists s' lp', Replica.on_primary (KVStore.Delete fuel k) s =
      (match tree_map lp !! k with Some _ => Ok tt | None => Err (Msg "key not found") end, s') /\
    twin s' hp lp' hr lr /\ elsewhere s s' /\ tree_map lp' = delete k (tree_map lp).
Proof.
  intros Ht Hh. destruct (Delete_run fuel hp lp _ k (tr_first _ _ _ _ _ _ _ Ht) (flat_descends _ _ _ Hh)) as (x & lp' & E & Hrep & Em & Hfr).
  destruct (on_primary_frame _ s _ x hp lp hr lr lp' Ht E Hrep Hfr) as (s' & E' & Ht' & He). by exists s', lp'.
Qed.

Lemma replica_delete fuel s hp lp hr lr k :
  twin s hp lp hr lr -> flat fuel hr ->
  exists s' lr', Replica.on_replica (KVStore.Delete fuel k) s =
      (match tree_map lr !! k with Some _ => Ok tt | None => Err (Msg "key not found") end, s') /\
    twin s' hp lp hr lr' /\ elsewhere s s' /\ tree_map lr' = delete k (tree_map lr).
Proof.
  intros Ht Hh. destruct (Delete_run fuel hr lr _ k (tr_second _ _ _ _ _ _ _ Ht) (flat_descends _ _ _ Hh)) as (x & lr' & E & Hrep & Em & Hfr).
  destruct (on_replica_frame _ s _ x hp lp hr lr lr' Ht E Hrep Hfr) as (s' & E' & Ht' & He). by exists s', lr'.
Qed.

Lemma primary_flush s hp lp hr lr :
  twin s hp lp hr lr ->
  exists s', Replica.on_primary KVStore.Flush s = (Ok tt, s') /\ twin s' hp lp hr lr /\ elsewhere s s'.
Proof.
  intros Ht. pose proof (tr_first _ _ _ _ _ _ _ Ht) as Hrep. destruct (Flush_run hp lp _ Hrep) as (r & x & E & _ & Hrep' & Hfr & _).
  destruct (Flush_reliable _ (kr_inv _ _ _ Hrep) Hsync) as (x' & E'). rewrite E in E'. injection E' as -> _.
  exact (on_primary_frame _ s _ x hp lp hr lr lp Ht E Hrep' (Hfr lp)).
Qed.

Lemma replica_flush s hp lp hr lr :
  twin s hp lp hr lr ->
  exists s', Replica.on_replica KVStore.Flush s = (Ok tt, s') /\ twin s' hp lp hr lr /\ elsewhere s s'.
Proof.
  intros Ht. pose proof (tr_second _ _ _ _ _ _ _ Ht) as Hrep. destruct (Flush_run hr lr _ Hrep) as (r & x & E & _ & Hrep' & Hfr & _).
  destruct (Flush_reliable _ (kr_inv _ _ _ Hrep) Hsync) as (x' & E'). rewrite E in E'. injection E' as -> _.
  exact (on_replica_frame _ s _ x hp lp hr lr lr Ht E Hrep' (Hfr lr)).
Qed.

(** ** The mirror file *)

(** The keys of the mirror, if there is one. *)
Definition mirror s : option (gmap bytes bytes) :=
  match (Replica.mirrorLoad s).1 with Ok m => m | _ => None end.

Lemma mirrorLoad_run s : Replica.mirrorLoad s = (Ok (mirror s), s).
Proof. done. Qed.

Lemma mirror_elsewhere s s' : elsewhere s s' -> mirror s' = mirror s.
Proof. intros [_ _ Hp Hf]. unfold mirror, Replica.mirrorLoad. cbn. by rewrite Hp, Hf. Qed.

Lemma twin_mirror s s' hp lp hr lr :
  Replica.rdb s' = Replica.rdb s -> Replica.primary s' = Replica.primary s -> Replica.replica s' = Replica.replica s ->
  twin s hp lp hr lr -> twin s' hp lp hr lr.
Proof. unfold twin. by intros -> -> ->. Qed.

(** Only the files differ. *)
Record same_trees s s' : Prop := {
  st_db : Replica.rdb s' = Replica.rdb s;
  st_primary : Replica.primary s' = Replica.primary s;
  st_replica : Replica.replica s' = Replica.replica s;
  st_path : Replica.mirrorPath s' = Replica.mirrorPath s
}.

Lemma same_trees_twin s s' hp lp hr lr : same_trees s s' -> twin s hp lp hr lr -> twin s' hp lp hr lr.
Proof. intros [H1 H2 H3 _]. by apply twin_mirror. Qed.

(** Whatever the files do, the calls on the mirror return and touch no tree. *)
Lemma mirrorSave_trees now m s : exists s', Replica.mirrorSave now m s = (Ok tt, s') /\ same_trees s s'.
Proof.
  unfold Replica.mirrorSave. case_bool_decide; [by exists s|]. destruct (Marshal _) as [raw|]; [|by exists s].
  eexists. split; [reflexivity|]. by split.
Qed.

Lemma mirrorPut_trees now k v s : exists s', Replica.mirrorPut now k v s = (Ok tt, s') /\ same_trees s s'.
Proof.
  unfold Replica.mirrorPut. destruct (_ || _); [by exists s|]. rewrite (bind_ok _ _ _ _ _ (mirrorLoad_run s)). apply mirrorSave_trees.
Qed.

Lemma mirrorDelete_trees now k s : exists s', Replica.mirrorDelete now k s = (Ok tt, s') /\ same_trees s s'.
Proof.
  unfold Replica.mirrorDelete. case_bool_decide; [by exists s|]. rewrite (bind_ok _ _ _ _ _ (mirrorLoad_run s)).
  destruct (mirror s); [apply mirrorSave_trees|by exists s].
Qed.

Lemma mirror_no_path s : Replica.mirrorPath s = [] -> mirror s = None.
Proof. intros Hp. unfold mirror, Replica.mirrorLoad. cbn. by rewrite bool_decide_eq_true_2. Qed.

(** ** Reads *)

(** The copies of a key, in the order they are tried. *)
Definition mirror_copy s (k : bytes) : option bytes := nonempty (mirror s ≫= (.!! k)).

Definition first_copy s (lp lr : leaves) (k : bytes) : option bytes :=
  match nonempty (tree_map lp !! k) with
  | Some v => Some v
  | None => match nonempty (tree_map lr !! k) with
            | Some v => Some v
            | None => mirror_copy s k
            end
  end.

Lemma mirrorGet_run s k : Replica.mirrorGet k s = (Ok (mirror_copy s k), s).
Proof.
  unfold Replica.mirrorGet, mirror_copy. rewrite (bind_ok _ _ _ _ _ (mirrorLoad_run s)). unfold mret, io_ret.
  destruct (mirror s) as [m|]; cbn; [|done]. by destruct (m !! k) as [[|]|].
Qed.

(** The copy is in the replica tree. *)
Lemma fallback_replica fuel s hp lp hr lr k err v :
  twin s hp lp hr lr -> flat fuel hp -> flat fuel hr -> nonempty (tree_map lr !! k) = Some v ->
  small (tree_map lp) k v ->
  exists s' lp', Replica.fallback fuel k err s = (Ok v, s') /\ twin s' hp lp' hr lr /\ elsewhere s s' /\
    tree_map lp' = <[k := v]> (tree_map lp).
Proof.
  intros Ht Hhp Hhr Er Hs. unfold Replica.fallback. destruct (replica_get fuel s hp lp hr lr k Ht Hhr) as (s2 & E2 & Ht2 & He2).
  rewrite (bind_ok _ _ _ _ _ (try_found _ _ _ _ E2)). destruct (tree_map lr !! k) as [[|b v0]|]; cbn in Er; simplify_eq.
  destruct (primary_put fuel s2 hp lp hr lr k (b :: v0) Ht2 Hhp Hs) as (s3 & lp3 & E3 & Ht3 & He3 & Em3).
  destruct (primary_flush s3 hp lp3 hr lr Ht3) as (s4 & E4 & Ht4 & He4).
  rewrite (bind_ok _ _ _ _ _ (ignore_ok _ _ _ _ E3)), (bind_ok _ _ _ _ _ (ignore_ok _ _ _ _ E4)).
  eexists s4, lp3. split; [reflexivity|]. split; [done|]. split; [|done]. by transitivity s2; [|transitivity s3].
Qed.

(** The replica tree has none either. *)
Lemma fallback_no_replica fuel s hp lp hr lr k err :
  twin s hp lp hr lr -> flat fuel hr -> nonempty (tree_map lr !! k) = None ->
  exists s', twin s' hp lp hr lr /\ elsewhere s s' /\
    Replica.fallback fuel k err s =
      match mirror_copy s k with
      | Some v => (_ ← ignore (Replica.on_primary (KVStore.Put fuel k v)); _ ← ignore (Replica.on_replica (KVStore.Put fuel k v));
                   _ ← ignore (Replica.on_primary KVStore.Flush); _ ← ignore (Replica.on_replica KVStore.Flush); mret v) s'
      | None => (Err (default (Msg "key not found") err), s')
      end.
Proof.
  intros Ht Hhr Er. unfold Replica.fallback. destruct (replica_get fuel s hp lp hr lr k Ht Hhr) as (s2 & E2 & Ht2 & He2).
  exists s2. split; [done|]. split; [done|]. rewrite (bind_ok _ _ _ _ _ (try_found _ _ _ _ E2)).
  assert (mirror_copy s2 k = mirror_copy s k) as <- by (unfold mirror_copy; by rewrite (mirror_elsewhere s s2)).
  destruct (tree_map lr !! k) as [[|b v0]|]; [|done|]; rewrite (bind_ok _ _ _ _ _ (mirrorGet_run s2 k));
    by destruct (mirror_copy s2 k).
Qed.

Lemma fallback_mirror fuel s hp lp hr lr k err v :
  twin s hp lp hr lr -> flat fuel hp -> flat fuel hr -> nonempty (tree_map lr !! k) = None ->
  mirror_copy s k = Some v -> small (tree_map lp) k v -> small (tree_map lr) k v ->
  exists s' lp' lr', Replica.fallback fuel k err s = (Ok v, s') /\ twin s' hp lp' hr lr' /\ elsewhere s s' /\
    tree_map lp' = <[k := v]> (tree_map lp) /\ tree_map lr' = <[k := v]> (tree_map lr).
Proof.
  intros Ht Hhp Hhr Er Em Hs1 Hs2. destruct (fallback_no_replica fuel s hp lp hr lr k err Ht Hhr Er) as (s2 & Ht2 & He2 & ->).
  rewrite Em. destruct (primary_put fuel s2 hp lp hr lr k v Ht2 Hhp Hs1) as (s3 & lp3 & E3 & Ht3 & He3 & Em3).
  destruct (replica_put fuel s3 hp lp3 hr lr k v Ht3 Hhr Hs2) as (s4 & lr4 & E4 & Ht4 & He4 & Em4).
  destruct (primary_flush s4 hp lp3 hr lr4 Ht4) as (s5 & E5 & Ht5 & He5).
  destruct (replica_flush s5 hp lp3 hr lr4 Ht5) as (s6 & E6 & Ht6 & He6).
  rewrite (bind_ok _ _ _ _ _ (ignore_ok _ _ _ _ E3)), (bind_ok _ _ _ _ _ (ignore_ok _ _ _ _ E4)),
    (bind_ok _ _ _ _ _ (ignore_ok _ _ _ _ E5)), (bind_ok _ _ _ _ _ (ignore_ok _ _ _ _ E6)).
  eexists s6, lp3, lr4. split; [reflexivity|]. split; [done|]. split; [|done].
  by transitivity s2; [|transitivity s3; [|transitivity s4; [|transitivity s5]]].
Qed.

(** A read of a durable key finds the first copy there is and repairs the trees
    before it. *)
Lemma Replica_Get_run fuel s hp lp hr lr k :
  twin s hp lp hr lr -> flat fuel hp -> flat fuel hr -> isDurableIdentityKey k = true ->
  (forall v, first_copy s lp lr k = Some v -> small (tree_map lp) k v /\ small (tree_map lr) k v) ->
  exists s' lp' lr', Replica.Get fuel k s = (found (first_copy s lp lr k), s') /\ twin s' hp lp' hr lr' /\ elsewhere s s' /\
    tree_map lp' = (match first_copy s lp lr k with Some v => <[k := v]> (tree_map lp) | None => tree_map lp end) /\
    (forall x, x <> k -> tree_map lr' !! x = tree_map lr !! x).
Proof.
  intros Ht Hhp Hhr Hdur Hsmall. unfold Replica.Get. rewrite Hdur.
  destruct (primary_get fuel s hp lp hr lr k Ht Hhp) as (s1 & E1 & Ht1 & He1).
  rewrite (bind_ok _ _ _ _ _ (try_found _ _ _ _ E1)). unfold first_copy in *.
  destruct (nonempty (tree_map lp !! k)) as [v|] eqn:Ep.
  { destruct (tree_map lp !! k) as [[|b v0]|] eqn:Ek; cbn in Ep; simplify_eq. eexists s1, lp, lr. split; [reflexivity|].
    split; [done|]. split; [done|]. split; [|done]. by rewrite insert_id. }
  assert (mirror_copy s1 k = mirror_copy s k) as Emc by (unfold mirror_copy; by rewrite (mirror_elsewhere s s1)).
  assert (exists err, default (Msg "key not found") err = Msg "key not found" /\
    match (match tree_map lp !! k with Some v => inr v | None => inl (Msg "key not found") end) with
    | inl e => Replica.fallback fuel k (Some e) | inr [] => Replica.fallback fuel k None | inr ((_ :: _) as val) => mret val
    end = Replica.fallback fuel k err) as (err & Herr & Efb).
  { destruct (tree_map lp !! k) as [[|]|]; [by exists None|done|by eexists (Some _)]. }
  rewrite Efb. clear Efb. destruct (nonempty (tree_map lr !! k)) as [v|] eqn:Er; [|destruct (mirror_copy s k) as [v|] eqn:Em].
  - destruct (Hsmall v eq_refl) as [Hs _].
    destruct (fallback_replica fuel s1 hp lp hr lr k err v Ht1 Hhp Hhr Er Hs) as (s' & lp' & -> & Ht' & He' & Em').
    exists s', lp', lr. split; [done|]. split; [done|]. split; [by transitivity s1|done].
  - destruct (Hsmall v eq_refl) as [Hs1 Hs2].
    destruct (fallback_mirror fuel s1 hp lp hr lr k err v Ht1 Hhp Hhr Er Emc Hs1 Hs2)
      as (s' & lp' & lr' & -> & Ht' & He' & Em1 & Em2).
    exists s', lp', lr'. split; [done|]. split; [done|]. split; [by transitivity s1|]. split; [done|].
    intros x Hx. by rewrite Em2, lookup_insert_ne.
  - destruct (fallback_no_replica fuel s1 hp lp hr lr k err Ht1 Hhr Er) as (s2 & Ht2 & He2 & ->).
    rewrite Emc, Herr. exists s2, lp, lr. split; [done|]. split; [done|]. split; [by transitivity s1|done].
Qed.

(** ** Writes *)

(** [s3] is the state before the call on the mirror. *)
Lemma Replica_Put_run fuel now s hp lp hr lr k v :
  twin s hp lp hr lr -> flat fuel hp -> flat fuel hr -> isDurableIdentityKey k = true -> v <> [] ->
  small (tree_map lp) k v -> small (tree_map lr) k v ->
  exists s3 s' lp' lr', Replica.Put fuel now k v s = (Ok tt, s') /\ twin s' hp lp' hr lr' /\
    tree_map lp' = <[k := v]> (tree_map lp) /\ tree_map lr' = <[k := v]> (tree_map lr) /\
    elsewhere s s3 /\ Replica.mirrorPut now k v s3 = (Ok tt, s').
Proof.
  intros Ht Hhp Hhr Hdur Hv Hs1 Hs2. unfold Replica.Put.
  destruct (primary_put fuel s hp lp hr lr k v Ht Hhp Hs1) as (s1 & lp1 & E1 & Ht1 & He1 & Em1).
  destruct (replica_put fuel s1 hp lp1 hr lr k v Ht1 Hhr Hs2) as (s2 & lr2 & E2 & Ht2 & He2 & Em2).
  destruct (replica_flush s2 hp lp1 hr lr2 Ht2) as (s3 & E3 & Ht3 & He3).
  destruct (mirrorPut_trees now k v s3) as (s4 & E4 & Hst).
  rewrite (bind_ok _ _ _ _ _ E1), Hdur, bool_decide_eq_false_2 by done. cbn [negb orb].
  assert (try (Replica.on_replica (KVStore.Put fuel k v)) s1 = (Ok (inr tt), s2)) as Et by (unfold try; by rewrite E2).
  rewrite (bind_ok _ _ _ _ _ Et), (bind_ok _ _ _ _ _ E3), E4. exists s3, s4, lp1, lr2.
  split; [done|]. split; [by eapply same_trees_twin|]. split; [done|]. split; [done|]. split; [|done].
  by transitivity s1; [|transitivity s2].
Qed.

Lemma Replica_Delete_run fuel now s hp lp hr lr k :
  twin s hp lp hr lr -> flat fuel hp -> flat fuel hr -> isDurableIdentityKey k = true ->
  exists s3 s' lp' lr', Replica.Delete fuel now k s =
      (match tree_map lp !! k with Some _ => Ok tt | None => Err (Msg "key not found") end, s') /\
    twin s' hp lp' hr lr' /\ tree_map lp' = delete k (tree_map lp) /\ tree_map lr' = delete k (tree_map lr) /\
    elsewhere s s3 /\ Replica.mirrorDelete now k s3 = (Ok tt, s').
Proof.
  intros Ht Hhp Hhr Hdur. unfold Replica.Delete.
  destruct (primary_delete fuel s hp lp hr lr k Ht Hhp) as (s1 & lp1 & E1 & Ht1 & He1 & Em1).
  destruct (replica_delete fuel s1 hp lp1 hr lr k Ht1 Hhr) as (s2 & lr2 & E2 & Ht2 & He2 & Em2).
  destruct (replica_flush s2 hp lp1 hr lr2 Ht2) as (s3 & E3 & Ht3 & He3).
  destruct (mirrorDelete_trees now k s3) as (s4 & E4 & Hst).
  assert (try (Replica.on_primary (KVStore.Delete fuel k)) s =
    (Ok (match tree_map lp !! k with Some _ => inr tt | None => inl (Msg "key not found") end), s1)) as Et
    by (unfold try; rewrite E1; by destruct (tree_map lp !! k)).
  assert (ignore (Replica.on_replica (KVStore.Delete fuel k)) s1 = (Ok tt, s2)) as Ei
    by (unfold ignore, try, mbind, io_bind; rewrite E2; by destruct (tree_map lr !! k)).
  rewrite (bind_ok _ _ _ _ _ Et), Hdur. unfold mbind at 1, io_bind at 1.
  rewrite (bind_ok _ _ _ _ _ Ei), (bind_ok _ _ _ _ _ (ignore_ok _ _ _ _ E3)), E4. exists s3, s4, lp1, lr2.
  split; [by destruct (tree_map lp !! k)|]. split; [by eapply same_trees_twin|]. split; [done|]. split; [done|]. split; [|done].
  by transitivity s1; [|transitivity s2].
Qed.

(** ** The theorems *)

(** C8: A durable identity key survives the reset of the primary tree, whatever
    becomes of the mirror file: when both trees are single leaves with room for the
    entry, [Put] writes it to both, and after [ResetBTreeRoot] of the primary root
    [Get] still returns the value, from the replica tree, and has written it back
    into the primary tree, whose only entry it is.  Nothing is assumed of the file
    system and of the JSON package. *)
Theorem identity_survives_primary_reset fuel now s hp lp hr lr k v :
  twin s hp lp hr lr -> flat fuel hp -> flat fuel hr -> isDurableIdentityKey k = true -> v <> [] ->
  small (tree_map lp) k v -> small (tree_map lr) k v -> small ∅ k v ->
  exists s1 r s2 s3 lp3 lr3, Replica.Put fuel now k v s = (Ok tt, s1) /\
    Replica.on_primary (ResetBTreeRoot (Replica.primary s1)) s1 = (r, s2) /\
    Replica.Get fuel k s2 = (Ok v, s3) /\ twin s3 0 lp3 hr lr3 /\ tree_map lp3 = {[k := v]} /\
    tree_map lr3 !! k = Some v.
Proof.
  intros Ht Hhp Hhr Hdur Hv Hs1 Hs2 Hs0.
  destruct (Replica_Put_run fuel now s hp lp hr lr k v Ht Hhp Hhr Hdur Hv Hs1 Hs2) as (_ & s1 & lp1 & lr1 & E1 & Ht1 & _ & Em2 & _).
  pose proof (tr_first _ _ _ _ _ _ _ Ht1) as [Hinv Hidle Hfr (ids & Hsub & _) _]. cbn in *.
  destruct (ResetBTreeRoot_run (mkKV (Replica.rdb s1) (Replica.primary s1)) Hinv Hidle ltac:(cbn; lia)
    (subtree_root _ _ _ _ _ _ _ Hsub)) as (r & x & Er & _ & Hrep & Hout & _). cbn [kroot] in *.
  set (s2 := Replica.mkRepl (kdb x) (kroot x) (Replica.replica s1) (Replica.mirrorPath s1) (Replica.files s1)).
  assert (Replica.on_primary (ResetBTreeRoot (Replica.primary s1)) s1 = (r, s2)) as E2
    by (unfold Replica.on_primary; by rewrite Er).
  assert (twin s2 0 [(Replica.primary s1, [])] hr lr1) as Ht2.
  { unfold twin. cbn. rewrite (ko_root _ _ _ Hout). by eapply trees_reset. }
  assert (tree_map [(Replica.primary s1, [])] = ∅) as E0 by done.
  assert (nonempty (tree_map lr1 !! k) = Some v) as Hc by (rewrite Em2, lookup_insert_eq; by destruct v).
  destruct (primary_get fuel s2 0 _ hr lr1 k Ht2 (conj eq_refl (Nat.le_lt_trans 0 hr fuel (Nat.le_0_l hr) (proj2 Hhr)))) as (s2' & Eg & Ht2' & _).
  rewrite E0, lookup_empty in Eg.
  destruct (fallback_replica fuel s2' 0 _ hr lr1 k (Some (Msg "key not found")) v Ht2'
    (conj eq_refl (Nat.le_lt_trans 0 hr fuel (Nat.le_0_l hr) (proj2 Hhr))) Hhr Hc) as (s3 & lp3 & E3 & Ht3 & _ & Em3); [by rewrite E0|].
  exists s1, r, s2, s3, lp3, lr1. split; [done|]. split; [done|]. split.
  { unfold Replica.Get. rewrite (bind_ok _ _ _ _ _ (try_found _ _ None _ Eg)). by rewrite Hdur, E3. }
  split; [done|]. split; [by rewrite Em3, E0|]. by rewrite Em2, lookup_insert_eq.
Qed.

(** ** The mirror on a file system that serves it *)

Section Mirror.
Context `{FS : !FileSystemSpec F} `{MC : !MirrorCodecSpec}.

(** While [ok] holds, the directory of the mirror can be made and its temporary
    file written and renamed. *)
Record serves (path : bytes) (ok : F -> Prop) : Prop := {
  sv_mkdir : forall f, ok f -> exists f', MkdirAll f (Dir path) = (true, f') /\ ok f';
  sv_write : forall f c, ok f -> exists f', WriteFile f (Replica.tmp_path path) c = (true, f') /\ ok f';
  sv_rename : forall f, ok f -> is_Some (ReadFile f (Replica.tmp_path path)) ->
    exists f', Rename f (Replica.tmp_path path) path = (true, f') /\ ok f'
}.

Context (path : bytes) (ok : F -> Prop) (Hserves : path <> [] -> serves path ok).

(** The store uses this mirror, or none. *)
Definition mirror_ready s : Prop := Replica.mirrorPath s = path /\ (path <> [] -> ok (Replica.files s)).

(** The clock fits 64 bits. *)
Definition timely (now : Z) : Prop := 0 <= now < 2 ^ 63.

Lemma mirror_ready_elsewhere s s' : elsewhere s s' -> mirror_ready s -> mirror_ready s'.
Proof. intros [_ _ Hp Hf] [H1 H2]. split; [congruence|]. by rewrite Hf. Qed.

Lemma save_file_run raw (f : F) :
  path <> [] -> ok f -> ReadFile (Replica.save_file path raw f) path = Some raw /\ ok (Replica.save_file path raw f).
Proof.
  intros Hp Hf. destruct (Hserves Hp) as [S1 S2 S3]. unfold Replica.save_file. destruct (S1 f Hf) as (f1 & -> & H1). cbn [negb].
  destruct (S2 f1 raw H1) as (f2 & E2 & H2). rewrite E2. cbn [negb]. pose proof (write_read _ _ _ _ E2) as Hw.
  destruct (S3 f2 H2 ltac:(by eexists)) as (f3 & E3 & H3). rewrite E3. split; [by eapply rename_read|done].
Qed.

Lemma mirror_valid s m : mirror s = Some m -> map_Forall (fun k _ => valid_utf8 k) m.
Proof.
  unfold mirror, Replica.mirrorLoad. cbn [fst]. case_bool_decide; [done|].
  destruct (ReadFile _ _) as [[|b raw]|]; [done| |done]. apply unmarshal_utf8.
Qed.

(** With a mirror file the keys written are the keys read. *)
Lemma mirrorSave_run now m s s' :
  mirror_ready s -> timely now -> map_Forall (fun k _ => valid_utf8 k) m -> Replica.mirrorSave now m s = (Ok tt, s') ->
  mirror_ready s' /\ mirror s' = if bool_decide (path = []) then None else Some m.
Proof.
  intros [Hp Hf] Ht Hm. unfold Replica.mirrorSave. rewrite Hp. case_bool_decide as Hne.
  { intros [= <-]. split; [by split|]. apply mirror_no_path. by rewrite Hp. }
  destruct (marshal_round (mkMirrorFile 1 now m) Hm Ht) as (raw & -> & Hraw & Hu). intros [= <-].
  destruct (save_file_run raw (Replica.files s) Hne (Hf Hne)) as [Hread Hok'].
  split; [by split|]. unfold mirror, Replica.mirrorLoad. cbn. rewrite bool_decide_eq_false_2 by done. rewrite Hread.
  by destruct raw.
Qed.

Lemma mirrorPut_run now k v s s' :
  mirror_ready s -> timely now -> valid_utf8 k -> v <> [] -> Replica.mirrorPut now k v s = (Ok tt, s') ->
  mirror_ready s' /\ mirror s' = if bool_decide (path = []) then None else Some (<[k := v]> (default ∅ (mirror s))).
Proof.
  intros Hr Ht Hk Hv. unfold Replica.mirrorPut. rewrite (bool_decide_eq_false_2 (v = [])), orb_false_r by done.
  rewrite (proj1 Hr). case_bool_decide as Hne.
  - intros [= <-]. split; [done|]. apply mirror_no_path. by rewrite (proj1 Hr).
  - rewrite (bind_ok _ _ _ _ _ (mirrorLoad_run s)). intros E. apply mirrorSave_run in E as [H1 H2]; [|done|done|].
    + split; [done|]. by rewrite H2, bool_decide_eq_false_2.
    + apply map_Forall_insert_2; [done|]. destruct (mirror s) eqn:Em; [by eapply mirror_valid|apply map_Forall_empty].
Qed.

Lemma mirrorDelete_run now k s s' :
  mirror_ready s -> timely now -> Replica.mirrorDelete now k s = (Ok tt, s') -> mirror_ready s' /\ mirror s' = delete k <$> mirror s.
Proof.
  intros Hr Ht. unfold Replica.mirrorDelete. rewrite (proj1 Hr). case_bool_decide as Hne.
  { intros [= <-]. split; [done|]. rewrite mirror_no_path; [done|]. by rewrite (proj1 Hr). }
  rewrite (bind_ok _ _ _ _ _ (mirrorLoad_run s)). destruct (mirror s) as [m|] eqn:Em; [|intros [= <-]; by rewrite Em].
  intros E. apply mirrorSave_run in E as [H1 H2]; [|done|done|apply map_Forall_delete; by eapply mirror_valid].
  split; [done|]. by rewrite H2, bool_decide_eq_false_2.
Qed.

(** A write of a durable identity key goes to all three copies: the map of
    the primary tree, the map of the replica tree and the mirror file (where the
    device has one) all gain exactly that entry, and the two trees stay apart. *)
Theorem replica_dual_write fuel now s hp lp hr lr k v :
  twin s hp lp hr lr -> mirror_ready s -> timely now -> valid_utf8 k ->
  flat fuel hp -> flat fuel hr -> isDurableIdentityKey k = true -> v <> [] ->
  small (tree_map lp) k v -> small (tree_map lr) k v ->
  exists s' lp' lr', Replica.Put fuel now k v s = (Ok tt, s') /\ twin s' hp lp' hr lr' /\ mirror_ready s' /\
    tree_map lp' = <[k := v]> (tree_map lp) /\ tree_map lr' = <[k := v]> (tree_map lr) /\
    mirror s' = if bool_decide (path = []) then None else Some (<[k := v]> (default ∅ (mirror s))).
Proof.
  intros Ht Hr Hn Hk Hhp Hhr Hdur Hv Hs1 Hs2.
  destruct (Replica_Put_run fuel now s hp lp hr lr k v Ht Hhp Hhr Hdur Hv Hs1 Hs2) as (s3 & s' & lp' & lr' & E & Ht' & E1 & E2 & He & Em).
  apply mirrorPut_run in Em as [Hr' Hm]; [|by eapply mirror_ready_elsewhere|done..].
  exists s', lp', lr'. rewrite (mirror_elsewhere s s3 He) in Hm. done.
Qed.

(** A delete of a durable key removes all three copies, also when the primary
    tree has lost its own. *)
Theorem replica_delete_everywhere fuel now s hp lp hr lr k :
  twin s hp lp hr lr -> mirror_ready s -> timely now -> flat fuel hp -> flat fuel hr -> isDurableIdentityKey k = true ->
  exists s' lp' lr', Replica.Delete fuel now k s =
      (match tree_map lp !! k with Some _ => Ok tt | None => Err (Msg "key not found") end, s') /\
    twin s' hp lp' hr lr' /\ mirror_ready s' /\ tree_map lp' = delete k (tree_map lp) /\ tree_map lr' = delete k (tree_map lr) /\
    mirror s' = delete k <$> mirror s.
Proof.
  intros Ht Hr Hn Hhp Hhr Hdur.
  destruct (Replica_Delete_run fuel now s hp lp hr lr k Ht Hhp Hhr Hdur) as (s3 & s' & lp' & lr' & E & Ht' & E1 & E2 & He & Em).
  apply mirrorDelete_run in Em as [Hr' Hm]; [|by eapply mirror_ready_elsewhere|done].
  exists s', lp', lr'. rewrite (mirror_elsewhere s s3 He) in Hm. done.
Qed.
End Mirror.
End Replicated.

(** A second root next to an empty tree. *)
Lemma two_roots {D} `{DS : BlockDeviceSpec D} `{RD : !ReliableDevice D} `{MR : MapRange}
    (s : BTreeKVStore D LRUEvictionPolicy) r1 r2 :
  kv_rep 0 [(r1, [])] s -> kroot s = r1 -> tree_page r2 -> r2 <> r1 ->
  trees (kdb (ResetBTreeRoot r2 (mkKV (kdb s) r2)).2) r1 0 [(r1, [])] r2 0 [(r2, [])].
Proof.
  destruct s as [db r]. cbn [kroot kdb]. intros Hrep -> Hpg Hne.
  pose proof Hrep as [Hinv Hidle Hfr (ids & Hsub & _) _]. cbn in Hinv, Hidle, Hfr, Hsub.
  destruct (ResetBTreeRoot_run (mkKV db r2) Hinv Hidle ltac:(cbn; lia) Hpg) as (x & s' & E & _ & Hrep2 & Hout & _).
  cbn [kroot] in *. rewrite E. cbn [snd]. destruct Hsub as (cs & Hl & El & Ei).
  apply (trees_open db r1 0 [(r1, [])] ids r2 s'); [done| |by rewrite Ei, list_elem_of_singleton|done|done].
  exists 0%nat, [(r1, cs)]. by exists cs.
Qed.

(** ** Witnesses *)

#[local] Existing Instance canonical_range.

(** Files as a map from paths to contents; every operation succeeds. *)
#[local] Instance map_files : FileSystem (gmap bytes bytes) := {
  ReadFile := fun f p => f !! p;
  MkdirAll := fun f _ => (true, f);
  WriteFile := fun f p c => (true, <[p := c]> f);
  Rename := fun f p q => match f !! p with Some c => (true, if decide (p = q) then f else delete p (<[q := c]> f)) | None => (false, f) end;
  RemoveFile := fun f p => (true, delete p f)
}.

#[local] Instance map_files_spec : FileSystemSpec (gmap bytes bytes).
Proof.
  split; cbn.
  - intros f p c f' [= <-]. apply lookup_insert_eq.
  - intros f p q c f' Hp. rewrite Hp. intros [= <-]. case_decide as E; [by subst|].
    rewrite lookup_delete_ne by done. apply lookup_insert_eq.
Qed.

Lemma map_files_serve path : path <> [] -> serves path (fun _ : gmap bytes bytes => True).
Proof.
  intros _. split; cbn; [by eexists|by eexists|]. intros f _ [c ->]. by eexists.
Qed.

(** A document is the binary code of the map. *)
Fixpoint code_bytes (p : positive) : bytes :=
  match p with xH => [Byte.x02] | xO p => Byte.x00 :: code_bytes p | xI p => Byte.x01 :: code_bytes p end.

Fixpoint bytes_code (l : bytes) : positive :=
  match l with
  | Byte.x00 :: l => xO (bytes_code l)
  | Byte.x01 :: l => xI (bytes_code l)
  | _ => xH
  end.

Lemma bytes_code_round p : bytes_code (code_bytes p) = p.
Proof. induction p as [p IH|p IH|]; cbn; by rewrite ?IH. Qed.

#[local] Instance map_codec : MirrorCodec := {
  Marshal := fun doc => Some (code_bytes (encode (map_to_list (Keys doc))));
  Unmarshal := fun raw =>
    m ← (list_to_map <$> decode (A := list (bytes * bytes)) (bytes_code raw) : option (gmap bytes bytes));
    if decide (map_Forall (fun k _ => valid_utf8 k) m) then Some m else None
}.

#[local] Instance map_codec_spec : MirrorCodecSpec.
Proof.
  split.
  - intros [ver now m] Hm _. cbn [Keys] in *. eexists. split; [reflexivity|]. split; [cbn [Keys]; by destruct (encode (map_to_list m))|].
    cbn [Unmarshal map_codec Keys]. rewrite bytes_code_round, decode_encode. cbn. rewrite list_to_map_to_list. by rewrite decide_True.
  - intros raw m. cbn [Unmarshal map_codec]. destruct (list_to_map <$> _) as [m'|]; cbn; [|done]. case_decide; [|done]. by intros [= <-].
Qed.

(** Two reset roots on the demonstration database. *)
Definition demo_second : BTreeKVStore MemDevice LRUEvictionPolicy :=
  (ResetBTreeRoot Replica.IdentityReplicaRootPageID (mkKV (kdb demo_store) Replica.IdentityReplicaRootPageID)).2.

Definition demo_replicated : Replica.ReplicatingKVStore MemDevice LRUEvictionPolicy (gmap bytes bytes) :=
  Replica.mkRepl (kdb demo_second) 1002 1016 (str "db.identity.json") ∅.

Lemma demo_twin : twin demo_replicated 0 [(1002, [])] 0 [(1016, [])].
Proof. exact (two_roots demo_store 1002 1016 demo_store_rep demo_store_root ltac:(split; [unfold page_id_ok; lia | reflexivity]) ltac:(discriminate)). Qed.

Lemma mem_sync (d : MemDevice) : (Sync d).1 = None.
Proof. reflexivity. Qed.

Lemma demo_ready : mirror_ready (str "db.identity.json") (fun _ => True) demo_replicated.
Proof. by split. Qed.

Lemma replica_dual_write_witness :
  exists s' lp' lr', Replica.Put 1 0 (str "data:user:1") (str "v") demo_replicated = (Ok tt, s') /\
    tree_map lp' = {[str "data:user:1" := str "v"]} /\ tree_map lr' = {[str "data:user:1" := str "v"]} /\
    mirror s' = Some {[str "data:user:1" := str "v"]}.
Proof.
  destruct (replica_dual_write mem_sync (str "db.identity.json") (fun _ => True) (map_files_serve _) 1 0 demo_replicated 0 _ 0 _
    (str "data:user:1") (str "v") demo_twin demo_ready ltac:(unfold timely; lia) ltac:(vm_compute; reflexivity)
    demo_flat demo_flat ltac:(reflexivity) ltac:(discriminate) ltac:(reflexivity) ltac:(reflexivity))
    as (s' & lp' & lr' & E & _ & _ & H1 & H2 & H3).
  exists s', lp', lr'. split; [exact E|]. split; [exact H1|]. split; [exact H2 | exact H3].
Defined.

Lemma identity_survives_primary_reset_witness :
  exists s1 r s2 s3, Replica.Put 1 0 (str "data:user:1") (str "v") demo_replicated = (Ok tt, s1) /\
    Replica.on_primary (ResetBTreeRoot (Replica.primary s1)) s1 = (r, s2) /\
    Replica.Get 1 (str "data:user:1") s2 = (Ok (str "v"), s3).
Proof.
  destruct (identity_survives_primary_reset mem_sync 1 0 demo_replicated 0 _ 0 _ (str "data:user:1") (str "v") demo_twin
    demo_flat demo_flat ltac:(reflexivity) ltac:(discriminate) ltac:(reflexivity) ltac:(reflexivity) ltac:(reflexivity))
    as (s1 & r & s2 & s3 & lp3 & lr3 & H1 & H2 & H3 & _).
  exists s1, r, s2, s3. split; [exact H1|]. split; [exact H2 | exact H3].
Defined.
