(* ===== verification/HotSwap.v ===== *)
(** The hot-swap store (hotswap_store.go): a B-tree that takes all writes, in
    front of a slotted page with the records of an older version, which are
    read through, copied over one by one as they are read, and migrated as a
    whole.  The store's state is its B-tree store; the configuration does not
    change.  Log output is left out. *)

From Stdlib Require Import Strings.Byte.
From S2P Require Import Common.
From S2P Require Import Prelude.
From S2P Require Import VFS.
From S2P Require Import LRU.
From S2P Require Import Page.
From S2P Require Import Slotted.
From S2P Require Import Telemetry.
From S2P Require Import BufferPool.
From S2P Require Import WAL.
From S2P Require Import DBPage.
From S2P Require Import DB.
From S2P Require Import BTreePage.
From S2P Require Import BTree.
From S2P Require Import KVRecover.
From S2P Require Import KVStore.

Module HotSwap.

(** Tells which keys of the slotted page belong to the tree. *)
Definition LegacyKeyMatch : Type := bytes -> bool.

Record HotSwapConfig := mkConfig {
  HotRoot : PageID;
  LegacyPage : PageID;
  MarkerKey : option bytes;
  LegacyMatch : option LegacyKeyMatch
}.

(** The marker key, with its default. *)
Definition markerKey (cfg : HotSwapConfig) : bytes := default (str "__hotswap_migrated__") (MarkerKey cfg).

(** [s.legacyMatch != nil && !s.legacyMatch(key)]. *)
Definition unmatched (cfg : HotSwapConfig) (key : bytes) : bool :=
  match LegacyMatch cfg with Some f => negb (f key) | None => false end.

Section Store.
Context {D P : Type} `{BlockDevice D} `{EvictionPolicy P} `{MapRange}.
Context (fuel : nat) (cfg : HotSwapConfig).
Abbreviation kv := (io (BTreeKVStore D P)).

Definition NewHotSwapKVStore (db : DB D P) (now now' : Z) : result unit * BTreeKVStore D P :=
  NewBTreeKVStoreWithRoot fuel db (HotRoot cfg) now now'.

Definition migrationDone : kv bool :=
  r ← try (KVStore.Get fuel (markerKey cfg));
  mret (match r with inr _ => true | inl _ => false end).

Definition begin_txn : kv Z := with_db (fun db => let '(id, db) := BeginTxn db in (Ok id, db)).

Definition commit_txn (txn : Z) : kv unit := with_db (fun db => (Ok tt, CommitTxn db txn)).

(** The scan visits one record and stops. *)
Definition legacyGet (key : bytes) (now now' : Z) : kv (option bytes) :=
  if LegacyPage cfg =? 0 then mret None
  else
    txn ← begin_txn;
    r ← try (with_db (fun db => DB.Read db (LegacyPage cfg) txn key now));
    match r with
    | inr ((_ :: _) as raw) => _ ← commit_txn txn; mret (Some raw)
    | _ =>
        r ← try (with_db (fun db => DB.Scan db (LegacyPage cfg) txn key now'
                   (fun k v found => (false, if bytes_equal k key && (0 <? zlen v) then Some v else found)) None));
        _ ← commit_txn txn;
        mret (match r with inr found => found | inl _ => None end)
    end.

(** An empty record that expires at once hides the older ones. *)
Definition expireLegacyKey (key : bytes) (c : clock) : kv unit :=
  if LegacyPage cfg =? 0 then mret tt
  else
    txn ← begin_txn;
    _ ← ignore (with_db (fun db => DB.Write db (LegacyPage cfg) txn key [] (MixDuration 1) c));
    commit_txn txn.

Definition promoteLegacy (key val : bytes) : kv unit :=
  if bool_decide (val = []) then mret tt else ignore (KVStore.Put fuel key val).

Definition Get (key : bytes) (now now' : Z) : kv bytes :=
  r ← try (KVStore.Get fuel key);
  match r with
  | inr ((_ :: _) as raw) => mret raw
  | _ =>
      done ← migrationDone;
      if (done : bool) then of_result (Err (Msg "key not found"))
      else if unmatched cfg key then of_result (Err (Msg "key not found"))
      else
        legacy ← legacyGet key now now';
        match legacy with
        | None => of_result (Err (Msg "key not found"))
        | Some legacy => _ ← promoteLegacy key legacy; mret legacy
        end
  end.

Definition Put (key value : bytes) : kv unit := KVStore.Put fuel key value.

Definition Delete (key : bytes) (c : clock) : kv unit :=
  _ ← KVStore.Delete fuel key;
  expireLegacyKey key c.

Definition Flush : kv unit := KVStore.Flush.

(** ** The migration *)

(** The records a scan of the legacy page finds, those with a value that match. *)
Definition pending_entry (k v : bytes) (pending : list (bytes * bytes)) : bool * list (bytes * bytes) :=
  (true, if bool_decide (v = []) || unmatched cfg k then pending else pending ++ [(k, v)]).

(** The copy loop; the clock readings of the expiries are taken from [cs].  The
    number of copied keys is part of what an error returns. *)
Fixpoint copy_loop (l : list (bytes * bytes)) (cs : nat -> clock) (copied : Z) : kv (Z * option error) :=
  match l with
  | [] => mret (copied, None)
  | (key, val) :: l =>
      existing ← try (KVStore.Get fuel key);
      match existing with
      | inr (_ :: _) =>
          _ ← expireLegacyKey key (cs 0%nat);
          copy_loop l (fun i => cs (S i)) copied
      | _ =>
          r ← try (KVStore.Put fuel key val);
          match r with
          | inl e => mret (copied, Some e)
          | inr _ =>
              _ ← expireLegacyKey key (cs 0%nat);
              copy_loop l (fun i => cs (S i)) (copied + 1)
          end
      end
  end.

Definition MigrateLegacy (now nowC dtC : Z) (cs : nat -> clock) : kv (Z * option error) :=
  done ← migrationDone;
  if (done : bool) || (LegacyPage cfg =? 0) then mret (0, None)
  else
    txn ← begin_txn;
    r ← try (with_db (fun db => DB.Scan db (LegacyPage cfg) txn [] now pending_entry []));
    _ ← commit_txn txn;
    let pending := match r with inr l => l | inl _ => [] end in
    '(copied, err) ← copy_loop pending cs 0;
    match (err : option error) with
    | Some e => mret (copied, Some e)
    | None =>
        _ ← ignore (with_db (fun db => CompactSlottedPage db (LegacyPage cfg) nowC dtC));
        r ← try (KVStore.Put fuel (markerKey cfg) (str "1"));
        match r with
        | inl e => mret (copied, Some e)
        | inr _ =>
            r ← try KVStore.Flush;
            mret (copied, match r with inl e => Some e | inr _ => None end)
        end
    end.

(** ** The background migration *)

(** [sync.Once] and whether the goroutine it starts is still to run. *)
Record background := mkBackground { migrateOnce : bool; scheduled : bool }.

Definition StartBackgroundMigration (b : background) : background :=
  if migrateOnce b then b else mkBackground true true.

(** The goroutine: its result is only logged. *)
Definition run_background (now nowC dtC : Z) (cs : nat -> clock) (b : background) : kv background :=
  if scheduled b then _ ← MigrateLegacy now nowC dtC cs; mret (mkBackground (migrateOnce b) false) else mret b.

(** ** The iterator *)

Record hotSwapIterator := mkHotIt {
  hot : btreeIterator;
  legacy : gmap bytes bytes;
  legacyIDs : list bytes;
  legacyPos : nat;
  legacyReady : bool;
  doneHot : bool
}.

Definition NewIterator (p : bytes) : kv hotSwapIterator :=
  it ← KVStore.NewIterator fuel p;
  mret (mkHotIt it ∅ [] 0 false false).

Definition set_hot (it : hotSwapIterator) (h : btreeIterator) : hotSwapIterator :=
  mkHotIt h (legacy it) (legacyIDs it) (legacyPos it) (legacyReady it) (doneHot it).

Definition legacy_entry (k v : bytes) (m : gmap bytes bytes) : bool * gmap bytes bytes :=
  (true, if bool_decide (v = []) || unmatched cfg k then m else <[k := v]> m).

Definition loadLegacy (p : bytes) (now : Z) (it : hotSwapIterator) : kv hotSwapIterator :=
  let ready := mkHotIt (hot it) (legacy it) (legacyIDs it) (legacyPos it) true (doneHot it) in
  if legacyReady it then mret ready
  else
    done ← migrationDone;
    if (done : bool) then mret ready
    else
      txn ← begin_txn;
      r ← try (with_db (fun db => DB.Scan db (LegacyPage cfg) txn p now legacy_entry ∅));
      _ ← commit_txn txn;
      let m := match r with inr m => m | inl _ => ∅ end in
      mret (mkHotIt (hot it) m (legacyIDs it ++ (range m).*1) (legacyPos it) true (doneHot it)).

(** The keys left to yield: the ids from [legacyPos] on that the map has. *)
Fixpoint next_legacy (ids : list bytes) (m : gmap bytes bytes) (pos : nat) : option (bytes * bytes) * nat :=
  match ids with
  | [] => (None, pos)
  | id :: ids => match m !! id with
                 | Some v => (Some (id, v), S pos)
                 | None => next_legacy ids m (S pos)
                 end
  end.

Definition yield_legacy (it : hotSwapIterator) : result (bytes * bytes) * hotSwapIterator :=
  let '(o, pos) := next_legacy (drop (legacyPos it) (legacyIDs it)) (legacy it) (legacyPos it) in
  (match o with Some kv => Ok kv | None => Err EOF end,
   mkHotIt (hot it) (legacy it) (legacyIDs it) pos (legacyReady it) (doneHot it)).

(** [Next] of a B-tree iterator, with the one whose tree could not be opened. *)
Definition hot_next (it : btreeIterator) (s : BTreeKVStore D P) :
    result (bytes * bytes) * btreeIterator * BTreeKVStore D P :=
  match cursor it with
  | None => (Err EOF, it, s)
  | Some c =>
      let '(r, c, s) := iterator_next fuel c (prefix it) s in
      (r, mkIterator (Some c) (prefix it), s)
  end.

Definition Next (p : bytes) (now : Z) (it : hotSwapIterator) (s : BTreeKVStore D P) :
    result (bytes * bytes) * hotSwapIterator * BTreeKVStore D P :=
  let legacy_part it s :=
    let '(r, it) := yield_legacy it in (r, it, s) in
  if doneHot it then legacy_part it s
  else
    let '(r, h, s) := hot_next (hot it) s in
    let it := set_hot it h in
    match r with
    | Ok (k, v) => (Ok (k, v), mkHotIt (hot it) (delete k (legacy it)) (legacyIDs it) (legacyPos it) (legacyReady it) (doneHot it), s)
    | Err e =>
        if bool_decide (e = EOF)
        then
          let it := mkHotIt (hot it) (legacy it) (legacyIDs it) (legacyPos it) (legacyReady it) true in
          match loadLegacy p now it s with
          | (Ok it, s) => legacy_part it s
          | (Err e, s) => (Err e, it, s)
          | (Panic, s) => (Panic, it, s)
          | (Hang, s) => (Hang, it, s)
          end
        else (Err e, it, s)
    | Panic => (Panic, it, s)
    | Hang => (Hang, it, s)
    end.

Definition Close (it : hotSwapIterator) : kv unit := fun s =>
  match cursor (hot it) with
  | None => (Ok tt, s)
  | Some c =>
      let '(r, _, pool) := BTree.Close (bp (kdb s)) c in
      (r, mkKV (set_bp pool (kdb s)) (kroot s))
  end.
End Store.
End HotSwap.
