(* ===== verification/Interfaces.v ===== *)
(** The interfaces of interfaces.go as records of operations, and the values the
    constructors of the program return for them: the three key-value stores, the
    lock manager and the metrics.  A [TxnHandle] of a store is a number; the clock
    readings an implementation takes during a call are arguments of the call. *)

From Stdlib Require Import Strings.Byte Strings.String.
From S2P Require Import Common.
From S2P Require Import Prelude.
From S2P Require Import VFS.
From S2P Require Import LRU.
From S2P Require Import Page.
From S2P Require Import Telemetry.
From S2P Require Import BufferPool.
From S2P Require Import WAL.
From S2P Require Import DBPage.
From S2P Require Import DB.
From S2P Require Import LockManager.
From S2P Require Import BTreePage.
From S2P Require Import BTree.
From S2P Require Import KVStore.
From S2P Require Import KVReplica.
From S2P Require Import HotSwap.

(** ** The interfaces *)

Module Iface.

Record TxnHandle (T : Type) := mkTxnHandle {
  txn_ID : T -> Z;
  txn_Commit : T -> option error;
  txn_Abort : T -> option error
}.
Arguments mkTxnHandle {_}.
Arguments txn_ID {_}.
Arguments txn_Commit {_}.
Arguments txn_Abort {_}.

(** The clock readings of one call. *)
Record readings := mkReadings { first_now : Z; second_now : Z; write_clock : clock }.

Record KVIterator (I S : Type) := mkKVIterator {
  it_Next : readings -> I -> S -> result (bytes * bytes) * I * S;
  it_Close : I -> io S unit
}.
Arguments mkKVIterator {_ _}.
Arguments it_Next {_ _}.
Arguments it_Close {_ _}.

(** [Begin] reads the clock in nanoseconds; [ttl] is a duration. *)
Record KVStore (S T I : Type) := mkKVStore {
  kv_Txn : TxnHandle T;
  kv_It : KVIterator I S;
  kv_Begin : Z -> S -> T;
  kv_Get : T -> bytes -> readings -> io S bytes;
  kv_Put : T -> bytes -> bytes -> Z -> readings -> io S unit;
  kv_Delete : T -> bytes -> readings -> io S unit;
  kv_NewIterator : T -> bytes -> io S I;
  kv_Flush : io S unit
}.
Arguments mkKVStore {_ _ _}.
Arguments kv_Txn {_ _ _}.
Arguments kv_It {_ _ _}.
Arguments kv_Begin {_ _ _}.
Arguments kv_Get {_ _ _}.
Arguments kv_Put {_ _ _}.
Arguments kv_Delete {_ _ _}.
Arguments kv_NewIterator {_ _ _}.
Arguments kv_Flush {_ _ _}.

(** [Acquire] tells whether the call returned; otherwise it waits. *)
Record LockManager (L : Type) := mkLockManager {
  lm_Acquire : Z -> string -> LockMode -> L -> bool * L;
  lm_Release : Z -> string -> L -> L;
  lm_ReleaseAll : Z -> L -> L
}.
Arguments mkLockManager {_}.
Arguments lm_Acquire {_}.
Arguments lm_Release {_}.
Arguments lm_ReleaseAll {_}.

Record EngineMetrics (M : Type) := mkEngineMetrics {
  em_IncrBufferPoolHit : M -> M;
  em_IncrBufferPoolMiss : M -> M;
  em_RecordWalFlushLatency : Z -> M -> M;
  em_RecordPageCompactionTime : Z -> M -> M;
  em_SetActiveTransactions : Z -> M -> M
}.
Arguments mkEngineMetrics {_}.
Arguments em_IncrBufferPoolHit {_}.
Arguments em_IncrBufferPoolMiss {_}.
Arguments em_RecordWalFlushLatency {_}.
Arguments em_RecordPageCompactionTime {_}.
Arguments em_SetActiveTransactions {_}.

(** ** Lock manager and metrics *)

Definition TwoPLLockManager `{MapRange} : LockManager LockState :=
  mkLockManager Acquire Release ReleaseAll.

Definition atomic_metrics : EngineMetrics AtomicMetrics :=
  mkEngineMetrics IncrBufferPoolHit IncrBufferPoolMiss RecordWalFlushLatency RecordPageCompactionTime SetActiveTransactions.

(** ** The handle of the stores *)

(** It names a moment and nothing else: committing and aborting do nothing. *)
Record btreeTxn := mkBtreeTxn { id : Z }.

Definition btree_txn : TxnHandle btreeTxn := mkTxnHandle id (fun _ => None) (fun _ => None).

Definition Begin (unixNano : Z) : btreeTxn := mkBtreeTxn (u64 unixNano).

(** ** The stores *)

Section Stores.
Context {D P : Type} `{BlockDevice D} `{EvictionPolicy P} `{MapRange}.
Context (fuel : nat).

Definition iterator_Close (it : btreeIterator) : io (BTreeKVStore D P) unit := fun s =>
  match cursor it with
  | None => (Ok tt, s)
  | Some c =>
      let '(r, _, pool) := BTree.Close (bp (kdb s)) c in
      (r, mkKV (set_bp pool (kdb s)) (kroot s))
  end.

Definition btree_iterator : KVIterator btreeIterator (BTreeKVStore D P) :=
  mkKVIterator (fun _ => HotSwap.hot_next fuel) iterator_Close.

Definition btree_store : KVStore (BTreeKVStore D P) btreeTxn btreeIterator :=
  mkKVStore btree_txn btree_iterator (fun now _ => Begin now)
    (fun _ key _ => KVStore.Get fuel key)
    (fun _ key value _ _ => KVStore.Put fuel key value)
    (fun _ key _ => KVStore.Delete fuel key)
    (fun _ prefix => KVStore.NewIterator fuel prefix)
    KVStore.Flush.

(** The iterator keeps the prefix it was made with. *)
Definition hotswap_iterator (cfg : HotSwap.HotSwapConfig) :
    KVIterator (bytes * HotSwap.hotSwapIterator) (BTreeKVStore D P) :=
  mkKVIterator
    (fun rd it s => let '(r, it', s) := HotSwap.Next fuel cfg it.1 (first_now rd) it.2 s in (r, (it.1, it'), s))
    (fun it => HotSwap.Close it.2).

Definition hotswap_store (cfg : HotSwap.HotSwapConfig) :
    KVStore (BTreeKVStore D P) btreeTxn (bytes * HotSwap.hotSwapIterator) :=
  mkKVStore btree_txn (hotswap_iterator cfg) (fun now _ => Begin now)
    (fun _ key rd => HotSwap.Get fuel cfg key (first_now rd) (second_now rd))
    (fun _ key value _ _ => HotSwap.Put fuel key value)
    (fun _ key rd => HotSwap.Delete fuel cfg key (write_clock rd))
    (fun _ prefix => it ← HotSwap.NewIterator fuel prefix; mret (prefix, it))
    HotSwap.Flush.

Section Replicated.
Context {F : Type} `{FileSystem F} `{MirrorCodec}.

(** [Next] and [Close] of the iterator of the primary tree. *)
Definition primary_next (it : btreeIterator) (s : Replica.ReplicatingKVStore D P F) :
    result (bytes * bytes) * btreeIterator * Replica.ReplicatingKVStore D P F :=
  let '(r, it, k) := HotSwap.hot_next fuel it (mkKV (Replica.rdb s) (Replica.primary s)) in
  (r, it, Replica.mkRepl (kdb k) (kroot k) (Replica.replica s) (Replica.mirrorPath s) (Replica.files s)).

Definition replicated_store : KVStore (Replica.ReplicatingKVStore D P F) btreeTxn btreeIterator :=
  mkKVStore btree_txn (mkKVIterator (fun _ => primary_next) (fun it => Replica.on_primary (iterator_Close it)))
    (fun now _ => Begin now)
    (fun _ key _ => Replica.Get fuel key)
    (fun _ key value _ rd => Replica.Put fuel (first_now rd) key value)
    (fun _ key rd => Replica.Delete fuel (first_now rd) key)
    (fun _ prefix => Replica.NewIterator fuel prefix)
    (Replica.Flush).
End Replicated.
End Stores.

(** ** Clients of a store *)

Section Clients.
Context {S T I : Type} (K : KVStore S T I).

(** A lookup in a transaction of its own. *)
Definition hotGetNoFallback (now : Z) (key : bytes) (rd : readings) : io S bytes := fun s =>
  let txn := kv_Begin K now s in
  let '(raw, s) := kv_Get K txn key rd s in
  let _ := txn_Commit (kv_Txn K) txn in
  (raw, s).

(** Read an iterator until its first error. *)
Fixpoint read_all (rounds : nat) (rd : readings) (it : I) (acc : list (bytes * bytes)) (s : S) :
    result (list (bytes * bytes)) * I * S :=
  match rounds with
  | O => (Hang, it, s)
  | Datatypes.S rounds =>
      let '(r, it, s) := it_Next (kv_It K) rd it s in
      match r with
      | Ok kv => read_all rounds rd it (acc ++ [kv]) s
      | Err _ => (Ok acc, it, s)
      | Panic => (Panic, it, s)
      | Hang => (Hang, it, s)
      end
  end.

Definition list_prefix (rounds : nat) (txn : T) (prefix : bytes) (rd : readings) : io S (list (bytes * bytes)) := fun s =>
  match kv_NewIterator K txn prefix s with
  | (Ok it, s) =>
      let '(r, it, s) := read_all rounds rd it [] s in
      let '(rc, s) := it_Close (kv_It K) it s in
      (match rc with Ok _ => r | Err e => Err e | Panic => Panic | Hang => Hang end, s)
  | (Err e, s) => (Err e, s)
  | (Panic, s) => (Panic, s)
  | (Hang, s) => (Hang, s)
  end.

Inductive kv_call :=
| CallGet (key : bytes)
| CallPut (key value : bytes) (ttl : Z)
| CallDelete (key : bytes)
| CallList (prefix : bytes)
| CallFlush.

(** A call is made in a transaction that is begun before and committed after it. *)
Definition call (rounds : nat) (c : kv_call) (now : Z) (rd : readings) : io S (list (bytes * bytes)) := fun s =>
  let txn := kv_Begin K now s in
  let '(r, s) :=
    match c with
    | CallGet key => (v ← kv_Get K txn key rd; mret [(key, v)]) s
    | CallPut key value ttl => (_ ← kv_Put K txn key value ttl rd; mret []) s
    | CallDelete key => (_ ← kv_Delete K txn key rd; mret []) s
    | CallList prefix => list_prefix rounds txn prefix rd s
    | CallFlush => (_ ← kv_Flush K; mret []) s
    end in
  let _ := txn_Commit (kv_Txn K) txn in
  (r, s).

(** [now] and [rd] give the clock of each call. *)
Fixpoint calls (rounds : nat) (cs : list kv_call) (now : nat -> Z) (rd : nat -> readings) (s : S) :
    list (result (list (bytes * bytes))) * S :=
  match cs with
  | [] => ([], s)
  | c :: cs =>
      let '(r, s) := call rounds c (now 0%nat) (rd 0%nat) s in
      let '(rs, s) := calls rounds cs (fun i => now (Datatypes.S i)) (fun i => rd (Datatypes.S i)) s in
      (r :: rs, s)
  end.
End Clients.
End Iface.
