(* ===== verification/HotSwapSpec.v ===== *)
(** What the hot-swap store does: reads go to the tree first and then through to
    the slotted page, whose value is copied into the tree; and where its
    behaviour and its comments part. *)

From Stdlib Require Import Strings.Byte.
From stdpp Require Import sorting.
From S2P Require Import Common.
From S2P Require Import Prelude.
From S2P Require Import VFS.
From S2P Require Import LRU.
From S2P Require Import Page.
From S2P Require Import Slotted.
From S2P Require Import Telemetry.
From S2P Require Import BufferPool.
From S2P Require Import PoolInv.
From S2P Require Import PoolOps.
From S2P Require Import PoolPins.
From S2P Require Import WAL.
From S2P Require Import DBPage.
From S2P Require Import DB.
From S2P Require Import DBSpec.
From S2P Require Import BTreePage.
From S2P Require Import BTreeNode.
From S2P Require Import BTree.
From S2P Require Import BTreeSpec.
From S2P Require Import BTreeLocked.
From S2P Require Import BTreeWalk.
From S2P Require Import BTreeJoin.
From S2P Require Import KVRecover.
From S2P Require Import KVStore.
From S2P Require Import KVSpec.
From S2P Require Import KVPut.
From S2P Require Import KVProps.
From S2P Require Import KVIter.
From S2P Require Import KVOpen.
From S2P Require Import HotSwap.

Section HotSwapStore.
Context {D : Type} `{DS : BlockDeviceSpec D} `{RD : !ReliableDevice D} `{MR : MapRange}.
Context (cfg : HotSwap.HotSwapConfig).
Implicit Types s : BTreeKVStore D LRUEvictionPolicy.
Implicit Types db : DB D LRUEvictionPolicy.
Abbreviation lpage := (HotSwap.LegacyPage cfg).

(** ** A slotted page beside the tree *)

Record hs_rep (h : nat) (ls : leaves) (rs : list record) s : Prop := {
  hs_tree : kv_rep h ls s;
  hs_id : page_id_ok lpage;
  hs_page : page_holds (view (bp (kdb s)) lpage) rs;
  hs_apart : forall ids, tree_pages s ids -> lpage ∉ ids
}.

Lemma hs_unchanged h ls rs s db :
  hs_rep h ls rs s -> unchanged (bp (kdb s)) (bp db) (fun _ => 0) -> hs_rep h ls rs (mkKV db (kroot s)).
Proof.
  intros [H1 H2 H3 H4] [U1 U2 U3 U4]. assert (set_bp (bp db) db = db) as Edb by by destruct db.
  assert (kv_rep h ls (mkKV db (kroot s))) as Hrep.
  { rewrite <- Edb. apply (kv_rep_view h ls s); [done..|rewrite U3; apply H1]. }
  split; [done|done| |].
  - cbn. by rewrite (page_eqv_image _ _ _ (U2 lpage)).
  - intros ids Hids. pose proof H1 as [_ _ _ (i & Hsub & _) _].
    assert (tree_pages s i) as Hi by by eexists _, _. rewrite (tree_pages_det _ ids i Hids); [by apply H4|].
    by apply (tree_pages_view s).
Qed.

Lemma hs_frame h ls ls' rs s s' :
  hs_rep h ls rs s -> kv_rep h ls' s' -> kv_frame ls s s' -> hs_rep h ls' rs s'.
Proof.
  intros [H1 H2 H3 H4] Hrep [[K1 _ _ K3] K4]. pose proof H1 as [_ _ _ (i & Hsub & _) _].
  assert (tree_pages s i) as Hi by by eexists _, _. split; [done|done| |].
  - assert (lpage ∉ ls.*1) as Hl.
    { intros Hl. apply (H4 i Hi). eapply sublist_subseteq; [by eapply subtree_leaves|done]. }
    by rewrite (page_eqv_image _ _ _ (K3 lpage Hl)).
  - intros ids Hids. rewrite (tree_pages_det _ ids i Hids (K4 i Hi)). by apply H4.
Qed.

(** A read of the slotted page. *)
Lemma latched_read_run {A} db pg (body : mem -> result A) :
  pool_inv ∅ (bp db) -> (forall id, pins (bp db) id = 0) -> (0 < length (frames (bp db)))%nat -> page_id_ok pg ->
  exists d pool, latched_read db pg body = (body d, set_bp pool db) /\ page_eqv pg d (view (bp db) pg) /\
    unchanged (bp db) pool (fun _ => 0).
Proof.
  intros Hinv Hidle Hlen Hok. unfold latched_read.
  destruct (FetchPage_room ∅ (bp db) pg ∅ Hinv Hok) as (i & pool & Hf);
    [intros id; rewrite Hidle; lia | rewrite size_empty; lia|].
  rewrite Hf. destruct (fetch_unchanged _ _ i pool Hinv Hok Hf) as (U & Hi & _).
  destruct (frame_view pool pg i (un_inv _ _ _ U) Hi) as (p & Hp & Hid & Hv). rewrite Hp.
  assert (0 < pins pool pg) as Hpos.
  { rewrite (un_pins _ _ _ U), Hidle. unfold one. by rewrite bool_decide_eq_true_2. }
  destruct (unpin_unchanged pool pg false (un_inv _ _ _ U) Hpos) as [U2 _].
  eexists _, _. split; [reflexivity|]. split; [rewrite <- Hv; apply U|].
  eapply unchanged_pins; [exact (unchanged_trans _ _ _ _ _ U U2)|]. intros id. cbn. rewrite (un_pins _ _ _ U), Hidle. lia.
Qed.

Lemma hs_latched_read {A} h ls rs s (body : mem -> result A) x :
  hs_rep h ls rs s -> (forall d, page_holds d rs -> body d = x) ->
  exists pool, latched_read (kdb s) lpage body = (x, set_bp pool (kdb s)) /\ hs_rep h ls rs (with_pool_of pool s).
Proof.
  intros Hhs Hbody. pose proof Hhs as [[Hinv Hidle Hfr _ _] Hok Hpage _].
  destruct (latched_read_run (kdb s) lpage body Hinv Hidle ltac:(lia) Hok) as (d & pool & E & Hd & U).
  exists pool. rewrite E, (Hbody d); [|by rewrite (page_eqv_image _ _ _ Hd)]. split; [done|].
  by apply (hs_unchanged h ls rs s (set_bp pool (kdb s))).
Qed.

(** The transaction bookkeeping leaves the pages alone. *)
Lemma hs_same_pool h ls rs s db : hs_rep h ls rs s -> bp db = bp (kdb s) -> hs_rep h ls rs (mkKV db (kroot s)).
Proof.
  intros Hhs Eb. apply (hs_unchanged h ls rs s db Hhs). rewrite Eb. split; [apply Hhs|done|done|apply Hhs].
Qed.

(** ** Reads *)

Lemma hs_get fuel h ls rs s k :
  hs_rep h ls rs s -> flat fuel h ->
  exists s', try (KVStore.Get fuel k) s =
      (Ok (match tree_map ls !! k with Some v => inr v | None => inl (Msg "key not found") end), s') /\
    hs_rep h ls rs s' /\ same_txns (kdb s) (kdb s') /\ kroot s' = kroot s.
Proof.
  intros Hhs Hh. destruct (Get_run fuel h ls s k (hs_tree _ _ _ _ Hhs) (flat_descends _ _ _ Hh)) as (s' & E & Hrep & Hfr).
  exists s'. split; [by apply (try_found _ _ (tree_map ls !! k))|]. split; [by eapply hs_frame|].
  destruct Hfr as [[K1 K2 _ _] _]. done.
Qed.

(** The marker is not in the tree: the migration has not been completed. *)
Definition not_migrated (ls : leaves) : Prop := tree_map ls !! HotSwap.markerKey cfg = None.

Lemma hs_migrationDone fuel h ls rs s :
  hs_rep h ls rs s -> flat fuel h ->
  exists s', HotSwap.migrationDone fuel cfg s = (Ok (bool_decide (tree_map ls !! HotSwap.markerKey cfg <> None)), s') /\
    hs_rep h ls rs s' /\ same_txns (kdb s) (kdb s') /\ kroot s' = kroot s.
Proof.
  intros Hhs Hh. destruct (hs_get fuel h ls rs s (HotSwap.markerKey cfg) Hhs Hh) as (s' & E & Hrest).
  exists s'. split; [|done]. unfold HotSwap.migrationDone. rewrite (bind_ok _ _ _ _ _ E). unfold mret, io_ret.
  by destruct (tree_map ls !! HotSwap.markerKey cfg).
Qed.

(** What the legacy page holds for a key, for the transaction the read starts. *)
Definition legacy_value (now : Z) s (rs : list record) (k : bytes) : option bytes :=
  let t := u64 (nextTxnID (kdb s) + 1) in read_spec now ({[t]} ∪ activeTxns (kdb s)) t k rs.

Lemma legacy_value_txns now s s' rs k :
  same_txns (kdb s) (kdb s') -> legacy_value now s' rs k = legacy_value now s rs k.
Proof. intros [E1 E2]. unfold legacy_value. by rewrite E1, E2. Qed.

Lemma hs_begin h ls rs s :
  hs_rep h ls rs s ->
  exists s', HotSwap.begin_txn s = (Ok (u64 (nextTxnID (kdb s) + 1)), s') /\ hs_rep h ls rs s' /\
    activeTxns (kdb s') = {[u64 (nextTxnID (kdb s) + 1)]} ∪ activeTxns (kdb s) /\
    nextTxnID (kdb s') = u64 (nextTxnID (kdb s) + 1) /\ kroot s' = kroot s.
Proof.
  intros Hhs. unfold HotSwap.begin_txn, with_db, BeginTxn. eexists. split; [reflexivity|].
  split; [by apply hs_same_pool|]. done.
Qed.

Lemma hs_commit h ls rs s t :
  hs_rep h ls rs s -> exists s', HotSwap.commit_txn t s = (Ok tt, s') /\ hs_rep h ls rs s' /\ kroot s' = kroot s /\
    activeTxns (kdb s') = activeTxns (kdb s) ∖ {[t]} /\ nextTxnID (kdb s') = nextTxnID (kdb s).
Proof.
  intros Hhs. unfold HotSwap.commit_txn, with_db, CommitTxn. eexists. split; [reflexivity|].
  split; [by apply hs_same_pool|]. done.
Qed.

Lemma hs_read h ls rs s t k now :
  hs_rep h ls rs s ->
  exists s', try (with_db (fun db => DB.Read db lpage t k now)) s =
      (Ok (match read_spec now (activeTxns (kdb s)) t k rs with Some v => inr v | None => inl ErrKeyNotFound end), s') /\
    hs_rep h ls rs s' /\ same_txns (kdb s) (kdb s') /\ kroot s' = kroot s.
Proof.
  intros Hhs. destruct (hs_latched_read h ls rs s (read_page now (activeTxns (kdb s)) t k)
    (match read_spec now (activeTxns (kdb s)) t k rs with Some v => Ok v | None => Err ErrKeyNotFound end) Hhs) as (pool & E & Hhs').
  { intros d Hd. by apply read_page_spec. }
  exists (with_pool_of pool s). split; [|done]. unfold try, with_db, DB.Read. rewrite E. by destruct (read_spec _ _ _ _ _).
Qed.

(** The scan that looks for the key again: what [Read] did not find it does not
    find either. *)
Lemma hs_scan_key h ls rs s t k now :
  hs_rep h ls rs s -> nonempty (read_spec now (activeTxns (kdb s)) t k rs) = None ->
  exists s', try (with_db (fun db => DB.Scan db lpage t k now
      (fun k' v found => (false, if bytes_equal k' k && (0 <? zlen v) then Some v else found)) None)) s =
      (Ok (inr None), s') /\
    hs_rep h ls rs s' /\ same_txns (kdb s) (kdb s') /\ kroot s' = kroot s.
Proof.
  intros Hhs Hno. set (m := fold_records (scan_body now (activeTxns (kdb s)) t k) 0 rs ∅).
  destruct (hs_latched_read h ls rs s (fun d => scan_page now (activeTxns (kdb s)) t k d
    (fun k' v found => (false, if bytes_equal k' k && (0 <? zlen v) then Some v else found)) None)
    (Ok None) Hhs) as (pool & E & Hhs').
  { intros d Hd. unfold scan_page. rewrite (for_slots_holds d rs) by done. cbn [mbind result_bind]. fold m.
    pose proof (scan_map_spec now (activeTxns (kdb s)) t k rs k) as Hm. fold m in Hm.
    destruct (range m) as [|[k' [ts v]] l] eqn:Er; [done|]. cbn [iterate].
    destruct (bytes_equal k' k) eqn:Ek; [|done]. unfold bytes_equal in Ek. apply bool_decide_eq_true in Ek. subst k'.
    assert (m !! k = Some (ts, v)) as Hl by (apply elem_of_range; rewrite Er; left). rewrite Hl in Hm. cbn in Hm.
    destruct (has_prefix k k); [|done]. rewrite <- Hm in Hno. by destruct v. }
  exists (with_pool_of pool s). split; [|done]. unfold try, with_db, DB.Scan. by rewrite E.
Qed.

Lemma legacyGet_run h ls rs s k now now' :
  hs_rep h ls rs s -> lpage <> 0 ->
  (nonempty (legacy_value now s rs k) = None -> nonempty (legacy_value now' s rs k) = None) ->
  exists s', HotSwap.legacyGet cfg k now now' s = (Ok (nonempty (legacy_value now s rs k)), s') /\
    hs_rep h ls rs s' /\ kroot s' = kroot s.
Proof.
  intros Hhs Hne Hno. unfold HotSwap.legacyGet. rewrite (proj2 (Z.eqb_neq _ _) Hne).
  destruct (hs_begin h ls rs s Hhs) as (s1 & E1 & Hhs1 & Ea1 & En1 & Er1). rewrite (bind_ok _ _ _ _ _ E1).
  set (t := u64 (nextTxnID (kdb s) + 1)) in *.
  destruct (hs_read h ls rs s1 t k now Hhs1) as (s2 & E2 & Hhs2 & [Ea2 _] & Er2). rewrite (bind_ok _ _ _ _ _ E2).
  rewrite Ea1. change (read_spec now ({[t]} ∪ activeTxns (kdb s)) t k rs) with (legacy_value now s rs k). destruct (nonempty (legacy_value now s rs k)) as [v|] eqn:Ev.
  - destruct (hs_commit h ls rs s2 t Hhs2) as (s3 & E3 & Hhs3 & Er3 & _). exists s3.
    destruct (legacy_value now s rs k) as [[|b v0]|]; cbn in Ev; simplify_eq. cbv beta iota. rewrite (bind_ok _ _ _ _ _ E3).
    split; [done|]. split; [done|congruence].
  - destruct (hs_scan_key h ls rs s2 t k now' Hhs2) as (s3 & E3 & Hhs3 & _ & Er3).
    { rewrite Ea2, Ea1. by apply Hno. }
    destruct (hs_commit h ls rs s3 t Hhs3) as (s4 & E4 & Hhs4 & Er4 & _). exists s4. split; [|split; [done|congruence]].
    destruct (legacy_value now s rs k) as [[|b v0]|]; [|done|]; cbv beta iota; by rewrite (bind_ok _ _ _ _ _ E3), (bind_ok _ _ _ _ _ E4).
Qed.

(** ** Writes to the slotted page *)

Lemma hs_latched_write {A} h ls rs rs' s (u : Page -> PageID) (body : mem -> option AtomicMetrics -> result (A * mem * option AtomicMetrics)) a :
  hs_rep h ls rs s -> (forall p, ID p = lpage -> u p = lpage) ->
  (forall d m, page_holds d rs -> exists d' m', body d m = Ok (a, d', m') /\ page_holds d' rs') ->
  exists db', latched_write (kdb s) lpage u body = (Ok a, db') /\ same_txns (kdb s) db' /\
    hs_rep h ls rs' (mkKV db' (kroot s)).
Proof.
  intros [Hrep Hok Hpage Hapart] Hu Hbody. pose proof Hrep as [Hinv Hidle Hfr (ids & Hsub & _) _]. unfold latched_write.
  destruct (FetchPage_room ∅ (bp (kdb s)) lpage ∅ Hinv Hok) as (i & pool & Hf);
    [intros id; rewrite Hidle; lia | rewrite size_empty; lia|].
  rewrite Hf. destruct (fetch_unchanged _ _ i pool Hinv Hok Hf) as ([U1 U2 U3 U4] & Hi & _).
  destruct (frame_view pool lpage i U1 Hi) as (p & Hp & Hid & Hv). rewrite Hp.
  destruct (Hbody (Data p) (db_metrics (kdb s))) as (d' & m' & -> & Hd').
  { rewrite <- Hv. by rewrite (page_eqv_image _ _ _ (U2 lpage)). }
  assert (pins pool lpage = 1) as Hpin.
  { rewrite U4, Hidle. unfold one. by rewrite bool_decide_eq_true_2. }
  destruct (modify_unpin ∅ pool lpage i p d' U1 Hi Hp) as (Hinv' & Hv' & Hoth); [|set_solver|].
  { rewrite <- (pins_cached pool lpage i p); [lia|done|done]. }
  rewrite (Hu p Hid). eexists. split; [reflexivity|]. split; [done|]. cbn [kroot]. destruct s as [db r]. cbn in *.
  assert (tree_pages (mkKV db r) ids) as Hids by by eexists _, _.
  match goal with |- hs_rep _ _ _ (mkKV ?db' _) => destruct (kv_rep_other db db' r h ls ids Hrep Hids) as [Hrep' Hids'] end; cbn.
  - done.
  - intros id. rewrite (UnpinPage_pins {[lpage]}).
    + rewrite update_frame_pins by done. rewrite U4, Hidle. unfold one.
      destruct (decide (id = lpage)) as [->|Hne]; [rewrite bool_decide_eq_true_2 by done|rewrite bool_decide_eq_false_2 by congruence]; lia.
    + destruct (inv_modify {[lpage]} pool lpage i d') as (Hinv2 & _); [|done|set_solver|done].
      pose proof (busy_pins ∅ pool lpage U1 ltac:(lia)) as Hb. by rewrite union_empty_r_L in Hb.
    + rewrite update_frame_pins by done. lia.
  - rewrite UnpinPage_frames. cbn. by rewrite length_alter.
  - intros id Hin. assert (id <> lpage) as Hne by (intros ->; by apply (Hapart ids)).
    etransitivity; [by apply Hoth|apply U2].
  - split; [done|done| |].
    + cbn. by rewrite (page_eqv_image _ _ _ Hv').
    + intros i' Hi'. rewrite (tree_pages_det _ _ _ Hi' Hids'). by apply Hapart.
Qed.

Lemma hs_write h ls rs s t k v mix c :
  hs_rep h ls rs s -> 0 <= t < 2 ^ 64 -> zlen k + zlen v < 2 ^ 30 ->
  let '(fits, rs') := write_spec (nowCompact c) rs (mkRecord t (write_expiry c mix) k v) in
  exists db', DB.Write (kdb s) lpage t k v mix c = ((if fits then Ok tt else Err ErrPageOverflow), db') /\
    same_txns (kdb s) db' /\ hs_rep h ls rs' (mkKV db' (kroot s)).
Proof.
  intros Hhs Ht Hlen. set (r := mkRecord t (write_expiry c mix) k v).
  destruct (write_spec (nowCompact c) rs r) as [fits rs'] eqn:Ew.
  destruct (hs_latched_write h ls rs rs' s ID (fun d m => write_page c d m r)
    (if fits then None else Some ErrPageOverflow) Hhs ltac:(done)) as (db' & E & Hsame & Hhs').
  - intros d m Hh. destruct (write_page_spec c d m rs r Hh) as (d' & m' & E & Hd').
    + by apply write_record_ok.
    + unfold record_size, RecordHeaderSize. cbn. lia.
    + rewrite Ew in *. exists d', m'. split; [done|]. by left.
  - exists db'. unfold DB.Write, return_error. fold r. rewrite E. by destruct fits.
Qed.

(** The record that hides a key of the slotted page. *)
Definition tombstone s (k : bytes) (c : clock) : record :=
  mkRecord (u64 (nextTxnID (kdb s) + 1)) (write_expiry c (MixDuration 1)) k [].

Lemma expireLegacyKey_run h ls rs s k c :
  hs_rep h ls rs s -> lpage <> 0 -> zlen k < 2 ^ 30 ->
  exists s', HotSwap.expireLegacyKey cfg k c s = (Ok tt, s') /\
    hs_rep h ls (write_spec (nowCompact c) rs (tombstone s k c)).2 s' /\
    (u64 (nextTxnID (kdb s) + 1) ∉ activeTxns (kdb s')) /\ nextTxnID (kdb s') = u64 (nextTxnID (kdb s) + 1).
Proof.
  intros Hhs Hne Hk. unfold HotSwap.expireLegacyKey. rewrite (proj2 (Z.eqb_neq _ _) Hne).
  destruct (hs_begin h ls rs s Hhs) as (s1 & E1 & Hhs1 & Ea1 & En1 & Er1). rewrite (bind_ok _ _ _ _ _ E1).
  set (t := u64 (nextTxnID (kdb s) + 1)) in *.
  pose proof (hs_write h ls rs s1 t k [] (MixDuration 1) c Hhs1 (u64_ok _) ltac:(change (zlen (A := byte) []) with 0; lia)) as Hw.
  change (mkRecord t _ k []) with (tombstone s k c) in Hw.
  destruct (write_spec (nowCompact c) rs (tombstone s k c)) as [fits rs'].
  destruct Hw as (db' & E2 & [_ En2] & Hhs2).
  assert (ignore (with_db (fun db => DB.Write db lpage t k [] (MixDuration 1) c)) s1 = (Ok tt, mkKV db' (kroot s1))) as E2'.
  { unfold ignore, try, with_db, mbind, io_bind. rewrite E2. by destruct fits. }
  rewrite (bind_ok _ _ _ _ _ E2'). destruct (hs_commit h ls rs' _ t Hhs2) as (s3 & E3 & Hhs3 & _ & Ea3 & En3).
  exists s3. split; [done|]. split; [done|]. split; [rewrite Ea3; set_solver|]. rewrite En3. cbn. congruence.
Qed.

(** After it the page has no value for the key. *)
Lemma tombstone_hides now s s' rs k c :
  u64 (nextTxnID (kdb s) + 1) ∉ activeTxns (kdb s') -> nextTxnID (kdb s') = u64 (nextTxnID (kdb s) + 1) ->
  (write_spec (nowCompact c) rs (tombstone s k c)).1 = true ->
  nonempty (legacy_value now s' (write_spec (nowCompact c) rs (tombstone s k c)).2 k) = None.
Proof.
  intros Ha En Hfits.
  assert (exists rs0, (write_spec (nowCompact c) rs (tombstone s k c)).2 = rs0 ++ [tombstone s k c]) as [rs0 ->].
  { revert Hfits. unfold write_spec. repeat case_decide; [by eexists..|done]. }
  unfold legacy_value. rewrite read_spec_snoc. cbn [key tombstone]. rewrite bool_decide_eq_true_2 by done.
  assert (u64 (nextTxnID (kdb s') + 1) <> u64 (nextTxnID (kdb s) + 1)) as Hne.
  { rewrite En. pose proof (u64_ok (nextTxnID (kdb s) + 1)) as Hr. revert Hr. generalize (u64 (nextTxnID (kdb s) + 1)) as x.
    intros x Hr. destruct (decide (x = 2 ^ 64 - 1)) as [->|Hx]; [done|]. unfold u64. rewrite Z.mod_small; lia. }
  unfold visible. cbn [txnID tombstone]. rewrite bool_decide_eq_false_2 by set_solver. cbn [negb orb andb].
  by destruct (live _ _).
Qed.

(** A read that the tree cannot answer. *)
Lemma HotSwap_Get_run fuel h ls rs s k now now' :
  hs_rep h ls rs s -> flat fuel h -> lpage <> 0 -> (forall d : D, (Sync d).1 = None) ->
  not_migrated ls -> HotSwap.unmatched cfg k = false -> nonempty (tree_map ls !! k) = None ->
  (nonempty (legacy_value now s rs k) = None -> nonempty (legacy_value now' s rs k) = None) ->
  (forall v, nonempty (legacy_value now s rs k) = Some v -> BTreeHeaderSize + map_bytes (<[k := v]> (tree_map ls)) < PageSize) ->
  exists s' ls', HotSwap.Get fuel cfg k now now' s = (found (nonempty (legacy_value now s rs k)), s') /\
    hs_rep h ls' rs s' /\
    tree_map ls' = match nonempty (legacy_value now s rs k) with Some v => <[k := v]> (tree_map ls) | None => tree_map ls end.
Proof.
  intros Hhs Hh Hne Hsync Hmig Hun Hhot Hno Hsmall. unfold HotSwap.Get.
  destruct (hs_get fuel h ls rs s k Hhs Hh) as (s1 & E1 & Hhs1 & Ht1 & Er1). rewrite (bind_ok _ _ _ _ _ E1).
  destruct (hs_migrationDone fuel h ls rs s1 Hhs1 Hh) as (s2 & E2 & Hhs2 & Ht2 & Er2).
  rewrite Hmig in E2. rewrite bool_decide_eq_false_2 in E2 by tauto.
  assert (same_txns (kdb s) (kdb s2)) as Ht by (destruct Ht1, Ht2; split; congruence).
  destruct (legacyGet_run h ls rs s2 k now now' Hhs2 Hne) as (s3 & E3 & Hhs3 & Er3).
  { by rewrite !(legacy_value_txns _ s s2). }
  rewrite (legacy_value_txns _ s s2) in E3 by done.
  set (o := nonempty (legacy_value now s rs k)) in *.
  assert (exists s' ls', (legacy ← HotSwap.legacyGet cfg k now now';
      match legacy with
      | None => of_result (Err (Msg "key not found"))
      | Some legacy => _ ← HotSwap.promoteLegacy fuel k legacy; mret legacy
      end) s2 = (found o, s') /\ hs_rep h ls' rs s' /\
      tree_map ls' = match o with Some v => <[k := v]> (tree_map ls) | None => tree_map ls end) as Hgo.
  { rewrite (bind_ok _ _ _ _ _ E3). destruct o as [v|] eqn:Eo; [|by exists s3, ls].
    unfold HotSwap.promoteLegacy. assert (v <> []) as Hv by (unfold o in Eo; destruct (legacy_value _ _ _ _) as [[|]|]; cbn in Eo; by simplify_eq).
    rewrite bool_decide_eq_false_2 by done.
    destruct (small_room h ls s3 k v (hs_tree _ _ _ _ Hhs3) (Hsmall v eq_refl)) as [Hkv Hroom].
    destruct (Put_ok_run fuel h ls s3 k v (hs_tree _ _ _ _ Hhs3) (flat_descends _ _ _ Hh) Hsync Hkv Hroom) as (s4 & ls4 & E4 & Hrep4 & Em4 & Hfr4).
    rewrite (bind_ok _ _ _ _ _ (ignore_ok _ _ _ _ E4)). exists s4, ls4. split; [done|]. split; [by eapply hs_frame|done]. }
  destruct (tree_map ls !! k) as [[|b v0]|]; [|done|]; by rewrite (bind_ok _ _ _ _ _ E2), Hun.
Qed.

(** A read that the tree answers. *)
Lemma HotSwap_Get_hot fuel h ls rs s k v now now' :
  hs_rep h ls rs s -> flat fuel h -> nonempty (tree_map ls !! k) = Some v ->
  exists s', HotSwap.Get fuel cfg k now now' s = (Ok v, s') /\ hs_rep h ls rs s'.
Proof.
  intros Hhs Hh Hv. destruct (hs_get fuel h ls rs s k Hhs Hh) as (s1 & E1 & Hhs1 & _).
  exists s1. split; [|done]. unfold HotSwap.Get. rewrite (bind_ok _ _ _ _ _ E1).
  destruct (tree_map ls !! k) as [[|b l]|]; cbn in Hv; by simplify_eq.
Qed.

Lemma nonempty_some o v : nonempty o = Some v -> v <> [].
Proof. by destruct o as [[|]|]; cbn; intros [=]; subst. Qed.

(** A read through the hot-swap store, over a tree of one leaf, before the
    migration is complete: a key whose value is only on the legacy page is found there, its value is returned
    and copied into the tree with nothing else changed, and from then on it is
    read from the tree, at any time, also after the legacy record has expired. *)
Theorem hotswap_read_through fuel h ls rs s k v now now' :
  hs_rep h ls rs s -> flat fuel h -> lpage <> 0 -> (forall d : D, (Sync d).1 = None) ->
  not_migrated ls -> HotSwap.unmatched cfg k = false -> nonempty (tree_map ls !! k) = None ->
  nonempty (legacy_value now s rs k) = Some v -> BTreeHeaderSize + map_bytes (<[k := v]> (tree_map ls)) < PageSize ->
  exists s' ls', HotSwap.Get fuel cfg k now now' s = (Ok v, s') /\ hs_rep h ls' rs s' /\
    tree_map ls' = <[k := v]> (tree_map ls) /\
    forall later later', exists s'', HotSwap.Get fuel cfg k later later' s' = (Ok v, s'') /\ hs_rep h ls' rs s''.
Proof.
  intros Hhs Hh Hne Hsync Hmig Hun Hhot Hv Hsmall.
  destruct (HotSwap_Get_run fuel h ls rs s k now now' Hhs Hh Hne Hsync Hmig Hun Hhot) as (s' & ls' & E & Hhs' & Em).
  { by rewrite Hv. }
  { rewrite Hv. by intros v' [= <-]. }
  rewrite Hv in E, Em. exists s', ls'. split; [done|]. split; [done|]. split; [done|]. intros later later'.
  apply (HotSwap_Get_hot fuel h ls'); [done|done|]. rewrite Em, lookup_insert_eq.
  apply nonempty_some in Hv. by destruct v.
Qed.

(** A deletion of a key the tree holds hides the legacy copy as well, when the
    legacy page has room for the hiding record: the key is gone for every later
    read, although the legacy record itself stays on its page.  (Without room
    the write error is dropped and the old value is back at the next read.) *)
Theorem hotswap_delete_hides_legacy fuel h ls rs s k c now now' :
  hs_rep h ls rs s -> flat fuel h -> lpage <> 0 -> (forall d : D, (Sync d).1 = None) ->
  not_migrated ls -> HotSwap.unmatched cfg k = false -> is_Some (tree_map ls !! k) -> zlen k < 2 ^ 30 ->
  (write_spec (nowCompact c) rs (tombstone s k c)).1 = true ->
  exists s1 s2, HotSwap.Delete fuel cfg k c s = (Ok tt, s1) /\
    HotSwap.Get fuel cfg k now now' s1 = (Err (Msg "key not found"), s2).
Proof.
  intros Hhs Hh Hne Hsync Hmig Hun [v0 Hk] Hlen Hroom.
  destruct (Delete_run fuel h ls s k (hs_tree _ _ _ _ Hhs) (flat_descends _ _ _ Hh)) as (s0 & ls0 & E0 & Hrep0 & Em0 & Hfr).
  rewrite Hk in E0. pose proof (hs_frame _ _ _ _ _ _ Hhs Hrep0 Hfr) as Hhs0. destruct Hfr as [[_ [_ En] _ _] _].
  destruct (expireLegacyKey_run h ls0 rs s0 k c Hhs0 Hne Hlen) as (s1 & E1 & Hhs1 & Ha & En1).
  pose proof (fun now => tombstone_hides now s0 s1 rs k c Ha En1 ltac:(unfold tombstone; by rewrite En)) as Hhide.
  destruct (HotSwap_Get_run fuel h ls0 _ s1 k now now' Hhs1 Hh Hne Hsync) as (s2 & ls2 & E2 & _ & _);
    [|done| |by rewrite !Hhide|by rewrite Hhide|].
  - unfold not_migrated. rewrite Em0. by apply lookup_delete_None; right.
  - by rewrite Em0, lookup_delete_eq.
  - rewrite Hhide in E2. exists s1, s2. split; [|done]. unfold HotSwap.Delete. by rewrite (bind_ok _ _ _ _ _ E0).
Qed.

(** A deletion of a key that only the legacy page holds reports that the key
    does not exist and hides nothing: the next read still returns the value. *)
Theorem hotswap_delete_misses_legacy fuel h ls rs s k v c now now' :
  hs_rep h ls rs s -> flat fuel h -> lpage <> 0 -> (forall d : D, (Sync d).1 = None) ->
  not_migrated ls -> HotSwap.unmatched cfg k = false -> tree_map ls !! k = None ->
  nonempty (legacy_value now s rs k) = Some v -> BTreeHeaderSize + map_bytes (<[k := v]> (tree_map ls)) < PageSize ->
  exists s1 s2, HotSwap.Delete fuel cfg k c s = (Err (Msg "key not found"), s1) /\
    HotSwap.Get fuel cfg k now now' s1 = (Ok v, s2).
Proof.
  intros Hhs Hh Hne Hsync Hmig Hun Hk Hv Hsmall.
  destruct (Delete_run fuel h ls s k (hs_tree _ _ _ _ Hhs) (flat_descends _ _ _ Hh)) as (s1 & ls1 & E1 & Hrep1 & Em1 & Hfr).
  rewrite Hk in E1. rewrite delete_id in Em1 by done. pose proof (hs_frame _ _ _ _ _ _ Hhs Hrep1 Hfr) as Hhs1.
  destruct Hfr as [[_ Ht _ _] _].
  destruct (HotSwap_Get_run fuel h ls1 rs s1 k now now' Hhs1 Hh Hne Hsync) as (s2 & ls2 & E2 & _ & _);
    rewrite ?(legacy_value_txns now s s1), ?Hv, ?Em1, ?Hk; try done.
  - unfold not_migrated. by rewrite Em1.
  - by intros v' [= <-].
  - rewrite (legacy_value_txns now s s1), Hv in E2 by done. exists s1, s2. split; [|done]. unfold HotSwap.Delete, mbind, io_bind. by rewrite E1.
Qed.
End HotSwapStore.

(** ** Witnesses *)

#[local] Existing Instance canonical_range.

Definition demo_cfg : HotSwap.HotSwapConfig := HotSwap.mkConfig 1002 5 None None.

(** A page the tree of one leaf does not use. *)
Lemma hs_beside {D} `{DS : BlockDeviceSpec D} `{RD : !ReliableDevice D} `{MR : MapRange}
    (cfg : HotSwap.HotSwapConfig) (s : BTreeKVStore D LRUEvictionPolicy) r rs :
  kv_rep 0 [(r, [])] s -> kroot s = r -> page_id_ok (HotSwap.LegacyPage cfg) -> HotSwap.LegacyPage cfg <> r ->
  page_holds (view (bp (kdb s)) (HotSwap.LegacyPage cfg)) rs -> hs_rep cfg 0 [(r, [])] rs s.
Proof.
  intros Hrep Hr Hok Hne Hpage. split; [done..|]. intros ids Hids. pose proof Hrep as [_ _ _ (i & Hsub & _) _].
  rewrite (tree_pages_det s ids i Hids) by by eexists _, _. destruct Hsub as (cs & _ & _ & ->).
  by rewrite list_elem_of_singleton, Hr.
Qed.

(** The demonstration tree with a record on page 5, written by transaction 1. *)
Definition demo_record : record := mkRecord 1 (write_expiry demo_clock MixOther) (str "k") (str "v").
Definition demo_legacy : BTreeKVStore MemDevice LRUEvictionPolicy :=
  mkKV (DB.Write (kdb demo_store) 5 1 (str "k") (str "v") MixOther demo_clock).2 1002.

Lemma demo_store_txns : same_txns (kdb demo_fresh) (kdb demo_store).
Proof.
  destruct (ResetBTreeRoot_run demo_fresh demo_fresh_inv (NewBufferPool_idle _ _ _ _) ltac:(cbn; lia) demo_root)
    as (r & s' & E & _ & _ & Hfr & _). unfold demo_store. cbn [kroot demo_fresh] in E. rewrite E.
  exact (ko_txns _ _ _ Hfr).
Qed.

Lemma demo_store_page5 : page_holds (view (bp (kdb demo_store)) 5) [].
Proof.
  destruct (ResetBTreeRoot_run demo_fresh demo_fresh_inv (NewBufferPool_idle _ _ _ _) ltac:(cbn; lia) demo_root)
    as (r & s' & E & _ & _ & Hfr & _). unfold demo_store. cbn [kroot demo_fresh] in E. rewrite E.
  rewrite (page_eqv_image _ _ _ (ko_pages _ _ _ Hfr 5 ltac:(cbn; rewrite list_elem_of_singleton; done))).
  right. split_and!; reflexivity.
Qed.

Lemma demo_legacy_run :
  same_txns (kdb demo_fresh) (kdb demo_legacy) /\ hs_rep demo_cfg 0 [(1002, [])] [demo_record] demo_legacy.
Proof.
  pose proof (hs_beside demo_cfg demo_store 1002 [] demo_store_rep demo_store_root
    ltac:(unfold page_id_ok; cbn; lia) ltac:(discriminate) demo_store_page5) as Hhs.
  pose proof (hs_write demo_cfg 0 _ [] demo_store 1 (str "k") (str "v") MixOther demo_clock Hhs ltac:(lia) ltac:(reflexivity)) as H.
  unfold write_spec in H. rewrite decide_True in H by (vm_compute; discriminate).
  destruct H as (db' & E & [H1 H2] & Hhs'). destruct demo_store_txns as [H3 H4]. rewrite demo_store_root in Hhs'.
  change (HotSwap.LegacyPage demo_cfg) with 5 in E.
  unfold demo_legacy. rewrite E. split; [|exact Hhs']. split; [by rewrite <- H3 | by rewrite <- H4].
Qed.

Lemma demo_legacy_value : nonempty (legacy_value 2000 demo_legacy [demo_record] (str "k")) = Some (str "v").
Proof. rewrite (legacy_value_txns 2000 demo_fresh demo_legacy) by apply demo_legacy_run. vm_compute. reflexivity. Qed.

Lemma hotswap_read_through_witness :
  exists s' s'', HotSwap.Get 1 demo_cfg (str "k") 2000 2000 demo_legacy = (Ok (str "v"), s') /\
    HotSwap.Get 1 demo_cfg (str "k") (2 ^ 63) (2 ^ 63) s' = (Ok (str "v"), s'').
Proof.
  destruct (hotswap_read_through demo_cfg 1 0 _ _ demo_legacy (str "k") (str "v") 2000 2000 (proj2 demo_legacy_run)
    demo_flat ltac:(discriminate) (fun d => eq_refl) ltac:(reflexivity) ltac:(reflexivity) ltac:(reflexivity)
    demo_legacy_value ltac:(reflexivity)) as (s' & ls' & E & _ & _ & H).
  destruct (H (2 ^ 63) (2 ^ 63)) as (s'' & E' & _). exists s', s''. split; [exact E | exact E'].
Defined.

Lemma hotswap_delete_misses_legacy_witness :
  exists s1 s2, HotSwap.Delete 1 demo_cfg (str "k") demo_clock demo_legacy = (Err (Msg "key not found"), s1) /\
    HotSwap.Get 1 demo_cfg (str "k") 2000 2000 s1 = (Ok (str "v"), s2).
Proof.
  exact (hotswap_delete_misses_legacy demo_cfg 1 0 _ _ demo_legacy (str "k") (str "v") demo_clock 2000 2000 (proj2 demo_legacy_run)
    demo_flat ltac:(discriminate) (fun d => eq_refl) ltac:(reflexivity) ltac:(reflexivity) ltac:(reflexivity)
    demo_legacy_value ltac:(reflexivity)).
Defined.

(** After a read the key is in the tree, and a deletion hides it for good. *)
Lemma demo_promoted :
  exists s ls, hs_rep demo_cfg 0 ls [demo_record] s /\ tree_map ls = {[str "k" := str "v"]}.
Proof.
  destruct demo_legacy_run as [_ Hhs].
  destruct (HotSwap_Get_run demo_cfg 1 0 _ _ demo_legacy (str "k") 2000 2000 Hhs
    demo_flat ltac:(discriminate) (fun d => eq_refl) ltac:(reflexivity) ltac:(reflexivity) ltac:(reflexivity)) as (s & ls & _ & Hhs' & Em);
    rewrite demo_legacy_value in *; [done|by intros v [= <-]|]. by exists s, ls.
Qed.

Lemma tombstone_fits_demo (s : BTreeKVStore MemDevice LRUEvictionPolicy) : (write_spec 1000 [demo_record] (tombstone s (str "k") demo_clock)).1 = true.
Proof. unfold write_spec. rewrite decide_True; [done|]. vm_compute. discriminate. Qed.

Lemma hotswap_delete_hides_legacy_witness :
  exists s s1 s2, HotSwap.Delete 1 demo_cfg (str "k") demo_clock s = (Ok tt, s1) /\
    HotSwap.Get 1 demo_cfg (str "k") 2000 2000 s1 = (Err (Msg "key not found"), s2).
Proof.
  destruct demo_promoted as (s & ls & Hhs & Em).
  destruct (hotswap_delete_hides_legacy demo_cfg 1 0 ls _ s (str "k") demo_clock 2000 2000 Hhs
    demo_flat ltac:(discriminate) (fun d => eq_refl)) as (s1 & s2 & E1 & E2).
  - unfold not_migrated. rewrite Em. reflexivity.
  - reflexivity.
  - rewrite Em. exists (str "v"). reflexivity.
  - reflexivity.
  - exact (tombstone_fits_demo s).
  - exists s, s1, s2. split; [exact E1 | exact E2].
Defined.
