(* ===== verification/HotSwapMigrate.v ===== *)
(** The migration of the legacy page into the tree: what it leaves in the tree,
    and that every read afterwards returns what it returned before. *)

From Stdlib Require Import Strings.Byte.
From S2P Require Import Common.
From S2P Require Import Prelude.
From S2P Require Import VFS.
From S2P Require Import LRU.
From S2P Require Import Page.
From S2P Require Import Slotted.
From S2P Require Import Telemetry.
From S2P Require Import BufferPool.
From S2P Require Import PoolInv.
From S2P Require Import PoolOps.
From S2P Require Import PoolPins.
From S2P Require Import WAL.
From S2P Require Import DBPage.
From S2P Require Import DB.
From S2P Require Import DBSpec.
From S2P Require Import BTreePage.
From S2P Require Import BTree.
From S2P Require Import BTreeSpec.
From S2P Require Import KVStore.
From S2P Require Import KVSpec.
From S2P Require Import KVPut.
From S2P Require Import KVProps.
From S2P Require Import HotSwap.
From S2P Require Import HotSwapSpec.

(** ** The copies as a map *)

(** A copied record; what the tree has wins. *)
Definition copy_one (m : gmap bytes bytes) (kv : bytes * bytes) : gmap bytes bytes :=
  match nonempty (m !! kv.1) with Some _ => m | None => <[kv.1 := kv.2]> m end.

Definition copied_map (l : list (bytes * bytes)) (m : gmap bytes bytes) : gmap bytes bytes := fold_left copy_one l m.

Lemma copied_lookup l m k :
  NoDup l.*1 -> Forall (fun kv => kv.2 <> []) l ->
  nonempty (copied_map l m !! k) =
  match nonempty (m !! k) with Some v => Some v | None => (list_to_map l : gmap bytes bytes) !! k end.
Proof.
  intros Hnd Hne. revert m Hnd. induction Hne as [|[k' v'] l Hv _ IH]; intros m Hnd; cbn [copied_map fold_left].
  { change (list_to_map [] : gmap bytes bytes) with (∅ : gmap bytes bytes). rewrite lookup_empty. by destruct (nonempty _). }
  cbn in Hnd. apply NoDup_cons in Hnd as [Hk' Hnd]. change (fold_left copy_one l (copy_one m (k', v'))) with (copied_map l (copy_one m (k', v'))).
  rewrite IH by done. cbn [list_to_map foldr]. unfold copy_one. cbn [fst snd]. cbn in Hv.
  change (foldr _ ∅ l) with (list_to_map l : gmap bytes bytes). cbn [uncurry].
  destruct (decide (k' = k)) as [->|Hne].
  - rewrite lookup_insert_eq. destruct (nonempty (m !! k)) as [v|] eqn:E; [by rewrite E|]. rewrite lookup_insert_eq. by destruct v'.
  - rewrite (lookup_insert_ne (list_to_map l)) by done. destruct (nonempty (m !! k')); [done|]. by rewrite lookup_insert_ne.
Qed.

Lemma map_bytes_new (m : gmap bytes bytes) k v : m !! k = None -> map_bytes (<[k := v]> m) = 4 + zlen k + zlen v + map_bytes m.
Proof.
  intros Hk. unfold map_bytes. rewrite (encs_perm _ ((k, v) :: map_to_list m)) by by apply map_to_list_insert.
  unfold encs. cbn [fmap list_fmap concat]. rewrite zlen_app. cbn [enc leaf_format_spec]. rewrite zlen_leaf_enc. cbn [fst snd]. lia.
Qed.

Lemma copy_one_bytes m kv : map_bytes m <= map_bytes (copy_one m kv).
Proof.
  destruct kv as [k v]. unfold copy_one. cbn [fst snd]. destruct (nonempty (m !! k)) eqn:E; [done|].
  rewrite <- insert_delete_eq, map_bytes_new by apply lookup_delete_eq.
  destruct (m !! k) as [x|] eqn:Ek.
  - rewrite <- (insert_delete_id m k x) at 1 by done. rewrite map_bytes_new by apply lookup_delete_eq.
    destruct x; [|done]. unfold zlen. cbn. lia.
  - rewrite delete_id by done. unfold zlen. lia.
Qed.

Lemma copied_bytes l m : map_bytes m <= map_bytes (copied_map l m).
Proof.
  revert m. induction l as [|kv l IH]; intros m; cbn [copied_map fold_left]; [done|].
  etransitivity; [apply copy_one_bytes|apply IH].
Qed.

(** ** The loop *)

Section Migrate.
Context {D : Type} `{DS : BlockDeviceSpec D} `{RD : !ReliableDevice D} `{MR : MapRange}.
Context (cfg : HotSwap.HotSwapConfig).
Implicit Types s : BTreeKVStore D LRUEvictionPolicy.
Abbreviation lpage := (HotSwap.LegacyPage cfg).

Lemma copy_loop_run fuel h l cs n ls rs s :
  hs_rep cfg h ls rs s -> flat fuel h -> lpage <> 0 -> (forall d : D, (Sync d).1 = None) ->
  Forall (fun kv => zlen kv.1 < 2 ^ 30) l ->
  BTreeHeaderSize + map_bytes (copied_map l (tree_map ls)) < PageSize ->
  exists n' s' ls' rs', HotSwap.copy_loop fuel cfg l cs n s = (Ok (n', None), s') /\ hs_rep cfg h ls' rs' s' /\
    tree_map ls' = copied_map l (tree_map ls).
Proof.
  intros Hhs Hh Hne Hsync Hlen. revert cs n ls rs s Hhs. induction Hlen as [|[k v] l Hk _ IH]; intros cs n ls rs s Hhs Hsmall;
    cbn [HotSwap.copy_loop]; [by exists n, s, ls, rs|].
  change (copied_map ((k, v) :: l) (tree_map ls)) with (copied_map l (copy_one (tree_map ls) (k, v))) in *.
  destruct (hs_get cfg fuel h ls rs s k Hhs Hh) as (s1 & E1 & Hhs1 & _). rewrite (bind_ok _ _ _ _ _ E1).
  destruct (nonempty (tree_map ls !! k)) as [v0|] eqn:Eo.
  - assert (copy_one (tree_map ls) (k, v) = tree_map ls) as Ec by (unfold copy_one; cbn [fst snd]; by rewrite Eo). rewrite Ec in *.
    destruct (expireLegacyKey_run cfg h ls rs s1 k (cs 0%nat) Hhs1 Hne Hk) as (s2 & E2 & Hhs2 & _).
    destruct (IH (fun i => cs (S i)) n ls _ s2 Hhs2 Hsmall) as (n' & s3 & ls3 & rs3 & E3 & Hhs3 & Em).
    exists n', s3, ls3, rs3. split; [|done]. destruct (tree_map ls !! k) as [[|b x]|]; cbn in Eo; [done| |done].
    by rewrite (bind_ok _ _ _ _ _ E2).
  - assert (copy_one (tree_map ls) (k, v) = <[k := v]> (tree_map ls)) as Ec by (unfold copy_one; cbn [fst snd]; by rewrite Eo).
    assert (BTreeHeaderSize + map_bytes (<[k := v]> (tree_map ls)) < PageSize) as Hs1.
    { rewrite <- Ec. pose proof (copied_bytes l (copy_one (tree_map ls) (k, v))). lia. }
    destruct (small_room h ls s1 k v (hs_tree _ _ _ _ _ Hhs1) Hs1) as [Hkv Hroom].
    destruct (Put_ok_run fuel h ls s1 k v (hs_tree _ _ _ _ _ Hhs1) (flat_descends _ _ _ Hh) Hsync Hkv Hroom) as (s2 & ls2 & E2 & Hrep2 & Em2 & Hfr2).
    pose proof (hs_frame cfg h ls ls2 rs s1 s2 Hhs1 Hrep2 Hfr2) as Hhs2.
    destruct (expireLegacyKey_run cfg h ls2 rs s2 k (cs 0%nat) Hhs2 Hne Hk) as (s3 & E3 & Hhs3 & _).
    destruct (IH (fun i => cs (S i)) (n + 1) ls2 _ s3 Hhs3 ltac:(by rewrite Em2, <- Ec)) as (n' & s4 & ls4 & rs4 & E4 & Hhs4 & Em).
    exists n', s4, ls4, rs4. split; [|split; [done|by rewrite Em, Em2, Ec]].
    assert (try (KVStore.Put fuel k v) s1 = (Ok (inr tt), s2)) as E2' by (unfold try; by rewrite E2).
    destruct (tree_map ls !! k) as [[|b x]|]; cbn in Eo; [|done|]; by rewrite (bind_ok _ _ _ _ _ E2'), (bind_ok _ _ _ _ _ E3).
Qed.

(** ** The records to copy *)

Definition pending_of (l : list (bytes * (Z * Z * bytes))) : list (bytes * bytes) :=
  filter (fun kv => kv.2 <> [] /\ HotSwap.unmatched cfg kv.1 = false) ((fun x => (x.1, x.2.2)) <$> l).

Lemma iterate_pending l acc : iterate (HotSwap.pending_entry cfg) l acc = acc ++ pending_of l.
Proof.
  unfold pending_of. revert acc. induction l as [|[k [ts v]] l IH]; intros acc; cbn [iterate]; [by rewrite app_nil_r|].
  unfold HotSwap.pending_entry at 1. cbn iota. rewrite IH, fmap_cons, filter_cons. cbn [fst snd].
  case_bool_decide as Hv; [by rewrite decide_False by tauto|]. destruct (HotSwap.unmatched cfg k) eqn:Hu; cbn [orb].
  - by rewrite decide_False by (intros [_ ?]; congruence).
  - rewrite decide_True by done. by rewrite <- app_assoc.
Qed.

(** The legacy records a scan finds. *)
Definition legacy_rows (now : Z) (active : gset Z) (t : Z) (rs : list record) : list (bytes * bytes) :=
  pending_of (range (fold_records (scan_body now active t []) 0 rs ∅)).

Lemma legacy_rows_in now active t rs k v :
  (k, v) ∈ legacy_rows now active t rs <->
  HotSwap.unmatched cfg k = false /\ nonempty (read_spec now active t k rs) = Some v.
Proof.
  unfold legacy_rows, pending_of. rewrite list_elem_of_filter, list_elem_of_fmap. cbn [fst snd].
  pose proof (scan_map_spec now active t [] rs k) as Hm. cbn [has_prefix] in Hm. split.
  - intros ((Hv & Hu) & [k' [ts v']] & [= -> ->] & Hin%elem_of_range). rewrite Hin in Hm. cbn in Hm. rewrite <- Hm. split; [done|].
    by destruct v'.
  - intros [Hu Hv]. apply nonempty_some in Hv as Hne. destruct (read_spec now active t k rs) as [x|] eqn:E; [|done].
    assert (x = v) as -> by (destruct x; cbn in Hv; by simplify_eq). split; [done|].
    destruct (fold_records _ 0 rs ∅ !! k) as [[ts x]|] eqn:El; [|done]. cbn in Hm. injection Hm as ->.
    exists (k, (ts, v)). split; [done|]. by apply elem_of_range.
Qed.

Lemma legacy_rows_NoDup now active t rs : NoDup (legacy_rows now active t rs).*1.
Proof.
  unfold legacy_rows, pending_of. eapply sublist_NoDup; [|apply fmap_sublist, sublist_filter].
  rewrite <- list_fmap_compose, (list_fmap_ext _ fst) by done. rewrite range_perm. apply NoDup_fst_map_to_list.
Qed.

Lemma legacy_rows_lookup now active t rs k :
  (list_to_map (legacy_rows now active t rs) : gmap bytes bytes) !! k =
  if HotSwap.unmatched cfg k then None else nonempty (read_spec now active t k rs).
Proof.
  apply option_eq. intros v. rewrite <- elem_of_list_to_map by apply legacy_rows_NoDup. rewrite legacy_rows_in.
  destruct (HotSwap.unmatched cfg k); naive_solver.
Qed.

Lemma total_elem (rs : list record) r : r ∈ rs -> record_size r <= total rs.
Proof.
  induction rs as [|x rs IH]; [by intros ?%elem_of_nil|]. intros [->|Hin]%elem_of_cons; cbn [total foldr];
    pose proof (total_nonneg rs); unfold total in *; [lia|]. pose proof (record_size_pos x). assert (0 < RecordHeaderSize) by done.
  specialize (IH Hin). lia.
Qed.

Lemma legacy_rows_short now active t d rs : page_holds d rs -> Forall (fun kv => zlen kv.1 < 2 ^ 30) (legacy_rows now active t rs).
Proof.
  intros Hd%holds_room. apply Forall_forall. intros [k v] [_ Hv]%legacy_rows_in. cbn [fst].
  destruct (read_spec now active t k rs) as [x|] eqn:E; [|done]. apply read_spec_key in E as (r & Hin & <-).
  apply total_elem in Hin. unfold record_size in Hin. assert (PageSize < 2 ^ 30) by done. assert (0 < PageHeaderSize) by done.
  assert (0 < RecordHeaderSize) by done. unfold zlen in *. lia.
Qed.

Lemma hs_scan_all h ls rs s t now :
  hs_rep cfg h ls rs s ->
  exists s', try (with_db (fun db => DB.Scan db lpage t [] now (HotSwap.pending_entry cfg) [])) s =
      (Ok (inr (legacy_rows now (activeTxns (kdb s)) t rs)), s') /\ hs_rep cfg h ls rs s'.
Proof.
  intros Hhs. destruct (hs_latched_read cfg h ls rs s (fun d => scan_page now (activeTxns (kdb s)) t [] d (HotSwap.pending_entry cfg) [])
    (Ok (legacy_rows now (activeTxns (kdb s)) t rs)) Hhs) as (pool & E & Hhs').
  { intros d Hd. unfold scan_page. rewrite (for_slots_holds d rs) by done. cbn [mbind result_bind]. by rewrite iterate_pending. }
  exists (with_pool_of pool s). split; [|done]. unfold try, with_db, DB.Scan. by rewrite E.
Qed.

Lemma hs_compact h ls rs s nowC dtC :
  hs_rep cfg h ls rs s ->
  exists s', ignore (with_db (fun db => CompactSlottedPage db lpage nowC dtC)) s = (Ok tt, s') /\
    hs_rep cfg h ls (compacted nowC rs) s'.
Proof.
  intros Hhs. destruct (hs_latched_write cfg h ls rs (compacted nowC rs) s (fun _ => lpage)
    (fun d m => '(d, m) ← compactPage nowC dtC d m; Ok (tt, d, m)) tt Hhs ltac:(done)) as (db' & E & _ & Hhs').
  { intros d m Hd. destruct (compactPage_spec nowC dtC d m rs Hd) as (d' & -> & Hr). do 2 eexists. split; [done|]. by left. }
  eexists. split; [|exact Hhs']. apply (ignore_ok _ _ tt). unfold with_db, CompactSlottedPage. by rewrite E.
Qed.

(** ** Reads after the migration *)

Lemma HotSwap_Get_done fuel h ls rs s k now now' :
  hs_rep cfg h ls rs s -> flat fuel h -> is_Some (tree_map ls !! HotSwap.markerKey cfg) ->
  exists s', HotSwap.Get fuel cfg k now now' s = (found (nonempty (tree_map ls !! k)), s') /\ hs_rep cfg h ls rs s'.
Proof.
  intros Hhs Hh Hmark. destruct (nonempty (tree_map ls !! k)) as [v|] eqn:Ev; [by apply HotSwap_Get_hot with (v := v)|].
  unfold HotSwap.Get. destruct (hs_get cfg fuel h ls rs s k Hhs Hh) as (s1 & E1 & Hhs1 & _). rewrite (bind_ok _ _ _ _ _ E1).
  destruct (hs_migrationDone cfg fuel h ls rs s1 Hhs1 Hh) as (s2 & E2 & Hhs2 & _).
  rewrite bool_decide_eq_true_2 in E2 by (by destruct Hmark as [? ->]). exists s2. split; [|done].
  destruct (tree_map ls !! k) as [[|b x]|]; cbn in Ev; [|done|]; by rewrite (bind_ok _ _ _ _ _ E2).
Qed.

(** What the store answers for a key before the migration: the tree's value, or
    else that of a matching legacy record. *)
Definition combined (now : Z) (ls : leaves) (rs : list record) s (k : bytes) : option bytes :=
  match nonempty (tree_map ls !! k) with
  | Some v => Some v
  | None => if HotSwap.unmatched cfg k then None else nonempty (legacy_value now s rs k)
  end.

Lemma combined_legacy now ls rs s k :
  nonempty (tree_map ls !! k) = None -> HotSwap.unmatched cfg k = false -> combined now ls rs s k = nonempty (legacy_value now s rs k).
Proof. unfold combined. by intros -> ->. Qed.

(** The legacy records the migration's transaction sees, and the map it leaves. *)
Definition to_copy (now : Z) (rs : list record) s : list (bytes * bytes) :=
  let t := u64 (nextTxnID (kdb s) + 1) in legacy_rows now ({[t]} ∪ activeTxns (kdb s)) t rs.

Definition migrated_map (now : Z) (ls : leaves) (rs : list record) s : gmap bytes bytes :=
  <[HotSwap.markerKey cfg := str "1"]> (copied_map (to_copy now rs s) (tree_map ls)).

Lemma migrated_lookup now ls rs s k :
  k <> HotSwap.markerKey cfg -> nonempty (migrated_map now ls rs s !! k) = combined now ls rs s k.
Proof.
  intros Hk. unfold migrated_map, combined. rewrite lookup_insert_ne by done.
  unfold to_copy. cbn zeta. rewrite copied_lookup; [by rewrite legacy_rows_lookup|apply legacy_rows_NoDup|].
  apply Forall_forall. intros [k' v'] [_ Hv]%legacy_rows_in. by apply nonempty_some in Hv.
Qed.

Lemma MigrateLegacy_run fuel h ls rs s now nowC dtC cs :
  hs_rep cfg h ls rs s -> flat fuel h -> lpage <> 0 -> (forall d : D, (Sync d).1 = None) -> not_migrated cfg ls ->
  BTreeHeaderSize + map_bytes (copied_map (to_copy now rs s) (tree_map ls)) < PageSize ->
  BTreeHeaderSize + map_bytes (migrated_map now ls rs s) < PageSize ->
  exists n s' ls' rs', HotSwap.MigrateLegacy fuel cfg now nowC dtC cs s = (Ok (n, None), s') /\ hs_rep cfg h ls' rs' s' /\
    on_device h ls' s' /\ tree_map ls' = migrated_map now ls rs s.
Proof.
  intros Hhs Hh Hne Hsync Hmig Hs1 Hs2. unfold HotSwap.MigrateLegacy.
  destruct (hs_migrationDone cfg fuel h ls rs s Hhs Hh) as (s1 & E1 & Hhs1 & [Ha1 Hn1] & _).
  rewrite Hmig, bool_decide_eq_false_2 in E1 by tauto. rewrite (bind_ok _ _ _ _ _ E1), (proj2 (Z.eqb_neq _ _) Hne). cbn [orb].
  destruct (hs_begin cfg h ls rs s1 Hhs1) as (s2 & E2 & Hhs2 & Ea2 & _). rewrite (bind_ok _ _ _ _ _ E2). rewrite Hn1, Ha1 in *.
  set (t := u64 (nextTxnID (kdb s) + 1)) in *.
  destruct (hs_scan_all h ls rs s2 t now Hhs2) as (s3 & E3 & Hhs3). rewrite (bind_ok _ _ _ _ _ E3), Ea2. fold (to_copy now rs s).
  destruct (hs_commit cfg h ls rs s3 t Hhs3) as (s4 & E4 & Hhs4 & _). rewrite (bind_ok _ _ _ _ _ E4). cbn zeta.
  destruct (copy_loop_run fuel h (to_copy now rs s) cs 0 ls rs s4 Hhs4 Hh Hne Hsync) as (n & s5 & ls5 & rs5 & E5 & Hhs5 & Em5);
    [eapply legacy_rows_short, Hhs|done|]. rewrite (bind_ok _ _ _ _ _ E5). cbv beta iota.
  destruct (hs_compact h ls5 rs5 s5 nowC dtC Hhs5) as (s6 & E6 & Hhs6). rewrite (bind_ok _ _ _ _ _ E6).
  destruct (small_room h ls5 s6 (HotSwap.markerKey cfg) (str "1") (hs_tree _ _ _ _ _ Hhs6)) as [Hkv Hroom]; [by rewrite Em5|].
  destruct (Put_ok_run fuel h ls5 s6 _ _ (hs_tree _ _ _ _ _ Hhs6) (flat_descends _ _ _ Hh) Hsync Hkv Hroom) as (s7 & ls7 & E7 & Hrep7 & Em7 & Hfr7).
  assert (try (KVStore.Put fuel (HotSwap.markerKey cfg) (str "1")) s6 = (Ok (inr tt), s7)) as E7' by (unfold try; by rewrite E7).
  rewrite (bind_ok _ _ _ _ _ E7'). pose proof (hs_frame cfg h ls5 ls7 _ s6 s7 Hhs6 Hrep7 Hfr7) as Hhs7.
  destruct (Flush_run h ls7 s7 Hrep7) as (r & s8 & E8 & _ & Hrep8 & Hfr8 & Hdev).
  destruct (Flush_reliable s7 (kr_inv _ _ _ Hrep7) Hsync) as (s8' & E8'). rewrite E8 in E8'. injection E8' as -> ->.
  assert (try KVStore.Flush s7 = (Ok (inr tt), s8')) as E8' by (unfold try; by rewrite E8).
  rewrite (bind_ok _ _ _ _ _ E8'). exists n, s8', ls7, (compacted nowC rs5). split; [done|].
  split; [exact (hs_frame cfg h ls7 ls7 _ s7 s8' Hhs7 Hrep8 (Hfr8 ls7))|]. split; [by apply Hdev|]. by rewrite Em7, Em5.
Qed.

(** C9: The migration of a legacy page into a tree of one leaf, when the copies
    and the marker fit: it ends without an error; the tree it leaves, which is also on
    the device, holds exactly the entries it had, the copies of the matching legacy
    records whose key had no value, and the marker.  From then on, in every state in
    which the store has that tree - whatever became of the legacy page, and however
    often it was read or compacted - a read of any key other than the marker, at any
    time, returns what the two stores together held when the migration scanned the
    page (the tree's value where it has one, and else the value of a matching legacy
    record), and the store is again in such a state; so is it after a compaction of
    the legacy page. *)
Theorem hotswap_migration_keeps_reads fuel h ls rs s now nowC dtC cs :
  hs_rep cfg h ls rs s -> flat fuel h -> lpage <> 0 -> (forall d : D, (Sync d).1 = None) -> not_migrated cfg ls ->
  BTreeHeaderSize + map_bytes (copied_map (to_copy now rs s) (tree_map ls)) < PageSize ->
  BTreeHeaderSize + map_bytes (migrated_map now ls rs s) < PageSize ->
  exists n s' ls' rs', HotSwap.MigrateLegacy fuel cfg now nowC dtC cs s = (Ok (n, None), s') /\ hs_rep cfg h ls' rs' s' /\
    on_device h ls' s' /\ tree_map ls' = migrated_map now ls rs s /\
    forall rs2 s2, hs_rep cfg h ls' rs2 s2 ->
      (forall k, k <> HotSwap.markerKey cfg -> forall later later', exists s3,
        HotSwap.Get fuel cfg k later later' s2 = (found (combined now ls rs s k), s3) /\ hs_rep cfg h ls' rs2 s3) /\
      (forall later dt, exists s3, ignore (with_db (fun db => CompactSlottedPage db lpage later dt)) s2 = (Ok tt, s3) /\
        hs_rep cfg h ls' (compacted later rs2) s3).
Proof.
  intros Hhs Hh Hne Hsync Hmig Hs1 Hs2.
  destruct (MigrateLegacy_run fuel h ls rs s now nowC dtC cs Hhs Hh Hne Hsync Hmig Hs1 Hs2) as (n & s' & ls' & rs' & E & Hhs' & Hdev & Em).
  exists n, s', ls', rs'. do 4 (split; [done|]). intros rs2 s2 Hhs2. split; [|intros; by apply hs_compact]. intros k Hk later later'.
  destruct (HotSwap_Get_done fuel h ls' rs2 s2 k later later' Hhs2 Hh) as (s3 & Eg & Hhs3).
  { rewrite Em. unfold migrated_map. rewrite lookup_insert_eq. by eexists. }
  rewrite Em, migrated_lookup in Eg by done. by exists s3.
Qed.
End Migrate.

#[local] Existing Instance canonical_range.

Lemma demo_to_copy : to_copy demo_cfg 2000 [demo_record] demo_legacy = [(str "k", str "v")].
Proof.
  unfold to_copy. destruct (proj1 demo_legacy_run) as [-> ->]. vm_compute. reflexivity.
Qed.

Lemma hotswap_migration_keeps_reads_witness :
  exists n s' s2 s3 s4, HotSwap.MigrateLegacy 1 demo_cfg 2000 3000 0 (fun _ => demo_clock) demo_legacy = (Ok (n, None), s') /\
    HotSwap.Get 1 demo_cfg (str "k") (2 ^ 63) (2 ^ 63) s' = (Ok (str "v"), s2) /\
    ignore (with_db (fun db => CompactSlottedPage db 5 4000 0)) s2 = (Ok tt, s3) /\
    HotSwap.Get 1 demo_cfg (str "k") 5000 5000 s3 = (Ok (str "v"), s4).
Proof.
  destruct (hotswap_migration_keeps_reads demo_cfg 1 0 _ _ demo_legacy 2000 3000 0 (fun _ => demo_clock) (proj2 demo_legacy_run)
    demo_flat ltac:(discriminate) (fun d => eq_refl) ltac:(reflexivity)) as (n & s' & ls' & rs' & E & Hhs & _ & _ & Hg).
  - rewrite demo_to_copy. reflexivity.
  - unfold migrated_map. rewrite demo_to_copy. reflexivity.
  - assert (combined demo_cfg 2000 [(1002, [])] [demo_record] demo_legacy (str "k") = Some (str "v")) as Ec.
    { rewrite (combined_legacy demo_cfg 2000 [(1002, [])] [demo_record] demo_legacy (str "k") eq_refl eq_refl). exact demo_legacy_value. }
    rewrite <- (f_equal found Ec : _ = Ok (str "v")).
    destruct (proj1 (Hg rs' s' Hhs) (str "k") ltac:(discriminate) (2 ^ 63) (2 ^ 63)) as (s2 & E2 & Hhs2).
    destruct (proj2 (Hg rs' s2 Hhs2) 4000 0) as (s3 & E3 & Hhs3).
    destruct (proj1 (Hg _ s3 Hhs3) (str "k") ltac:(discriminate) 5000 5000) as (s4 & E4 & _).
    exists n, s', s2, s3, s4. split; [exact E|]. split; [exact E2|]. split; [exact E3 | exact E4].
Defined.
