(* ===== verification/InterfaceLocks.v ===== *)
(** The contract of the [LockManager] interface - what [Acquire] grants, that an
    exclusive lock has one holder, that releases let go - kept by the two-phase
    manager, and a transaction that takes its locks through it; and the counters
    behind [EngineMetrics]. *)

From Stdlib Require Import Strings.String.
From S2P Require Import Common.
From S2P Require Import Prelude.
From S2P Require Import Telemetry.
From S2P Require Import LockManager.
From S2P Require Import Interfaces.

Import Iface.

Record LockManagerSpec {L} (M : LockManager L) := mkLockSpec {
  lock_ok : L -> Prop;
  has_lock : L -> string -> Z -> Prop;
  exclusively : L -> string -> Prop;
  law_acquire : forall s t k m b s', lock_ok s -> lm_Acquire M t k m s = (b, s') ->
    lock_ok s' /\ (b = true -> has_lock s' k t /\ (m = LockExclusive -> exclusively s' k)) /\
    (forall k', has_lock s k' t -> has_lock s' k' t);
  law_exclusive : forall s k t1 t2, lock_ok s -> exclusively s k -> has_lock s k t1 -> has_lock s k t2 -> t1 = t2;
  law_release : forall s t k, lock_ok s -> lock_ok (lm_Release M t k s) /\ ~ has_lock (lm_Release M t k s) k t;
  law_release_all : forall s t, lock_ok s -> lock_ok (lm_ReleaseAll M t s) /\ forall k, ~ has_lock (lm_ReleaseAll M t s) k t
}.
Arguments lock_ok {_ _}.
Arguments has_lock {_ _}.
Arguments exclusively {_ _}.

(** ** The two-phase manager *)

Definition held_exclusively (s : LockState) (k : string) : Prop := exists lk, locks s !! k = Some lk /\ mode lk = LockExclusive.

Lemma acquire_round_grants t k m lk s s' :
  locks s !! k = Some lk -> acquire_round t k m lk s = (true, s') -> holds s' k t /\ (m = LockExclusive -> held_exclusively s' k).
Proof.
  intros Hk. unfold acquire_round. destruct (bool_decide (mode lk = LockExclusive) || _) eqn:E; cbn [negb]; [done|].
  intros [= <-]. split; [|intros ->; by rewrite orb_true_r in E]. eexists. cbn. rewrite lookup_insert_eq. split; [done|]. cbn. set_solver.
Qed.

Lemma Acquire_grants t k m s s' :
  Acquire t k m s = (true, s') -> holds s' k t /\ (m = LockExclusive -> held_exclusively s' k).
Proof.
  unfold Acquire. destruct (locks s !! k) as [lk|] eqn:Hk.
  2:{ intros [= <-]. split; [|intros ->]; eexists; cbn; rewrite lookup_insert_eq; (split; [done|]); cbn; [set_solver|done]. }
  case_bool_decide as Hin; [|by apply acquire_round_grants].
  destruct (_ || _) eqn:E.
  { intros [= <-]. split; [by exists lk|]. intros ->. exists lk. split; [done|]. 
    by apply orb_true_iff in E as [E%bool_decide_eq_true|E%bool_decide_eq_true]. }
  clear E. destruct (bool_decide (size (holders lk) = 1%nat)); [|by apply acquire_round_grants].
  intros [= <-]. split; [|intros ->]; eexists; cbn; rewrite lookup_insert_eq; (split; [done|]); cbn; done.
Qed.

Lemma acquire_round_keeps t k m lk s b s' k' t' :
  locks s !! k = Some lk -> acquire_round t k m lk s = (b, s') -> holds s k' t' -> holds s' k' t'.
Proof.
  intros Hk E (lk' & Hl & Hin). unfold acquire_round in E. destruct (negb _); injection E as <- <-; unfold holds; cbn.
  all: destruct (decide (k' = k)) as [->|Hne]; [|rewrite lookup_insert_ne by done; by exists lk'].
  all: rewrite lookup_insert_eq; eexists; split; [done|]; cbn; simplify_eq; set_solver.
Qed.

Lemma Acquire_keeps t k m s b s' k' t' : Acquire t k m s = (b, s') -> holds s k' t' -> holds s' k' t'.
Proof.
  unfold Acquire. destruct (locks s !! k) as [lk|] eqn:Hk.
  2:{ intros [= <- <-] (lk' & Hl & Hin). exists lk'. cbn. rewrite lookup_insert_ne by congruence. done. }
  case_bool_decide; [|by apply acquire_round_keeps].
  destruct (_ || _); [by intros [= <- <-]|]. destruct (bool_decide (size (holders lk) = 1%nat)); [|by apply acquire_round_keeps].
  intros [= <- <-] (lk' & Hl & Hin). unfold holds. cbn. destruct (decide (k' = k)) as [->|Hne].
  - rewrite lookup_insert_eq. eexists. split; [done|]. cbn. by simplify_eq.
  - rewrite lookup_insert_ne by done. by exists lk'.
Qed.

Lemma Release_drops s t k : lock_inv s -> ~ holds (Release t k s) k t.
Proof.
  intros [Hc Ht]. unfold Release. destruct (locks s !! k) as [lk|] eqn:Hk; [|by intros (lk & E & _); rewrite Hk in E].
  destruct (forget_key_fields t k s) as (E1 & E2 & E3 & E4 & _). pose proof (core_fields _ _ E1 E2 E3 E4 Hc) as Hc'.
  rewrite (drop_holder_holds t k lk _ k t) by (by rewrite ?E1). naive_solver.
Qed.

Definition TwoPL_spec `{MapRange} : LockManagerSpec TwoPLLockManager.
Proof.
  refine (mkLockSpec _ TwoPLLockManager lock_inv holds held_exclusively _ _ _ _); cbn [TwoPLLockManager lm_Acquire lm_Release lm_ReleaseAll].
  - intros s t k m b s' Hinv E. split; [by eapply Acquire_inv|]. split; [intros ->; by apply (Acquire_grants t k m s)|].
    intros k'. by apply (Acquire_keeps t k m s b).
  - intros s k t1 t2 [Hc _] (lk & Hk & Hm) (lk1 & H1 & Hin1) (lk2 & H2 & Hin2). rewrite Hk in H1, H2. injection H1 as <-. injection H2 as <-.
    by apply (li_exclusive _ Hc k lk).
  - intros s t k Hinv. split; [by apply Release_inv|by apply Release_drops].
  - intros s t Hinv. by apply ReleaseAll_inv.
Defined.

(** ** A transaction behind the interface *)

Section Session.
Context {L : Type} (M : LockManager L) (A : LockManagerSpec M).

(** Take the locks in turn, until one has to be waited for. *)
Fixpoint acquire_all (t : Z) (ks : list (string * LockMode)) (s : L) : bool * L :=
  match ks with
  | [] => (true, s)
  | (k, m) :: ks => let '(b, s) := lm_Acquire M t k m s in if b then acquire_all t ks s else (false, s)
  end.

Lemma acquire_all_grants t ks s b s' :
  lock_ok A s -> acquire_all t ks s = (b, s') ->
  lock_ok A s' /\ (forall k, has_lock A s k t -> has_lock A s' k t) /\ (b = true -> forall k m, (k, m) ∈ ks -> has_lock A s' k t).
Proof.
  revert s. induction ks as [|[k m] ks IH]; intros s Hok; cbn [acquire_all].
  { intros [= <- <-]. split; [done|]. split; [done|]. intros _ k m Hin. by apply elem_of_nil in Hin. }
  destruct (lm_Acquire M t k m s) as [b1 s1] eqn:E. destruct (law_acquire M A s t k m b1 s1 Hok E) as (Hok1 & Hg & Hk).
  destruct b1; [|intros [= <- <-]; split; [done|]; split; [done|done]].
  intros E2. destruct (IH s1 Hok1 E2) as (Hok2 & Hk2 & Hg2). split; [done|]. split; [naive_solver|].
  intros -> k' m' [[= -> ->]|Hin]%elem_of_cons; [by apply Hk2, Hg|by apply (Hg2 eq_refl k' m')].
Qed.

(** All its locks are granted before the first is given back, and at the end it
    has none. *)
Lemma session_two_phase t ks s s' :
  lock_ok A s -> acquire_all t ks s = (true, s') ->
  (forall k m, (k, m) ∈ ks -> has_lock A s' k t) /\ forall k, ~ has_lock A (lm_ReleaseAll M t s') k t.
Proof.
  intros Hok E. destruct (acquire_all_grants t ks s true s' Hok E) as (Hok' & _ & Hg). split; [by apply Hg|].
  by apply (law_release_all M A).
Qed.
End Session.

(** ** Metrics *)

Section Metrics.
Context {Mt : Type} (E : EngineMetrics Mt).

(** The events a component reports. *)
Inductive metric_event :=
| EvHit
| EvMiss
| EvWalFlush (d : Z)
| EvCompaction (d : Z)
| EvActive (n : Z).

Definition report (e : metric_event) : Mt -> Mt :=
  match e with
  | EvHit => em_IncrBufferPoolHit E
  | EvMiss => em_IncrBufferPoolMiss E
  | EvWalFlush d => em_RecordWalFlushLatency E d
  | EvCompaction d => em_RecordPageCompactionTime E d
  | EvActive n => em_SetActiveTransactions E n
  end.
End Metrics.

Definition is_hit (e : metric_event) : bool := match e with EvHit => true | _ => false end.
Definition is_miss (e : metric_event) : bool := match e with EvMiss => true | _ => false end.

(** The counters count, modulo their width, whatever is reported in between. *)
Lemma atomic_metrics_count es m :
  bufferPoolHits (fold_left (fun m e => report atomic_metrics e m) es m) mod 2 ^ 64 =
    (bufferPoolHits m + zlen (filter (fun e => is_hit e = true) es)) mod 2 ^ 64 /\
  bufferPoolMisses (fold_left (fun m e => report atomic_metrics e m) es m) mod 2 ^ 64 =
    (bufferPoolMisses m + zlen (filter (fun e => is_miss e = true) es)) mod 2 ^ 64.
Proof.
  revert m. induction es as [|e es IH]; intros m; [by rewrite !Z.add_0_r|]. cbn [fold_left]. destruct (IH (report atomic_metrics e m)) as [-> ->].
  assert (forall a b, (u64 (a + 1) + b) mod 2 ^ 64 = (a + (1 + b)) mod 2 ^ 64) as Hstep.
  { intros a b. unfold u64. rewrite Z.add_mod_idemp_l by done. f_equal. lia. }
  assert (forall l : list metric_event, zlen (e :: l) = 1 + zlen l) as Hlen by (intros l; unfold zlen; cbn [length]; lia).
  destruct e; rewrite !filter_cons; cbn [is_hit is_miss];
    repeat case_decide; try done; rewrite ?Hlen;
    cbn [report atomic_metrics em_IncrBufferPoolHit em_IncrBufferPoolMiss em_RecordWalFlushLatency em_RecordPageCompactionTime
      em_SetActiveTransactions bufferPoolHits bufferPoolMisses IncrBufferPoolHit IncrBufferPoolMiss RecordWalFlushLatency
      RecordPageCompactionTime SetActiveTransactions]; rewrite ?Hstep; done.
Qed.
