(* ===== verification/InterfaceSpec.v ===== *)
(** What the [KVStore] interface promises its clients - a finite map with ordered
    listings - and that the B-tree store and the replicating store keep it. *)

From Stdlib Require Import Strings.Byte.
From stdpp Require Import sorting.
From S2P Require Import Common.
From S2P Require Import Prelude.
From S2P Require Import VFS.
From S2P Require Import LRU.
From S2P Require Import Page.
From S2P Require Import Telemetry.
From S2P Require Import BufferPool.
From S2P Require Import PoolInv.
From S2P Require Import PoolOps.
From S2P Require Import PoolPins.
From S2P Require Import WAL.
From S2P Require Import DBPage.
From S2P Require Import DB.
From S2P Require Import BTreePage.
From S2P Require Import BTreeNode.
From S2P Require Import BTree.
From S2P Require Import BTreeSpec.
From S2P Require Import BTreeLocked.
From S2P Require Import BTreeWalk.
From S2P Require Import BTreeJoin.
From S2P Require Import Segment.
From S2P Require Import Utf8.
From S2P Require Import KVRecover.
From S2P Require Import KVStore.
From S2P Require Import KVSpec.
From S2P Require Import KVPut.
From S2P Require Import KVProps.
From S2P Require Import KVIter.
From S2P Require Import KVReplica.
From S2P Require Import KVReplicaSpec.
From S2P Require Import HotSwap.
From S2P Require Import Interfaces.

(** ** Listings in key order *)

Definition sort_cells (l : list (bytes * bytes)) : list (bytes * bytes) := foldr (fun kv acc => place kv.1 kv.2 acc) [] l.

(** The entries of a map whose keys have the prefix. *)
Definition entries (p : bytes) (m : gmap bytes bytes) : list (bytes * bytes) := sort_cells (matching p (map_to_list m)).

Lemma sort_cells_perm l : sort_cells l ≡ₚ l.
Proof. induction l as [|[k v] l IH]; [done|]. cbn [sort_cells foldr fst snd]. rewrite place_perm. by constructor. Qed.

Lemma sort_cells_sorted l : NoDup l.*1 -> keys_sorted (sort_cells l).*1.
Proof.
  induction l as [|[k v] l IH]; [constructor|]. cbn [fmap list_fmap fst]. intros [Hk Hnd]%NoDup_cons.
  cbn [sort_cells foldr fst snd]. apply place_sorted; [|by apply IH]. by rewrite (sort_cells_perm l).
Qed.

(** There is one sorted list of the same cells. *)
Lemma sorted_unique (l1 l2 : list (bytes * bytes)) :
  keys_sorted l1.*1 -> keys_sorted l2.*1 -> l1 ≡ₚ l2 -> l1 = l2.
Proof.
  revert l2. induction l1 as [|x l1 IH]; intros [|y l2] H1 H2 Hp; [done|by apply Permutation_nil_l in Hp|by apply Permutation_nil_r in Hp|].
  cbn [fmap list_fmap] in H1, H2. apply StronglySorted_cons in H1 as [Hx H1], H2 as [Hy H2].
  rewrite Forall_forall in Hx, Hy. assert (x = y) as <-.
  { assert (x ∈ y :: l2) as [?|Hin]%elem_of_cons by (rewrite <- Hp; left); [done|].
    assert (y ∈ x :: l1) as [?|Hin']%elem_of_cons by (rewrite Hp; left); [done|].
    exfalso. apply (bytes_lt_irrefl x.1). transitivity y.1; [by apply Hx, list_elem_of_fmap_2|by apply Hy, list_elem_of_fmap_2]. }
  f_equal. apply IH; [done..|]. by apply Permutation_cons_inv in Hp.
Qed.

Lemma matching_sorted p l : keys_sorted l.*1 -> keys_sorted (matching p l).*1.
Proof.
  unfold matching. induction l as [|c l IH]; [done|]. cbn [fmap list_fmap]. intros [Hc Hl]%StronglySorted_cons.
  rewrite filter_cons. case_decide; [|by apply IH]. cbn [fmap list_fmap]. constructor; [by apply IH|].
  apply Forall_forall. intros k (c' & -> & [_ Hin]%list_elem_of_filter)%list_elem_of_fmap. rewrite Forall_forall in Hc.
  by apply Hc, list_elem_of_fmap_2.
Qed.

Lemma entries_sorted_cells p l : keys_sorted l.*1 -> entries p (leaf_map l) = matching p l.
Proof.
  intros Hs. pose proof (keys_sorted_NoDup _ Hs) as Hnd. unfold entries.
  assert (map_to_list (leaf_map l) ≡ₚ l) as Hp by by apply map_to_list_to_map.
  apply sorted_unique; [|by apply matching_sorted|].
  - apply sort_cells_sorted. eapply sublist_NoDup; [|apply fmap_sublist, sublist_filter]. apply NoDup_fst_map_to_list.
  - rewrite sort_cells_perm. unfold matching. by rewrite Hp.
Qed.

(** ** The contract *)

Import Iface.

Record KVStoreSpec {S T I} (K : KVStore S T I) := mkSpec {
  (** the store stands for the map, with no call under way *)
  stands_for : gmap bytes bytes -> S -> Prop;
  (** the keys the store leaves to its clients *)
  own : bytes -> Prop;
  (** the prefixes clients may list *)
  lists : bytes -> Prop;
  (** the clocks it is run with *)
  clock_ok : readings -> Prop;
  (** maps the store has room for *)
  room : gmap bytes bytes -> Prop;
  law_get : forall txn rd m s k, stands_for m s -> own k ->
    exists s', kv_Get K txn k rd s = (found (m !! k), s') /\ stands_for m s';
  law_put : forall txn ttl rd m s k v, stands_for m s -> clock_ok rd -> own k -> v <> [] -> room (<[k := v]> m) ->
    exists s', kv_Put K txn k v ttl rd s = (Ok tt, s') /\ stands_for (<[k := v]> m) s';
  law_delete : forall txn rd m s k, stands_for m s -> clock_ok rd -> own k ->
    exists s', kv_Delete K txn k rd s =
      (match m !! k with Some _ => Ok tt | None => Err (Msg "key not found") end, s') /\ stands_for (delete k m) s';
  law_list : forall rounds txn rd m s p, stands_for m s -> lists p ->
    (base.size m + 1 < rounds)%nat ->
    exists s', list_prefix K rounds txn p rd s = (Ok (entries p m), s') /\ stands_for m s';
  law_flush : forall m s, stands_for m s -> exists s', kv_Flush K s = (Ok tt, s') /\ stands_for m s'
}.
Arguments stands_for {_ _ _ _}.
Arguments own {_ _ _ _}.
Arguments lists {_ _ _ _}.
Arguments clock_ok {_ _ _ _}.
Arguments room {_ _ _ _}.

(** ** What clients see *)

(** The answer of the finite map to a call, and the map after it. *)
Definition map_call (c : kv_call) (m : gmap bytes bytes) : result (list (bytes * bytes)) * gmap bytes bytes :=
  match c with
  | CallGet k => (match m !! k with Some v => Ok [(k, v)] | None => Err (Msg "key not found") end, m)
  | CallPut k v _ => (Ok [], <[k := v]> m)
  | CallDelete k => (match m !! k with Some _ => Ok [] | None => Err (Msg "key not found") end, delete k m)
  | CallList p => (Ok (entries p m), m)
  | CallFlush => (Ok [], m)
  end.

Fixpoint map_calls (cs : list kv_call) (m : gmap bytes bytes) : list (result (list (bytes * bytes))) :=
  match cs with
  | [] => []
  | c :: cs => let '(r, m) := map_call c m in r :: map_calls cs m
  end.

Section Clients.
Context {S T I : Type} {K : KVStore S T I} (A : KVStoreSpec K).

(** A call a client may make in the state for [m]. *)
Definition admissible (rounds : nat) (m : gmap bytes bytes) (c : kv_call) : Prop :=
  match c with
  | CallGet k | CallDelete k => own A k
  | CallPut k v _ => own A k /\ v <> [] /\ room A (<[k := v]> m)
  | CallList p => lists A p /\ (base.size m + 1 < rounds)%nat
  | CallFlush => True
  end.

Fixpoint all_admissible (rounds : nat) (m : gmap bytes bytes) (cs : list kv_call) : Prop :=
  match cs with
  | [] => True
  | c :: cs => admissible rounds m c /\ all_admissible rounds (map_call c m).2 cs
  end.

Lemma call_refines rounds c now rd m s :
  stands_for A m s -> clock_ok A rd -> admissible rounds m c ->
  exists s', call K rounds c now rd s = ((map_call c m).1, s') /\ stands_for A (map_call c m).2 s'.
Proof.
  intros Hs Ht Hc. unfold call, mbind, io_bind, mret, io_ret. destruct c as [k|k v ttl|k|p|]; cbn [admissible map_call fst snd] in *.
  - destruct (law_get K A (kv_Begin K now s) rd m s k Hs Hc) as (s' & -> & Hs'). exists s'. by destruct (m !! k).
  - destruct Hc as (Ho & Hv & Hr). destruct (law_put K A (kv_Begin K now s) ttl rd m s k v Hs Ht Ho Hv Hr) as (s' & -> & Hs'). by exists s'.
  - destruct (law_delete K A (kv_Begin K now s) rd m s k Hs Ht Hc) as (s' & -> & Hs'). exists s'. by destruct (m !! k).
  - destruct Hc as [Ho Hr]. destruct (law_list K A rounds (kv_Begin K now s) rd m s p Hs Ho Hr) as (s' & -> & Hs'). by exists s'.
  - destruct (law_flush K A m s Hs) as (s' & -> & Hs'). by exists s'.
Qed.

(** The lookup the migration makes in a transaction of its own. *)
Lemma hotGetNoFallback_refines now k rd m s :
  stands_for A m s -> own A k -> exists s', hotGetNoFallback K now k rd s = (found (m !! k), s') /\ stands_for A m s'.
Proof.
  intros Hs Hk. unfold hotGetNoFallback. destruct (law_get K A (kv_Begin K now s) rd m s k Hs Hk) as (s' & -> & Hs'). by exists s'.
Qed.

(** A sequence of calls gets the answers of the map, whatever the clocks say. *)
Lemma calls_refine rounds cs now rd m s :
  stands_for A m s -> (forall i, clock_ok A (rd i)) -> all_admissible rounds m cs ->
  (calls K rounds cs now rd s).1 = map_calls cs m.
Proof.
  revert now rd m s. induction cs as [|c cs IH]; intros now rd m s Hs Ht Hc; [done|]. destruct Hc as [Hc Hcs].
  cbn [calls map_calls]. destruct (call_refines rounds c (now 0%nat) (rd 0%nat) m s Hs (Ht 0%nat) Hc) as (s' & -> & Hs').
  destruct (map_call c m) as [r m']. cbn [fst snd] in *.
  specialize (IH (fun i => now (Datatypes.S i)) (fun i => rd (Datatypes.S i)) m' s' Hs' (fun i => Ht (Datatypes.S i)) Hcs).
  destruct (calls K rounds cs _ _ s') as [rs s'']. cbn [fst] in *. by rewrite IH.
Qed.
End Clients.

(** ** The B-tree store *)

(** A map of one leaf that an iterator of these rounds reads to its end. *)
Definition fits_leaf (fuel : nat) (m : gmap bytes bytes) : Prop :=
  BTreeHeaderSize + map_bytes m < PageSize /\ (base.size m < fuel)%nat.

Lemma map_bytes_mono (m1 m2 : gmap bytes bytes) : m1 ⊆ m2 -> map_bytes m1 <= map_bytes m2.
Proof.
  intros [l Hl]%map_to_list_submseteq%submseteq_Permutation. unfold map_bytes. rewrite (encs_perm _ _ Hl), zlen_encs_app.
  pose proof (zlen_nonneg (encs leaf_format l)). lia.
Qed.

Lemma fits_leaf_mono (fuel : nat) (m1 m2 : gmap bytes bytes) : m1 ⊆ m2 -> fits_leaf fuel m2 -> fits_leaf fuel m1.
Proof.
  intros Hsub [H1 H2]. pose proof (map_bytes_mono m1 m2 Hsub). pose proof (map_subseteq_size m1 m2 Hsub). split; lia.
Qed.

Lemma fits_flat (fuel : nat) m : fits_leaf fuel m -> flat fuel 0.
Proof. intros [_ Hf]. split; [done|lia]. Qed.

Section BTree.
Context {D : Type} `{DS : BlockDeviceSpec D} `{RD : !ReliableDevice D} `{MR : MapRange}.
Context (Hsync : forall d : D, (Sync d).1 = None) (fuel : nat).
Implicit Types s : BTreeKVStore D LRUEvictionPolicy.

Lemma btree_read_all rounds rd s pool c p acc rest :
  (0 < length (frames (bp (kdb s))))%nat -> iterating s pool c rest -> keys_sorted rest.*1 ->
  (length rest < fuel)%nat -> (length rest < rounds)%nat ->
  exists c' pool' rest', read_all (btree_store fuel) rounds rd (mkIterator (Some c) p) acc (with_pool_of pool s) =
      (Ok (acc ++ matching p rest), mkIterator (Some c') p, with_pool_of pool' s) /\ iterating s pool' c' rest'.
Proof.
  intros Hroom. revert pool c acc rest. induction rounds as [|rounds IH]; intros pool c acc rest Hit Hs Hf Hr; [lia|].
  cbn [read_all btree_store kv_It btree_iterator it_Next]. unfold HotSwap.hot_next. cbn [cursor prefix].
  destruct (iterator_next_run fuel s pool c p rest Hroom Hit Hs Hf) as (r & c' & pool' & rest' & -> & Hit' & Hres).
  destruct r as [kv|e| |]; try done.
  - destruct Hres as (-> & Hs' & Hlen). destruct (IH pool' c' (acc ++ [kv]) rest' Hit' Hs') as (c2 & pool2 & rest2 & -> & Hit2); [lia..|].
    rewrite <- app_assoc. by exists c2, pool2, rest2.
  - rewrite (proj1 Hres), app_nil_r. by exists c', pool', rest'.
Qed.

(** An iterator is opened on the store. *)
Lemma NewIterator_run ls s p :
  kv_rep 0 ls s -> (0 < fuel)%nat ->
  exists c pool, KVStore.NewIterator fuel p s = (Ok (mkIterator (Some c) p), with_pool_of pool s) /\ iterating s pool c (cells_of ls).
Proof.
  intros Hrep Hf. pose proof Hrep as [Hinv Hidle Hfr (ids & Hsub & Hnd) Hch].
  destruct (NewBTreeCursor_run [] fuel 0 (bp (kdb s)) (kroot s) None None ls ids ∅) as (c & cur & pool & E & Hc & U & _ & Hn); try done.
  { destruct Hsub as (cs & _ & -> & _). by right. }
  { intros id. rewrite Hidle. lia. } { rewrite size_empty. lia. } { by left. }
  exists c, pool. split.
  - unfold KVStore.NewIterator, try, with_pool, with_db, mbind, io_bind, mret, io_ret. by rewrite E.
  - exists cur. split; [done|]. split; [|done]. eapply unchanged_pins; [exact U|]. intros id. cbn. rewrite Hidle. lia.
Qed.

(** It is closed wherever it stands. *)
Lemma iterator_Close_run s pool c p rest :
  iterating s pool c rest ->
  exists pool', iterator_Close (mkIterator (Some c) p) (with_pool_of pool s) = (Ok tt, with_pool_of pool' s) /\
    unchanged (bp (kdb s)) pool' (fun _ => 0) /\ dirty_count pool' <= dirty_count (bp (kdb s)).
Proof.
  intros (cur & Hc & U & Hn). destruct (Close_run pool c cur rest (un_inv _ _ _ U) Hc) as (c2 & pool2 & Ec & U2 & _ & Hn2).
  exists pool2. unfold iterator_Close. cbn [cursor with_pool_of kdb kroot bp set_bp]. rewrite Ec. split; [done|]. split; [|lia].
  eapply unchanged_pins; [exact (unchanged_trans _ _ _ _ _ U U2)|]. intros id. cbn. rewrite (un_pins _ _ _ U). lia.
Qed.

Lemma cells_count ls s : kv_rep 0 ls s -> length (cells_of ls) = base.size (tree_map ls) /\ keys_sorted (cells_of ls).*1.
Proof.
  intros [_ _ _ (ids & Hsub & _) _]. pose proof (subtree_sorted _ _ _ _ _ _ _ Hsub) as Hs. split; [|done].
  unfold tree_map, leaf_map. rewrite map_size_list_to_map; [done|]. by apply keys_sorted_NoDup.
Qed.

Lemma btree_list_run rounds txn rd ls s p :
  kv_rep 0 ls s -> (base.size (tree_map ls) < fuel)%nat -> (base.size (tree_map ls) < rounds)%nat ->
  exists s', list_prefix (btree_store fuel) rounds txn p rd s = (Ok (entries p (tree_map ls)), s') /\ kv_rep 0 ls s' /\ kv_frame ls s s'.
Proof.
  intros Hrep Hf Hr. destruct (cells_count ls s Hrep) as [Hlen Hs].
  destruct (NewIterator_run ls s p Hrep ltac:(lia)) as (c & pool & E & Hit).
  unfold list_prefix. cbn [kv_NewIterator btree_store]. rewrite E.
  destruct (btree_read_all rounds rd s pool c p [] (cells_of ls)) as (c' & pool' & rest' & Er & Hit'); try done; [|lia|lia|].
  { pose proof (kr_frames _ _ _ Hrep). lia. }
  cbn [btree_store kv_It btree_iterator it_Close] in *. rewrite Er. destruct (iterator_Close_run s pool' c' p rest' Hit') as (pool2 & Ec & U & _).
  rewrite Ec. exists (with_pool_of pool2 s). split; [by rewrite app_nil_l, <- entries_sorted_cells|].
  by apply (kv_rep_unchanged 0 ls s pool2 (fun _ => 0)).
Qed.

Definition btree_stands (m : gmap bytes bytes) s : Prop :=
  fits_leaf fuel m /\ exists ls, kv_rep 0 ls s /\ tree_map ls = m.

Lemma btree_flush_run ls s : kv_rep 0 ls s -> exists s', KVStore.Flush s = (Ok tt, s') /\ kv_rep 0 ls s' /\ kv_frame ls s s'.
Proof.
  intros Hrep. destruct (Flush_run 0 ls s Hrep) as (r & s' & E & _ & Hrep' & Hfr & _).
  destruct (Flush_reliable s (kr_inv _ _ _ Hrep) Hsync) as (s2 & E2). rewrite E in E2. injection E2 as -> _. by exists s'.
Qed.

Definition btree_spec : KVStoreSpec (btree_store (D := D) (P := LRUEvictionPolicy) fuel).
Proof.
  refine (mkSpec _ _ _ (btree_store fuel) btree_stands (fun _ => True) (fun _ => True) (fun _ => True) (fits_leaf fuel) _ _ _ _ _); cbn.
  - intros _ _ m s k (Hm & ls & Hrep & <-) _.
    destruct (Get_run fuel 0 ls s k Hrep (flat_descends _ _ _ (fits_flat _ _ Hm))) as (s' & E & Hrep' & _).
    exists s'. split; [exact E|]. split; [done|by exists ls].
  - intros _ _ _ m s k v (Hm & ls & Hrep & <-) _ _ _ Hroom. destruct (small_room 0 ls s k v Hrep (proj1 Hroom)) as [Hkv Hr].
    destruct (Put_ok_run fuel 0 ls s k v Hrep (flat_descends _ _ _ (fits_flat _ _ Hm)) Hsync Hkv Hr) as (s' & ls' & E & Hrep' & Em & _).
    exists s'. split; [exact E|]. split; [done|]. by exists ls'.
  - intros _ _ m s k (Hm & ls & Hrep & <-) _ _.
    destruct (Delete_run fuel 0 ls s k Hrep (flat_descends _ _ _ (fits_flat _ _ Hm))) as (s' & ls' & E & Hrep' & Em & _).
    exists s'. split; [exact E|]. split; [|by exists ls']. eapply fits_leaf_mono; [apply delete_subseteq|exact Hm].
  - intros rounds txn rd m s p (Hm & ls & Hrep & <-) _ Hr.
    destruct (btree_list_run rounds txn rd ls s p Hrep (proj2 Hm) ltac:(lia)) as (s' & E & Hrep' & _).
    exists s'. split; [exact E|]. split; [done|by exists ls].
  - intros m s (Hm & ls & Hrep & <-). destruct (btree_flush_run ls s Hrep) as (s' & E & Hrep' & _).
    exists s'. split; [exact E|]. split; [done|by exists ls].
Defined.
End BTree.

(** ** The replicating store *)

Section Replicated.
Context {D F : Type} `{DS : BlockDeviceSpec D} `{RD : !ReliableDevice D} `{MR : MapRange}.
Context `{FS : FileSystemSpec F} `{MC : MirrorCodecSpec}.
Context (Hsync : forall d : D, (Sync d).1 = None) (fuel : nat).
Context (path : bytes) (ok : F -> Prop) (Hserves : path <> [] -> serves path ok).
Implicit Types s : Replica.ReplicatingKVStore D LRUEvictionPolicy F.

(** The primary tree stands for the map; the replica tree has durable keys of it
    with the same values and the mirror no key beyond it. *)
Record replica_stands (m : gmap bytes bytes) s : Prop := {
  rp_fits : fits_leaf fuel m;
  rp_values : forall k v, m !! k = Some v -> v <> [];
  rp_trees : exists lp lr, twin s 0 lp 0 lr /\ tree_map lp = m /\ tree_map lr ⊆ m /\
    forall k, is_Some (tree_map lr !! k) -> isDurableIdentityKey k = true;
  rp_mirror : forall k, is_Some (mirror_copy s k) -> is_Some (m !! k) /\ isDurableIdentityKey k = true;
  rp_ready : mirror_ready path ok s
}.

Lemma mirror_copy_elsewhere s s' k : elsewhere s s' -> mirror_copy s' k = mirror_copy s k.
Proof. intros He. unfold mirror_copy. by rewrite (mirror_elsewhere s s'). Qed.

(** A call that changes neither map nor mirror. *)
Lemma replica_stands_same m s s' lp lr lp' lr' :
  replica_stands m s -> twin s 0 lp 0 lr -> tree_map lp = m -> elsewhere s s' ->
  twin s' 0 lp' 0 lr' -> tree_map lp' = m -> tree_map lr' = tree_map lr -> tree_map lr ⊆ m ->
  (forall k, is_Some (tree_map lr !! k) -> isDurableIdentityKey k = true) -> replica_stands m s'.
Proof.
  intros [R1 R2 _ R4 R5] Ht Em He Ht' Em' Er Hsub Hdur. split; [done|done|exists lp', lr'; by rewrite Er| |by eapply mirror_ready_elsewhere].
  intros k. rewrite (mirror_copy_elsewhere s s' k He). apply R4.
Qed.

Lemma replica_law_get m s k :
  replica_stands m s -> exists s', Replica.Get fuel k s = (found (m !! k), s') /\ replica_stands m s'.
Proof.
  intros Hst. pose proof Hst as [Hfit Hval (lp & lr & Ht & Em & Hsub & Hdur) Hmir _]. pose proof (fits_flat _ _ Hfit) as Hflat.
  destruct (primary_get fuel s 0 lp 0 lr k Ht Hflat) as (s1 & E1 & Ht1 & He1). rewrite Em in E1.
  unfold Replica.Get. rewrite (bind_ok _ _ _ _ _ (try_found _ _ _ _ E1)).
  assert (replica_stands m s1) as Hst1 by (by eapply (replica_stands_same m s s1 lp lr lp lr)).
  destruct (m !! k) as [[|b v]|] eqn:Hk; [by destruct (Hval k [] Hk)|by exists s1|].
  destruct (isDurableIdentityKey k); [|by exists s1].
  assert (nonempty (tree_map lr !! k) = None) as Hno.
  { destruct (tree_map lr !! k) as [v|] eqn:Hr; [|done]. by rewrite (lookup_weaken _ _ _ _ Hr Hsub) in Hk. }
  destruct (fallback_no_replica fuel s1 0 lp 0 lr k (Some (Msg "key not found")) Ht1 Hflat Hno) as (s2 & Ht2 & He2 & ->).
  assert (mirror_copy s1 k = None) as ->.
  { rewrite (mirror_copy_elsewhere s s1 k He1). destruct (mirror_copy s k) as [v|] eqn:Hc; [|done].
    destruct (Hmir k ltac:(by eexists)) as [[v' Hv'] _]. congruence. }
  exists s2. split; [done|]. eapply (replica_stands_same m s1 s2 lp lr lp lr); done.
Qed.

Lemma small_fits m k v : fits_leaf fuel (<[k := v]> m) -> small m k v.
Proof. intros [Hs _]. exact Hs. Qed.

Lemma put_values m k v :
  (forall k v, m !! k = Some v -> v <> []) -> v <> [] -> forall k' v', (<[k := v]> m : gmap bytes bytes) !! k' = Some v' -> v' <> [].
Proof. intros Hval Hv k' v' [(_ & <-)|(_ & Hk)]%lookup_insert_Some; [done|by apply (Hval k')]. Qed.

(** A durable identity key is text. *)
Definition durable_text (k : bytes) : Prop := isDurableIdentityKey k = true -> valid_utf8 k.

Lemma replica_law_put now m s k v :
  replica_stands m s -> timely now -> durable_text k -> v <> [] -> fits_leaf fuel (<[k := v]> m) ->
  exists s', Replica.Put fuel now k v s = (Ok tt, s') /\ replica_stands (<[k := v]> m) s'.
Proof.
  intros [Hfit Hval (lp & lr & Ht & Em & Hsub & Hdur) Hmir Hready] Hn Hku Hv Hroom. pose proof (fits_flat _ _ Hfit) as Hflat.
  destruct (isDurableIdentityKey k) eqn:Hk.
  - assert (small (tree_map lr) k v) as Hs2.
    { apply small_fits. eapply fits_leaf_mono; [|exact Hroom]. by apply insert_mono. }
    destruct (replica_dual_write Hsync path ok Hserves fuel now s 0 lp 0 lr k v Ht Hready Hn (Hku Hk) Hflat Hflat Hk Hv)
      as (s' & lp' & lr' & E & Ht' & Hready' & Em1 & Em2 & Hm); [rewrite Em; by apply small_fits|done|].
    exists s'. split; [done|]. split; [done|by apply put_values| | |done].
    + exists lp', lr'. split; [done|]. rewrite Em1, Em2, Em. split; [done|]. split; [by apply insert_mono|].
      intros k' [v' [(<- & _)|(_ & Hk')]%lookup_insert_Some]; [done|]. apply Hdur. by eexists.
    + intros k'. unfold mirror_copy. rewrite Hm. case_bool_decide; [by intros []|]. cbn [mbind option_bind].
      rewrite lookup_insert_is_Some.
      destruct (decide (k = k')) as [<-|Hne]; [rewrite lookup_insert_eq; tauto|]. rewrite lookup_insert_ne by done.
      intros Hc. assert (is_Some (mirror_copy s k')) as [? ?]%Hmir; [|tauto].
      unfold mirror_copy. destruct (mirror s) as [mm|]; [exact Hc|]. cbn [default] in Hc. rewrite lookup_empty in Hc. by destruct Hc.
  - destruct (primary_put Hsync fuel s 0 lp 0 lr k v Ht Hflat) as (s' & lp' & E & Ht' & He & Em'); [rewrite Em; by apply small_fits|].
    exists s'. split; [unfold Replica.Put; rewrite (bind_ok _ _ _ _ _ E), Hk; done|].
    assert (tree_map lr !! k = None) as Hno.
    { destruct (tree_map lr !! k) eqn:Hr; [|done]. by rewrite (Hdur k ltac:(by eexists)) in Hk. }
    split; [done|by apply put_values| | |by eapply mirror_ready_elsewhere].
    + exists lp', lr. rewrite Em', Em. split; [done|]. split; [done|]. split; [|done]. by apply insert_subseteq_r.
    + intros k'. rewrite (mirror_copy_elsewhere s s' k' He), lookup_insert_is_Some. intros Hc. destruct (Hmir k' Hc) as [? Hd].
      split; [|done]. destruct (decide (k = k')); [by left|by right].
Qed.

Lemma replica_law_delete now m s k :
  replica_stands m s -> timely now ->
  exists s', Replica.Delete fuel now k s = (match m !! k with Some _ => Ok tt | None => Err (Msg "key not found") end, s') /\
    replica_stands (delete k m) s'.
Proof.
  intros [Hfit Hval (lp & lr & Ht & Em & Hsub & Hdur) Hmir Hready] Hn. pose proof (fits_flat _ _ Hfit) as Hflat.
  assert (fits_leaf fuel (delete k m)) as Hfit' by (eapply fits_leaf_mono; [apply delete_subseteq|done]).
  assert (forall k' v', delete k m !! k' = Some v' -> v' <> []) as Hval' by (intros k' v' [_ Hk']%lookup_delete_Some; by apply (Hval k')).
  destruct (isDurableIdentityKey k) eqn:Hk.
  - destruct (replica_delete_everywhere Hsync path ok Hserves fuel now s 0 lp 0 lr k Ht Hready Hn Hflat Hflat Hk)
      as (s' & lp' & lr' & E & Ht' & Hready' & Em1 & Em2 & Hm).
    rewrite Em in E. exists s'. split; [done|]. split; [done|done| | |done].
    + exists lp', lr'. split; [done|]. rewrite Em1, Em2, Em. split; [done|]. split; [by apply delete_mono|].
      intros k' [v' [_ Hk']%lookup_delete_Some]. apply Hdur. by eexists.
    + intros k'. unfold mirror_copy. rewrite Hm. destruct (mirror s) as [mm|] eqn:Hmm; cbn [fmap option_fmap option_map mbind option_bind]; [|by intros []].
      destruct (decide (k = k')) as [<-|Hne]; [rewrite lookup_delete_eq; by intros []|]. rewrite !lookup_delete_ne by done.
      intros Hc. apply (Hmir k'). unfold mirror_copy. by rewrite Hmm.
  - destruct (primary_delete fuel s 0 lp 0 lr k Ht Hflat) as (s' & lp' & E & Ht' & He & Em'). rewrite Em in E.
    exists s'. split.
    { unfold Replica.Delete. rewrite Hk. assert (try (Replica.on_primary (KVStore.Delete fuel k)) s =
        (Ok (match m !! k with Some _ => inr tt | None => inl (Msg "key not found") end), s')) as Et
        by (unfold try; rewrite E; by destruct (m !! k)).
      rewrite (bind_ok _ _ _ _ _ Et). by destruct (m !! k). }
    split; [done|done| | |by eapply mirror_ready_elsewhere].
    + exists lp', lr. rewrite Em', Em. split; [done|]. split; [done|]. split; [|done].
      rewrite <- (delete_id (tree_map lr) k); [by apply delete_mono|].
      destruct (tree_map lr !! k) eqn:Hr; [|done]. by rewrite (Hdur k ltac:(by eexists)) in Hk.
    + intros k'. rewrite (mirror_copy_elsewhere s s' k' He). intros Hc. destruct (Hmir k' Hc) as [Hm Hd]. split; [|done].
      rewrite lookup_delete_ne; [done|]. intros <-. congruence.
Qed.

(** Listings run on the primary tree. *)
Lemma replica_read_all rounds rd it acc s :
  read_all (replicated_store fuel) rounds rd it acc s =
  let '(r, it', k) := read_all (btree_store fuel) rounds rd it acc (mkKV (Replica.rdb s) (Replica.primary s)) in
  (r, it', Replica.mkRepl (kdb k) (kroot k) (Replica.replica s) (Replica.mirrorPath s) (Replica.files s)).
Proof.
  revert it acc s. induction rounds as [|rounds IH]; intros it acc s; [by destruct s|].
  cbn [read_all replicated_store btree_store kv_It btree_iterator it_Next]. unfold primary_next.
  destruct (HotSwap.hot_next fuel it (mkKV (Replica.rdb s) (Replica.primary s))) as [[r it'] k].
  destruct r as [kv|e| |]; try done. rewrite IH. cbn [Replica.rdb Replica.primary Replica.replica Replica.mirrorPath Replica.files].
  by destruct k.
Qed.

Lemma replica_list rounds txn rd p s :
  list_prefix (replicated_store fuel) rounds txn p rd s = Replica.on_primary (list_prefix (btree_store fuel) rounds txn p rd) s.
Proof.
  unfold list_prefix. cbn [kv_NewIterator replicated_store btree_store]. unfold Replica.NewIterator, Replica.on_primary.
  destruct (KVStore.NewIterator fuel p (mkKV (Replica.rdb s) (Replica.primary s))) as [[it|e| |] k]; try done.
  rewrite replica_read_all. cbn [Replica.rdb Replica.primary Replica.replica Replica.mirrorPath Replica.files].
  destruct k as [db root]. cbn [kdb kroot].
  destruct (read_all (btree_store fuel) rounds rd it [] (mkKV db root)) as [[r it'] k'].
  cbn [kv_It it_Close replicated_store btree_store btree_iterator]. unfold Replica.on_primary.
  cbn [Replica.rdb Replica.primary Replica.replica Replica.mirrorPath Replica.files].
  destruct k' as [db' root']. cbn [kdb kroot]. by destruct (iterator_Close it' (mkKV db' root')) as [rc k2].
Qed.

Lemma replica_law_list rounds txn rd m s p :
  replica_stands m s -> (base.size m < rounds)%nat ->
  exists s', list_prefix (replicated_store fuel) rounds txn p rd s = (Ok (entries p m), s') /\ replica_stands m s'.
Proof.
  intros Hst Hr. pose proof Hst as [Hfit _ (lp & lr & Ht & Em & Hsub & Hdur) _ _]. rewrite replica_list.
  destruct (btree_list_run fuel rounds txn rd lp _ p (tr_first _ _ _ _ _ _ _ Ht)) as (k & E & Hrep & Hfr);
    [rewrite Em; apply Hfit|by rewrite Em|].
  destruct (on_primary_frame _ s _ k 0 lp 0 lr lp Ht E Hrep Hfr) as (s' & E' & Ht' & He). rewrite Em in E'.
  exists s'. split; [done|]. by eapply (replica_stands_same m s s' lp lr lp lr).
Qed.

Lemma replica_law_flush m s :
  replica_stands m s -> exists s', Replica.Flush s = (Ok tt, s') /\ replica_stands m s'.
Proof.
  intros Hst. pose proof Hst as [_ _ (lp & lr & Ht & Em & Hsub & Hdur) _ _]. unfold Replica.Flush.
  destruct (primary_flush Hsync s 0 lp 0 lr Ht) as (s1 & E1 & Ht1 & He1). rewrite (bind_ok _ _ _ _ _ E1).
  destruct (replica_flush Hsync s1 0 lp 0 lr Ht1) as (s2 & E2 & Ht2 & He2). exists s2. split; [done|].
  assert (replica_stands m s1) by by eapply (replica_stands_same m s s1 lp lr lp lr).
  by eapply (replica_stands_same m s1 s2 lp lr lp lr).
Qed.

Definition replicated_spec : KVStoreSpec (replicated_store (D := D) (P := LRUEvictionPolicy) (F := F) fuel).
Proof.
  refine (mkSpec _ _ _ (replicated_store fuel) replica_stands durable_text (fun _ => True) (fun rd => timely (first_now rd))
    (fits_leaf fuel) _ _ _ _ _); cbn [replicated_store kv_Get kv_Put kv_Delete kv_Flush].
  - intros _ _ m s k Hst _. by apply replica_law_get.
  - intros _ _ rd m s k v Hst Ht Hk Hv Hr. by apply replica_law_put.
  - intros _ rd m s k Hst Ht _. by apply replica_law_delete.
  - intros rounds txn rd m s p Hst _ Hr. apply replica_law_list; [done|lia].
  - intros m s Hst. by apply replica_law_flush.
Defined.
End Replicated.
