(* ===== verification/HotSwapIter.v ===== *)
(** The iterator of the hot-swap store: first the cells of the tree, then the
    records of the slotted page; and the store as a [KVStore] once the migration is
    complete. *)

From Stdlib Require Import Strings.Byte.
From stdpp Require Import sorting.
From S2P Require Import Common.
From S2P Require Import Prelude.
From S2P Require Import VFS.
From S2P Require Import LRU.
From S2P Require Import Page.
From S2P Require Import Slotted.
From S2P Require Import Telemetry.
From S2P Require Import BufferPool.
From S2P Require Import PoolInv.
From S2P Require Import PoolOps.
From S2P Require Import PoolPins.
From S2P Require Import PoolLatch.
From S2P Require Import WAL.
From S2P Require Import DBPage.
From S2P Require Import DB.
From S2P Require Import DBSpec.
From S2P Require Import BTreePage.
From S2P Require Import BTreeNode.
From S2P Require Import BTree.
From S2P Require Import BTreeSpec.
From S2P Require Import BTreeLocked.
From S2P Require Import BTreeWalk.
From S2P Require Import BTreeJoin.
From S2P Require Import KVRecover.
From S2P Require Import KVStore.
From S2P Require Import KVSpec.
From S2P Require Import KVPut.
From S2P Require Import KVProps.
From S2P Require Import KVIter.
From S2P Require Import HotSwap.
From S2P Require Import HotSwapSpec.
From S2P Require Import HotSwapMigrate.
From S2P Require Import Interfaces.
From S2P Require Import InterfaceSpec.

(** ** Reading pages under an open iterator *)

Section Beside.
Context {D : Type} `{DS : BlockDeviceSpec D} `{RD : !ReliableDevice D} `{MR : MapRange}.
Implicit Types s : BTreeKVStore D LRUEvictionPolicy.

(** Another page is fetched, read and given back; the iterator stays where it is. *)
Lemma read_beside s pool c rest pg :
  iterating s pool c rest -> page_id_ok pg -> (1 < length (frames (bp (kdb s))))%nat ->
  exists i pool1 p, FetchPage pool pg = (Ok i, pool1) /\ frames pool1 !! i = Some p /\ ID p = pg /\
    page_eqv pg (Data p) (view (bp (kdb s)) pg) /\ iterating s (UnpinPage pool1 pg false) c rest.
Proof.
  intros (cur & Hc & U & Hn) Hok Hlen. pose proof U as [Hinv Hv Hl Hp].
  destruct (FetchPage_room ∅ pool pg (match cur with Some id => {[id]} | None => ∅ end) Hinv Hok) as (i & pool1 & Hf).
  { intros id. rewrite Hp. unfold on, one. case_bool_decide as E; [|lia]. subst cur. set_solver. }
  { destruct cur; rewrite ?size_singleton, ?size_empty, Hl; lia. }
  destruct (fetch_unchanged pool pg i pool1 Hinv Hok Hf) as (U1 & Hi & _).
  destruct (frame_view pool1 pg i (un_inv _ _ _ U1) Hi) as (p & Hpf & Hid & Hview).
  exists i, pool1, p. split; [done|]. split; [done|]. split; [done|].
  split; [rewrite <- Hview; by rewrite (un_view _ _ _ U1 pg)|].
  pose proof (pins_nonneg ∅ pool pg Hinv) as Hnn.
  destruct (unpin_unchanged pool1 pg false (un_inv _ _ _ U1)) as [U2 Et].
  { rewrite (un_pins _ _ _ U1). unfold one. rewrite bool_decide_eq_true_2 by done. lia. }
  pose proof (unchanged_trans _ _ _ _ _ U1 U2) as U12.
  assert (forall id, pins pool1 id - one (bool_decide (id = pg)) = on cur id) as Hpins.
  { intros id. rewrite (un_pins _ _ _ U1), Hp. lia. }
  exists cur. split; [|split].
  - apply (cursor_at_frame pool _ (on cur)); [done|eapply unchanged_pins; [exact U12|done]|].
    intros id j -> Hj. split; [|unfold on, one; by rewrite bool_decide_eq_true_2].
    rewrite Et. apply (FetchPage_keeps_frame ∅ pool pg i pool1); try done. rewrite Hp. unfold on, one. by rewrite bool_decide_eq_true_2.
  - eapply unchanged_pins; [exact (unchanged_trans _ _ _ _ _ U U12)|]. done.
  - pose proof (FetchPage_count ∅ pool pg i pool1 Hinv Hok Hf).
    pose proof (UnpinPage_count ∅ ∅ pool1 pg false (un_inv _ _ _ U1) (un_inv _ _ _ U2)) as Hn2. cbn in Hn2. lia.
Qed.

(** A lookup in a tree of one leaf. *)
Lemma Get_beside fuel ls s pool c rest k :
  kv_rep 0 ls s -> iterating s pool c rest -> (0 < fuel)%nat ->
  exists pool', KVStore.Get fuel k (with_pool_of pool s) = (found (tree_map ls !! k), with_pool_of pool' s) /\ iterating s pool' c rest.
Proof.
  intros Hrep Hit Hf. pose proof Hrep as [_ _ Hfr (ids & Hsub & _) _]. destruct Hsub as (cs & [L1 L2 L3 _ _] & -> & _).
  destruct (read_beside s pool c rest (kroot s) Hit (proj1 L1) ltac:(lia)) as (i & pool1 & p & Ef & Hp & Hid & Himg & Hit').
  apply (tree_page_image (kroot s)) in Himg; [|done]. exists (UnpinPage pool1 (kroot s) false). split; [|done].
  assert (FindLeaf fuel pool (kroot s) k = (Ok i, pool1)) as E.
  { unfold FindLeaf. rewrite Ef. destruct fuel as [|fuel]; [lia|]. cbn [descend]. rewrite Hp.
    rewrite (PageType_header _ _ (image_header _ _ Himg)), L2. done. }
  unfold KVStore.Get, find_leaf, with_pool, with_db, page_of, unpin, of_result, mbind, io_bind.
  cbn [with_pool_of kdb kroot bp set_bp]. rewrite E. cbn [kdb kroot bp set_bp]. rewrite Hp. cbn [kdb kroot bp set_bp].
  rewrite Hid, (leaf_lookup_spec _ cs) by by apply (holds_image _ (view (bp (kdb s)) (kroot s))).
  unfold tree_map, cells_of. cbn [fmap list_fmap concat snd]. rewrite app_nil_r. done.
Qed.
End Beside.

(** ** The records of the slotted page *)

Section Legacy.
Context {D : Type} `{DS : BlockDeviceSpec D} `{RD : !ReliableDevice D} `{MR : MapRange}.
Context (fuel : nat) (cfg : HotSwap.HotSwapConfig).
Implicit Types s : BTreeKVStore D LRUEvictionPolicy.
Abbreviation lpage := (HotSwap.LegacyPage cfg).

Lemma iterate_legacy (l : list (bytes * (Z * Z * bytes))) (m : gmap bytes bytes) k :
  NoDup l.*1 ->
  iterate (HotSwap.legacy_entry cfg) l m !! k =
  match (list_to_map l : gmap bytes (Z * Z * bytes)) !! k with
  | Some (_, v) => if bool_decide (v = []) || HotSwap.unmatched cfg k then m !! k else Some v
  | None => m !! k
  end.
Proof.
  revert m. induction l as [|[k' [ts v]] l IH]; intros m; [done|]. cbn [fmap list_fmap fst]. intros [Hni Hnd]%NoDup_cons.
  cbn [iterate list_to_map foldr]. unfold HotSwap.legacy_entry at 1. cbn iota beta. rewrite IH by done. cbn [fst snd].
  destruct (decide (k' = k)) as [->|Hne].
  - rewrite lookup_insert_eq, (not_elem_of_list_to_map_1 l k) by done.
    destruct (_ || HotSwap.unmatched cfg k); [done|]. apply lookup_insert_eq.
  - rewrite lookup_insert_ne by done. by destruct (_ || HotSwap.unmatched cfg k'); rewrite ?lookup_insert_ne by done.
Qed.

(** The map an iterator loads. *)
Definition legacy_map (now : Z) (p : bytes) s (rs : list record) : gmap bytes bytes :=
  let t := u64 (nextTxnID (kdb s) + 1) in
  iterate (HotSwap.legacy_entry cfg) (range (fold_records (scan_body now ({[t]} ∪ activeTxns (kdb s)) t p) 0 rs ∅)) ∅.

(** Its keys have the prefix, match, and have a value on the page. *)
Lemma legacy_map_lookup now p s rs k v :
  legacy_map now p s rs !! k = Some v <->
  has_prefix k p = true /\ HotSwap.unmatched cfg k = false /\ nonempty (legacy_value now s rs k) = Some v.
Proof.
  unfold legacy_map, legacy_value. cbn zeta. set (t := u64 _). set (m := fold_records _ 0 rs ∅).
  rewrite iterate_legacy by apply NoDup_range_keys. rewrite lookup_empty.
  rewrite range_to_map.
  pose proof (scan_map_spec now ({[t]} ∪ activeTxns (kdb s)) t p rs k) as Hm. fold m in Hm.
  destruct (m !! k) as [[ts x]|]; cbn in Hm.
  - destruct (has_prefix k p); [|done]. rewrite <- Hm. cbn. destruct (HotSwap.unmatched cfg k); [rewrite orb_true_r; naive_solver|].
    rewrite orb_false_r. case_bool_decide as Ex; [subst x; naive_solver|]. destruct x; naive_solver.
  - destruct (has_prefix k p); [|naive_solver]. rewrite <- Hm. naive_solver.
Qed.

(** ** Loading them *)

(** The base state of an open iterator with another transaction state. *)
Lemma iterating_db s pool c rest db :
  iterating s pool c rest -> bp db = bp (kdb s) -> iterating (mkKV db (kroot s)) pool c rest.
Proof. intros (cur & Hc & U & Hn) E. exists cur. cbn [kdb]. by rewrite E. Qed.

Lemma migrationDone_beside ls rs s pool c rest :
  hs_rep cfg 0 ls rs s -> iterating s pool c rest -> (0 < fuel)%nat ->
  exists pool', HotSwap.migrationDone fuel cfg (with_pool_of pool s) =
      (Ok (bool_decide (is_Some (tree_map ls !! HotSwap.markerKey cfg))), with_pool_of pool' s) /\ iterating s pool' c rest.
Proof.
  intros Hhs Hit Hf. destruct (Get_beside fuel ls s pool c rest (HotSwap.markerKey cfg) (hs_tree _ _ _ _ _ Hhs) Hit Hf) as (pool' & E & Hit').
  exists pool'. split; [|done]. unfold HotSwap.migrationDone. rewrite (bind_ok _ _ _ _ _ (try_found _ _ _ _ E)). unfold mret, io_ret.
  by destruct (tree_map ls !! HotSwap.markerKey cfg).
Qed.

Lemma scan_beside ls rs s pool c rest t p now :
  hs_rep cfg 0 ls rs s -> iterating s pool c rest ->
  exists pool', try (with_db (fun db => DB.Scan db lpage t p now (HotSwap.legacy_entry cfg) ∅)) (with_pool_of pool s) =
      (Ok (inr (iterate (HotSwap.legacy_entry cfg) (range (fold_records (scan_body now (activeTxns (kdb s)) t p) 0 rs ∅)) ∅)),
       with_pool_of pool' s) /\ iterating s pool' c rest.
Proof.
  intros [Hrep Hok Hpage _] Hit. pose proof (kr_frames _ _ _ Hrep).
  destruct (read_beside s pool c rest lpage Hit Hok ltac:(lia)) as (i & pool1 & q & Ef & Hq & Hid & Himg & Hit').
  exists (UnpinPage pool1 lpage false). split; [|done].
  assert (page_holds (Data q) rs) as Hh by by rewrite (page_eqv_image _ _ _ Himg).
  unfold try, with_db, DB.Scan, latched_read. cbn [with_pool_of kdb kroot bp set_bp activeTxns]. rewrite Ef, Hq.
  unfold scan_page. rewrite (for_slots_holds (Data q) rs) by done. done.
Qed.

(** The legacy part of an iterator after [loadLegacy]. *)
Lemma loadLegacy_beside ls rs s pool c rest p now it :
  hs_rep cfg 0 ls rs s -> iterating s pool c rest -> (0 < fuel)%nat ->
  HotSwap.legacyReady it = false -> HotSwap.legacy it = ∅ -> HotSwap.legacyIDs it = [] ->
  exists it' s' pool', HotSwap.loadLegacy fuel cfg p now it (with_pool_of pool s) = (Ok it', with_pool_of pool' s') /\
    hs_rep cfg 0 ls rs s' /\ iterating s' pool' c rest /\
    HotSwap.hot it' = HotSwap.hot it /\ HotSwap.legacyPos it' = HotSwap.legacyPos it /\ HotSwap.doneHot it' = HotSwap.doneHot it /\
    let m := if bool_decide (is_Some (tree_map ls !! HotSwap.markerKey cfg)) then ∅ else legacy_map now p s rs in
    HotSwap.legacy it' = m /\ HotSwap.legacyIDs it' = (range m).*1.
Proof.
  intros Hhs Hit Hf Er Em Ei. unfold HotSwap.loadLegacy. rewrite Er.
  destruct (migrationDone_beside ls rs s pool c rest Hhs Hit Hf) as (pool1 & E1 & Hit1). rewrite (bind_ok _ _ _ _ _ E1).
  case_bool_decide as Hmark.
  { eexists _, s, pool1. split; [reflexivity|]. split; [done|]. split; [done|]. cbn. rewrite Em, Ei. split_and!; try done.
    pose proof (range_perm (∅ : gmap bytes bytes)) as Hp. rewrite map_to_list_empty in Hp. apply Permutation_nil_r in Hp. by rewrite Hp. }
  set (t := u64 (nextTxnID (kdb s) + 1)). set (db1 := (BeginTxn (kdb s)).2). set (s1 := mkKV db1 (kroot s)).
  assert (HotSwap.begin_txn (with_pool_of pool1 s) = (Ok t, with_pool_of pool1 s1)) as Eb by done. rewrite (bind_ok _ _ _ _ _ Eb).
  assert (hs_rep cfg 0 ls rs s1) as Hhs1 by by apply hs_same_pool.
  destruct (scan_beside ls rs s1 pool1 c rest t p now Hhs1 (iterating_db s pool1 c rest db1 Hit1 eq_refl)) as (pool2 & E2 & Hit2).
  rewrite (bind_ok _ _ _ _ _ E2). set (s2 := mkKV (CommitTxn db1 t) (kroot s)).
  assert (HotSwap.commit_txn t (with_pool_of pool2 s1) = (Ok tt, with_pool_of pool2 s2)) as Ec by done. rewrite (bind_ok _ _ _ _ _ Ec).
  eexists _, s2, pool2. split; [reflexivity|]. split; [by apply (hs_same_pool cfg 0 ls rs s1)|].
  split; [by apply (iterating_db s1 pool2 c rest)|]. cbn. by rewrite Ei.
Qed.

(** ** Reading to the end *)

Import Iface.

(** What is left of the loaded records. *)
Definition left_over (ids : list bytes) (m : gmap bytes bytes) : list (bytes * bytes) := omap (fun id => pair id <$> m !! id) ids.

Lemma left_over_range (m : gmap bytes bytes) : left_over (range m).*1 m = range m.
Proof.
  assert (Forall (fun kv : bytes * bytes => m !! kv.1 = Some kv.2) (range m)) as Hall.
  { apply Forall_forall. intros [k v] Hin. by apply elem_of_range. }
  revert Hall. generalize (range m) as l. unfold left_over. intros l. induction 1 as [|[k v] l Hk _ IH]; [done|].
  cbn in *. rewrite Hk. cbn. by rewrite IH.
Qed.

Lemma next_legacy_spec (ids : list bytes) m pos :
  let '(o, pos') := HotSwap.next_legacy (drop pos ids) m pos in
  match o with
  | Some kv => left_over (drop pos ids) m = kv :: left_over (drop pos' ids) m /\ (length (drop pos' ids) < length (drop pos ids))%nat
  | None => left_over (drop pos ids) m = []
  end.
Proof.
  remember (drop pos ids) as l eqn:El. revert pos El. induction l as [|id l IH]; intros pos El; cbn [HotSwap.next_legacy]; [done|].
  assert (l = drop (S pos) ids) as El'.
  { replace (S pos) with (pos + 1)%nat by lia. by rewrite <- drop_drop, <- El. }
  unfold left_over in *. cbn [omap list_omap]. destruct (m !! id) as [v|]; cbn [fmap option_fmap option_map].
  - rewrite <- El'. split; [done|cbn; lia].
  - specialize (IH (S pos) El'). destruct (HotSwap.next_legacy l m (S pos)) as [[kv|] pos']; [|done]. cbn. split; [apply IH|]. destruct IH. lia.
Qed.

Lemma legacy_read_all rounds rd p it acc s :
  HotSwap.doneHot it = true -> (length (drop (HotSwap.legacyPos it) (HotSwap.legacyIDs it)) < rounds)%nat ->
  exists it', read_all (hotswap_store fuel cfg) rounds rd (p, it) acc s =
      (Ok (acc ++ left_over (drop (HotSwap.legacyPos it) (HotSwap.legacyIDs it)) (HotSwap.legacy it)), (p, it'), s) /\
    HotSwap.hot it' = HotSwap.hot it.
Proof.
  revert it acc. induction rounds as [|rounds IH]; intros it acc Hd Hr; [lia|].
  cbn [read_all hotswap_store kv_It hotswap_iterator it_Next fst snd]. unfold HotSwap.Next. rewrite Hd. unfold HotSwap.yield_legacy.
  pose proof (next_legacy_spec (HotSwap.legacyIDs it) (HotSwap.legacy it) (HotSwap.legacyPos it)) as Hn.
  destruct (HotSwap.next_legacy _ _ _) as [[kv|] pos'].
  - destruct Hn as [Hl Hlen]. rewrite Hl. edestruct IH as (it' & -> & Hh); [exact Hd|cbn; lia|]. cbn in *.
    eexists. split; [by rewrite <- app_assoc|done].
  - rewrite Hn, app_nil_r. by eexists.
Qed.

Lemma delete_empty_map k : delete k (∅ : gmap bytes bytes) = ∅.
Proof. apply delete_empty. Qed.

(** An iterator that has not come to the slotted page. *)
Definition on_tree (it : HotSwap.hotSwapIterator) (c : BTreeCursor) (p : bytes) : Prop :=
  it = HotSwap.mkHotIt (mkIterator (Some c) p) ∅ [] 0 false false.

Lemma hot_read_all rounds rd p ls rs s pool c rest acc it :
  hs_rep cfg 0 ls rs s -> iterating s pool c rest -> keys_sorted rest.*1 -> on_tree it c p ->
  let m := if bool_decide (is_Some (tree_map ls !! HotSwap.markerKey cfg)) then ∅ else legacy_map (first_now rd) p s rs in
  (length rest < fuel)%nat -> (length rest + base.size m < rounds)%nat ->
  exists it' c' rest' s' pool', read_all (hotswap_store fuel cfg) rounds rd (p, it) acc (with_pool_of pool s) =
      (Ok (acc ++ matching p rest ++ range m), (p, it'), with_pool_of pool' s') /\
    hs_rep cfg 0 ls rs s' /\ iterating s' pool' c' rest' /\ HotSwap.hot it' = mkIterator (Some c') p.
Proof.
  intros Hhs. pose proof (kr_frames _ _ _ (hs_tree _ _ _ _ _ Hhs)) as Hfr.
  revert pool c rest acc it. induction rounds as [|rounds IH]; intros pool c rest acc it Hit Hs -> m Hf Hr; [lia|].
  cbn [read_all hotswap_store kv_It hotswap_iterator it_Next fst snd]. unfold HotSwap.Next, HotSwap.hot_next.
  cbn [HotSwap.doneHot HotSwap.hot cursor prefix].
  destruct (iterator_next_run fuel s pool c p rest ltac:(lia) Hit Hs Hf) as (r & c' & pool' & rest' & -> & Hit' & Hres).
  destruct r as [[k v]|e| |]; try done.
  - destruct Hres as (Em & Hs' & Hlen). edestruct (IH pool' c' rest' (acc ++ [(k, v)])) as (it2 & c2 & rest2 & s2 & pool2 & E & Hhs2 & Hit2 & Hh);
      [exact Hit'|exact Hs'|reflexivity|lia|fold m; lia|].
    cbn [HotSwap.set_hot HotSwap.hot HotSwap.legacy HotSwap.legacyIDs HotSwap.legacyPos HotSwap.legacyReady HotSwap.doneHot].
    rewrite delete_empty_map, E. exists it2, c2, rest2, s2, pool2. split; [|done]. rewrite Em, <- !app_assoc. done.
  - destruct Hres as [Em ->]. rewrite bool_decide_eq_true_2 by done.
    edestruct (loadLegacy_beside ls rs s pool' c' rest' p (first_now rd)) as (it2 & s2 & pool2 & E & Hhs2 & Hit2 & Eh & Ep & Ed & El & Ei);
      [exact Hhs|exact Hit'|lia| | | |rewrite E]; try done. fold m in El, Ei. cbn in Eh, Ep, Ed.
    destruct (legacy_read_all (S rounds) rd p it2 acc (with_pool_of pool2 s2) Ed) as (it3 & E3 & Hh3).
    { rewrite Ep, Ei, drop_0, length_fmap, length_range. lia. }
    cbn [read_all hotswap_store kv_It hotswap_iterator it_Next fst snd] in E3. unfold HotSwap.Next in E3. rewrite Ed in E3.
    exists it3, c', rest', s2, pool2. split; [|split; [done|]; split; [done|by rewrite Hh3, Eh]].
    rewrite Ep, Ei, El, drop_0, left_over_range in E3. rewrite Em. exact E3.
Qed.

Lemma hotswap_list_run rounds txn rd p ls rs s :
  hs_rep cfg 0 ls rs s ->
  let m := if bool_decide (is_Some (tree_map ls !! HotSwap.markerKey cfg)) then ∅ else legacy_map (first_now rd) p s rs in
  (base.size (tree_map ls) < fuel)%nat -> (base.size (tree_map ls) + base.size m < rounds)%nat ->
  exists s', list_prefix (hotswap_store fuel cfg) rounds txn p rd s = (Ok (entries p (tree_map ls) ++ range m), s') /\
    hs_rep cfg 0 ls rs s'.
Proof.
  intros Hhs m Hf Hr. pose proof (hs_tree _ _ _ _ _ Hhs) as Hrep. destruct (cells_count ls s Hrep) as [Hlen Hs].
  destruct (NewIterator_run fuel ls s p Hrep ltac:(lia)) as (c & pool & E & Hit).
  unfold list_prefix. cbn [kv_NewIterator hotswap_store]. unfold HotSwap.NewIterator, mbind, io_bind, mret, io_ret. rewrite E.
  destruct (hot_read_all rounds rd p ls rs s pool c (cells_of ls) [] _ Hhs Hit Hs eq_refl) as (it' & c' & rest' & s' & pool' & Er & Hhs' & Hit' & Hh);
    [lia|fold m; lia|]. cbn [app] in Er. fold m in Er.
  rewrite Er. cbn [kv_It it_Close hotswap_store hotswap_iterator snd]. unfold HotSwap.Close. rewrite Hh.
  destruct (iterator_Close_run s' pool' c' p rest' Hit') as (pool2 & Ec & U & _). unfold iterator_Close in Ec. rewrite Ec.
  exists (with_pool_of pool2 s'). split; [by rewrite <- entries_sorted_cells|]. by apply (hs_unchanged cfg 0 ls rs s' (set_bp pool2 (kdb s'))).
Qed.

(** C10: Reading the iterator of a hot-swap store whose tree is a single leaf to
    its end (the fuel of a step exceeds the number of entries of the tree, and the
    steps taken exceed that of the tree and the page together) yields the tree's
    entries with the prefix in key order and then, unless the migration is
    complete, every record of the slotted page that has the prefix, matches and has
    a value - also those whose key was yielded before, so a key that is in both
    places is listed twice.  The store is as it was and nothing stays pinned.  (The
    pool must be below its flush threshold, as the open iterator keeps a latch.) *)
Theorem hotswap_iterator_lists_both rounds txn rd p ls rs s :
  hs_rep cfg 0 ls rs s -> slack 0 (bp (kdb s)) -> (base.size (tree_map ls) < fuel)%nat ->
  (base.size (tree_map ls) + base.size (legacy_map (first_now rd) p s rs) < rounds)%nat ->
  exists l s', list_prefix (hotswap_store fuel cfg) rounds txn p rd s = (Ok (entries p (tree_map ls) ++ l), s') /\
    hs_rep cfg 0 ls rs s' /\ NoDup l.*1 /\
    forall k v, (k, v) ∈ l <-> tree_map ls !! HotSwap.markerKey cfg = None /\ has_prefix k p = true /\
      HotSwap.unmatched cfg k = false /\ nonempty (legacy_value (first_now rd) s rs k) = Some v.
Proof.
  intros Hhs _ Hf Hr. set (m := if bool_decide (is_Some (tree_map ls !! HotSwap.markerKey cfg)) then ∅ else legacy_map (first_now rd) p s rs).
  pose proof (hotswap_list_run rounds txn rd p ls rs s Hhs) as Hrun. cbn zeta in Hrun. fold m in Hrun.
  destruct (Hrun Hf) as (s' & E & Hhs').
  { assert (base.size m <= base.size (legacy_map (first_now rd) p s rs))%nat; [|lia].
    unfold m. case_bool_decide; [rewrite map_size_empty; lia|done]. }
  exists (range m), s'. split; [done|]. split; [done|]. split; [apply NoDup_range_keys|]. intros k v. rewrite elem_of_range. unfold m.
  case_bool_decide as Hmark.
  - rewrite lookup_empty. destruct Hmark as [x ->]. naive_solver.
  - rewrite legacy_map_lookup. apply eq_None_not_Some in Hmark. naive_solver.
Qed.

Lemma legacy_map_txns now p s s' rs : same_txns (kdb s) (kdb s') -> legacy_map now p s' rs = legacy_map now p s rs.
Proof. intros [E1 E2]. unfold legacy_map. by rewrite E1, E2. Qed.
End Legacy.

(** ** The store after its migration *)

Lemma entries_insert_other (p k v : bytes) (m : gmap bytes bytes) :
  has_prefix k p = false -> m !! k = None -> entries p (<[k := v]> m) = entries p m.
Proof.
  intros Hp Hk. unfold entries.
  assert (matching p (map_to_list (<[k := v]> m)) ≡ₚ matching p (map_to_list m)) as E.
  { unfold matching. rewrite (map_to_list_insert m k v Hk), filter_cons_False; [done|]. cbn. by rewrite Hp. }
  assert (forall m : gmap bytes bytes, NoDup (matching p (map_to_list m)).*1) as Hnd.
  { intros m'. eapply sublist_NoDup; [|apply fmap_sublist, sublist_filter]. apply NoDup_fst_map_to_list. }
  apply sorted_unique; [by apply sort_cells_sorted..|]. by rewrite !sort_cells_perm.
Qed.

Import Iface.

Section Migrated.
Context {D : Type} `{DS : BlockDeviceSpec D} `{RD : !ReliableDevice D} `{MR : MapRange}.
Context (Hsync : forall d : D, (Sync d).1 = None) (fuel : nat) (cfg : HotSwap.HotSwapConfig) (Hpage : HotSwap.LegacyPage cfg <> 0).
Implicit Types s : BTreeKVStore D LRUEvictionPolicy.
Abbreviation marker := (HotSwap.markerKey cfg).

(** The tree stands for the map and has the marker besides. *)
Record hotswap_stands (m : gmap bytes bytes) s : Prop := {
  hw_fits : fits_leaf fuel (<[marker := str "1"]> m);
  hw_marker : m !! marker = None;
  hw_values : forall k v, m !! k = Some v -> v <> [];
  hw_tree : exists ls rs, hs_rep cfg 0 ls rs s /\ tree_map ls = <[marker := str "1"]> m
}.

Lemma nonempty_values (m : gmap bytes bytes) k : (forall k v, m !! k = Some v -> v <> []) -> nonempty (m !! k) = m !! k.
Proof. intros Hv. destruct (m !! k) as [[|b v]|] eqn:E; [by destruct (Hv k [] E)|done|done]. Qed.

Lemma hotswap_law_get m s k now now' :
  hotswap_stands m s -> k <> marker -> exists s', HotSwap.Get fuel cfg k now now' s = (found (m !! k), s') /\ hotswap_stands m s'.
Proof.
  intros [Hfit Hmark Hval (ls & rs & Hhs & Em)] Hk.
  destruct (HotSwap_Get_done cfg fuel 0 ls rs s k now now' Hhs (fits_flat _ _ Hfit)) as (s' & E & Hhs').
  { rewrite Em, lookup_insert_eq. by eexists. }
  rewrite Em, lookup_insert_ne, (nonempty_values m k Hval) in E by done. exists s'. split; [done|].
  split; [done|done|done|by exists ls, rs].
Qed.

Lemma hotswap_law_put m s k v :
  hotswap_stands m s -> k <> marker -> v <> [] -> fits_leaf fuel (<[marker := str "1"]> (<[k := v]> m)) ->
  exists s', HotSwap.Put fuel k v s = (Ok tt, s') /\ hotswap_stands (<[k := v]> m) s'.
Proof.
  intros [Hfit Hmark Hval (ls & rs & Hhs & Em)] Hk Hv Hroom. pose proof (hs_tree _ _ _ _ _ Hhs) as Hrep.
  assert (<[k := v]> (tree_map ls) = <[marker := str "1"]> (<[k := v]> m)) as Ei by (rewrite Em; by apply insert_insert_ne).
  destruct (small_room 0 ls s k v Hrep) as [Hkv Hr]; [rewrite Ei; apply Hroom|].
  destruct (Put_ok_run fuel 0 ls s k v Hrep (flat_descends _ _ _ (fits_flat _ _ Hfit)) Hsync Hkv Hr) as (s' & ls' & E & Hrep' & Em' & Hfr).
  exists s'. split; [exact E|]. split; [done|by rewrite lookup_insert_ne|by apply put_values|].
  exists ls', rs. split; [by eapply hs_frame|by rewrite Em'].
Qed.

Lemma hotswap_law_delete m s k c :
  hotswap_stands m s -> k <> marker ->
  exists s', HotSwap.Delete fuel cfg k c s = (match m !! k with Some _ => Ok tt | None => Err (Msg "key not found") end, s') /\
    hotswap_stands (delete k m) s'.
Proof.
  intros [Hfit Hmark Hval (ls & rs & Hhs & Em)] Hk. pose proof (hs_tree _ _ _ _ _ Hhs) as Hrep.
  assert (delete k (tree_map ls) = <[marker := str "1"]> (delete k m)) as Ed by (rewrite Em; by rewrite delete_insert_ne).
  assert (forall ls' rs' s', hs_rep cfg 0 ls' rs' s' -> tree_map ls' = delete k (tree_map ls) -> hotswap_stands (delete k m) s') as Hgo.
  { intros ls' rs' s' Hhs' Em'. split; [| | |exists ls', rs'; by rewrite Em'].
    - rewrite <- Ed, Em. eapply fits_leaf_mono; [apply delete_subseteq|done].
    - by rewrite lookup_delete_ne.
    - intros k' v' [_ Hk']%lookup_delete_Some. by apply (Hval k'). }
  destruct (Delete_run fuel 0 ls s k Hrep (flat_descends _ _ _ (fits_flat _ _ Hfit))) as (s1 & ls1 & E1 & Hrep1 & Em1 & Hfr).
  pose proof (hs_frame cfg 0 ls ls1 rs s s1 Hhs Hrep1 Hfr) as Hhs1. rewrite Em, lookup_insert_ne in E1 by done.
  unfold HotSwap.Delete. destruct (m !! k) as [v|] eqn:Hmk.
  - rewrite (bind_ok _ _ _ _ _ E1). destruct (expireLegacyKey_run cfg 0 ls1 rs s1 k c Hhs1 Hpage) as (s2 & E2 & Hhs2 & _).
    { assert (zlen k + zlen v < 2 ^ 30); [|pose proof (zlen_nonneg v); lia]. destruct Hfit as [Hb _].
      pose proof (map_bytes_mono (<[k := v]> ∅) (<[marker := str "1"]> m)) as Hmono.
      rewrite map_bytes_new in Hmono by apply lookup_empty. change (map_bytes ∅) with 0 in Hmono. unfold BTreeHeaderSize, PageSize in Hb.
      assert (<[k := v]> ∅ ⊆ <[marker := str "1"]> m) as Hsub; [|specialize (Hmono Hsub); lia].
      rewrite insert_empty. apply map_singleton_subseteq_l. by rewrite lookup_insert_ne. }
    exists s2. split; [done|]. by eapply Hgo.
  - exists s1. unfold mbind, io_bind. rewrite E1. split; [done|]. by eapply Hgo.
Qed.

Lemma hotswap_law_list rounds txn rd m s p :
  hotswap_stands m s -> has_prefix marker p = false -> (base.size m + 1 < rounds)%nat ->
  exists s', list_prefix (hotswap_store fuel cfg) rounds txn p rd s = (Ok (entries p m), s') /\ hotswap_stands m s'.
Proof.
  intros [Hfit Hmark Hval (ls & rs & Hhs & Em)] Hp Hr.
  destruct (hotswap_list_run fuel cfg rounds txn rd p ls rs s Hhs) as (s' & E & Hhs').
  - rewrite Em. apply Hfit.
  - rewrite Em, lookup_insert_eq, map_size_insert_None by done. rewrite bool_decide_eq_true_2 by by eexists.
    rewrite map_size_empty. lia.
  - rewrite Em, lookup_insert_eq, bool_decide_eq_true_2 in E by by eexists. rewrite entries_insert_other in E by done.
    assert (range (∅ : gmap bytes bytes) = []) as En by by apply Permutation_nil_r; rewrite range_perm, map_to_list_empty.
    rewrite En, app_nil_r in E. exists s'. split; [done|]. split; [done|done|done|by exists ls, rs].
Qed.

Lemma hotswap_law_flush m s : hotswap_stands m s -> exists s', HotSwap.Flush s = (Ok tt, s') /\ hotswap_stands m s'.
Proof.
  intros [Hfit Hmark Hval (ls & rs & Hhs & Em)].
  destruct (btree_flush_run Hsync ls s (hs_tree _ _ _ _ _ Hhs)) as (s' & E & Hrep & Hfr). exists s'. split; [exact E|].
  split; [done|done|done|]. exists ls, rs. split; [by eapply hs_frame|done].
Qed.

Definition hotswap_spec : KVStoreSpec (hotswap_store (D := D) (P := LRUEvictionPolicy) fuel cfg).
Proof.
  refine (mkSpec _ _ _ (hotswap_store fuel cfg) hotswap_stands (fun k => k <> marker) (fun p => has_prefix marker p = false) (fun _ => True)
    (fun m => fits_leaf fuel (<[marker := str "1"]> m)) _ _ _ _ _);
    cbn [hotswap_store kv_Get kv_Put kv_Delete kv_Flush].
  - intros _ rd m s k Hst Hk. by apply hotswap_law_get.
  - intros _ _ _ m s k v Hst _ Hk Hv Hr. by apply hotswap_law_put.
  - intros _ rd m s k Hst _ Hk. by apply hotswap_law_delete.
  - intros rounds txn rd m s p Hst Hp Hr. by apply hotswap_law_list.
  - intros m s Hst. by apply hotswap_law_flush.
Defined.
End Migrated.
