(* ===== verification/KVClients.v ===== *)
(** Clients of the [KVStore] interface cannot tell its implementations apart. *)

From Stdlib Require Import Strings.Byte.
From stdpp Require Import sorting.
From S2P Require Import Common.
From S2P Require Import Prelude.
From S2P Require Import VFS.
From S2P Require Import LRU.
From S2P Require Import Page.
From S2P Require Import Slotted.
From S2P Require Import Telemetry.
From S2P Require Import BufferPool.
From S2P Require Import PoolInv.
From S2P Require Import PoolOps.
From S2P Require Import PoolPins.
From S2P Require Import PoolLatch.
From S2P Require Import WAL.
From S2P Require Import DBPage.
From S2P Require Import DB.
From S2P Require Import DBSpec.
From S2P Require Import BTreePage.
From S2P Require Import BTreeNode.
From S2P Require Import BTree.
From S2P Require Import BTreeSpec.
From S2P Require Import KVStore.
From S2P Require Import KVSpec.
From S2P Require Import KVPut.
From S2P Require Import KVProps.
From S2P Require Import KVReplica.
From S2P Require Import KVReplicaSpec.
From S2P Require Import HotSwap.
From S2P Require Import HotSwapSpec.
From S2P Require Import HotSwapMigrate.
From S2P Require Import Interfaces.
From S2P Require Import InterfaceSpec.
From S2P Require Import HotSwapIter.

Import Iface.

Section Interchangeable.
Context {D F : Type} `{DS : BlockDeviceSpec D} `{RD : !ReliableDevice D} `{MR : MapRange}.
Context `{FS : FileSystemSpec F} `{MC : MirrorCodecSpec}.
Context (Hsync : forall d : D, (Sync d).1 = None) (fuel : nat) (cfg : HotSwap.HotSwapConfig) (Hpage : HotSwap.LegacyPage cfg <> 0).
Context (path : bytes) (ok : F -> Prop) (Hserves : path <> [] -> serves path ok).
Abbreviation marker := (HotSwap.markerKey cfg).

(** A contract that asks less of its clients. *)
Lemma admissible_weaken {S S' T T' I I'} {K : KVStore S T I} {K' : KVStore S' T' I'} (A : KVStoreSpec K) (B : KVStoreSpec K') rounds cs m :
  (forall k, own A k -> own B k) -> (forall p, lists A p -> lists B p) -> (forall k, own A k -> k <> marker) ->
  (forall m, m !! marker = None -> room A m -> room B m) -> m !! marker = None ->
  all_admissible A rounds m cs -> all_admissible B rounds m cs.
Proof.
  intros Ho Hl Hm Hr. revert m. induction cs as [|c cs IH]; intros m Hmark; [done|]. intros [Hc Hcs]. split.
  - destruct c as [k|k v ttl|k|p|]; cbn [admissible] in *; [by apply Ho| |by apply Ho| |done].
    + destruct Hc as (H1' & H2' & H3'). split; [by apply Ho|]. split; [done|]. apply Hr; [|done].
      rewrite lookup_insert_ne; [done|]. by apply Hm.
    + destruct Hc as [H1' H2']. split; [by apply Hl|done].
  - apply IH; [|done]. destruct c as [k|k v ttl|k|p|]; cbn [map_call snd admissible] in *; try done.
    + rewrite lookup_insert_ne; [done|]. by apply Hm, Hc.
    + by rewrite lookup_delete_ne by by apply Hm.
Qed.

(** C6: The B-tree store, the replicating store and the hot-swap store after its
    migration are interchangeable behind the [KVStore] interface: started in states
    that stand for the same map, any sequence of transactions - lookups, insertions,
    deletions, prefix listings and flushes - gets from each of them exactly the
    answers of the finite map, errors included.  The side conditions are those of the
    three contracts: the device does not fail, inserted values are not empty, the map
    always fits in one leaf and is smaller than the fuel and the rounds of a listing,
    the migration marker is neither named nor listed, durable identity keys that are
    inserted are UTF-8 (the mirror file is JSON), the clock of the replicating store
    lies in 0..2^63-1, and, if it has a mirror, the operations on the mirror's
    directory and temporary file succeed. *)
Theorem kv_stores_interchangeable rounds cs m s1 s2 s3 :
  btree_stands fuel m s1 -> replica_stands fuel path ok m s2 -> hotswap_stands fuel cfg m s3 ->
  all_admissible (hotswap_spec Hsync fuel cfg Hpage) rounds m cs ->
  all_admissible (replicated_spec (F := F) Hsync fuel path ok Hserves) rounds m cs ->
  forall now rd, (forall i, timely (first_now (rd i))) ->
  (calls (btree_store (D := D) fuel) rounds cs now rd s1).1 = map_calls cs m /\
  (calls (replicated_store (D := D) (F := F) fuel) rounds cs now rd s2).1 = map_calls cs m /\
  (calls (hotswap_store (D := D) fuel cfg) rounds cs now rd s3).1 = map_calls cs m.
Proof.
  intros Hs1 Hs2 Hs3 Hc Hc2 now rd Ht. pose proof (hw_marker _ _ _ _ Hs3) as Hmark.
  assert (forall m, m !! marker = None -> fits_leaf fuel (<[marker := str "1"]> m) -> fits_leaf fuel m) as Hfit.
  { intros m' Hm' Hf. eapply fits_leaf_mono; [|exact Hf]. by apply insert_subseteq. }
  split; [|split].
  - apply (calls_refine (btree_spec Hsync fuel)); [exact Hs1|done|]. by eapply (admissible_weaken (hotswap_spec Hsync fuel cfg Hpage)).
  - by apply (calls_refine (replicated_spec Hsync fuel path ok Hserves)).
  - by apply (calls_refine (hotswap_spec Hsync fuel cfg Hpage)).
Qed.
End Interchangeable.

(** ** Witnesses *)

#[local] Existing Instance canonical_range.
#[local] Existing Instance map_files.
#[local] Existing Instance map_files_spec.
#[local] Existing Instance map_codec.
#[local] Existing Instance map_codec_spec.

Lemma five_rounds : flat 5 0.
Proof. split; [reflexivity|lia]. Qed.

Lemma demo_page : HotSwap.LegacyPage demo_cfg <> 0.
Proof. discriminate. Qed.

Lemma demo_btree_stands : btree_stands 5 ∅ demo_store.
Proof.
  split; [split; [reflexivity|apply Nat.ltb_lt; reflexivity]|]. exists [(1002, [])]. split; [exact demo_store_rep|reflexivity].
Qed.

Lemma demo_replica_stands : replica_stands 5 (str "db.identity.json") (fun _ => True) ∅ demo_replicated.
Proof.
  split; [split; [reflexivity|apply Nat.ltb_lt; reflexivity]|intros k v; rewrite lookup_empty; discriminate| | |exact demo_ready].
  - exists [(1002, [])], [(1016, [])]. split; [exact demo_twin|]. split; [reflexivity|]. split; [apply map_empty_subseteq|].
    intros k [v Hv]. change (tree_map [(1016, [])]) with (∅ : gmap bytes bytes) in Hv. rewrite lookup_empty in Hv. discriminate.
  - intros k [v Hv]. exfalso. revert Hv. unfold mirror_copy, mirror, Replica.mirrorLoad, demo_replicated.
    cbn [Replica.mirrorPath Replica.files fst]. cbn. rewrite ?lookup_empty. cbn. discriminate.
Qed.

Lemma demo_hot_stands : exists s, hotswap_stands 5 demo_cfg ∅ s.
Proof.
  pose proof (hs_beside demo_cfg demo_store 1002 [] demo_store_rep demo_store_root
    ltac:(unfold page_id_ok; cbn; lia) ltac:(discriminate) demo_store_page5) as Hhs.
  destruct (small_room 0 [(1002, [])] demo_store (HotSwap.markerKey demo_cfg) (str "1") demo_store_rep ltac:(reflexivity)) as [Hkv Hr].
  destruct (Put_ok_run 5 0 _ demo_store (HotSwap.markerKey demo_cfg) (str "1") demo_store_rep
    (flat_descends _ _ _ five_rounds) mem_sync Hkv Hr) as (s & ls & _ & Hrep & Em & Hfr).
  exists s. split; [split; [reflexivity|apply Nat.ltb_lt; reflexivity]|apply lookup_empty|intros k v; rewrite lookup_empty; discriminate|].
  exists ls, []. split; [exact (hs_frame demo_cfg 0 _ ls [] demo_store s Hhs Hrep Hfr)|exact Em].
Qed.

Definition demo_calls : list kv_call :=
  [CallPut (str "data:user:b") (str "2") 0; CallPut (str "data:user:a") (str "1") 0; CallGet (str "data:user:b");
   CallList (str "data:"); CallDelete (str "data:user:b"); CallGet (str "data:user:b"); CallFlush].

Lemma demo_fits (m : gmap bytes bytes) : BTreeHeaderSize + map_bytes m < PageSize -> (base.size m <? 5)%nat = true -> fits_leaf 5 m.
Proof. intros Hb Hs. split; [exact Hb|by apply Nat.ltb_lt]. Qed.

Lemma demo_calls_admissible :
  all_admissible (hotswap_spec (D := MemDevice) mem_sync 5 demo_cfg demo_page) 5 ∅ demo_calls.
Proof.
  assert (forall k, has_prefix k (str "data:") = true -> k <> HotSwap.markerKey demo_cfg) as Hp by (intros k Hk ->; discriminate).
  unfold demo_calls. cbn [all_admissible admissible map_call snd].
  split; [split; [by apply Hp|]; split; [discriminate|]; apply demo_fits; reflexivity|].
  split; [split; [by apply Hp|]; split; [discriminate|]; apply demo_fits; reflexivity|].
  split; [by apply Hp|]. split; [split; [reflexivity|apply Nat.ltb_lt; reflexivity]|].
  split; [by apply Hp|]. split; [by apply Hp|]. split; exact I.
Qed.

Lemma demo_calls_replicated :
  all_admissible (replicated_spec (D := MemDevice) mem_sync 5 (str "db.identity.json") (fun _ => True) (map_files_serve _)) 5 ∅ demo_calls.
Proof.
  unfold demo_calls. cbn [all_admissible admissible map_call snd].
  split; [split; [intros _; vm_compute; reflexivity|]; split; [discriminate|]; apply demo_fits; reflexivity|].
  split; [split; [intros _; vm_compute; reflexivity|]; split; [discriminate|]; apply demo_fits; reflexivity|].
  split; [intros _; vm_compute; reflexivity|]. split; [split; [exact I|apply Nat.ltb_lt; reflexivity]|].
  split; [intros _; vm_compute; reflexivity|]. split; [intros _; vm_compute; reflexivity|]. split; exact I.
Qed.

Lemma kv_stores_interchangeable_witness :
  exists s3, let answers := [Ok []; Ok []; Ok [(str "data:user:b", str "2")];
    Ok [(str "data:user:a", str "1"); (str "data:user:b", str "2")]; Ok []; Err (Msg "key not found"); Ok []] in
  let rd := fun _ : nat => mkReadings 2000 2000 demo_clock in
  forall now, (calls (btree_store 5) 5 demo_calls now rd demo_store).1 = answers /\
    (calls (replicated_store 5) 5 demo_calls now rd demo_replicated).1 = answers /\
    (calls (hotswap_store 5 demo_cfg) 5 demo_calls now rd s3).1 = answers.
Proof.
  destruct demo_hot_stands as (s3 & Hs3). exists s3. intros answers rd now.
  exact (kv_stores_interchangeable mem_sync 5 demo_cfg demo_page (str "db.identity.json") (fun _ => True) (map_files_serve _)
    5 demo_calls ∅ demo_store demo_replicated s3 demo_btree_stands demo_replica_stands Hs3 demo_calls_admissible
    demo_calls_replicated now rd ltac:(intros i; unfold timely; cbn; lia)).
Defined.

(** A key in the tree and on the slotted page is listed twice. *)
Lemma demo_both :
  exists s ls, hs_rep demo_cfg 0 ls [demo_record] s /\ slack 0 (bp (kdb s)) /\ tree_map ls = {[str "k" := str "w"]} /\
    same_txns (kdb demo_fresh) (kdb s).
Proof.
  destruct demo_legacy_run as [[T1 T2] Hhs]. pose proof (hs_tree _ _ _ _ _ Hhs) as Hrep.
  destruct (small_room 0 [(1002, [])] demo_legacy (str "k") (str "w") Hrep ltac:(reflexivity)) as [Hkv Hr].
  destruct (Put_ok_run 5 0 _ demo_legacy (str "k") (str "w") Hrep
    (flat_descends _ _ _ five_rounds) mem_sync Hkv Hr) as (s1 & ls & _ & Hrep1 & Em & Hfr1).
  destruct (btree_flush_run mem_sync ls s1 Hrep1) as (s & E & Hrep2 & Hfr2). exists s, ls.
  split; [apply (hs_frame demo_cfg 0 ls ls _ s1 s); [exact (hs_frame demo_cfg 0 _ ls _ demo_legacy s1 Hhs Hrep1 Hfr1)|exact Hrep2|exact Hfr2]|].
  pose proof (Flush_clean s1 s (kr_inv _ _ _ Hrep1) E) as Hclean. pose proof (kr_frames _ _ _ Hrep2) as Hfr.
  split; [unfold slack, zlen; rewrite Hclean; lia|]. split; [exact Em|].
  destruct (ko_txns _ _ _ (kf_outside _ _ _ Hfr1)) as [A1 A2], (ko_txns _ _ _ (kf_outside _ _ _ Hfr2)) as [B1 B2].
  split; congruence.
Qed.

Lemma hotswap_iterator_lists_both_witness :
  exists s s' l, list_prefix (hotswap_store 5 demo_cfg) 5 (mkBtreeTxn 0) (str "k") (mkReadings 2000 2000 demo_clock) s =
      (Ok ((str "k", str "w") :: l), s') /\ (str "k", str "v") ∈ l.
Proof.
  destruct demo_both as (s & ls & Hhs & Hsl & Em & Ht).
  pose proof (hotswap_iterator_lists_both 5 demo_cfg 5 (mkBtreeTxn 0) (mkReadings 2000 2000 demo_clock) (str "k") ls [demo_record] s Hhs Hsl) as H.
  rewrite (legacy_map_txns demo_cfg _ _ demo_fresh s _ Ht), Em in H.
  destruct (H ltac:(apply Nat.ltb_lt; reflexivity) ltac:(apply Nat.ltb_lt; vm_compute; reflexivity)) as (l & s' & E & _ & _ & Hl).
  exists s, s', l. split; [exact E|]. apply Hl. split; [reflexivity|]. split; [reflexivity|]. split; [reflexivity|].
  rewrite (legacy_value_txns _ demo_fresh s _ _ Ht). vm_compute. reflexivity.
Defined.
