(* ===== verification/UQLLexer.v ===== *)
(** The UQL lexer (query.go section 2): the scanner with its two positions, a
    reference lexer on the unread input, and the round trip of printed tokens. *)

From Stdlib Require Import Strings.Byte.
From S2P Require Import Common.
From S2P Require Import Prelude.
From S2P Require Import Segment.

(** ** Tokens *)

Inductive TokenType :=
| TokenIllegal | TokenEOF | TokenIdent | TokenString | TokenNumber
| TokenSelect | TokenInsert | TokenInto | TokenValues | TokenUpdate | TokenSet | TokenDelete | TokenFrom
| TokenWhere | TokenJoin | TokenOn | TokenAnd | TokenOr | TokenNot | TokenLimit
| TokenHSet | TokenCompressed | TokenRecover | TokenCheckpoint | TokenShow | TokenMetrics
| TokenLParen | TokenRParen | TokenAsterisk | TokenComma | TokenEqual | TokenColon.

#[export] Instance TokenType_eq_decision : EqDecision TokenType.
Proof. solve_decision. Defined.

Record Token := mkToken { Type_ : TokenType; Literal : bytes }.

#[export] Instance Token_eq_decision : EqDecision Token.
Proof. solve_decision. Defined.

(** ** Characters *)

(** [unicode.IsLetter] and [unicode.IsDigit] on a byte taken as a code point,
    that is on Latin-1. *)
Definition IsLetter (ch : byte) : bool :=
  between 65 90 ch || between 97 122 ch || between 0xaa 0xaa ch || between 0xb5 0xb5 ch || between 0xba 0xba ch ||
  between 0xc0 0xd6 ch || between 0xd8 0xf6 ch || between 0xf8 0xff ch.

Definition IsDigit (ch : byte) : bool := between 48 57 ch.

Definition isLetter (ch : byte) : bool := IsLetter ch || bool_decide (ch = x5f).

(** [string(ch)]: the code point in UTF-8. *)
Definition string_of_byte (ch : byte) : bytes :=
  if b2z ch <? 0x80 then [ch]
  else [z2b (Z.lor 0xc0 (Z.shiftr (b2z ch) 6)); z2b (Z.lor 0x80 (Z.land (b2z ch) 0x3f))].

(** [strings.ToUpper] on identifiers, as far as the keyword table can tell: none
    of the characters above 127 an identifier can hold becomes an ASCII letter. *)
Definition ToUpper (bs : bytes) : bytes := (fun b => if between 97 122 b then z2b (b2z b - 32) else b) <$> bs.

Definition keywords : list (bytes * TokenType) := [
  (str "SELECT", TokenSelect); (str "INSERT", TokenInsert); (str "INTO", TokenInto);
  (str "VALUES", TokenValues); (str "UPDATE", TokenUpdate); (str "SET", TokenSet);
  (str "DELETE", TokenDelete); (str "FROM", TokenFrom); (str "WHERE", TokenWhere);
  (str "JOIN", TokenJoin); (str "ON", TokenOn); (str "AND", TokenAnd); (str "OR", TokenOr);
  (str "NOT", TokenNot); (str "LIMIT", TokenLimit); (str "HSET", TokenHSet);
  (str "COMPRESSED", TokenCompressed); (str "RECOVER", TokenRecover);
  (str "CHECKPOINT", TokenCheckpoint); (str "SHOW", TokenShow); (str "METRICS", TokenMetrics)].

Fixpoint lookup_keyword (ident : bytes) (kws : list (bytes * TokenType)) : option TokenType :=
  match kws with
  | [] => None
  | (k, t) :: kws => if bytes_equal ident k then Some t else lookup_keyword ident kws
  end.

Definition LookupIdent (ident : bytes) : TokenType := default TokenIdent (lookup_keyword (ToUpper ident) keywords).

(** ** The scanner *)

Record Lexer := mkLexer { input : bytes; position : nat; readPosition : nat; ch : byte }.

Definition readChar (l : Lexer) : Lexer :=
  mkLexer (input l) (readPosition l) (S (readPosition l)) (default x00 (input l !! readPosition l)).

Definition NewLexer (s : bytes) : Lexer := readChar (mkLexer s 0 0 x00).

(** [for p(l.ch) { l.readChar() }].  The tests fail on a zero byte, so the loop
    ends at the end of the input at the latest; the fuel is one round more than
    there are bytes. *)
Fixpoint read_while (p : byte -> bool) (fuel : nat) (l : Lexer) : Lexer :=
  match fuel with
  | O => l
  | S fuel => if p (ch l) then read_while p fuel (readChar l) else l
  end.

Definition loop_fuel (l : Lexer) : nat := S (length (input l)).

Definition is_space (c : byte) : bool :=
  bool_decide (c = x20) || bool_decide (c = x09) || bool_decide (c = x0a) || bool_decide (c = x0d).

Definition skipWhitespace (l : Lexer) : Lexer := read_while is_space (loop_fuel l) l.

(** [l.input[position:l.position]], with its bounds check. *)
Definition literal (start : nat) (l : Lexer) : result bytes :=
  if bool_decide (start <= position l /\ position l <= length (input l))%nat
  then Ok (take (position l - start) (drop start (input l)))
  else Panic.

Definition ident_char (c : byte) : bool := isLetter c || IsDigit c || bool_decide (c = x2e) || bool_decide (c = x5f).

Definition readIdentifier (l : Lexer) : result bytes * Lexer :=
  let l' := read_while ident_char (loop_fuel l) l in (literal (position l) l', l').

Definition readNumber (l : Lexer) : result bytes * Lexer :=
  let l' := read_while IsDigit (loop_fuel l) l in (literal (position l) l', l').

Definition string_char (c : byte) : bool := negb (bool_decide (c = x27)) && negb (bool_decide (c = x00)).

Definition readString (l : Lexer) : result bytes * Lexer :=
  let l := readChar l in
  let l' := read_while string_char (loop_fuel l) l in
  (literal (position l) l', readChar l').

(** The one-character tokens. *)
Definition symbol (c : byte) : option TokenType :=
  match c with
  | x28 => Some TokenLParen
  | x29 => Some TokenRParen
  | x2a => Some TokenAsterisk
  | x2c => Some TokenComma
  | x3d => Some TokenEqual
  | x3a => Some TokenColon
  | _ => None
  end.

Definition NextToken (l : Lexer) : result Token * Lexer :=
  let l := skipWhitespace l in
  match symbol (ch l) with
  | Some t => (Ok (mkToken t [ch l]), readChar l)
  | None =>
      if bool_decide (ch l = x27) then
        let '(lit, l) := readString l in (lit ≫= fun lit => Ok (mkToken TokenString lit), l)
      else if bool_decide (ch l = x00) then (Ok (mkToken TokenEOF []), readChar l)
      else if isLetter (ch l) then
        let '(lit, l) := readIdentifier l in (lit ≫= fun lit => Ok (mkToken (LookupIdent lit) lit), l)
      else if IsDigit (ch l) then
        let '(lit, l) := readNumber l in (lit ≫= fun lit => Ok (mkToken TokenNumber lit), l)
      else (Ok (mkToken TokenIllegal (string_of_byte (ch l))), readChar l)
  end.

(** ** The reference lexer, on the input from the current character on *)

Fixpoint take_while (p : byte -> bool) (bs : bytes) : bytes :=
  match bs with b :: bs' => if p b then b :: take_while p bs' else [] | [] => [] end.

Fixpoint drop_while (p : byte -> bool) (bs : bytes) : bytes :=
  match bs with b :: bs' => if p b then drop_while p bs' else bs | [] => [] end.

Definition lex (bs : bytes) : Token * bytes :=
  match drop_while is_space bs with
  | [] => (mkToken TokenEOF [], [])
  | (c :: bs') as rest =>
      match symbol c with
      | Some t => (mkToken t [c], bs')
      | None =>
          if bool_decide (c = x27) then (mkToken TokenString (take_while string_char bs'), tail (drop_while string_char bs'))
          else if bool_decide (c = x00) then (mkToken TokenEOF [], bs')
          else if isLetter c then
            let lit := take_while ident_char rest in (mkToken (LookupIdent lit) lit, drop_while ident_char rest)
          else if IsDigit c then (mkToken TokenNumber (take_while IsDigit rest), drop_while IsDigit rest)
          else (mkToken TokenIllegal (string_of_byte c), bs')
      end
  end.

Example lex_demo :
  let l := NewLexer (str "SELECT * from t WHERE 'a b' LIMIT 10") in
  (NextToken l).1 = Ok (mkToken TokenSelect (str "SELECT")) /\
  (NextToken (NextToken (NextToken l).2).2).1 = Ok (mkToken TokenFrom (str "from")).
Proof. vm_compute. done. Qed.

(** ** The scanner implements the reference *)

(** The scanner stands before the unread input [bs]. *)
Record scans (l : Lexer) (bs : bytes) : Prop := {
  sc_next : readPosition l = S (position l);
  sc_ch : ch l = default x00 (head bs);
  sc_rest : bs = drop (position l) (input l)
}.

Lemma tail_drop_S {A} n (l : list A) : tail (drop n l) = drop (S n) l.
Proof. revert n. induction l as [|x l IH]; intros [|n]; cbn; [done..|]. by rewrite IH. Qed.

Lemma scans_new s : scans (NewLexer s) s.
Proof. split; [done| |by rewrite drop_0]. cbn. by destruct s. Qed.

Lemma scans_readChar l bs : scans l bs -> scans (readChar l) (tail bs).
Proof.
  intros [H1 H2 H3]. split; cbn.
  - done.
  - rewrite H1, H3. by rewrite tail_drop_S, head_lookup, lookup_drop, Nat.add_0_r.
  - by rewrite H1, H3, tail_drop_S.
Qed.

Lemma scans_length l bs : scans l bs -> (length bs <= length (input l))%nat.
Proof. intros [_ _ ->]. rewrite length_drop. lia. Qed.

(** What a loop reads is the slice between the two positions. *)
Lemma while_split p bs : bs = take_while p bs ++ drop_while p bs.
Proof. induction bs as [|b bs IH]; cbn; [done|]. destruct (p b); cbn; [by rewrite <- IH|done]. Qed.

Lemma read_while_run p l bs fuel :
  p x00 = false -> scans l bs -> (length bs < fuel)%nat ->
  scans (read_while p fuel l) (drop_while p bs) /\ input (read_while p fuel l) = input l /\
  position (read_while p fuel l) = (position l + length (take_while p bs))%nat.
Proof.
  intros Hp. revert l bs. induction fuel as [|fuel IH]; intros l bs Hl Hf; [lia|]. cbn [read_while].
  rewrite (sc_ch _ _ Hl). destruct bs as [|b bs]; cbn [head default take_while drop_while].
  - rewrite Hp. split; [done|]. split; [done|]. cbn. lia.
  - cbn [from_option id]. destruct (p b); [|split; [done|]; split; [done|]; cbn; lia].
    destruct (IH (readChar l) bs) as (H1 & H2 & H3); [by apply (scans_readChar l (b :: bs))|cbn in Hf; lia|].
    split; [done|]. split; [by rewrite H2|]. rewrite H3. cbn. rewrite (sc_next _ _ Hl). lia.
Qed.

Lemma literal_run p l bs :
  p x00 = false -> scans l bs -> (position l <= length (input l))%nat ->
  literal (position l) (read_while p (loop_fuel l) l) = Ok (take_while p bs) /\
  scans (read_while p (loop_fuel l) l) (drop_while p bs).
Proof.
  intros Hp Hl Hpos. pose proof (scans_length l bs Hl) as Hlen.
  destruct (read_while_run p l bs (loop_fuel l) Hp Hl) as (H1 & H2 & H3); [unfold loop_fuel; lia|].
  split; [|done]. unfold literal. rewrite H2, H3, <- (sc_rest _ _ Hl), (while_split p bs).
  rewrite bool_decide_eq_true_2.
  - rewrite <- (while_split p bs). replace (_ - _)%nat with (length (take_while p bs)) by lia.
    rewrite (while_split p bs) at 2. by rewrite take_app_length.
  - rewrite <- (while_split p bs). pose proof (f_equal length (while_split p bs)) as E. rewrite length_app in E.
    pose proof (f_equal length (sc_rest _ _ Hl)) as E2. rewrite length_drop in E2. lia.
Qed.

(** A zero byte is no part of a literal. *)
Lemma tests_stop : is_space x00 = false /\ ident_char x00 = false /\ IsDigit x00 = false /\ string_char x00 = false.
Proof. done. Qed.

Lemma scans_inside l b bs : scans l (b :: bs) -> (position l < length (input l))%nat.
Proof. intros [_ _ E]. apply (f_equal length) in E. rewrite length_drop in E. cbn in E. lia. Qed.

Lemma NextToken_lex l bs :
  scans l bs -> exists l', NextToken l = (Ok (lex bs).1, l') /\ scans l' (lex bs).2.
Proof.
  intros Hl. pose proof (scans_length l bs Hl) as Hlen. unfold NextToken, lex, skipWhitespace.
  destruct (read_while_run is_space l bs (loop_fuel l) (proj1 tests_stop) Hl) as (Hs & _ & _); [unfold loop_fuel; lia|].
  set (l1 := read_while is_space (loop_fuel l) l) in *. destruct (drop_while is_space bs) as [|c rest].
  - rewrite (sc_ch _ _ Hs). cbn. eexists. split; [reflexivity|]. exact (scans_readChar _ _ Hs).
  - pose proof (scans_inside _ _ _ Hs) as Hin. rewrite (sc_ch _ _ Hs). cbn [head default from_option id].
    pose proof (scans_readChar _ _ Hs) as Hs'. cbn [tail] in Hs'.
    destruct (symbol c); [by eexists|]. case_bool_decide as Hq.
    { unfold readString. destruct (literal_run string_char (readChar l1) rest) as [E H]; [done|done| |].
      - change (readPosition l1 <= length (input l1))%nat. rewrite (sc_next _ _ Hs). lia.
      - rewrite E. eexists. split; [reflexivity|]. exact (scans_readChar _ _ H). }
    case_bool_decide as Hz; [by eexists|].
    destruct (isLetter c); [|destruct (IsDigit c); [|by eexists]].
    + unfold readIdentifier. destruct (literal_run ident_char l1 (c :: rest)) as [E H]; [done|done|lia|].
      rewrite E. eexists. split; [reflexivity|exact H].
    + unfold readNumber. destruct (literal_run IsDigit l1 (c :: rest)) as [E H]; [done|done|lia|].
      rewrite E. eexists. split; [reflexivity|exact H].
Qed.

(** Each token takes at least one byte, and at the end there is only the end. *)
Lemma drop_while_length p bs : (length (drop_while p bs) <= length bs)%nat.
Proof. induction bs as [|b bs IH]; cbn; [done|]. destruct (p b); cbn; lia. Qed.

Lemma lex_progress bs : bs <> [] -> (length (lex bs).2 < length bs)%nat.
Proof.
  intros Hne. unfold lex. pose proof (drop_while_length is_space bs) as Hl.
  destruct (drop_while is_space bs) as [|c rest]; [by destruct bs; cbn in *; [|lia]|]. cbn in Hl.
  destruct (symbol c); [cbn; lia|]. case_bool_decide; cbn [snd].
  { pose proof (drop_while_length string_char rest). rewrite length_tl. lia. }
  case_bool_decide; [cbn; lia|]. destruct (isLetter c) eqn:E; [|destruct (IsDigit c) eqn:E2; [|cbn; lia]]; cbn [snd drop_while].
  - assert (ident_char c = true) as -> by (unfold ident_char; by rewrite E).
    pose proof (drop_while_length ident_char rest). lia.
  - rewrite E2. pose proof (drop_while_length IsDigit rest). lia.
Qed.

(** ** Printed tokens are read back *)

Definition print_token (t : Token) : bytes :=
  match Type_ t with TokenString => x27 :: Literal t ++ [x27] | _ => Literal t end.

(** Tokens with a space after each. *)
Definition print_tokens (ts : list Token) : bytes := ts ≫= fun t => print_token t ++ [x20].

(** Tokens the lexer can produce from their own text. *)
Definition wf_token (t : Token) : bool :=
  match Type_ t, Literal t with
  | TokenString, lit => forallb string_char lit
  | TokenNumber, (_ :: _) as lit => forallb IsDigit lit
  | ty, c :: lit =>
      if isLetter c then forallb ident_char lit && bool_decide (ty = LookupIdent (c :: lit))
      else bool_decide (lit = [] /\ symbol c = Some ty)
  | _, _ => false
  end.

Lemma while_all p lit c rest :
  forallb p lit = true -> p c = false -> take_while p (lit ++ c :: rest) = lit /\ drop_while p (lit ++ c :: rest) = c :: rest.
Proof.
  intros Hl Hc. induction lit as [|b lit IH]; cbn in *; [by rewrite Hc|].
  apply andb_true_iff in Hl as [-> Hl]. by destruct (IH Hl) as [-> ->].
Qed.

Lemma isLetter_shape c :
  isLetter c = true -> is_space c = false /\ symbol c = None /\ c <> x27 /\ c <> x00 /\ ident_char c = true.
Proof. by destruct c. Qed.

Lemma IsDigit_shape c : IsDigit c = true -> is_space c = false /\ symbol c = None /\ c <> x27 /\ c <> x00 /\ isLetter c = false.
Proof. by destruct c. Qed.

Lemma symbol_shape c t : symbol c = Some t -> is_space c = false.
Proof. by destruct c. Qed.

Lemma lex_space bs : lex (x20 :: bs) = lex bs.
Proof. done. Qed.

(** Words and numbers. *)
Lemma lex_word c lit rest :
  isLetter c = true -> forallb ident_char lit = true ->
  lex ((c :: lit) ++ x20 :: rest) = (mkToken (LookupIdent (c :: lit)) (c :: lit), x20 :: rest).
Proof.
  intros Hc Hl. pose proof (isLetter_shape c Hc) as (H1 & H2 & H3 & H4 & H5). unfold lex. cbn [app drop_while].
  rewrite H1, H2, !bool_decide_eq_false_2, Hc by done. cbn [take_while drop_while]. rewrite H5.
  by destruct (while_all ident_char lit x20 rest Hl) as [-> ->].
Qed.

Lemma lex_number c lit rest :
  forallb IsDigit (c :: lit) = true -> lex ((c :: lit) ++ x20 :: rest) = (mkToken TokenNumber (c :: lit), x20 :: rest).
Proof.
  cbn [forallb]. intros [Hc Hl]%andb_true_iff. pose proof (IsDigit_shape c Hc) as (H1 & H2 & H3 & H4 & H5). unfold lex.
  cbn [app drop_while]. rewrite H1, H2, !bool_decide_eq_false_2, H5, Hc by done. cbn [take_while drop_while]. rewrite Hc.
  by destruct (while_all IsDigit lit x20 rest Hl) as [-> ->].
Qed.

Lemma lex_string lit rest :
  forallb string_char lit = true -> lex (x27 :: lit ++ x27 :: rest) = (mkToken TokenString lit, rest).
Proof.
  intros Hl. unfold lex. cbn [drop_while]. change (is_space x27) with false. cbv iota. change (symbol x27) with (@None TokenType). cbv iota.
  rewrite bool_decide_eq_true_2 by done. by destruct (while_all string_char lit x27 rest Hl eq_refl) as [-> ->].
Qed.

Lemma lex_symbol c ty rest : symbol c = Some ty -> lex (c :: rest) = (mkToken ty [c], rest).
Proof. intros H. unfold lex. cbn [drop_while]. by rewrite (symbol_shape c ty H), H. Qed.

Lemma lex_print t rest : wf_token t = true -> lex (print_token t ++ x20 :: rest) = (t, x20 :: rest).
Proof.
  destruct t as [ty lit]. unfold wf_token, print_token. cbn [Type_ Literal]. intros Hwf.
  destruct (decide (ty = TokenString)) as [->|Hs].
  { cbn. rewrite <- app_assoc. by apply lex_string. }
  destruct (decide (ty = TokenNumber)) as [->|Hn].
  { destruct lit as [|c lit]; [done|]. by apply lex_number. }
  destruct lit as [|c lit]; [by destruct ty|].
  assert ((if isLetter c then forallb ident_char lit && bool_decide (ty = LookupIdent (c :: lit))
      else bool_decide (lit = [] /\ symbol c = Some ty)) = true) as H by by destruct ty.
  assert ((match ty with TokenString => x27 :: (c :: lit) ++ [x27] | _ => c :: lit end) = c :: lit) as -> by by destruct ty.
  destruct (isLetter c) eqn:Hc.
  - apply andb_true_iff in H as [Hl ->%bool_decide_eq_true]. by apply lex_word.
  - apply bool_decide_eq_true in H as [-> H]. by apply lex_symbol.
Qed.

(** The first [n] tokens of a scanner. *)
Fixpoint read_tokens (n : nat) (l : Lexer) : list (result Token) :=
  match n with O => [] | S n => let '(t, l) := NextToken l in t :: read_tokens n l end.

Fixpoint lex_tokens (n : nat) (bs : bytes) : list Token :=
  match n with O => [] | S n => let '(t, bs) := lex bs in t :: lex_tokens n bs end.

Lemma read_tokens_lex n l bs : scans l bs -> read_tokens n l = Ok <$> lex_tokens n bs.
Proof.
  revert l bs. induction n as [|n IH]; intros l bs Hl; cbn; [done|].
  destruct (NextToken_lex l bs Hl) as (l' & -> & Hl'). destruct (lex bs) as [t bs']. cbn in *. by rewrite (IH l' bs').
Qed.

Lemma lex_tokens_space n bs : lex_tokens n (x20 :: bs) = lex_tokens n bs.
Proof. destruct n; cbn [lex_tokens]; [done|]. by rewrite lex_space. Qed.

Lemma lex_tokens_end n : lex_tokens n [] = repeat (mkToken TokenEOF []) n.
Proof. induction n as [|n IH]; cbn; [done|]. by rewrite IH. Qed.

Lemma lex_tokens_print ts n :
  forallb wf_token ts = true -> lex_tokens (length ts + n) (print_tokens ts) = ts ++ repeat (mkToken TokenEOF []) n.
Proof.
  induction ts as [|t ts IH]; cbn; [intros _; apply lex_tokens_end|]. intros [Ht Hts]%andb_true_iff.
  change (mbind (fun t => print_token t ++ [x20]) ts) with (print_tokens ts).
  rewrite <- app_assoc. cbn [app]. rewrite lex_print by done. by rewrite lex_tokens_space, IH.
Qed.

(** ** Properties *)

(** The lexer reads printed tokens back and then reports the end of the
    input as often as it is asked; and on every input whatever each call returns
    a token (no slice is out of range). *)
Theorem lexer_roundtrip :
  (forall ts n, forallb wf_token ts = true ->
     read_tokens (length ts + n) (NewLexer (print_tokens ts)) = Ok <$> ts ++ repeat (mkToken TokenEOF []) n) /\
  (forall s n, exists ts, read_tokens n (NewLexer s) = Ok <$> ts).
Proof.
  split.
  - intros ts n Hts. by rewrite (read_tokens_lex _ _ (print_tokens ts)), lex_tokens_print by (done || apply scans_new).
  - intros s n. exists (lex_tokens n s). apply read_tokens_lex, scans_new.
Qed.
