(* ===== verification/UQLParser.v ===== *)
(** The UQL parser (query.go sections 3 to 8, the parse functions): two tokens of
    lookahead over the lexer, one function per statement. *)

From Stdlib Require Import Strings.Byte.
From S2P Require Import Common.
From S2P Require Import Prelude.
From S2P Require Import Segment.
From S2P Require Import Query.
From S2P Require Import UQLLexer.

(** ** Numbers (package strconv, [%d] of package fmt) *)

Fixpoint print_digits (fuel : nat) (n : Z) (acc : bytes) : bytes :=
  match fuel with
  | O => acc
  | S fuel =>
      let acc := z2b (48 + n mod 10) :: acc in
      if n <? 10 then acc else print_digits fuel (n / 10) acc
  end.

(** [fmt.Sprintf("%d", n)] for a 64-bit [n]: at most 20 digits. *)
Definition Sprintf_d (n : Z) : bytes := print_digits 20 n [].

Fixpoint digits_value (s : bytes) (n : Z) : option Z :=
  match s with
  | [] => Some n
  | c :: s => if IsDigit c then digits_value s (10 * n + (b2z c - 48)) else None
  end.

(** [strconv.ParseUint(s, 10, 64)]. *)
Definition ParseUint (s : bytes) : option Z :=
  if bool_decide (s = []) then None
  else n ← digits_value s 0; if n <? 2 ^ 64 then Some n else None.

(** [strconv.Atoi]. *)
Definition Atoi (s : bytes) : option Z :=
  let '(sign, s) := match s with x2d :: s => (-1, s) | x2b :: s => (1, s) | _ => (1, s) end in
  if bool_decide (s = []) then None
  else
    n ← digits_value s 0;
    let n := sign * n in
    if (- 2 ^ 63 <=? n) && (n <? 2 ^ 63) then Some n else None.

(** [strings.Join]. *)
Fixpoint Join (ss : list bytes) (sep : bytes) : bytes :=
  match ss with [] => [] | [s] => s | s :: ss => s ++ sep ++ Join ss sep end.

(** ** Statements *)

Inductive UQLStatement :=
| HSetStatement (HashKey Field Value : bytes)
| SelectStatement (Filter : Query) (Limit : Z) (IsCompressed : bool) (JoinTable JoinOnLeft JoinOnRight : bytes)
| RecoverStatement
| CheckpointStatement
| MetricsStatement
| InsertStatement (DocID : Z) (Value : bytes) (IsCompressed : bool)
| UpdateStatement (Filter : Query) (NewValue : bytes)
| DeleteStatement (Filter : Query).

(** ** The parser *)

Record ParserUQL := mkParser { lexer : Lexer; curTok : Token; peekTok : Token }.

Abbreviation parser := (io ParserUQL).

Definition nextToken : parser unit := fun p =>
  match NextToken (lexer p) with
  | (Ok t, l) => (Ok tt, mkParser l (peekTok p) t)
  | (Err e, l) => (Err e, mkParser l (peekTok p) (peekTok p))
  | (Panic, l) => (Panic, mkParser l (peekTok p) (peekTok p))
  | (Hang, l) => (Hang, mkParser l (peekTok p) (peekTok p))
  end.

(** The zero token is of the first type, [TokenIllegal]. *)
Definition zero_token : Token := mkToken TokenIllegal [].

Definition NewParserUQL (s : bytes) : result unit * ParserUQL :=
  (_ ← nextToken; nextToken) (mkParser (NewLexer s) zero_token zero_token).

Definition cur : parser Token := fun p => (Ok (curTok p), p).

Definition cur_is (t : TokenType) : parser bool := tok ← cur; mret (bool_decide (Type_ tok = t)).

(** [if p.curTok.Type != t { return errors.New(msg) }]. *)
Definition expect (t : TokenType) (msg : string) : parser unit :=
  b ← cur_is t; if (b : bool) then mret tt else of_result (Err (Msg msg)).

Fixpoint skip_tokens (n : nat) : parser unit :=
  match n with O => mret tt | S n => _ ← nextToken; skip_tokens n end.

(** [for p.curTok.Type != TokenEOF && ... { remaining = append(...); p.nextToken() }].
    Each round but the first two takes a token off the unread input. *)
Fixpoint collect_loop (stop : TokenType -> bool) (fuel : nat) (remaining : list bytes) : parser (list bytes) :=
  match fuel with
  | O => of_result Hang
  | S fuel =>
      tok ← cur;
      if stop (Type_ tok) then mret remaining
      else _ ← nextToken; collect_loop stop fuel (remaining ++ [Literal tok])
  end.

Definition collect_until (stop : TokenType -> bool) : parser (list bytes) := fun p =>
  collect_loop stop (length (input (lexer p)) + 3) [] p.

Definition at_end (t : TokenType) : bool := bool_decide (t = TokenEOF).
Definition at_limit (t : TokenType) : bool := bool_decide (t = TokenEOF) || bool_decide (t = TokenLimit).

(** [ParseQuery(strings.ToLower(strings.Join(remaining, " ")))]. *)
Definition parse_filter (remaining : list bytes) : result Query := ParseQuery (ToLower (Join remaining (str " "))).

Definition parseHSet : parser UQLStatement :=
  _ ← nextToken;
  hKey ← cur;
  _ ← nextToken;
  field ← cur;
  _ ← nextToken;
  val ← cur;
  mret (HSetStatement (Literal hKey) (Literal field) (Literal val)).

(** The [JOIN] clause. *)
Definition parse_join : parser (bytes * bytes * bytes) :=
  b ← cur_is TokenJoin;
  if (b : bool)
  then
    _ ← nextToken;
    table ← cur;
    _ ← nextToken;
    _ ← expect TokenOn "expected ON relationship match";
    _ ← nextToken;
    lhs ← cur;
    _ ← nextToken;
    _ ← nextToken;
    rhs ← cur;
    _ ← nextToken;
    mret (Literal table, Literal lhs, Literal rhs)
  else mret ([], [], []).

(** The [LIMIT] clause. *)
Definition parse_limit : parser Z :=
  b ← cur_is TokenLimit;
  if (b : bool)
  then _ ← nextToken; tok ← cur; mret (default 100 (Atoi (Literal tok)))
  else mret 100.

Definition parseSelect : parser UQLStatement :=
  _ ← nextToken;
  compressed ← cur_is TokenCompressed;
  _ ← (if (compressed : bool) then nextToken else mret tt);
  b ← cur_is TokenAsterisk;
  _ ← (if (b : bool) then nextToken else mret tt);
  _ ← expect TokenFrom "expected FROM keyword";
  _ ← nextToken;
  _ ← nextToken;
  '(table, lhs, rhs) ← parse_join;
  _ ← expect TokenWhere "missing conditional WHERE boundary";
  _ ← nextToken;
  remaining ← collect_until at_limit;
  limit ← parse_limit;
  ast ← of_result (parse_filter remaining);
  mret (SelectStatement ast limit compressed table lhs rhs).

Definition parseInsert : parser UQLStatement :=
  _ ← nextToken;
  isComp ← cur_is TokenCompressed;
  _ ← (if (isComp : bool) then nextToken else mret tt);
  _ ← nextToken;
  _ ← nextToken;
  _ ← expect TokenValues "expected VALUES clause modifier entry flag";
  _ ← nextToken;
  _ ← nextToken;
  tok ← cur;
  match ParseUint (Literal tok) with
  | None => of_result (Err (Wrap "invalid insert identifier token" (Msg "strconv.ParseUint")))
  | Some id =>
      _ ← nextToken;
      _ ← nextToken;
      content ← cur;
      mret (InsertStatement id (Literal content) isComp)
  end.

Definition parseUpdate : parser UQLStatement :=
  _ ← skip_tokens 5;
  newVal ← cur;
  _ ← skip_tokens 2;
  _ ← expect TokenWhere "expected WHERE parameter boundary definitions";
  _ ← nextToken;
  remaining ← collect_until at_end;
  ast ← of_result (parse_filter remaining);
  mret (UpdateStatement ast (Literal newVal)).

Definition parseDelete : parser UQLStatement :=
  _ ← skip_tokens 4;
  _ ← expect TokenWhere "missing conditional parameters";
  _ ← nextToken;
  remaining ← collect_until at_end;
  ast ← of_result (parse_filter remaining);
  mret (DeleteStatement ast).

Definition parse_statement : parser UQLStatement := fun p =>
  match Type_ (curTok p) with
  | TokenSelect => parseSelect p
  | TokenInsert => parseInsert p
  | TokenUpdate => parseUpdate p
  | TokenDelete => parseDelete p
  | TokenHSet => parseHSet p
  | TokenRecover => (Ok RecoverStatement, p)
  | TokenCheckpoint => (Ok CheckpointStatement, p)
  | TokenShow =>
      if bool_decide (Type_ (peekTok p) = TokenMetrics) then (Ok MetricsStatement, p)
      else (Err (Msg "unexpected target after SHOW"), p)
  | _ => (Err (Msg "unknown statement syntax mapping"), p)
  end.

Definition ParseUQL (s : bytes) : result UQLStatement :=
  match NewParserUQL s with
  | (Ok _, p) => (parse_statement p).1
  | (Err e, _) => Err e
  | (Panic, _) => Panic
  | (Hang, _) => Hang
  end.

Example ParseUQL_demo :
  ParseUQL (str "INSERT INTO docs VALUES (7, 'the text')") = Ok (InsertStatement 7 (str "the text") false) /\
  ParseUQL (str "select * from docs where alpha limit 5") = Ok (SelectStatement (TermQuery (str "alpha")) 5 false [] [] []) /\
  ParseUQL (str "SELECT * FROM docs WHERE adversarial AND ai") = Ok (SelectStatement (TermQuery (str "adversarial")) 100 false [] [] []) /\
  ParseUQL (str "UPDATE t SET f = 'v' WHERE a") = Err (Msg "expected WHERE parameter boundary definitions") /\
  ParseUQL (str "DELETE FROM t WHERE a") = Err (Msg "missing conditional parameters") /\
  Sprintf_d 18446744073709551615 = str "18446744073709551615".
Proof. vm_compute. done. Qed.
