(* ===== verification/UQLParserSpec.v ===== *)
(** What the UQL parser does: it always returns, statements of the documented
    forms are read back, and where it departs from its grammar. *)

From Stdlib Require Import Strings.Byte.
From S2P Require Import Common.
From S2P Require Import Prelude.
From S2P Require Import Segment.
From S2P Require Import Query.
From S2P Require Import UQLLexer.
From S2P Require Import UQLParser.

(** ** Every parse returns *)

Definition scanning (p : ParserUQL) : Prop := exists bs, scans (lexer p) bs.

(** A piece of the parser that returns, wherever the scanner stands. *)
Definition safe {A} (m : parser A) : Prop :=
  forall p, scanning p -> returns (m p).1 = true /\ scanning (m p).2.

Create HintDb safe discriminated.

Lemma safe_ret {A} (a : A) : safe (mret a : parser A).
Proof. by intros p Hp. Qed.

Lemma safe_of_result {A} (r : result A) : returns r = true -> safe (of_result r : parser A).
Proof. by intros Hr p Hp. Qed.

Lemma safe_bind {A B} (m : parser A) (f : A -> parser B) : safe m -> (forall a, safe (f a)) -> safe (m ≫= f).
Proof.
  intros Hm Hf p Hp. destruct (Hm p Hp) as [H1 H2]. unfold mbind, io_bind.
  destruct (m p) as [[a|e| |] p']; cbn in *; [by apply Hf|done..].
Qed.

Lemma safe_if {A} (b : bool) (m1 m2 : parser A) : safe m1 -> safe m2 -> safe (if b then m1 else m2).
Proof. by destruct b. Qed.

Lemma nextToken_run p bs :
  scans (lexer p) bs -> exists l, nextToken p = (Ok tt, mkParser l (peekTok p) (lex bs).1) /\ scans l (lex bs).2.
Proof.
  intros Hs. destruct (NextToken_lex _ _ Hs) as (l & E & Hl). exists l. split; [|done]. unfold nextToken. by rewrite E.
Qed.

Lemma safe_next : safe nextToken.
Proof. intros p [bs Hs]. destruct (nextToken_run p bs Hs) as (l & -> & Hl). split; [done|]. by exists (lex bs).2. Qed.

Lemma safe_cur : safe cur.
Proof. by intros p Hp. Qed.

#[local] Hint Resolve safe_ret safe_bind safe_if safe_next safe_cur : safe.

Lemma safe_cur_is t : safe (cur_is t).
Proof. unfold cur_is. auto with safe. Qed.

Lemma safe_skip n : safe (skip_tokens n).
Proof. induction n as [|n IH]; cbn [skip_tokens]; auto with safe. Qed.

Lemma safe_expect t msg : safe (expect t msg).
Proof. unfold expect. apply safe_bind; [apply safe_cur_is|]. intros []; [apply safe_ret | by apply safe_of_result]. Qed.

(** The tokens left before the end, at most. *)
Definition left_over (p : ParserUQL) (bs : bytes) : nat :=
  if at_end (Type_ (curTok p)) then 0
  else if at_end (Type_ (peekTok p)) then 1 else length bs + 2.

Lemma collect_loop_returns stop fuel acc p bs :
  stop TokenEOF = true -> scans (lexer p) bs -> (left_over p bs < fuel)%nat ->
  returns (collect_loop stop fuel acc p).1 = true /\ scanning (collect_loop stop fuel acc p).2.
Proof.
  intros Hstop. revert acc p bs. induction fuel as [|fuel IH]; intros acc p bs Hs Hf; [lia|].
  cbn [collect_loop]. rewrite (bind_ok cur _ p (curTok p) p eq_refl).
  destruct (stop (Type_ (curTok p))) eqn:Est; [by split; [|exists bs]|].
  destruct (nextToken_run p bs Hs) as (l & E & Hl). rewrite (bind_ok _ _ _ _ _ E). apply (IH _ (mkParser _ _ _) _ Hl).
  unfold left_over, at_end in *. cbn [curTok peekTok]. revert Hf.
  rewrite (bool_decide_eq_false_2 (Type_ (curTok p) = TokenEOF)) by (intros H; by rewrite H, Hstop in Est).
  case_bool_decide; [lia|]. destruct bs as [|b bs]; [rewrite bool_decide_eq_true_2 by done; cbn; lia|]. pose proof (lex_progress (b :: bs) ltac:(done)).
  case_bool_decide; lia.
Qed.

Lemma safe_collect stop : stop TokenEOF = true -> safe (collect_until stop).
Proof.
  intros Hstop p [bs Hs]. unfold collect_until. apply (collect_loop_returns _ _ _ _ bs); [done..|].
  pose proof (scans_length _ _ Hs). unfold left_over. repeat case_match; lia.
Qed.

Lemma parse_filter_returns ws : returns (parse_filter ws) = true.
Proof. unfold parse_filter. pose proof (ParseQuery_returns (ToLower (Join ws (str " ")))) as H. by destruct (ParseQuery _). Qed.

Lemma safe_filter ws : safe (of_result (parse_filter ws)).
Proof. apply safe_of_result, parse_filter_returns. Qed.

#[local] Hint Resolve safe_cur_is safe_skip safe_expect safe_filter : safe.
#[local] Hint Extern 1 (safe (collect_until _)) => by apply safe_collect : safe.
#[local] Hint Extern 1 (safe (of_result (Err _))) => by apply safe_of_result : safe.

Lemma safe_parse_join : safe parse_join.
Proof. unfold parse_join. auto 20 with safe. Qed.

Lemma safe_parse_limit : safe parse_limit.
Proof. unfold parse_limit. auto 20 with safe. Qed.
#[local] Hint Resolve safe_parse_join safe_parse_limit : safe.

Lemma safe_parse_statement : safe parse_statement.
Proof.
  intros p Hp. unfold parse_statement.
  assert (safe parseSelect).
  { unfold parseSelect. do 8 (apply safe_bind; [auto with safe|intros ?]). apply safe_bind; [auto with safe|].
    intros [[table lhs] rhs]. auto 20 with safe. }
  assert (safe parseInsert).
  { unfold parseInsert. do 8 (apply safe_bind; [auto with safe|intros ?]). apply safe_bind; [auto with safe|].
    intros tok. destruct (ParseUint (Literal tok)); auto 10 with safe. }
  assert (safe parseUpdate) by (unfold parseUpdate; auto 20 with safe).
  assert (safe parseDelete) by (unfold parseDelete; auto 20 with safe).
  assert (safe parseHSet) by (unfold parseHSet; auto 20 with safe).
  destruct (Type_ (curTok p)); auto. by case_bool_decide.
Qed.

Lemma ParseUQL_returns s : returns (ParseUQL s) = true.
Proof.
  unfold ParseUQL. assert (safe (_ ← nextToken; nextToken)) as Hn by auto with safe.
  destruct (Hn (mkParser (NewLexer s) zero_token zero_token)) as [H1 H2]; [by exists s; apply scans_new|].
  unfold NewParserUQL. destruct ((_ ← nextToken; nextToken) _) as [[[]|e| |] p]; cbn in *; try done.
  by apply safe_parse_statement.
Qed.

(** ** Parsing a known sequence of tokens *)

Definition eof_token : Token := mkToken TokenEOF [].

(** The input starts with these tokens. *)
Fixpoint yields (bs : bytes) (ts : list Token) : Prop :=
  match ts with [] => True | t :: ts => (lex bs).1 = t /\ yields (lex bs).2 ts end.

Lemma yields_tokens ts bs : lex_tokens (length ts) bs = ts <-> yields bs ts.
Proof.
  revert bs. induction ts as [|t ts IH]; intros bs; cbn; [done|]. destruct (lex bs) as [t' bs']. cbn. rewrite <- IH.
  split; [by intros [= -> ->] | by intros [-> ->]].
Qed.

Lemma yields_print ts n : forallb wf_token ts = true -> yields (print_tokens ts) (ts ++ repeat eof_token n).
Proof. intros H. apply yields_tokens. rewrite length_app, repeat_length. by apply lex_tokens_print. Qed.

(** The parser stands at the head of these tokens. *)
Definition feeds (p : ParserUQL) (ts : list Token) : Prop :=
  match ts with
  | t0 :: t1 :: ts => curTok p = t0 /\ peekTok p = t1 /\ exists bs, scans (lexer p) bs /\ yields bs ts
  | _ => False
  end.

Lemma nextToken_feeds p t0 t1 t2 ts :
  feeds p (t0 :: t1 :: t2 :: ts) -> exists p', nextToken p = (Ok tt, p') /\ feeds p' (t1 :: t2 :: ts).
Proof.
  intros (_ & H1 & bs & Hs & [H2 Hy]). destruct (nextToken_run p bs Hs) as (l & E & Hl).
  eexists. split; [exact E|]. by split; [|split; [|exists (lex bs).2]].
Qed.

Lemma feeds_scanning p ts : feeds p ts -> scanning p.
Proof. destruct ts as [|t0 [|t1 ts]]; [done|done|]. intros (_ & _ & bs & Hs & _). by exists bs. Qed.

Lemma cur_feeds p t ts : feeds p (t :: ts) -> cur p = (Ok t, p).
Proof. destruct ts as [|t1 ts]; [done|]. intros (<- & _). done. Qed.

Lemma NewParserUQL_feeds s t0 t1 ts : yields s (t0 :: t1 :: ts) -> exists p, NewParserUQL s = (Ok tt, p) /\ feeds p (t0 :: t1 :: ts).
Proof.
  intros (H0 & H1 & Hy). unfold NewParserUQL.
  destruct (nextToken_run (mkParser (NewLexer s) zero_token zero_token) s (scans_new s)) as (l & E & Hl).
  rewrite (bind_ok _ _ _ _ _ E). destruct (nextToken_run (mkParser l zero_token (lex s).1) _ Hl) as (l' & E' & Hl').
  eexists. split; [exact E'|]. by split; [|split; [|exists (lex (lex s).2).2]].
Qed.

Lemma cur_is_feeds p t ts ty : feeds p (t :: ts) -> cur_is ty p = (Ok (bool_decide (Type_ t = ty)), p).
Proof. intros H. unfold cur_is. by rewrite (bind_ok _ _ _ _ _ (cur_feeds _ _ _ H)). Qed.

Lemma expect_feeds p t ts ty msg :
  feeds p (t :: ts) -> expect ty msg p = ((if bool_decide (Type_ t = ty) then Ok tt else Err (Msg msg)), p).
Proof. intros H. unfold expect. rewrite (bind_ok _ _ _ _ _ (cur_is_feeds _ _ _ ty H)). by destruct (bool_decide _). Qed.

Lemma collect_loop_feeds stop fuel ws t ts acc p :
  feeds p (ws ++ t :: ts) -> (2 <= length ts)%nat -> forallb (fun w => negb (stop (Type_ w))) ws = true -> stop (Type_ t) = true ->
  (collect_loop stop fuel acc p).1 = Hang \/
  exists p', collect_loop stop fuel acc p = (Ok (acc ++ (Literal <$> ws)), p') /\ feeds p' (t :: ts).
Proof.
  intros Hf Hlen Hws Ht. revert ws acc p Hf Hws. induction fuel as [|fuel IH]; intros ws acc p Hf Hws; [by left|].
  cbn [collect_loop]. destruct ws as [|w ws]; cbn [app forallb] in *.
  - rewrite (bind_ok _ _ _ _ _ (cur_feeds _ _ _ Hf)), Ht. right. exists p. by rewrite app_nil_r.
  - apply andb_true_iff in Hws as [Hw%negb_true_iff Hws]. rewrite (bind_ok _ _ _ _ _ (cur_feeds _ _ _ Hf)), Hw.
    assert (exists t1 t2 ts', ws ++ t :: ts = t1 :: t2 :: ts') as (t1 & t2 & ts' & E).
    { destruct ws as [|a [|b ws]], ts as [|c ts]; cbn in *; try lia; by eauto. }
    rewrite E in Hf. destruct (nextToken_feeds _ _ _ _ _ Hf) as (p' & En & Hf'). rewrite (bind_ok _ _ _ _ _ En).
    rewrite <- E in Hf'. destruct (IH ws (acc ++ [Literal w]) p' Hf' Hws) as [?|(p'' & E2 & ?)]; [by left|].
    right. exists p''. rewrite E2. by rewrite <- app_assoc.
Qed.

Lemma collect_feeds stop ws t ts p :
  stop TokenEOF = true ->
  feeds p (ws ++ t :: ts) -> (2 <= length ts)%nat -> forallb (fun w => negb (stop (Type_ w))) ws = true -> stop (Type_ t) = true ->
  exists p', collect_until stop p = (Ok (Literal <$> ws), p') /\ feeds p' (t :: ts).
Proof.
  intros Hstop Hf Hlen Hws Ht. destruct (safe_collect stop Hstop p (feeds_scanning _ _ Hf)) as [Hr _].
  unfold collect_until in *. by destruct (collect_loop_feeds stop (length (input (lexer p)) + 3) ws t ts [] p Hf Hlen Hws Ht) as [E|?]; [rewrite E in Hr|].
Qed.

(** ** Statements as tokens *)

Definition kw (t : TokenType) (s : string) : Token := mkToken t (str s).

Definition number (n : Z) : Token := mkToken TokenNumber (Sprintf_d n).

Definition insert_tokens (comp : bool) (table id : Token) (v : bytes) : list Token :=
  [kw TokenInsert "INSERT"] ++ (if comp then [kw TokenCompressed "COMPRESSED"] else []) ++
  [kw TokenInto "INTO"; table; kw TokenValues "VALUES"; kw TokenLParen "("; id;
   kw TokenComma ","; mkToken TokenString v; kw TokenRParen ")"].

Definition hset_tokens (h f v : Token) : list Token := [kw TokenHSet "HSET"; h; f; v].

Definition join_tokens (join : option (Token * Token * Token)) : list Token :=
  match join with
  | Some (table, lhs, rhs) => [kw TokenJoin "JOIN"; table; kw TokenOn "ON"; lhs; kw TokenEqual "="; rhs]
  | None => []
  end.

Definition select_tokens (comp : bool) (table : Token) (join : option (Token * Token * Token)) (cond : list Token)
    (limit : option Token) : list Token :=
  [kw TokenSelect "SELECT"] ++ (if comp then [kw TokenCompressed "COMPRESSED"] else []) ++
  [kw TokenAsterisk "*"; kw TokenFrom "FROM"; table] ++ join_tokens join ++ [kw TokenWhere "WHERE"] ++ cond ++
  match limit with Some n => [kw TokenLimit "LIMIT"; n] | None => [] end.

Definition update_tokens (table field v : Token) (cond : list Token) : list Token :=
  [kw TokenUpdate "UPDATE"; table; kw TokenSet "SET"; field; kw TokenEqual "="; v; kw TokenWhere "WHERE"] ++ cond.

Definition delete_tokens (table : Token) (cond : list Token) : list Token :=
  [kw TokenDelete "DELETE"; kw TokenFrom "FROM"; table; kw TokenWhere "WHERE"] ++ cond.

(** ** Numbers *)

Lemma digit_byte d : 0 <= d < 10 -> IsDigit (z2b (48 + d)) = true /\ b2z (z2b (48 + d)) = 48 + d.
Proof.
  intros Hd. assert (d = 0 \/ d = 1 \/ d = 2 \/ d = 3 \/ d = 4 \/ d = 5 \/ d = 6 \/ d = 7 \/ d = 8 \/ d = 9) as Hc by lia.
  repeat destruct Hc as [->|Hc]; [done..|]. by subst.
Qed.

Lemma digits_value_app s1 s2 n m : digits_value s1 n = Some m -> digits_value (s1 ++ s2) n = digits_value s2 m.
Proof.
  revert n. induction s1 as [|c s1 IH]; intros n; cbn; [by intros [= ->]|]. destruct (IsDigit c); [apply IH|done].
Qed.

(** What is printed before the accumulator. *)
Lemma print_digits_acc fuel n acc : print_digits fuel n acc = print_digits fuel n [] ++ acc.
Proof.
  revert n acc. induction fuel as [|fuel IH]; intros n acc; cbn; [done|]. destruct (n <? 10); [done|].
  rewrite IH, (IH _ [_]). by rewrite <- app_assoc.
Qed.

Lemma print_digits_ok fuel n :
  0 <= n < 10 ^ Z.of_nat fuel -> (0 < fuel)%nat ->
  digits_value (print_digits fuel n []) 0 = Some n /\ forallb IsDigit (print_digits fuel n []) = true /\ print_digits fuel n [] <> [].
Proof.
  revert n. induction fuel as [|fuel IH]; intros n Hn Hf; [lia|]. cbn [print_digits].
  pose proof (Z.mod_pos_bound n 10 ltac:(lia)) as Hm. destruct (digit_byte (n mod 10) Hm) as [Hd Hv].
  destruct (Z.ltb_spec n 10) as [Hlt|Hge].
  - cbn. rewrite Hd, Hv. split; [|done]. f_equal. rewrite Z.mod_small by lia. lia.
  - assert (fuel <> O) as Hne by (intros ->; lia).
    destruct (IH (n / 10)) as (H1 & H2 & H3); [|lia|].
    { rewrite Nat2Z.inj_succ, Z.pow_succ_r in Hn by lia. split; [apply Z.div_pos; lia | apply Z.div_lt_upper_bound; lia]. }
    rewrite print_digits_acc. rewrite (digits_value_app _ _ _ _ H1). cbn [digits_value]. rewrite Hd, Hv. split; [|split].
    + f_equal. pose proof (Z.div_mod n 10 ltac:(lia)). lia.
    + rewrite forallb_app, H2. cbn. by rewrite Hd.
    + by destruct (print_digits fuel (n / 10) []).
Qed.

Lemma Sprintf_d_ok n :
  0 <= n < 2 ^ 64 -> digits_value (Sprintf_d n) 0 = Some n /\ forallb IsDigit (Sprintf_d n) = true /\ Sprintf_d n <> [].
Proof. intros Hn. apply print_digits_ok; [|lia]. assert (2 ^ 64 < 10 ^ Z.of_nat 20) by done. lia. Qed.

Lemma ParseUint_print n : 0 <= n < 2 ^ 64 -> ParseUint (Sprintf_d n) = Some n.
Proof.
  intros Hn. destruct (Sprintf_d_ok n Hn) as (H1 & _ & H3). unfold ParseUint. rewrite bool_decide_eq_false_2, H1 by done. cbn.
  by rewrite (proj2 (Z.ltb_lt _ _)) by lia.
Qed.

Lemma Atoi_print n : 0 <= n < 2 ^ 63 -> Atoi (Sprintf_d n) = Some n.
Proof.
  intros Hn. destruct (Sprintf_d_ok n ltac:(lia)) as (H1 & H2 & H3). unfold Atoi.
  destruct (Sprintf_d n) as [|c s] eqn:E; [done|].
  assert ((match c :: s with x2d :: s => (-1, s) | x2b :: s => (1, s) | _ => (1, c :: s) end) = (1, c :: s)) as ->.
  { cbn in H2. by destruct c. }
  rewrite bool_decide_eq_false_2, H1 by done. cbn [mbind option_bind]. rewrite Z.mul_1_l.
  rewrite (proj2 (Z.leb_le _ _)), (proj2 (Z.ltb_lt _ _)) by lia. done.
Qed.

(** ** Running the parser on tokens *)

Lemma bind_assoc {S A B C} (m : io S A) (g : A -> io S B) (f : B -> io S C) (s : S) :
  ((m ≫= g) ≫= f) s = (m ≫= fun x => g x ≫= f) s.
Proof. unfold mbind, io_bind. by destruct (m s) as [[]]. Qed.

(** One step of the parser on the tokens it stands at. *)
Ltac parse_step :=
  match goal with
  | H : feeds ?p (_ :: _ :: _ :: _) |- context [(nextToken ≫= _) ?p] =>
      let p' := fresh "p" in let E := fresh "E" in let H' := fresh "F" in
      destruct (nextToken_feeds _ _ _ _ _ H) as (p' & E & H'); rewrite (bind_ok _ _ _ _ _ E); clear E H
  | H : feeds ?p (_ :: _) |- context [(cur ≫= _) ?p] => rewrite (bind_ok _ _ _ _ _ (cur_feeds _ _ _ H))
  | H : feeds ?p (_ :: _) |- context [(cur_is ?ty ≫= _) ?p] => rewrite (bind_ok _ _ _ _ _ (cur_is_feeds _ _ _ ty H))
  | |- context [bool_decide (Type_ (kw ?a _) = ?a)] => rewrite (bool_decide_eq_true_2 (Type_ (kw a _) = a)) by reflexivity
  | |- context [bool_decide (Type_ (kw ?a ?s) = ?b)] => rewrite (bool_decide_eq_false_2 (Type_ (kw a s) = b)) by discriminate
  | H : feeds ?p (kw ?a _ :: _) |- context [(expect ?a ?msg ≫= _) ?p] =>
      let E := fresh "E" in pose proof (expect_feeds _ _ _ a msg H) as E;
      rewrite bool_decide_eq_true_2 in E by reflexivity; rewrite (bind_ok _ _ _ _ _ E); clear E
  | |- context [((_ ≫= _) ≫= _) ?p] => rewrite (bind_assoc _ _ _ p)
  | |- context [(mret ?x ≫= _) ?p] => rewrite (bind_ok (mret x) _ p x p eq_refl)
  end; cbv beta.

Ltac parse_run := repeat parse_step.

Lemma ParseUQL_feeds s t0 t1 ts r :
  yields s (t0 :: t1 :: ts) -> (forall p, feeds p (t0 :: t1 :: ts) -> (parse_statement p).1 = r) -> ParseUQL s = r.
Proof. intros Hy Hp. unfold ParseUQL. destruct (NewParserUQL_feeds s t0 t1 ts Hy) as (p & -> & Hf). by apply Hp. Qed.

Lemma statement_feeds p t ts : feeds p (t :: ts) -> Type_ (curTok p) = Type_ t.
Proof. destruct ts; [done|]. by intros (-> & _). Qed.

(** The tokens up to the value; whatever follows is not looked at. *)
Definition insert_head (comp : bool) (table id : Token) (v : bytes) : list Token :=
  [kw TokenInsert "INSERT"] ++ (if comp then [kw TokenCompressed "COMPRESSED"] else []) ++
  [kw TokenInto "INTO"; table; kw TokenValues "VALUES"; kw TokenLParen "("; id;
   kw TokenComma ","; mkToken TokenString v].

Lemma yields_more s ts : yields s ts -> exists t, yields s (ts ++ [t]).
Proof.
  revert s. induction ts as [|t0 ts IH]; intros s; cbn [app yields]; [intros _; by exists (lex s).1|].
  intros [H1 H2]. destruct (IH _ H2) as [t Ht]. exists t. by split.
Qed.

Lemma parse_insert_token s comp table tok v :
  yields s (insert_head comp table tok v) ->
  ParseUQL s = match ParseUint (Literal tok) with
               | Some id => Ok (InsertStatement id v comp)
               | None => Err (Wrap "invalid insert identifier token" (Msg "strconv.ParseUint"))
               end.
Proof.
  intros Hy. apply yields_more in Hy as [t Hy]. unfold insert_head in Hy. destruct comp; cbn [app] in Hy.
  all: eapply ParseUQL_feeds; [exact Hy|]; intros p Hf; unfold parse_statement; rewrite (statement_feeds _ _ _ Hf);
    cbn [Type_ kw]; unfold parseInsert; parse_run.
  all: destruct (ParseUint (Literal tok)); parse_run; reflexivity.
Qed.

Lemma parse_insert s comp table id v :
  0 <= id < 2 ^ 64 -> yields s (insert_head comp table (number id) v) -> ParseUQL s = Ok (InsertStatement id v comp).
Proof. intros Hid Hy. rewrite (parse_insert_token _ _ _ _ _ Hy). cbn [number Literal]. by rewrite ParseUint_print. Qed.

Lemma yields_prefix s ts ts' : yields s (ts ++ ts') -> yields s ts.
Proof. revert s. induction ts as [|t ts IH]; intros s; cbn; [done|]. intros [H1 H2]. split; [done|]. by apply IH. Qed.

Lemma parse_hset s h f v ts :
  yields s (hset_tokens h f v ++ eof_token :: ts) -> ParseUQL s = Ok (HSetStatement (Literal h) (Literal f) (Literal v)).
Proof.
  intros Hy. cbn [hset_tokens app] in Hy. eapply ParseUQL_feeds; [exact Hy|]. intros p Hf. unfold parse_statement.
  rewrite (statement_feeds _ _ _ Hf). cbn [Type_ kw]. unfold parseHSet. parse_run. reflexivity.
Qed.

(** The statements the parser should accept but does not: by the time it looks
    for [WHERE] it has moved past it. *)
Lemma parse_update s table field v c ts :
  yields s (update_tokens table field v (c :: ts)) -> Type_ c <> TokenWhere -> (0 < length ts)%nat ->
  ParseUQL s = Err (Msg "expected WHERE parameter boundary definitions").
Proof.
  intros Hy Hc Hlen. cbn [update_tokens app] in Hy. destruct ts as [|t ts]; [cbn in Hlen; lia|].
  eapply ParseUQL_feeds; [exact Hy|]. intros p Hf. unfold parse_statement. rewrite (statement_feeds _ _ _ Hf).
  cbn [Type_ kw]. unfold parseUpdate. cbn [skip_tokens]. parse_run. unfold mbind at 1, io_bind at 1.
  by erewrite expect_feeds, bool_decide_eq_false_2.
Qed.

Lemma parse_delete s table c ts :
  yields s (delete_tokens table (c :: ts)) -> Type_ c <> TokenWhere -> (0 < length ts)%nat ->
  ParseUQL s = Err (Msg "missing conditional parameters").
Proof.
  intros Hy Hc Hlen. cbn [delete_tokens app] in Hy. destruct ts as [|t ts]; [cbn in Hlen; lia|].
  eapply ParseUQL_feeds; [exact Hy|]. intros p Hf. unfold parse_statement. rewrite (statement_feeds _ _ _ Hf).
  cbn [Type_ kw]. unfold parseDelete. cbn [skip_tokens]. parse_run. unfold mbind at 1, io_bind at 1.
  by erewrite expect_feeds, bool_decide_eq_false_2.
Qed.

(** The clauses of [SELECT]. *)
Definition join_parts (join : option (Token * Token * Token)) : bytes * bytes * bytes :=
  match join with Some (table, lhs, rhs) => (Literal table, Literal lhs, Literal rhs) | None => ([], [], []) end.

Lemma parse_join_feeds join p ts :
  feeds p (join_tokens join ++ kw TokenWhere "WHERE" :: ts) -> (1 < length ts)%nat ->
  exists p', parse_join p = (Ok (join_parts join), p') /\ feeds p' (kw TokenWhere "WHERE" :: ts).
Proof.
  intros Hf Hlen. destruct ts as [|t0 [|t1 ts]]; cbn in Hlen; [lia..|].
  unfold parse_join. destruct join as [[[table lhs] rhs]|]; cbn [join_tokens app] in Hf; parse_run; by eexists.
Qed.

(** The limit a [LIMIT] clause sets. *)
Definition limit_of (limit : option Token) : Z := default 100 (limit ≫= fun t => Atoi (Literal t)).

Lemma parse_limit_feeds limit p ts :
  (1 < length ts)%nat ->
  feeds p (match limit with Some n => [kw TokenLimit "LIMIT"; n] | None => [] end ++ eof_token :: ts) ->
  exists p', parse_limit p = (Ok (limit_of limit), p').
Proof.
  intros Hlen Hf. destruct ts as [|t0 [|t1 ts]]; cbn in Hlen; [lia..|].
  unfold parse_limit. destruct limit as [n|]; cbn [app] in Hf; parse_run; [by eexists|].
  change eof_token with (kw TokenEOF "") in Hf. parse_run. rewrite bool_decide_eq_false_2 by done. by eexists.
Qed.

Lemma parse_select s comp table join cond limit ts :
  (1 < length ts)%nat -> forallb (fun w => negb (at_limit (Type_ w))) cond = true ->
  yields s (select_tokens comp table join cond limit ++ eof_token :: ts) ->
  ParseUQL s = (q ← parse_filter (Literal <$> cond);
                Ok (SelectStatement q (limit_of limit) comp (join_parts join).1.1 (join_parts join).1.2 (join_parts join).2)).
Proof.
  intros Hlen Hcond Hy. unfold select_tokens in Hy. rewrite <- !app_assoc in Hy.
  set (lt := match limit with Some n => [kw TokenLimit "LIMIT"; n] | None => [] end) in *.
  assert (exists t l, lt ++ eof_token :: ts = t :: l /\ at_limit (Type_ t) = true /\ (1 < length l)%nat) as (t & l & El & Ht & Hl).
  { unfold lt. destruct limit; (eexists _, _; split; [reflexivity|]; split; [reflexivity|]; cbn; lia). }
  assert (exists c0 c1 cl, cond ++ t :: l = c0 :: c1 :: cl) as (c0 & c1 & cl & Ec).
  { destruct cond as [|? [|? cond]], l as [|? l]; cbn in *; try lia; by eauto. }
  assert (forall p, feeds p (join_tokens join ++ kw TokenWhere "WHERE" :: c0 :: c1 :: cl) ->
    (('(jt, jl, jr) ← parse_join; _ ← expect TokenWhere "missing conditional WHERE boundary"; _ ← nextToken;
      remaining ← collect_until at_limit; limit ← parse_limit; ast ← of_result (parse_filter remaining);
      mret (SelectStatement ast limit comp jt jl jr)) p).1 =
    (q ← parse_filter (Literal <$> cond);
     Ok (SelectStatement q (limit_of limit) comp (join_parts join).1.1 (join_parts join).1.2 (join_parts join).2))) as Hrest.
  { intros p Hf. destruct (parse_join_feeds join p _ Hf ltac:(cbn; lia)) as (p1 & E1 & F1). rewrite (bind_ok _ _ _ _ _ E1).
    destruct (join_parts join) as [[jt jl] jr]. parse_run. rewrite <- Ec in F.
    destruct (collect_feeds at_limit cond t l _ eq_refl F ltac:(lia) Hcond Ht) as (p2 & E2 & F2). rewrite (bind_ok _ _ _ _ _ E2).
    rewrite <- El in F2. destruct (parse_limit_feeds limit p2 ts Hlen F2) as (p3 & E3). rewrite (bind_ok _ _ _ _ _ E3).
    unfold mbind, io_bind, of_result. by destruct (parse_filter _). }
  rewrite El, Ec in Hy. cbn [app] in Hy.
  destruct comp, join as [[[jt jl] jr]|]; cbn [app join_tokens] in Hy.
  all: eapply ParseUQL_feeds; [exact Hy|]; intros p Hf; unfold parse_statement; rewrite (statement_feeds _ _ _ Hf);
    cbn [Type_ kw]; unfold parseSelect.
  all: do 12 (try (lazymatch goal with |- ((parse_join ≫= _) _).1 = _ => fail | _ => parse_step end)).
  all: by apply Hrest.
Qed.

(** ** Filters *)

(** No upper-case letter. *)
Definition lowered (bs : bytes) : Prop := Forall (fun b => between 65 90 b = false) bs.

(** The lowered head, and where the rest starts. *)
Lemma ToLower_other b s :
  b <> xe2 -> b <> xc4 -> ToLower (b :: s) = (if between 65 90 b then z2b (b2z b + 32) else b) :: ToLower s.
Proof. intros H1 H2. destruct b; first [exact eq_refl | done]. Qed.

Lemma ToLower_c4 s : ToLower (xc4 :: s) = xc4 :: ToLower s \/ exists s', s = xb0 :: s' /\ ToLower (xc4 :: s) = x69 :: ToLower s'.
Proof.
  destruct s as [|c s]; [by left|]. destruct (decide (c = xb0)) as [->|Hc]; [right; by exists s|left].
  destruct c; first [exact eq_refl | done].
Qed.

Lemma ToLower_e2 s :
  ToLower (xe2 :: s) = xe2 :: ToLower s \/ exists s', s = x84 :: xaa :: s' /\ ToLower (xe2 :: s) = x6b :: ToLower s'.
Proof.
  destruct s as [|c s]; [by left|]. destruct (decide (c = x84)) as [->|Hc]; [|left; destruct c; first [exact eq_refl | done]].
  destruct s as [|d s]; [by left|]. destruct (decide (d = xaa)) as [->|Hd]; [right; by exists s|left].
  destruct d; first [exact eq_refl | done].
Qed.

Lemma ToLower_cons b s :
  exists c s', ToLower (b :: s) = c :: ToLower s' /\ between 65 90 c = false /\ (length s' <= length s)%nat.
Proof.
  destruct (decide (b = xe2)) as [->|H2]; [|destruct (decide (b = xc4)) as [->|H3]].
  - destruct (ToLower_e2 s) as [E|(s' & -> & E)]; eexists _, _; (split; [exact E|]; split; [done|cbn; lia]).
  - destruct (ToLower_c4 s) as [E|(s' & -> & E)]; eexists _, _; (split; [exact E|]; split; [done|cbn; lia]).
  - eexists _, _. split; [by apply ToLower_other|]. split; [by destruct b|done].
Qed.

Lemma ToLower_lowered s : lowered (ToLower s).
Proof.
  unfold lowered. remember (length s) as n eqn:En. assert (length s <= n)%nat as Hn by lia. clear En.
  revert s Hn. induction n as [|n IH]; intros [|b s] Hn; cbn [length] in Hn; [constructor|lia|constructor|].
  destruct (ToLower_cons b s) as (c & s' & -> & Hc & Hl). constructor; [done|]. apply IH. lia.
Qed.

Lemma ReplaceAll_lowered c new s : lowered new -> lowered s -> lowered (ReplaceAll c new s).
Proof.
  intros Hn Hs. unfold ReplaceAll. induction Hs as [|b s Hb Hs IH]; [constructor|]. cbn [mbind list_bind].
  apply Forall_app. split; [|exact IH]. case_bool_decide; [done|]. by repeat constructor.
Qed.

Lemma split_fields_lowered sep cur skip s :
  lowered cur -> lowered s -> Forall lowered (split_fields sep cur skip s).
Proof.
  revert cur skip. induction s as [|b s IH]; intros cur skip Hc Hs.
  - cbn. destruct cur; [constructor|]. repeat constructor. by apply Forall_rev.
  - inversion Hs as [|? ? Hb Hs']; subst. cbn [split_fields]. destruct skip as [|skip]; [|by apply IH].
    destruct (sep (b :: s)); [apply IH; [by constructor|done]|].
    assert (Forall lowered (split_fields sep [] n s)) as Hr by (apply IH; [constructor|done]).
    unfold close_field. destruct cur; [done|]. constructor; [by apply Forall_rev|done].
Qed.

Definition is_term (q : Query) : Prop := exists t, q = TermQuery t.

Lemma lowered_keyword toks w : Forall lowered toks -> bool_decide (lowered w) = false -> bytes_equal (current toks) w = false.
Proof.
  intros Hl Hw%bool_decide_eq_false. unfold bytes_equal. apply bool_decide_eq_false. intros <-. apply Hw.
  unfold current. destruct Hl; [constructor|done].
Qed.

(** Without the operators only one term is left. *)
Lemma parse_lowered fuel depth toks q rest :
  Forall lowered toks -> parseExpression fuel depth toks = Ok (q, rest) -> is_term q /\ Forall lowered rest.
Proof.
  revert depth toks q rest. induction fuel as [|fuel IH]; intros depth toks q rest Hl; cbn [parseExpression]; [done|].
  destruct (_ <? _); [done|].
  assert (forall d ts q' rest', Forall lowered ts -> parseTerm (parseExpression fuel) d ts = Ok (q', rest') ->
    is_term q' /\ Forall lowered rest') as Hterm.
  { intros d ts q' rest' Hts. unfold parseTerm. destruct (_ <? _); [done|].
    destruct (parseFactor _ _ ts) as [[q1 r1]|e| |] eqn:Ef; cbn [mbind result_bind]; try done.
    assert (is_term q1 /\ Forall lowered r1) as [Hq1 Hr1].
    { unfold parseFactor in Ef. destruct (_ <? _); [done|]. destruct (bytes_equal (current ts) (str "(")).
      - destruct (parseExpression fuel _ (consume ts)) as [[q2 r2]|e| |] eqn:Ee; cbn [mbind result_bind] in Ef; try done.
        apply IH in Ee; [|by destruct Hts]. destruct (negb _); [done|]. destruct Ee as [? Hr2].
        injection Ef as <- <-. split; [done|]. by destruct Hr2.
      - destruct (_ || _); [done|].
        assert (Forall lowered (consume ts)) by by destruct Hts.
        destruct (Tokenize (current ts)); injection Ef as <- <-; by split; [eexists|]. }
    cbn [and_loop]. rewrite !lowered_keyword by done. cbn. by intros [= <- <-]. }
  destruct (parseTerm _ _ toks) as [[q1 r1]|e| |] eqn:Et; cbn [mbind result_bind]; try done.
  destruct (Hterm _ _ _ _ Hl Et) as [Hq1 Hr1]. cbn [or_loop]. rewrite lowered_keyword by done. by intros [= <- <-].
Qed.

Lemma Fields_lowered s : lowered s -> Forall lowered (Fields (pad s)).
Proof.
  intros Hs. unfold Fields. apply split_fields_lowered; [constructor|]. unfold pad.
  apply ReplaceAll_lowered; [by apply (bool_decide_unpack _)|]. apply ReplaceAll_lowered; [by apply (bool_decide_unpack _)|done].
Qed.

Lemma ToLower_word w rest : Forall lower_alnum w -> ToLower (w ++ rest) = w ++ ToLower rest.
Proof.
  induction 1 as [|c w Hc Hw IH]; [done|]. apply Is_true_true, lower_alnum_range in Hc as [Hr Hu]. cbn [app].
  rewrite ToLower_ascii by lia. by rewrite Hu, IH.
Qed.

(** What follows the first word of a filter. *)
Lemma filter_tail w ws : word w -> ws <> [] ->
  Fields (pad (ToLower (Join (w :: ws) (str " ")))) = w :: Fields (pad (ToLower (Join ws (str " ")))).
Proof.
  intros Hw Hws. assert (Join (w :: ws) (str " ") = w ++ (str " " ++ Join ws (str " "))) as -> by by destruct ws.
  rewrite ToLower_word by apply Hw. change (ToLower (str " " ++ Join ws (str " "))) with (str " " ++ ToLower (Join ws (str " "))).
  rewrite app_assoc, pad_app. by apply Fields_token; left; apply word_plain.
Qed.

Lemma parse_filter_word w ws : word w -> parse_filter (w :: ws) = Ok (TermQuery w).
Proof.
  intros Hw. unfold parse_filter, ParseQuery.
  assert (exists toks, Fields (pad (ToLower (Join (w :: ws) (str " ")))) = w :: toks /\ Forall lowered toks) as (toks & E & Hl).
  { destruct ws as [|w' ws].
    - exists []. cbn [Join]. pose proof (ToLower_word w [] (proj2 Hw)) as El. cbn [ToLower] in El. rewrite !app_nil_r in El.
      rewrite El, pad_plain by by apply word_plain. unfold Fields.
      pose proof (split_fields_word space_width w [] []) as Es. rewrite !app_nil_r in Es. rewrite Es.
      + cbn [split_fields]. split; [|constructor]. by apply close_field_rev, Hw.
      + destruct (word_plain w Hw) as [_ Hp]. eapply Forall_impl; [exact Hp|]. intros b [Hb _] bs. by apply space_width_visible.
    - eexists. split; [by apply filter_tail|]. apply Fields_lowered, ToLower_lowered. }
  fold (pad (ToLower (Join (w :: ws) (str " ")))). rewrite E. change (w :: toks) with (show 0 (TermQuery w) ++ toks).
  change (Z.to_nat MaxQueryDepth + 1)%nat with 51%nat.
  assert (forall k, bool_decide (lowered k) = false -> current toks <> k) as Hk.
  { intros k Hk Ek. pose proof (lowered_keyword toks k Hl Hk) as H. unfold bytes_equal in H. by apply bool_decide_eq_false in H. }
  destruct (reads_back (TermQuery w) Hw) as (_ & _ & He).
  rewrite He; [|unfold MaxQueryDepth; cbn; lia|unfold MaxQueryDepth; cbn; lia|split; by apply Hk].
  rewrite or_loop_ends by by apply Hk. done.
Qed.

Lemma parse_filter_term ws q : parse_filter ws = Ok q -> is_term q.
Proof.
  unfold parse_filter, ParseQuery. fold (pad (ToLower (Join ws (str " ")))).
  destruct (parseExpression _ _ _) as [[q' rest]|e| |] eqn:E; cbn [mbind result_bind]; intros [= <-].
  apply parse_lowered in E; [by destruct E|]. apply Fields_lowered, ToLower_lowered.
Qed.

(** ** Properties *)

Lemma wf_number n : 0 <= n < 2 ^ 64 -> wf_token (number n) = true.
Proof. intros Hn. destruct (Sprintf_d_ok n Hn) as (_ & H2 & H3). unfold wf_token, number. cbn [Type_ Literal]. by destruct (Sprintf_d n). Qed.

Lemma wf_not_eof t : wf_token t = true -> Type_ t <> TokenEOF.
Proof.
  destruct t as [ty lit]. unfold wf_token. cbn [Type_ Literal]. intros H ->. destruct lit as [|c lit]; [done|].
  destruct (isLetter c) eqn:Hc.
  - apply andb_true_iff in H as [_ H%bool_decide_eq_true]. unfold LookupIdent in H. revert H. unfold keywords. cbn [lookup_keyword].
    repeat (destruct (bytes_equal _ _); [done|]). done.
  - apply bool_decide_eq_true in H as [_ H]. by destruct c.
Qed.

(** The text of an [INSERT] starts with the tokens the parser looks at. *)
Lemma yields_insert comp table id v :
  wf_token table = true -> wf_token id = true -> forallb string_char v = true ->
  yields (print_tokens (insert_tokens comp table id v)) (insert_head comp table id v).
Proof.
  intros Ht Hid Hv. apply (yields_prefix _ _ [kw TokenRParen ")"]).
  replace (_ ++ _) with (insert_tokens comp table id v ++ repeat eof_token 0) by (rewrite app_nil_r; by destruct comp).
  apply yields_print. unfold insert_tokens. rewrite !forallb_app. cbn [forallb]. rewrite Hid, Ht.
  change (wf_token (mkToken TokenString v)) with (forallb string_char v). rewrite Hv. by destruct comp.
Qed.

(** A printed [SELECT] is read with the filter the search parser makes of its
    condition. *)
Lemma parse_select_print comp table join cond limit :
  forallb wf_token (select_tokens comp table join cond limit) = true ->
  forallb (fun w => negb (bool_decide (Type_ w = TokenLimit))) cond = true ->
  ParseUQL (print_tokens (select_tokens comp table join cond limit)) =
  (q ← parse_filter (Literal <$> cond);
   Ok (SelectStatement q (limit_of limit) comp (join_parts join).1.1 (join_parts join).1.2 (join_parts join).2)).
Proof.
  intros Hw Hc. apply (parse_select _ comp table join cond limit (repeat eof_token 2)); [cbn; lia| |by apply (yields_print _ 3)].
  unfold select_tokens in Hw. rewrite !forallb_app in Hw. apply forallb_forall. intros w Hin.
  unfold at_limit. rewrite negb_orb. rewrite forallb_forall in Hc. rewrite (Hc w Hin), andb_true_r.
  rewrite bool_decide_eq_false_2; [done|]. apply wf_not_eof. assert (forallb wf_token cond = true) as H by
    (repeat match goal with H : _ && _ = true |- _ => apply andb_true_iff in H as [? ?] end; done).
  rewrite forallb_forall in H. by apply H.
Qed.

(** C16: The UQL parser returns a statement or an error on every input, and reads
    statements of the documented forms back from their text: [INSERT INTO t
    VALUES (id, 'text')] for every 64-bit id and every text without a quote and
    without a zero byte, [HSET h f v], and [SELECT * FROM t JOIN u ON a = b WHERE
    w ... LIMIT n] with and without [COMPRESSED], [JOIN] and [LIMIT], for every
    non-negative limit of 63 bits.  The filter of a [SELECT] is what the search
    parser makes of the lowered condition, whose error is passed on; when the
    condition starts with a word it is that word, whatever follows ([AND] and [OR]
    are lost, as C40 says). *)
Theorem uql_roundtrip :
  (forall s, returns (ParseUQL s) = true) /\
  (forall comp table id v, wf_token table = true -> 0 <= id < 2 ^ 64 -> forallb string_char v = true ->
     ParseUQL (print_tokens (insert_tokens comp table (number id) v)) = Ok (InsertStatement id v comp)) /\
  (forall h f v, forallb wf_token [h; f; v] = true ->
     ParseUQL (print_tokens (hset_tokens h f v)) = Ok (HSetStatement (Literal h) (Literal f) (Literal v))) /\
  (forall comp table join cond limit,
     let text := print_tokens (select_tokens comp table join cond (number <$> limit)) in
     let select q := SelectStatement q (default 100 limit) comp (join_parts join).1.1 (join_parts join).1.2 (join_parts join).2 in
     forallb wf_token (select_tokens comp table join cond (number <$> limit)) = true ->
     forallb (fun w => negb (bool_decide (Type_ w = TokenLimit))) cond = true ->
     match limit with Some n => 0 <= n < 2 ^ 63 | None => True end ->
     ParseUQL text = (q ← parse_filter (Literal <$> cond); Ok (select q)) /\
     forall w cond', cond = w :: cond' -> word (Literal w) -> ParseUQL text = Ok (select (TermQuery (Literal w)))).
Proof.
  split; [apply ParseUQL_returns|]. split; [|split].
  - intros comp table id v Ht Hid Hv. apply (parse_insert _ comp table id v); [done|]. apply yields_insert; [done|by apply wf_number|done].
  - intros h f v Hw. apply (parse_hset _ h f v (repeat eof_token 0)). by apply (yields_print (hset_tokens h f v) 1).
  - intros comp table join cond limit text select Hw Hc Hn.
    assert (ParseUQL text = (q ← parse_filter (Literal <$> cond); Ok (select q))) as E.
    { unfold text. rewrite parse_select_print by done. unfold select.
      replace (limit_of (number <$> limit)) with (default 100 limit); [done|].
      destruct limit as [n|]; [|done]. unfold limit_of, number. cbn [fmap option_fmap option_map mbind option_bind Literal].
      by rewrite Atoi_print. }
    split; [done|]. intros w cond' -> Hword. rewrite E. cbn [fmap list_fmap]. by rewrite parse_filter_word.
Qed.

(** C40: Where the parser departs from its grammar.  [UPDATE] and [DELETE] in their
    documented forms are always rejected: the parser skips one token too many and
    looks for [WHERE] behind it.  And a filter is lowered before the search parser
    sees it, which knows [AND], [OR] and [NOT] in capitals only: no filter has
    an operator, and of a filter that starts with a word only that word counts. *)
Theorem uql_departs_from_grammar :
  (forall table field v c cond, forallb wf_token (update_tokens table field v (c :: cond)) = true -> Type_ c <> TokenWhere ->
     ParseUQL (print_tokens (update_tokens table field v (c :: cond))) =
     Err (Msg "expected WHERE parameter boundary definitions")) /\
  (forall table c cond, forallb wf_token (delete_tokens table (c :: cond)) = true -> Type_ c <> TokenWhere ->
     ParseUQL (print_tokens (delete_tokens table (c :: cond))) = Err (Msg "missing conditional parameters")) /\
  (forall ws q, parse_filter ws = Ok q -> exists t, q = TermQuery t) /\
  (forall w ws, word w -> parse_filter (w :: ws) = Ok (TermQuery w)).
Proof.
  split_and!.
  - intros table field v c cond Hw Hc. apply (parse_update _ table field v c (cond ++ [eof_token])); [|done|rewrite length_app; cbn; lia].
    by apply (yields_print (update_tokens table field v (c :: cond)) 1).
  - intros table c cond Hw Hc. apply (parse_delete _ table c (cond ++ [eof_token])); [|done|rewrite length_app; cbn; lia].
    by apply (yields_print (delete_tokens table (c :: cond)) 1).
  - apply parse_filter_term.
  - apply parse_filter_word.
Qed.

(** ** Numbers in statements *)

(** The number a string of digits stands for. *)
Definition decimal (ds : bytes) : Z := fold_left (fun n c => 10 * n + (b2z c - 48)) ds 0.

Definition all_digits (ds : bytes) : bool := negb (bool_decide (ds = [])) && forallb IsDigit ds.

Lemma digits_value_spec s n :
  digits_value s n = if forallb IsDigit s then Some (fold_left (fun n c => 10 * n + (b2z c - 48)) s n) else None.
Proof. revert n. induction s as [|c s IH]; intros n; cbn; [done|]. by destruct (IsDigit c). Qed.

Lemma ParseUint_spec s : ParseUint s = if all_digits s && (decimal s <? 2 ^ 64) then Some (decimal s) else None.
Proof.
  unfold ParseUint, all_digits. case_bool_decide; [done|]. rewrite digits_value_spec. by destruct (forallb IsDigit s).
Qed.

Lemma decimal_nonneg s : forallb IsDigit s = true -> 0 <= decimal s.
Proof.
  unfold decimal. assert (0 <= 0) as H0 by lia. revert H0. generalize 0 at 2 4 as n.
  induction s as [|c s IH]; intros n Hn; cbn; [done|]. intros [Hc Hs]%andb_true_iff. apply IH; [|done].
  unfold IsDigit, between in Hc. apply andb_true_iff in Hc as [?%Z.leb_le _]. lia.
Qed.

(** Without a sign. *)
Lemma Atoi_unsigned s :
  head s <> Some x2d -> head s <> Some x2b -> Atoi s = if all_digits s && (decimal s <? 2 ^ 63) then Some (decimal s) else None.
Proof.
  intros H1 H2. unfold Atoi, all_digits.
  assert (match s with x2d :: s => (-1, s) | x2b :: s => (1, s) | _ => (1, s) end = (1, s)) as ->.
  { destruct s as [|c s]; [done|]. cbn in H1, H2. by destruct c. }
  case_bool_decide; [done|]. rewrite digits_value_spec. destruct (forallb IsDigit s) eqn:E; [|done].
  cbn [mbind option_bind negb andb]. fold (decimal s). pose proof (decimal_nonneg s E). rewrite Z.mul_1_l.
  by rewrite (proj2 (Z.leb_le (- 2 ^ 63) _)) by lia.
Qed.

(** C39: How the numbers of a statement are read.  Whatever well-formed token
    stands for the id of an [INSERT], the statement is accepted exactly when the
    token's text is a non-empty string of digits of a value below 2^64, leading zeros
    allowed, and then has that value as its id; otherwise the parser reports the
    conversion error.  Whatever well-formed token follows [LIMIT] in a [SELECT],
    unless its text starts with a sign: a string of digits of a value below 2^63 is
    the limit, and anything else - a larger number included - silently leaves the
    limit at 100. *)
Theorem uql_numbers comp table tok :
  wf_token table = true -> wf_token tok = true ->
  let n := decimal (Literal tok) in
  (forall v, forallb string_char v = true ->
     ParseUQL (print_tokens (insert_tokens comp table tok v)) =
     if all_digits (Literal tok) && (n <? 2 ^ 64) then Ok (InsertStatement n v comp)
     else Err (Wrap "invalid insert identifier token" (Msg "strconv.ParseUint"))) /\
  (forall join w cond,
     forallb wf_token (select_tokens comp table join (w :: cond) None) = true ->
     forallb (fun w => negb (bool_decide (Type_ w = TokenLimit))) (w :: cond) = true -> word (Literal w) ->
     head (Literal tok) <> Some x2d -> head (Literal tok) <> Some x2b ->
     ParseUQL (print_tokens (select_tokens comp table join (w :: cond) (Some tok))) =
     Ok (SelectStatement (TermQuery (Literal w)) (if all_digits (Literal tok) && (n <? 2 ^ 63) then n else 100) comp
           (join_parts join).1.1 (join_parts join).1.2 (join_parts join).2)).
Proof.
  intros Ht Htok n. split.
  - intros v Hv. rewrite (parse_insert_token _ comp table tok v) by by apply yields_insert. rewrite ParseUint_spec. fold n.
    by destruct (_ && _).
  - intros join w cond Hw Hc Hword H1 H2. rewrite parse_select_print; [| |done].
    + cbn [fmap list_fmap]. rewrite parse_filter_word by done. cbn [mbind result_bind]. unfold limit_of. cbn [mbind option_bind].
      rewrite Atoi_unsigned by done. fold n. by destruct (_ && _).
    + unfold select_tokens in *. rewrite !forallb_app in Hw |- *. cbn [forallb] in *. rewrite Htok.
      repeat match goal with H : _ && _ = true |- _ => apply andb_true_iff in H as [? ?] end.
      repeat (apply andb_true_iff; split); done.
Qed.

Lemma uql_numbers_witness :
  ParseUQL (print_tokens (insert_tokens false (kw TokenIdent "docs") (kw TokenNumber "007") (str "x"))) = Ok (InsertStatement 7 (str "x") false) /\
  ParseUQL (print_tokens (insert_tokens false (kw TokenIdent "docs") (kw TokenNumber "18446744073709551616") (str "x"))) =
    Err (Wrap "invalid insert identifier token" (Msg "strconv.ParseUint")) /\
  ParseUQL (print_tokens (select_tokens false (kw TokenIdent "docs") None [kw TokenIdent "fox"] (Some (kw TokenNumber "9223372036854775808")))) =
    Ok (SelectStatement (TermQuery (str "fox")) 100 false [] [] []).
Proof.
  split; [|split].
  - exact (proj1 (uql_numbers false (kw TokenIdent "docs") (kw TokenNumber "007") eq_refl eq_refl) (str "x") eq_refl).
  - exact (proj1 (uql_numbers false (kw TokenIdent "docs") (kw TokenNumber "18446744073709551616") eq_refl eq_refl) (str "x") eq_refl).
  - refine (proj2 (uql_numbers false (kw TokenIdent "docs") (kw TokenNumber "9223372036854775808") eq_refl eq_refl) None (kw TokenIdent "fox") [] eq_refl eq_refl _ _ _).
    + split; [discriminate | apply (bool_decide_unpack _); vm_compute; exact I].
    + discriminate.
    + discriminate.
Defined.
