(* ===== verification/UQLExec.v ===== *)
(** The UQL statements (query.go sections 4 to 8, the [Execute] methods): each
    statement against the database, the version cache, the text index and the
    lock manager.  Statements run to completion; a lock that is not granted at
    once is waited for, and nothing else runs meanwhile. *)

From Stdlib Require Import Strings.Byte.
From S2P Require Import Common.
From S2P Require Import Prelude.
From S2P Require Import VFS.
From S2P Require Import LRU.
From S2P Require Import Page.
From S2P Require Import Telemetry.
From S2P Require Import BufferPool.
From S2P Require Import WAL.
From S2P Require Import DBPage.
From S2P Require Import DB.
From S2P Require Import Recovery.
From S2P Require Import LockManager.
From S2P Require Import Roaring.
From S2P Require Import Segment.
From S2P Require Import Query.
From S2P Require Import MVCC.
From S2P Require Import UQLLexer.
From S2P Require Import UQLParser.

(** Cache and lock keys are strings, page keys the same bytes. *)
Definition key_string (k : bytes) : string := String.string_of_list_byte k.

(** What a statement works on: the database, the global version cache, and the
    index and lock manager when the caller passes them. *)
Record Engine (D P : Type) := mkEngine {
  edb : DB D P;
  cache : Cache.MVCCCacheStore;
  eindex : option MemIndex;
  lockMgr : option LockState
}.
Arguments mkEngine {_ _} _ _ _ _.
Arguments edb {_ _} _.
Arguments cache {_ _} _.
Arguments eindex {_ _} _.
Arguments lockMgr {_ _} _.

(** The clock readings of a cache commit (begin, commit, expiry) and of the
    page write. *)
Record stmt_clock := mkStmtClock { occBegin : Z; occCommit : Z; occTTL : Z; pageClock : clock }.

(** The readings for one document of a [SELECT]. *)
Record row_clock := mkRowClock { rowCache : Z; rowPage : Z; rowCommit : Z; rowTTL : Z }.

(** The arguments of [Execute] besides the engine, and the readings of the clock
    and outcomes of the log a statement meets. *)
Record StmtEnv := mkEnv {
  env_searcher : option bytes;
  env_codec : option Codec;
  env_walFile : option bytes;
  env_stmt : stmt_clock;
  env_rows : nat -> row_clock;
  env_pages : nat -> clock;
  env_redo : nat -> clock;
  env_undo : nat -> clock;
  env_undoFuel : nat;
  env_log : io_outcome;
  env_report : EngineMetricsSnapshot -> bytes
}.

Section Statements.
Context {D P : Type} `{BlockDevice D} `{EvictionPolicy P} `{MapRange}.
Abbreviation engine := (Engine D P).
Abbreviation exec := (io engine).
Implicit Types e : engine.

Definition on_db {A} (f : DB D P -> result A * DB D P) : exec A := fun e =>
  let '(r, db) := f (edb e) in (r, mkEngine db (cache e) (eindex e) (lockMgr e)).

Definition on_cache {A} (f : Cache.MVCCCacheStore -> A * Cache.MVCCCacheStore) : exec A := fun e =>
  let '(a, c) := f (cache e) in (Ok a, mkEngine (edb e) c (eindex e) (lockMgr e)).

Definition exec_begin : exec Z := on_db (fun db => let '(id, db) := BeginTxn db in (Ok id, db)).
Definition exec_commit (txn : Z) : exec unit := on_db (fun db => (Ok tt, CommitTxn db txn)).

Definition begin_occ (now : Z) : exec Z := on_cache (Cache.BeginOCC now).

(** [ValidateAndCommit]: the error, if any. *)
Definition commit_occ (txID : Z) (ws : gmap string (option bytes)) (nowCommit nowTTL : Z) : exec (option error) :=
  on_cache (Cache.ValidateAndCommit txID ws 0 nowCommit nowTTL).

(** [lockMgr.Acquire] when there is a lock manager.  It never reports an error;
    a call that has to wait does so for good, as no other call runs. *)
Definition acquire (txn : Z) (key : bytes) (m : LockMode) : exec unit := fun e =>
  match lockMgr e with
  | None => (Ok tt, e)
  | Some s =>
      let '(granted, s) := Acquire txn (key_string key) m s in
      ((if (granted : bool) then Ok tt else Hang), mkEngine (edb e) (cache e) (eindex e) (Some s))
  end.

Definition release_all (txn : Z) : exec unit := fun e =>
  (Ok tt, mkEngine (edb e) (cache e) (eindex e) (ReleaseAll txn <$> lockMgr e)).

Definition add_index (docID : Z) (text : bytes) : exec unit := fun e =>
  (Ok tt, mkEngine (edb e) (cache e) ((fun m => index_Add m docID text) <$> eindex e) (lockMgr e)).

(** [stmt.Filter.Execute(s).ToArray()]; a nil searcher is dereferenced. *)
Definition run_filter (q : Query) (searcher : option bytes) : exec (list Z) :=
  of_result (match searcher with
             | None => Panic
             | Some data => bm ← Execute q data; Ok (ToArray bm)
             end).

(** ** HSET *)

Definition execHSet (hashKey field value : bytes) (c : stmt_clock) : exec (list bytes) :=
  let compositeKey := PrefixHash ++ hashKey ++ str ":" ++ field in
  txID ← begin_occ (occBegin c);
  err ← commit_occ txID {[key_string compositeKey := Some value]} (occCommit c) (occTTL c);
  match err with
  | Some err => of_result (Err (Wrap "cache transactional write failed" err))
  | None =>
      txn ← exec_begin;
      _ ← acquire txn compositeKey LockExclusive;
      r ← try (on_db (fun db => HSet db 0 txn hashKey field value 0 (pageClock c)));
      _ ← exec_commit txn;
      _ ← release_all txn;
      match r with
      | inl err => of_result (Err err)
      | inr _ => mret [str "SUCCESS: Transaction complete. MVCC record appended and slotted data synchronized."]
      end
  end.

(** ** SELECT *)

(** The row text of a join. *)
Definition join_row (joinTable val : bytes) : bytes :=
  if bool_decide (joinTable = []) then val
  else val ++ str " linked to " ++ joinTable ++ str " relational row matrix".

(** The loop over the documents; the loop ends when the limit is reached. *)
Fixpoint select_loop (limit : Z) (compressed : bool) (joinTable : bytes) (codec : option Codec) (txID txn : Z)
    (docIDs : list Z) (ts : nat -> row_clock) (results : list bytes) : exec (list bytes) :=
  match docIDs with
  | [] => mret results
  | id :: docIDs =>
      let t := ts 0%nat in
      let continue results :=
        if limit <=? zlen results then mret results
        else select_loop limit compressed joinTable codec txID txn docIDs (fun i => ts (S i)) results in
      let keyStr := Sprintf_d id in
      hit ← (fun e => (Ok (Cache.Read txID (key_string keyStr) (rowCache t) (cache e)), e));
      match hit with
      | Ok val => continue (results ++ [join_row joinTable (default [] val)])
      | _ =>
          _ ← acquire txn keyStr LockShared;
          r ← try (match codec with
                   | Some codec => if compressed then on_db (fun db => ReadCompressed db 0 txn keyStr codec (rowPage t))
                                   else on_db (fun db => DB.Read db 0 txn keyStr (rowPage t))
                   | None => on_db (fun db => DB.Read db 0 txn keyStr (rowPage t))
                   end);
          match r with
          | inr val =>
              _ ← commit_occ txID {[key_string keyStr := Some val]} (rowCommit t) (rowTTL t);
              continue (results ++ [join_row joinTable val])
          | inl _ => continue results
          end
      end
  end.

Definition execSelect (filter : Query) (limit : Z) (compressed : bool) (joinTable : bytes)
    (searcher : option bytes) (codec : option Codec) (now : Z) (ts : nat -> row_clock) : exec (list bytes) :=
  docIDs ← run_filter filter searcher;
  txID ← begin_occ now;
  txn ← exec_begin;
  results ← select_loop limit compressed joinTable codec txID txn docIDs ts [];
  _ ← release_all txn;
  _ ← exec_commit txn;
  mret results.

(** ** RECOVER, CHECKPOINT, SHOW METRICS *)

Definition execRecover (undoFuel : nat) (clkRedo clkUndo : nat -> clock) (walFile : option bytes) : exec (list bytes) :=
  r ← try (on_db (fun db => PerformRecovery undoFuel clkRedo clkUndo db walFile));
  match r with
  | inl err => of_result (Err (Wrap "UQL ARIES Recovery aborted" err))
  | inr _ => mret [str "SUCCESS: System historical record replay complete. Engine stable."]
  end.

(** The result of [FlushAll] is dropped; a queue that takes no request makes the
    call wait. *)
Definition execCheckpoint (io : io_outcome) : exec (list bytes) :=
  _ ← ignore (on_db (fun db => let '(r, pool) := FlushAll (bp db) in (r, set_bp pool db)));
  _ ← on_db (fun db => match Checkpoint (wal db) io with
                       | Some w => (Ok tt, set_wal w db)
                       | None => (Hang, db)
                       end);
  mret [str "SUCCESS: Dirty frames synced to storage disk. Checkpoint sealed."].

(** [report] is the text package fmt makes of a snapshot. *)
Definition execMetrics (report : EngineMetricsSnapshot -> bytes) : exec (list bytes) := fun e =>
  match db_metrics (edb e) with
  | None => (Err (Msg "telemetry interface is not active on this runtime instance"), e)
  | Some m => (Ok [report (Capture m)], e)
  end.

(** ** INSERT, UPDATE, DELETE *)

Definition execInsert (docID : Z) (value : bytes) (compressed : bool) (codec : option Codec) (c : stmt_clock) :
    exec (list bytes) :=
  let keyStr := Sprintf_d docID in
  txID ← begin_occ (occBegin c);
  err ← commit_occ txID {[key_string keyStr := Some value]} (occCommit c) (occTTL c);
  match err with
  | Some err => of_result (Err err)
  | None =>
      txn ← exec_begin;
      _ ← acquire txn keyStr LockExclusive;
      r ← try (match codec with
               | Some codec => if compressed then on_db (fun db => WriteCompressed db 0 txn keyStr value 0 codec (pageClock c))
                               else on_db (fun db => Write db 0 txn keyStr value (MixInt 0) (pageClock c))
               | None => on_db (fun db => Write db 0 txn keyStr value (MixInt 0) (pageClock c))
               end);
      _ ← exec_commit txn;
      _ ← release_all txn;
      match r with
      | inl err => of_result (Err err)
      | inr _ =>
          _ ← add_index docID value;
          mret [str "SUCCESS: Insert executed on storage block and tracking version appended to cache chains"]
      end
  end.

(** The loop of [UPDATE]; the write set collects the new versions. *)
Fixpoint update_loop (newValue : bytes) (txn : Z) (docIDs : list Z) (cs : nat -> clock)
    (ws : gmap string (option bytes)) : exec (gmap string (option bytes)) :=
  match docIDs with
  | [] => mret ws
  | id :: docIDs =>
      let keyStr := Sprintf_d id in
      _ ← acquire txn keyStr LockExclusive;
      _ ← ignore (on_db (fun db => Write db 0 txn keyStr newValue (MixInt 0) (cs 0%nat)));
      _ ← add_index id newValue;
      update_loop newValue txn docIDs (fun i => cs (S i)) (<[key_string keyStr := Some newValue]> ws)
  end.

(** What [UPDATE] and [DELETE] end with. *)
Definition finish_writes (txID txn : Z) (ws : gmap string (option bytes)) (nowCommit nowTTL : Z) (msg : bytes) :
    exec (list bytes) :=
  err ← commit_occ txID ws nowCommit nowTTL;
  _ ← exec_commit txn;
  _ ← release_all txn;
  match err with
  | Some err => of_result (Err err)
  | None => mret [msg]
  end.

Definition execUpdate (filter : Query) (newValue : bytes) (searcher : option bytes) (now nowCommit nowTTL : Z)
    (cs : nat -> clock) : exec (list bytes) :=
  docIDs ← run_filter filter searcher;
  txID ← begin_occ now;
  txn ← exec_begin;
  ws ← update_loop newValue txn docIDs cs ∅;
  finish_writes txID txn ws nowCommit nowTTL (str "SUCCESS: MVCC chains updated and physical blocks synchronized").

Fixpoint tombstone_loop (txn : Z) (docIDs : list Z) (cs : nat -> clock)
    (ws : gmap string (option bytes)) : exec (gmap string (option bytes)) :=
  match docIDs with
  | [] => mret ws
  | id :: docIDs =>
      let keyStr := Sprintf_d id in
      _ ← acquire txn keyStr LockExclusive;
      _ ← ignore (on_db (fun db => Write db 0 txn keyStr [] (MixDuration 1) (cs 0%nat)));
      tombstone_loop txn docIDs (fun i => cs (S i)) (<[key_string keyStr := None]> ws)
  end.

Definition execDelete (filter : Query) (searcher : option bytes) (now nowCommit nowTTL : Z) (cs : nat -> clock) :
    exec (list bytes) :=
  docIDs ← run_filter filter searcher;
  txID ← begin_occ now;
  txn ← exec_begin;
  ws ← tombstone_loop txn docIDs cs ∅;
  finish_writes txID txn ws nowCommit nowTTL (str "SUCCESS: Transaction complete. MVCC tombstone markers assigned.").

(** ** [UQLStatement.Execute] *)

Definition execute (env : StmtEnv) (stmt : UQLStatement) : exec (list bytes) :=
  let c := env_stmt env in
  match stmt with
  | HSetStatement h f v => execHSet h f v c
  | SelectStatement q limit comp table _ _ =>
      execSelect q limit comp table (env_searcher env) (env_codec env) (occBegin c) (env_rows env)
  | RecoverStatement => execRecover (env_undoFuel env) (env_redo env) (env_undo env) (env_walFile env)
  | CheckpointStatement => execCheckpoint (env_log env)
  | MetricsStatement => execMetrics (env_report env)
  | InsertStatement id v comp => execInsert id v comp (env_codec env) c
  | UpdateStatement q v =>
      execUpdate q v (env_searcher env) (occBegin c) (occCommit c) (occTTL c) (env_pages env)
  | DeleteStatement q =>
      execDelete q (env_searcher env) (occBegin c) (occCommit c) (occTTL c) (env_pages env)
  end.
End Statements.
