(* ===== verification/UQLSpec.v ===== *)
(** What the UQL statements do to an engine on which nothing else runs: the page
    of rows, the version cache, the index and the locks. *)

From Stdlib Require Import Strings.Byte.
From S2P Require Import Common.
From S2P Require Import Prelude.
From S2P Require Import VFS.
From S2P Require Import LRU.
From S2P Require Import Page.
From S2P Require Import Slotted.
From S2P Require Import Telemetry.
From S2P Require Import BufferPool.
From S2P Require Import PoolInv.
From S2P Require Import PoolOps.
From S2P Require Import WAL.
From S2P Require Import DBPage.
From S2P Require Import DB.
From S2P Require Import DBSpec.
From S2P Require Import LockManager.
From S2P Require Import Roaring.
From S2P Require Import Segment.
From S2P Require Import Query.
From S2P Require Import MVCC.
From S2P Require Import UQLLexer.
From S2P Require Import UQLParser.
From S2P Require Import UQLParserSpec.
From S2P Require Import UQLExec.

(** ** The locks of one statement *)

(** Every lock is held by [t] alone, in mode [m], and listed for it. *)
Definition sole (t : Z) (m : LockMode) (s : LockState) : Prop :=
  forall k lk, locks s !! k = Some lk -> lk = mkLock m {[t]} [] /\ k ∈ default ∅ (txns s !! t).

Lemma sole_empty t m s : locks s = ∅ -> sole t m s.
Proof. intros E k lk. by rewrite E, lookup_empty. Qed.

Lemma Acquire_sole t k m s : sole t m s -> exists s', Acquire t k m s = (true, s') /\ sole t m s'.
Proof.
  intros Hs. unfold Acquire. destruct (locks s !! k) as [lk|] eqn:Ek.
  - destruct (Hs k lk Ek) as [-> _]. cbn [holders mode]. rewrite bool_decide_eq_true_2 by set_solver.
    exists s. split; [|done]. by destruct m.
  - eexists. split; [reflexivity|]. intros k' lk'. cbn [grant_new addTxnLock set_lock locks txns]. rewrite lookup_insert_eq.
    cbn [default from_option id]. intros [[<- <-]|[Hne Hk]]%lookup_insert_Some; [split; [done|set_solver]|].
    destruct (Hs k' lk' Hk) as [-> Hin]. split; [done|set_solver].
Qed.

(** Dropping the locks one after the other empties the table. *)
Lemma drop_sole t m k s :
  locks s !! k = Some (mkLock m {[t]} []) -> drop_holder t k (mkLock m {[t]} []) s = mkLS (delete k (locks s)) (txns s) (blocked s) (ready s) (nextChan s).
Proof. intros Hk. unfold drop_holder. cbn [holders waiters]. by rewrite bool_decide_eq_true_2 by set_solver. Qed.

Lemma release_keys_sole t m keys s :
  (forall k lk, locks s !! k = Some lk -> lk = mkLock m {[t]} [] /\ k ∈ keys) -> locks (release_keys t keys s) = ∅.
Proof.
  unfold release_keys. revert s. induction keys as [|k keys IH]; intros s Hs; cbn [fold_left].
  - apply map_empty. intros k. destruct (locks s !! k) as [lk|] eqn:E; [|done]. apply Hs in E as [_ Hin]. by apply not_elem_of_nil in Hin.
  - apply IH. intros k' lk' Hk'. destruct (locks s !! k) as [lk|] eqn:Ek.
    + destruct (Hs k lk Ek) as [-> _]. rewrite (drop_sole t m k s Ek) in Hk'. cbn in Hk'.
      apply lookup_delete_Some in Hk' as [Hne Hk']. destruct (Hs k' lk' Hk') as [-> Hin]. split; [done|].
      apply elem_of_cons in Hin as [->|Hin]; [done|done].
    + destruct (Hs k' lk' Hk') as [-> Hin]. split; [done|]. apply elem_of_cons in Hin as [->|Hin]; [by rewrite Ek in Hk'|done].
Qed.

Lemma ReleaseAll_sole `{MR : MapRange} t m s : sole t m s -> locks (ReleaseAll t s) = ∅.
Proof.
  intros Hs. unfold ReleaseAll. destruct (txns s !! t) as [keys|] eqn:Et; cbn [locks].
  - apply (release_keys_sole t m). intros k lk Hk. destruct (Hs k lk Hk) as [-> Hin]. split; [done|].
    rewrite Et in Hin. cbn in Hin. apply list_elem_of_fmap. exists (k, true). split; [done|]. apply elem_of_range.
    by apply lookup_gset_to_gmap_Some.
  - apply map_empty. intros k. destruct (locks s !! k) as [lk|] eqn:E; [|done]. apply Hs in E as [_ Hin].
    rewrite Et in Hin. cbn in Hin. set_solver.
Qed.

(** ** The cache between statements *)

(** No version is newer than time [T], none expires, and transaction ids do not
    run out. *)
Record cache_ok (T : Z) (c : Cache.MVCCCacheStore) : Prop := {
  co_versions : forall k vs v, Cache.recs c !! k = Some vs -> v ∈ vs ->
    Cache.TxnID v <= Cache.txIdGen c /\ Cache.ExpiredAt v = None /\
    Cache.Deleted v = bool_decide (Cache.Value v = None) /\ Cache.Version v <= T;
  co_ids : 0 <= Cache.txIdGen c
}.

Lemma cache_ok_mono T T' c : cache_ok T c -> T <= T' -> cache_ok T' c.
Proof.
  intros [Hv Hi] HT. split; [|done]. intros k vs v Hk Hin. destruct (Hv k vs v Hk Hin) as (? & ? & ? & ?). split_and!; try done; lia.
Qed.

(** The newest version of a key: a value or a tombstone. *)
Definition newest (c : Cache.MVCCCacheStore) (k : string) : option (option bytes) :=
  Cache.Value <$> (Cache.recs c !! k ≫= last).

Lemma newest_read T c tx ts k now :
  cache_ok T c -> Cache.activeTx c !! tx = Some ts -> Cache.txIdGen c <= tx ->
  Cache.Read tx k now c = match newest c k with
                          | Some (Some v) => Ok (Some v)
                          | Some None => Err Cache.ErrTombstone
                          | None => Err Cache.ErrNoKey
                          end.
Proof.
  intros [Hv _] Ha Hid. unfold Cache.Read, newest. rewrite Ha. destruct (Cache.recs c !! k) as [vs|] eqn:Ek; [|done].
  cbn [mbind option_bind]. destruct vs as [|v vs _] using rev_ind; [done|]. rewrite last_snoc. cbn [fmap option_fmap option_map].
  destruct (vs ++ [v]) eqn:E; [by destruct vs|]. rewrite <- E in *. clear E. rewrite rev_app_distr. cbn [rev app Cache.visible_version].
  destruct (Hv k _ v Ek) as (H1 & H2 & H3 & _); [set_solver|]. rewrite (proj2 (Z.leb_le _ _)) by lia. cbn [orb].
  rewrite H2, H3, orb_false_r. by destruct (Cache.Value v).
Qed.

Section Commits.
Context `{MR : MapRange}.

(** What a commit leaves: nothing new, or the write set on top. *)
Lemma commit_newest T c tx ws now nowTTL err c' :
  cache_ok T c -> tx <= Cache.txIdGen c -> 0 <= now < 2 ^ 64 -> now <= T ->
  Cache.ValidateAndCommit tx ws 0 now nowTTL c = (err, c') ->
  cache_ok T c' /\ Cache.txIdGen c' = Cache.txIdGen c /\ Cache.activeTx c' = delete tx (Cache.activeTx c) /\
  (forall k, newest c' k = newest c k \/ err = None /\ exists o, ws !! k = Some o /\ newest c' k = Some o) /\
  (err = None -> forall k, newest c' k = match ws !! k with Some o => Some o | None => newest c k end).
Proof.
  intros [Hv Hi] Htx Hn HT E. apply ValidateAndCommit_spec in E as (Ea & Eg & [(_ & -> & Er)|(_ & -> & Er)]).
  - split_and!; [split|done..| |done]; [|lia|].
    + intros k vs v. rewrite Er, Eg. intros Hk Hin. destruct (Hv k vs v Hk Hin) as (? & ? & ? & ?). split_and!; try done; lia.
    + intros k. left. unfold newest. by rewrite Er.
  - assert (forall k, newest c' k = match ws !! k with Some o => Some o | None => newest c k end) as Hnew.
    { intros k. unfold newest. rewrite Er. destruct (ws !! k) as [o|]; [|done]. cbn [mbind option_bind]. by rewrite last_snoc. }
    split_and!; [split|done..| |done]; [|lia|].
    + intros k vs v. rewrite Er, Eg. destruct (ws !! k) as [o|].
      * intros [= <-] [Hin|Hin%list_elem_of_singleton]%elem_of_app.
        -- destruct (Cache.recs c !! k) as [vs|] eqn:Ek; [|by apply not_elem_of_nil in Hin].
           destruct (Hv k vs v Ek Hin) as (? & ? & ? & ?). split_and!; try done; lia.
        -- subst v. cbn. rewrite u64_small by lia. split_and!; try done; lia.
      * intros Hk Hin. destruct (Hv k vs v Hk Hin) as (? & ? & ? & ?). split_and!; try done; lia.
    + intros k. rewrite Hnew. destruct (ws !! k) as [o|]; [right; by eauto|by left].
Qed.

(** A transaction that began after every version meets no conflict. *)
Lemma commit_succeeds T c tx ws now nowTTL ts :
  cache_ok T c -> Cache.activeTx c !! tx = Some ts -> T <= ts -> (Cache.ValidateAndCommit tx ws 0 now nowTTL c).1 = None.
Proof.
  intros [Hv _] Ha HT. destruct (Cache.ValidateAndCommit _ _ _ _ _ _) as [err c'] eqn:E. cbn.
  apply ValidateAndCommit_spec in E as (_ & _ & [((k & _ & Hc) & _)|(_ & -> & _)]); [|done].
  rewrite Ha in Hc. unfold Cache.conflicts in Hc. cbn in Hc. destruct (Cache.recs c !! k) as [vs|] eqn:Ek; [|done].
  destruct (last vs) as [v|] eqn:El; [|done]. destruct (Hv k vs v Ek) as (_ & _ & _ & Hle).
  { apply last_Some_elem_of in El. done. }
  rewrite (proj2 (Z.ltb_ge _ _)) in Hc by lia. done.
Qed.

Lemma begin_cache T c now :
  cache_ok T c -> Cache.txIdGen c + 1 < 2 ^ 64 -> 0 <= now < 2 ^ 64 ->
  exists c', Cache.BeginOCC now c = (Cache.txIdGen c + 1, c') /\ cache_ok T c' /\
    Cache.txIdGen c' = Cache.txIdGen c + 1 /\ Cache.activeTx c' !! (Cache.txIdGen c + 1) = Some now /\
    (forall k, newest c' k = newest c k).
Proof.
  intros [Hv Hi] Hid Hn. unfold Cache.BeginOCC. rewrite !u64_small by lia. eexists. split; [reflexivity|]. split.
  - split; cbn; [|lia]. intros k vs v Hk Hin. destruct (Hv k vs v Hk Hin) as (? & ? & ? & ?). split_and!; try done; lia.
  - split; [done|]. split; [apply lookup_insert_eq|done].
Qed.
End Commits.

(** ** The engine between and during statements *)

Section Engines.
Context {D : Type} `{DS : BlockDeviceSpec D} `{RD : !ReliableDevice D} `{MR : MapRange}.
Abbreviation engine := (Engine D LRUEvictionPolicy).
Implicit Types e : engine.
Implicit Types ps : gmap PageID (list record).

(** The row page holds [rs]; the transactions [active] run; the locks satisfy
    [L].  Cache and index are [c] and [ix]. *)
Record engine_at ps (rs : list record) (c : Cache.MVCCCacheStore) (ix : option MemIndex) (active : gset Z)
    (next : Z) (L : LockState -> Prop) e : Prop := {
  en_db : db_rep (<[0 := rs]> ps) (edb e);
  en_active : activeTxns (edb e) = active;
  en_next : nextTxnID (edb e) = next;
  en_cache : cache e = c;
  en_index : eindex e = ix;
  en_locks : forall s, lockMgr e = Some s -> L s
}.

(** Nothing runs. *)
Definition quiet ps rs c ix next e : Prop := engine_at ps rs c ix ∅ next (fun s => locks s = ∅) e.

(** One statement runs, as transaction [t], with locks of mode [m]. *)
Definition running ps rs c ix t m e : Prop := engine_at ps rs c ix {[t]} t (sole t m) e.

(** What a read finds on the row page when only the reader runs. *)
Definition page_value (now : Z) (rs : list record) (k : bytes) : option bytes := read_spec now ∅ 0 k rs.

Lemma read_alone now t k rs : read_spec now {[t]} t k rs = page_value now rs k.
Proof.
  unfold page_value, read_spec.
  assert (filter (fun r => key r = k /\ visible {[t]} t r = true) rs = filter (fun r => key r = k /\ visible ∅ 0 r = true) rs)
    as ->; [|done].
  apply list_filter_iff. intros r. unfold visible. rewrite (bool_decide_eq_false_2 (txnID r ∈ ∅)) by set_solver.
  destruct (Z.eqb_spec (txnID r) t) as [->|Hne]; [by rewrite orb_true_r|]. by rewrite bool_decide_eq_false_2 by set_solver.
Qed.

Lemma begin_at ps rs c ix next L e :
  engine_at ps rs c ix ∅ next L e ->
  exists e', exec_begin e = (Ok (u64 (next + 1)), e') /\ engine_at ps rs c ix {[u64 (next + 1)]} (u64 (next + 1)) L e'.
Proof.
  intros [[H1 H2 H3 H4] H5 H6 H7 H8 H9]. unfold exec_begin, on_db, BeginTxn. rewrite H6. eexists. split; [reflexivity|].
  split; try done; cbn. rewrite H5. set_solver.
Qed.

Lemma commit_at ps rs c ix t L e :
  engine_at ps rs c ix {[t]} t L e -> exists e', exec_commit t e = (Ok tt, e') /\ engine_at ps rs c ix ∅ t L e'.
Proof.
  intros [[H1 H2 H3 H4] H5 H6 H7 H8 H9]. eexists. split; [reflexivity|]. split; try done; cbn. rewrite H5. set_solver.
Qed.

Lemma engine_at_locks ps rs c ix act next (L L' : LockState -> Prop) e :
  engine_at ps rs c ix act next L e -> (forall s, L s -> L' s) -> engine_at ps rs c ix act next L' e.
Proof. intros [H1 H2 H3 H4 H5 H6] HL. split; try done. intros s Hs. by apply HL, H6. Qed.

Lemma exec_begin_run ps rs c ix next m e :
  quiet ps rs c ix next e ->
  exists e', exec_begin e = (Ok (u64 (next + 1)), e') /\ running ps rs c ix (u64 (next + 1)) m e'.
Proof.
  intros Hq. destruct (begin_at _ _ _ _ _ _ _ Hq) as (e' & E & He). exists e'. split; [done|].
  eapply engine_at_locks; [exact He|]. intros s. apply sole_empty.
Qed.

Lemma acquire_run ps rs c ix t m e k :
  running ps rs c ix t m e -> exists e', acquire t k m e = (Ok tt, e') /\ running ps rs c ix t m e'.
Proof.
  intros [H1 H2 H3 H4 H5 H6]. unfold acquire. destruct (lockMgr e) as [s|] eqn:El.
  - destruct (Acquire_sole t (key_string k) m s (H6 s eq_refl)) as (s' & -> & Hs'). eexists. split; [reflexivity|].
    split; try done. by intros ? [= <-].
  - exists e. split; [done|]. split; try done. by rewrite El.
Qed.

(** The end of a statement, in the order of the code or as deferred calls run. *)
Lemma finish_run ps rs c ix t m e :
  running ps rs c ix t m e ->
  (exists e1 e', exec_commit t e = (Ok tt, e1) /\ release_all t e1 = (Ok tt, e') /\ quiet ps rs c ix t e') /\
  (exists e1 e', release_all t e = (Ok tt, e1) /\ exec_commit t e1 = (Ok tt, e') /\ quiet ps rs c ix t e').
Proof.
  intros [[H1 H1' H1'' H1'''] H2 H3 H4 H5 H6].
  assert (forall e', edb e' = CommitTxn (edb e) t -> cache e' = c -> eindex e' = ix ->
    lockMgr e' = ReleaseAll t <$> lockMgr e -> quiet ps rs c ix t e') as Hq.
  { intros e' E1 E2 E3 E4. split; try done; rewrite ?E1; cbn; [by split|rewrite H2; set_solver|done|].
    intros s. rewrite E4. destruct (lockMgr e) as [s0|]; [|done]. intros [= <-]. apply (ReleaseAll_sole t m). by apply H6. }
  split; eexists _, _; (split; [reflexivity|]; split; [reflexivity|]); by apply Hq.
Qed.

Lemma on_db_run {A} ps rs rs' c ix t L e (f : DB D LRUEvictionPolicy -> result A * DB D LRUEvictionPolicy) r db' :
  engine_at ps rs c ix {[t]} t L e -> f (edb e) = (r, db') -> same_txns (edb e) db' -> db_rep (<[0 := rs']> ps) db' ->
  exists e', on_db f e = (r, e') /\ engine_at ps rs' c ix {[t]} t L e'.
Proof.
  intros [H1 H2 H3 H4 H5 H6] Ef [Ea En] Hrep. unfold on_db. rewrite Ef. eexists. split; [reflexivity|].
  split; try done; cbn; congruence.
Qed.

Lemma write_at ps rs c ix t L e k v mix clk :
  engine_at ps rs c ix {[t]} t L e -> 0 <= t < 2 ^ 64 -> zlen k + zlen v < 2 ^ 30 ->
  let '(fits, rs') := write_spec (nowCompact clk) rs (mkRecord t (write_expiry clk mix) k v) in
  exists e', on_db (fun db => Write db 0 t k v mix clk) e = ((if fits then Ok tt else Err ErrPageOverflow), e') /\
    engine_at ps rs' c ix {[t]} t L e'.
Proof.
  intros Hr Ht Hl. pose proof (Write_run _ (edb e) 0 rs t k v mix clk (en_db _ _ _ _ _ _ _ _ Hr) (lookup_insert_eq _ _ _) Ht Hl) as Hw.
  cbn zeta in Hw. destruct (write_spec _ _ _) as [fits rs']. destruct Hw as (db' & E & Hs & Hrep). rewrite insert_insert_eq in Hrep.
  by apply (on_db_run ps rs rs' c ix t L e _ _ db').
Qed.

Lemma read_at ps rs c ix t L e k now :
  engine_at ps rs c ix {[t]} t L e ->
  exists e', on_db (fun db => DB.Read db 0 t k now) e =
      ((match page_value now rs k with Some v => Ok v | None => Err ErrKeyNotFound end), e') /\
    engine_at ps rs c ix {[t]} t L e'.
Proof.
  intros Hr. destruct (Read_run _ (edb e) 0 rs t k now (en_db _ _ _ _ _ _ _ _ Hr) (lookup_insert_eq _ _ _)) as (db' & E & Hs & Hrep).
  rewrite (en_active _ _ _ _ _ _ _ _ Hr), read_alone in E. by apply (on_db_run ps rs rs c ix t L e _ _ db').
Qed.

Lemma on_cache_run {A} ps rs c ix act next L e (f : Cache.MVCCCacheStore -> A * Cache.MVCCCacheStore) a c' :
  engine_at ps rs c ix act next L e -> f c = (a, c') ->
  exists e', on_cache f e = (Ok a, e') /\ engine_at ps rs c' ix act next L e'.
Proof.
  intros [H1 H2 H3 H4 H5 H6] Ef. unfold on_cache. rewrite H4, Ef. eexists. split; [reflexivity|]. by split.
Qed.

Lemma add_index_run ps rs c ix act next L e id text :
  engine_at ps rs c ix act next L e ->
  exists e', add_index id text e = (Ok tt, e') /\ engine_at ps rs c ((fun m => index_Add m id text) <$> ix) act next L e'.
Proof. intros [H1 H2 H3 H4 H5 H6]. eexists. split; [reflexivity|]. split; try done. cbn. by rewrite H5. Qed.
End Engines.
