(* ===== verification/UQLProps.v ===== *)
(** The theorems on UQL statements: what [INSERT] writes, what [SELECT] returns,
    and both together. *)

From Stdlib Require Import Strings.Byte.
From S2P Require Import Common.
From S2P Require Import Prelude.
From S2P Require Import VFS.
From S2P Require Import LRU.
From S2P Require Import Page.
From S2P Require Import Slotted.
From S2P Require Import Telemetry.
From S2P Require Import BufferPool.
From S2P Require Import PoolInv.
From S2P Require Import PoolOps.
From S2P Require Import WAL.
From S2P Require Import DBPage.
From S2P Require Import DB.
From S2P Require Import DBSpec.
From S2P Require Import DBProps.
From S2P Require Import LockManager.
From S2P Require Import Roaring.
From S2P Require Import Segment.
From S2P Require Import Query.
From S2P Require Import MVCC.
From S2P Require Import UQLLexer.
From S2P Require Import UQLParser.
From S2P Require Import UQLParserSpec.
From S2P Require Import UQLExec.
From S2P Require Import UQLSpec.

Lemma print_digits_length fuel n acc : (length (print_digits fuel n acc) <= fuel + length acc)%nat.
Proof.
  revert n acc. induction fuel as [|fuel IH]; intros n acc; cbn [print_digits]; [lia|].
  destruct (n <? 10); [cbn; lia|]. etransitivity; [apply IH|]. cbn. lia.
Qed.

Lemma Sprintf_d_length n : 0 <= zlen (Sprintf_d n) <= 20.
Proof. unfold zlen, Sprintf_d. pose proof (print_digits_length 20 n []). cbn in *. lia. Qed.

Section Runs.
Context {D : Type} `{DS : BlockDeviceSpec D} `{RD : !ReliableDevice D} `{MR : MapRange}.
Abbreviation engine := (Engine D LRUEvictionPolicy).
Implicit Types e : engine.
Implicit Types ps : gmap PageID (list record).

(** The clock goes forward, from [T] on. *)
Definition clock_after (T : Z) (clk : stmt_clock) : Prop :=
  T <= occBegin clk /\ 0 <= occBegin clk <= occCommit clk /\ occCommit clk < 2 ^ 64.

(** A statement's own cache transaction. *)
Lemma cache_write_run T ps rs c ix next e k o clk :
  quiet ps rs c ix next e -> cache_ok T c -> Cache.txIdGen c + 1 < 2 ^ 64 -> clock_after T clk ->
  exists e' c', (forall B (f : option error -> io engine B),
      (txID ← begin_occ (occBegin clk); err ← commit_occ txID {[k := o]} (occCommit clk) (occTTL clk); f err) e = f None e') /\
    quiet ps rs c' ix next e' /\ cache_ok (occCommit clk) c' /\ Cache.txIdGen c' = Cache.txIdGen c + 1 /\
    forall k', newest c' k' = if decide (k' = k) then Some o else newest c k'.
Proof.
  intros Hq Hc Hid (HT & H0 & H1). destruct (begin_cache T c (occBegin clk) Hc Hid ltac:(lia)) as (c1 & E1 & Hc1 & Eg & Ea & En).
  destruct (on_cache_run _ _ _ _ _ _ _ e _ _ c1 Hq E1) as (e1 & Ee1 & Hq1).
  pose proof (commit_succeeds T c1 _ {[k := o]} (occCommit clk) (occTTL clk) _ Hc1 Ea HT) as Hs.
  destruct (Cache.ValidateAndCommit (Cache.txIdGen c + 1) {[k := o]} 0 (occCommit clk) (occTTL clk) c1) as [err c2] eqn:E2.
  cbn in Hs. subst err. destruct (commit_newest (occCommit clk) c1 (Cache.txIdGen c + 1) {[k := o]} (occCommit clk) (occTTL clk) None c2
    (cache_ok_mono T (occCommit clk) c1 Hc1 ltac:(lia)) ltac:(lia) ltac:(lia) ltac:(lia) E2) as (Hc2 & Eg2 & _ & _ & Hn2).
  destruct (on_cache_run _ _ _ _ _ _ _ e1 _ _ c2 Hq1 E2) as (e2 & Ee2 & Hq2). exists e2, c2. split_and!; [|done|done|lia|].
  - intros B f. unfold begin_occ. rewrite (bind_ok _ _ _ _ _ Ee1). unfold commit_occ. by rewrite (bind_ok _ _ _ _ _ Ee2).
  - intros k'. rewrite (Hn2 eq_refl). case_decide as Hk; [subst; by rewrite lookup_singleton_eq|].
    by rewrite lookup_singleton_ne by done.
Qed.

(** A row written as a transaction of its own. *)
Lemma row_txn_run {B} ps rs c ix next e lk k v mix clk (f : error + unit -> io engine B) :
  quiet ps rs c ix next e -> zlen k + zlen v < 2 ^ 30 ->
  let t := u64 (next + 1) in
  let '(fits, rs') := write_spec (nowCompact clk) rs (mkRecord t (write_expiry clk mix) k v) in
  exists e', (txn ← exec_begin; _ ← acquire txn lk LockExclusive; r ← try (on_db (fun db => Write db 0 txn k v mix clk));
              _ ← exec_commit txn; _ ← release_all txn; f r) e =
    f (if fits then inr tt else inl ErrPageOverflow) e' /\ quiet ps rs' c ix t e'.
Proof.
  intros Hq Hl t. destruct (exec_begin_run ps rs c ix next LockExclusive e Hq) as (e1 & E1 & H1). fold t in E1, H1.
  destruct (acquire_run _ _ _ _ _ _ _ lk H1) as (e2 & E2 & H2).
  pose proof (write_at ps rs c ix t _ e2 k v mix clk H2 (u64_ok _) Hl) as Hw.
  destruct (write_spec _ _ _) as [fits rs']. destruct Hw as (e3 & E3 & H3).
  destruct (finish_run _ _ _ _ _ _ _ H3) as ((e4 & e5 & E4 & E5 & H5) & _). exists e5. split; [|done].
  assert (try (on_db (fun db => Write db 0 t k v mix clk)) e2 = (Ok (if fits then inr tt else inl ErrPageOverflow), e3)) as E3'.
  { unfold try. rewrite E3. by destruct fits. }
  rewrite (bind_ok _ _ _ _ _ E1), (bind_ok _ _ _ _ _ E2), (bind_ok _ _ _ _ _ E3'), (bind_ok _ _ _ _ _ E4), (bind_ok _ _ _ _ _ E5).
  done.
Qed.

Lemma execInsert_run T ps rs c ix next e id v codec clk :
  quiet ps rs c ix next e -> cache_ok T c -> Cache.txIdGen c + 1 < 2 ^ 64 -> clock_after T clk -> zlen v < 2 ^ 29 ->
  let t := u64 (next + 1) in let k := Sprintf_d id in
  let '(fits, rs') := write_spec (nowCompact (pageClock clk)) rs (mkRecord t (write_expiry (pageClock clk) (MixInt 0)) k v) in
  exists e' c', execInsert id v false codec clk e =
      ((if fits then Ok [str "SUCCESS: Insert executed on storage block and tracking version appended to cache chains"]
        else Err ErrPageOverflow), e') /\
    quiet ps rs' c' (if fits then (fun m => index_Add m id v) <$> ix else ix) t e' /\
    cache_ok (occCommit clk) c' /\ Cache.txIdGen c' = Cache.txIdGen c + 1 /\
    forall k', newest c' k' = if decide (k' = key_string k) then Some (Some v) else newest c k'.
Proof.
  intros Hq Hc Hid Hclk Hl t k. destruct (cache_write_run T ps rs c ix next e (key_string k) (Some v) clk Hq Hc Hid Hclk)
    as (e1 & c1 & E1 & Hq1 & Hc1 & Eg1 & Hn1).
  pose proof (Sprintf_d_length id) as Hkl. fold k in Hkl.
  match goal with |- context [write_spec ?n rs ?r] => destruct (write_spec n rs r) as [fits rs'] eqn:Ew end.
  pose proof (fun f => row_txn_run (B := list bytes) ps rs c1 ix next e1 k k v (MixInt 0) (pageClock clk) f Hq1 ltac:(lia)) as Hrow.
  cbn zeta in Hrow. fold t in Hrow. rewrite Ew in Hrow.
  set (fin := fun r : error + unit => match r with
    | inl err => of_result (Err err)
    | inr _ => _ ← add_index id v; mret [str "SUCCESS: Insert executed on storage block and tracking version appended to cache chains"]
    end : io engine (list bytes)).
  destruct (Hrow fin) as (e2 & E2 & Hq2).
  assert (execInsert id v false codec clk e = fin (if fits then inr tt else inl ErrPageOverflow) e2) as ->.
  { unfold execInsert. fold k. rewrite E1. rewrite <- E2. by destruct codec. }
  destruct fits; cbn [fin].
  - destruct (add_index_run _ _ _ _ _ _ _ e2 id v Hq2) as (e3 & E3 & Hq3). rewrite (bind_ok _ _ _ _ _ E3). by exists e3, c1.
  - by exists e2, c1.
Qed.

(** ** SELECT *)

(** Between [lo] and [hi] no row expires. *)
Definition settled (lo hi : Z) (rs : list record) : Prop :=
  forall k now, lo <= now < hi -> page_value now rs k = page_value lo rs k.

(** A value in the cache is the value on the page. *)
Definition coherent (lo : Z) (c : Cache.MVCCCacheStore) (rs : list record) : Prop :=
  forall k v, newest c (key_string k) = Some (Some v) -> page_value lo rs k = Some v.

Lemma key_string_inj k k' : key_string k = key_string k' -> k = k'.
Proof.
  unfold key_string. intros E. apply (f_equal String.list_byte_of_string) in E.
  by rewrite !String.list_byte_of_string_of_list_byte in E.
Qed.

(** The rows of a list of documents. *)
Definition rows (lo : Z) (rs : list record) (joinTable : bytes) (docIDs : list Z) : list bytes :=
  join_row joinTable <$> omap (fun id => page_value lo rs (Sprintf_d id)) docIDs.

Lemma cache_read_cases T c tx k now :
  cache_ok T c -> Cache.txIdGen c <= tx ->
  (exists v, Cache.Read tx k now c = Ok (Some v) /\ newest c k = Some (Some v)) \/ (exists err, Cache.Read tx k now c = Err err).
Proof.
  intros Hc Htx. destruct (Cache.activeTx c !! tx) as [ts|] eqn:Ea.
  - rewrite (newest_read T c tx ts k now Hc Ea Htx). destruct (newest c k) as [[v|]|]; [left|right|right]; by eauto.
  - right. unfold Cache.Read. rewrite Ea. by eauto.
Qed.

(** The engine inside a [SELECT] as transactions [t] and [tx]. *)
Definition selecting (T lo : Z) ps rs ix (t tx : Z) e : Prop :=
  exists c, running ps rs c ix t LockShared e /\ cache_ok T c /\ Cache.txIdGen c = tx /\ coherent lo c rs.

(** A row read from the page goes into the cache, or not. *)
Lemma populate_run T lo ps rs ix t tx e k v now nowTTL :
  selecting T lo ps rs ix t tx e -> page_value lo rs k = Some v -> 0 <= now <= T -> now < 2 ^ 64 ->
  exists r e', commit_occ tx {[key_string k := Some v]} now nowTTL e = (Ok r, e') /\ selecting T lo ps rs ix t tx e'.
Proof.
  intros (c & Hr & Hc & Htx & Hco) Hv Hn Hn'.
  destruct (Cache.ValidateAndCommit tx {[key_string k := Some v]} 0 now nowTTL c) as [err c'] eqn:E.
  destruct (commit_newest T c tx _ now nowTTL err c' Hc ltac:(lia) ltac:(lia) ltac:(lia) E) as (Hc' & Eg & _ & Hnew & _).
  destruct (on_cache_run _ _ _ _ _ _ _ e _ _ c' Hr E) as (e' & E' & Hr'). exists err, e'. split; [done|].
  exists c'. split; [done|]. split; [done|]. split; [lia|]. intros k' v'. destruct (Hnew (key_string k')) as [->|(_ & o & Ho & ->)]; [apply Hco|].
  apply lookup_singleton_Some in Ho as [<-%key_string_inj <-]. by intros [= <-].
Qed.

(** One document of the loop: its row, if the page has one, is appended and the
    limit is tested. *)
Lemma select_step T lo hi ps rs ix t tx codec joinTable limit d docIDs ts results e :
  selecting T lo ps rs ix t tx e -> settled lo hi rs ->
  lo <= rowPage (ts 0%nat) < hi /\ 0 <= rowCommit (ts 0%nat) <= T /\ rowCommit (ts 0%nat) < 2 ^ 64 ->
  exists e1, selecting T lo ps rs ix t tx e1 /\
    select_loop limit false joinTable codec tx t (d :: docIDs) ts results e =
      let results' := results ++ rows lo rs joinTable [d] in
      (if limit <=? zlen results' then mret results'
       else select_loop limit false joinTable codec tx t docIDs (fun i => ts (S i)) results') e1.
Proof.
  intros Hs Hset (Hp & Hcm & Hcm'). cbn [select_loop]. set (k := Sprintf_d d). pose proof Hs as (c & Hr & Hc & Htx & Hco).
  assert (rows lo rs joinTable [d] = match page_value lo rs k with Some v => [join_row joinTable v] | None => [] end) as Erows.
  { unfold rows. cbn [omap list_omap]. fold k. by destruct (page_value lo rs k). }
  rewrite Erows. unfold mbind at 1, io_bind at 1. rewrite (en_cache _ _ _ _ _ _ _ _ Hr).
  destruct (cache_read_cases T c tx (key_string k) (rowCache (ts 0%nat)) Hc ltac:(lia)) as [(v & -> & Hn)|(err & ->)].
  { cbn [default from_option id]. rewrite (Hco k v Hn). by exists e. }
  destruct (acquire_run _ _ _ _ _ _ _ k Hr) as (e1 & E1 & Hr1). rewrite (bind_ok _ _ _ _ _ E1).
  destruct (read_at _ _ _ _ _ _ _ k (rowPage (ts 0%nat)) Hr1) as (e2 & E2 & Hr2). rewrite (Hset k _ Hp) in E2.
  assert (try (match codec with Some codec => on_db (fun db => DB.Read db 0 t k (rowPage (ts 0%nat)))
                              | None => on_db (fun db => DB.Read db 0 t k (rowPage (ts 0%nat))) end) e1 =
    (Ok (match page_value lo rs k with Some v => inr v | None => inl ErrKeyNotFound end), e2)) as E2'.
  { unfold try. destruct codec; rewrite E2; by destruct (page_value lo rs k). }
  rewrite (bind_ok _ _ _ _ _ E2'). assert (selecting T lo ps rs ix t tx e2) as Hs2 by by exists c.
  destruct (page_value lo rs k) as [v|] eqn:Ev; [|rewrite app_nil_r; by exists e2].
  destruct (populate_run T lo ps rs ix t tx e2 k v (rowCommit (ts 0%nat)) (rowTTL (ts 0%nat)) Hs2 Ev ltac:(lia) ltac:(lia))
    as (r & e3 & E3 & Hs3). rewrite (bind_ok _ _ _ _ _ E3). by exists e3.
Qed.

Lemma rows_cons lo rs joinTable d docIDs : rows lo rs joinTable (d :: docIDs) = rows lo rs joinTable [d] ++ rows lo rs joinTable docIDs.
Proof. unfold rows. cbn [omap list_omap]. by destruct (page_value lo rs (Sprintf_d d)). Qed.

Lemma rows_one lo rs joinTable d : (length (rows lo rs joinTable [d]) <= 1)%nat.
Proof. unfold rows. cbn [omap list_omap]. destruct (page_value lo rs (Sprintf_d d)); cbn; lia. Qed.

Lemma select_loop_run T lo hi ps rs ix t tx codec joinTable limit docIDs ts results e :
  selecting T lo ps rs ix t tx e -> settled lo hi rs ->
  (forall i, lo <= rowPage (ts i) < hi /\ 0 <= rowCommit (ts i) <= T /\ rowCommit (ts i) < 2 ^ 64) -> zlen results < limit ->
  exists e', select_loop limit false joinTable codec tx t docIDs ts results e =
      (Ok (take (Z.to_nat limit) (results ++ rows lo rs joinTable docIDs)), e') /\
    selecting T lo ps rs ix t tx e'.
Proof.
  intros Hs Hset Hts. revert ts results e Hs Hts. induction docIDs as [|d docIDs IH]; intros ts results e Hs Hts Hlen.
  { cbn [select_loop rows omap fmap list_fmap]. rewrite app_nil_r, take_ge by (unfold zlen in Hlen; lia). by exists e. }
  destruct (select_step T lo hi ps rs ix t tx codec joinTable limit d docIDs ts results e Hs Hset (Hts 0%nat)) as (e1 & Hs1 & ->).
  rewrite (rows_cons lo rs joinTable d docIDs), app_assoc. cbn zeta. pose proof (rows_one lo rs joinTable d). set (results' := results ++ _).
  assert (zlen results' <= limit) as Hl by (unfold results', zlen in *; rewrite length_app; lia).
  destruct (Z.leb_spec limit (zlen results')); [|apply IH; [done|intros i; apply Hts|done]].
  exists e1. split; [|done]. rewrite take_app_le, take_ge by (unfold zlen in *; lia). done.
Qed.

(** The rows a [SELECT] returns for the documents its filter selects: up to
    [limit] rows; but a limit below one ends the loop after the first document
    only. *)
Definition limited_rows (lo : Z) (rs : list record) (joinTable : bytes) (limit : Z) (docIDs : list Z) : list bytes :=
  if 1 <=? limit then take (Z.to_nat limit) (rows lo rs joinTable docIDs) else rows lo rs joinTable (take 1 docIDs).

Lemma select_loop_limited T lo hi ps rs ix t tx codec joinTable limit docIDs ts e :
  selecting T lo ps rs ix t tx e -> settled lo hi rs ->
  (forall i, lo <= rowPage (ts i) < hi /\ 0 <= rowCommit (ts i) <= T /\ rowCommit (ts i) < 2 ^ 64) ->
  exists e', select_loop limit false joinTable codec tx t docIDs ts [] e = (Ok (limited_rows lo rs joinTable limit docIDs), e') /\
    selecting T lo ps rs ix t tx e'.
Proof.
  intros Hs Hset Hts. unfold limited_rows. destruct (Z.leb_spec 1 limit).
  { exact (select_loop_run T lo hi ps rs ix t tx codec joinTable limit docIDs ts [] e Hs Hset Hts ltac:(unfold zlen; cbn; lia)). }
  destruct docIDs as [|d docIDs]; [by exists e|].
  destruct (select_step T lo hi ps rs ix t tx codec joinTable limit d docIDs ts [] e Hs Hset (Hts 0%nat)) as (e1 & Hs1 & ->).
  cbn zeta. rewrite app_nil_l. pose proof (zlen_nonneg (rows lo rs joinTable [d])). rewrite (proj2 (Z.leb_le _ _)) by lia.
  by exists e1.
Qed.

Lemma execSelect_run T lo hi ps rs c ix next e q data bm limit joinTable codec now ts :
  quiet ps rs c ix next e -> cache_ok T c -> Cache.txIdGen c + 1 < 2 ^ 64 -> 0 <= now < 2 ^ 64 ->
  coherent lo c rs -> settled lo hi rs ->
  (forall i, lo <= rowPage (ts i) < hi /\ 0 <= rowCommit (ts i) <= T /\ rowCommit (ts i) < 2 ^ 64) ->
  Execute q data = Ok bm ->
  exists e' c', execSelect q limit false joinTable (Some data) codec now ts e =
      (Ok (limited_rows lo rs joinTable limit (ToArray bm)), e') /\
    quiet ps rs c' ix (u64 (next + 1)) e' /\ cache_ok T c' /\ Cache.txIdGen c' = Cache.txIdGen c + 1 /\ coherent lo c' rs.
Proof.
  intros Hq Hc Hid Hnow Hco Hset Hts Ebm. unfold execSelect.
  assert (run_filter q (Some data) e = (Ok (ToArray bm), e)) as E0 by (unfold run_filter; by rewrite Ebm).
  rewrite (bind_ok _ _ _ _ _ E0). destruct (begin_cache T c now Hc Hid Hnow) as (c1 & E1 & Hc1 & Eg1 & _ & Hn1).
  destruct (on_cache_run _ _ _ _ _ _ _ e _ _ c1 Hq E1) as (e1 & Ee1 & Hq1). unfold begin_occ. rewrite (bind_ok _ _ _ _ _ Ee1).
  destruct (exec_begin_run _ _ _ _ _ LockShared e1 Hq1) as (e2 & E2 & Hr2). rewrite (bind_ok _ _ _ _ _ E2).
  destruct (select_loop_limited T lo hi ps rs ix (u64 (next + 1)) (Cache.txIdGen c + 1) codec joinTable limit (ToArray bm) ts e2)
    as (e3 & E3 & (c3 & Hr3 & Hc3 & Eg3 & Hco3)); [|done|done|].
  { exists c1. split; [done|]. split; [done|]. split; [done|]. intros k v. rewrite Hn1. apply Hco. }
  rewrite (bind_ok _ _ _ _ _ E3). destruct (finish_run _ _ _ _ _ _ _ Hr3) as (_ & e4 & e5 & E4 & E5 & Hq5).
  rewrite (bind_ok _ _ _ _ _ E4), (bind_ok _ _ _ _ _ E5). by exists e5, c3.
Qed.

(** ** INSERT keeps page and cache together *)

Lemma page_value_snoc now rs r k :
  page_value now (rs ++ [r]) k = if bool_decide (key r = k) then (if live now r then Some (val r) else None) else page_value now rs k.
Proof.
  unfold page_value. rewrite read_spec_snoc. unfold visible. rewrite (bool_decide_eq_false_2 (txnID r ∈ ∅)) by set_solver.
  cbn [negb orb]. by rewrite andb_true_r.
Qed.

Lemma settled_snoc lo hi rs r : settled lo hi rs -> lo < hi -> hi <= i64 (expiresAt r) -> settled lo hi (rs ++ [r]).
Proof.
  intros Hs Hlh Hh k now Hn. rewrite !page_value_snoc. case_bool_decide; [|by apply Hs].
  unfold live. by rewrite !(proj2 (Z.ltb_lt _ _)) by lia.
Qed.

Lemma coherent_insert lo c c' rs r k v :
  coherent lo c rs -> key r = k -> val r = v -> lo < i64 (expiresAt r) ->
  (forall k', newest c' k' = if decide (k' = key_string k) then Some (Some v) else newest c k') -> coherent lo c' (rs ++ [r]).
Proof.
  intros Hco Hk Hv Hlive Hn k' v'. rewrite Hn, page_value_snoc, Hk, Hv. case_decide as E.
  - apply key_string_inj in E as ->. intros [= <-]. rewrite bool_decide_eq_true_2 by done. unfold live.
    by rewrite (proj2 (Z.ltb_lt _ _)) by lia.
  - rewrite bool_decide_eq_false_2 by congruence. apply Hco.
Qed.

(** A row the cache holds is returned from there. *)
Lemma execSelect_hit T ps rs c ix next e q data bm d v codec now ts :
  quiet ps rs c ix next e -> cache_ok T c -> Cache.txIdGen c + 1 < 2 ^ 64 -> 0 <= now < 2 ^ 64 ->
  Execute q data = Ok bm -> ToArray bm = [d] -> newest c (key_string (Sprintf_d d)) = Some (Some v) ->
  exists e', execSelect q 1 false [] (Some data) codec now ts e = (Ok [v], e').
Proof.
  intros Hq Hc Hid Hnow Ebm Ed Hn. unfold execSelect.
  assert (run_filter q (Some data) e = (Ok [d], e)) as E0 by (unfold run_filter; by rewrite Ebm; cbn; rewrite Ed).
  rewrite (bind_ok _ _ _ _ _ E0). destruct (begin_cache T c now Hc Hid Hnow) as (c1 & E1 & Hc1 & Eg1 & Ea1 & Hn1).
  destruct (on_cache_run _ _ _ _ _ _ _ e _ _ c1 Hq E1) as (e1 & Ee1 & Hq1). unfold begin_occ. rewrite (bind_ok _ _ _ _ _ Ee1).
  destruct (exec_begin_run _ _ _ _ _ LockShared e1 Hq1) as (e2 & E2 & Hr2). rewrite (bind_ok _ _ _ _ _ E2).
  assert (select_loop 1 false [] codec (Cache.txIdGen c + 1) (u64 (next + 1)) [d] ts [] e2 = (Ok [v], e2)) as E3.
  { cbn [select_loop]. unfold mbind at 1, io_bind at 1. rewrite (en_cache _ _ _ _ _ _ _ _ Hr2).
    by rewrite (newest_read T c1 _ now _ _ Hc1 Ea1 ltac:(lia)), Hn1, Hn. }
  rewrite (bind_ok _ _ _ _ _ E3). destruct (finish_run _ _ _ _ _ _ _ Hr2) as (_ & e4 & e5 & E4 & E5 & _).
  rewrite (bind_ok _ _ _ _ _ E4), (bind_ok _ _ _ _ _ E5). by eexists.
Qed.

(** ** Properties *)

(** The clock readings of a [SELECT] fall into the window and before [T]. *)
Definition select_times (lo hi T : Z) (now : Z) (ts : nat -> row_clock) : Prop :=
  0 <= now < 2 ^ 64 /\
  forall i, lo <= rowPage (ts i) < hi /\ 0 <= rowCommit (ts i) <= T /\ rowCommit (ts i) < 2 ^ 64.

(** The row an [INSERT] writes. *)
Definition inserted_row (next d : Z) (v : bytes) (clk : stmt_clock) : record :=
  mkRecord (u64 (next + 1)) (write_expiry (pageClock clk) (MixInt 0)) (Sprintf_d d) v.

(** C12: An uncompressed [SELECT] on an engine with nothing else running, whose
    cached values are those of the row page, at clock readings between which no row
    of that page expires, returns the rows of the documents its filter selects, in the order of their ids: those, and only those,
    the row page holds, whether a row comes from the cache or from the page (the
    first row read from the page ends the cache transaction, so later rows come from
    the page even if they are cached).  A limit of one or more bounds the number of
    rows; a limit of zero or less ends the loop after the first document, whose row
    is returned all the same.  The statement leaves no lock and no running
    transaction, changes no row, and cache and page still agree. *)
Theorem select_returns_rows T lo hi ps rs c ix next e q data bm limit joinTable codec now ts :
  quiet ps rs c ix next e -> cache_ok T c -> Cache.txIdGen c + 1 < 2 ^ 64 -> coherent lo c rs -> settled lo hi rs ->
  select_times lo hi T now ts -> Execute q data = Ok bm ->
  exists e' c', execSelect q limit false joinTable (Some data) codec now ts e =
      (Ok (limited_rows lo rs joinTable limit (ToArray bm)), e') /\
    quiet ps rs c' ix (u64 (next + 1)) e' /\ cache_ok T c' /\ coherent lo c' rs.
Proof.
  intros Hq Hc Hid Hco Hset [Hnow Hts] Ebm.
  destruct (execSelect_run T lo hi ps rs c ix next e q data bm limit joinTable codec now ts Hq Hc Hid Hnow Hco Hset Hts Ebm)
    as (e' & c' & E & Hq' & Hc' & _ & Hco'). by exists e', c'.
Qed.

(** The engine of a process that starts on the device of a pool: an empty buffer
    pool, cache and lock table, and the index it is given. *)
Definition restarted (pool : BufferPool D LRUEvictionPolicy) (n : nat) (w : BatchingWAL) (ix : option MemIndex) : engine :=
  mkEngine (NewDB (NewBufferPool (disk pool) n NewLRUEvictionPolicy None) w None) Cache.GlobalCacheStore ix (Some New2PLLockManager).

Lemma restarted_quiet ps rs c ix next e pool n w ix' :
  quiet ps rs c ix next e -> FlushAll (bp (edb e)) = (Ok tt, pool) -> (0 < n)%nat ->
  quiet ps rs Cache.GlobalCacheStore ix' 0 (restarted pool n w ix').
Proof.
  intros Hq Hf Hn. split; try done; [|by intros s [= <-]].
  exact (flush_then_reopen _ (edb e) pool n NewLRUEvictionPolicy None w None (en_db _ _ _ _ _ _ _ _ Hq) Hf Hn lru_inv_new eq_refl).
Qed.

(** An empty cache is in order and agrees with every page. *)
Lemma empty_cache T lo rs : cache_ok T Cache.GlobalCacheStore /\ coherent lo Cache.GlobalCacheStore rs.
Proof. by repeat split. Qed.

(** C11: On an engine with nothing else running, whose cached values are those of
    the row page and no newer than the clock: after an uncompressed [INSERT] that
    fits the row page as it is, every uncompressed [SELECT] at clock readings between which no row expires sees the new row and no
    other change: in the running process, in the running process with an emptied
    cache, and in a process that starts afresh - empty buffer pool, cache and lock
    table - on the device after a [FlushAll] that reported success (the statement
    itself writes neither the log nor the device, so a restart without that flush
    is not covered).  The document is in the index, and no lock or transaction is
    left. *)
Theorem insert_then_select T T' lo hi ps rs c ix next e d v codec clk :
  quiet ps rs c ix next e -> cache_ok T c -> Cache.txIdGen c + 2 < 2 ^ 64 -> coherent lo c rs -> settled lo hi rs ->
  clock_after T clk -> zlen v < 2 ^ 29 -> room rs (inserted_row next d v clk) ->
  lo < hi -> hi <= i64 (write_expiry (pageClock clk) (MixInt 0)) -> occCommit clk <= T' ->
  exists e1 c1, execInsert d v false codec clk e =
      (Ok [str "SUCCESS: Insert executed on storage block and tracking version appended to cache chains"], e1) /\
    quiet ps (rs ++ [inserted_row next d v clk]) c1 ((fun m => index_Add m d v) <$> ix) (u64 (next + 1)) e1 /\
    (forall q data bm limit joinTable now ts, select_times lo hi T' now ts -> Execute q data = Ok bm ->
       let select e := (execSelect q limit false joinTable (Some data) codec now ts e).1 in
       let answer := Ok (limited_rows lo (rs ++ [inserted_row next d v clk]) joinTable limit (ToArray bm)) in
       select e1 = answer /\
       select (mkEngine (edb e1) Cache.GlobalCacheStore (eindex e1) (lockMgr e1)) = answer /\
       forall pool n w ix', FlushAll (bp (edb e1)) = (Ok tt, pool) -> (0 < n)%nat -> select (restarted pool n w ix') = answer) /\
    (forall k, page_value lo (rs ++ [inserted_row next d v clk]) k =
       if bool_decide (Sprintf_d d = k) then Some v else page_value lo rs k).
Proof.
  intros Hq Hc Hid Hco Hset Hclk Hl Hroom Hlh Hexp HT'. set (r := inserted_row next d v clk) in *.
  pose proof (execInsert_run T ps rs c ix next e d v codec clk Hq Hc ltac:(lia) Hclk Hl) as Hrun. cbn zeta in Hrun.
  change (mkRecord (u64 (next + 1)) _ _ _) with r in Hrun. unfold write_spec in Hrun. rewrite decide_True in Hrun by done.
  destruct Hrun as (e1 & c1 & E1 & Hq1 & Hc1 & Eg1 & Hn1). exists e1, c1. split; [done|]. split; [done|].
  pose proof (settled_snoc lo hi rs r Hset Hlh Hexp) as Hset1.
  assert (coherent lo c1 (rs ++ [r])) as Hco1 by (apply (coherent_insert lo c c1 rs r (Sprintf_d d) v); [done..|change (lo < i64 (write_expiry (pageClock clk) (MixInt 0))); lia|done]).
  destruct (empty_cache T' lo (rs ++ [r])) as [Hc0 Hco0]. split.
  - intros q data bm limit joinTable now ts [Hnow Hts] Ebm select answer.
    assert (forall e2 c2 ix2 next2, quiet ps (rs ++ [r]) c2 ix2 next2 e2 -> cache_ok T' c2 -> Cache.txIdGen c2 + 1 < 2 ^ 64 ->
      coherent lo c2 (rs ++ [r]) -> select e2 = answer) as Hgo.
    { intros e2 c2 ix2 next2 Hq2 Hc2 Hid2 Hco2. destruct (execSelect_run T' lo hi ps (rs ++ [r]) c2 ix2 next2 e2 q data bm
        limit joinTable codec now ts Hq2 Hc2 Hid2 Hnow Hco2 Hset1 Hts Ebm) as (e3 & c3 & E & _). unfold select. by rewrite E. }
    split; [eapply Hgo; [exact Hq1|by eapply cache_ok_mono|lia|done]|]. split.
    + eapply Hgo; [|exact Hc0|done|done]. destruct Hq1 as [H1 H2 H3 H4 H5 H6]. by split.
    + intros pool n w ix' Hf Hn. eapply Hgo; [by eapply restarted_quiet|exact Hc0|done|done].
  - intros k. rewrite page_value_snoc. change (key r) with (Sprintf_d d). case_bool_decide; [|done].
    unfold live. cbn [expiresAt r inserted_row]. by rewrite (proj2 (Z.ltb_lt _ _)) by lia.
Qed.

(** An [INSERT] that the row page has no room for reports the overflow, but its
    value is already in the cache: the next [SELECT] of the document returns it. *)
Theorem failed_insert_is_visible T ps rs c ix next e d v codec clk q data bm now ts :
  quiet ps rs c ix next e -> cache_ok T c -> Cache.txIdGen c + 2 < 2 ^ 64 -> clock_after T clk -> zlen v < 2 ^ 29 ->
  (write_spec (nowCompact (pageClock clk)) rs (inserted_row next d v clk)).1 = false ->
  Execute q data = Ok bm -> ToArray bm = [d] -> 0 <= now < 2 ^ 64 ->
  exists e1 e2, execInsert d v false codec clk e = (Err ErrPageOverflow, e1) /\
    execSelect q 1 false [] (Some data) codec now ts e1 = (Ok [v], e2).
Proof.
  intros Hq Hc Hid Hclk Hl Hfull Ebm Ed Hnow.
  pose proof (execInsert_run T ps rs c ix next e d v codec clk Hq Hc ltac:(lia) Hclk Hl) as Hrun. cbn zeta in Hrun.
  fold (inserted_row next d v clk) in Hrun. destruct (write_spec _ _ _) as [fits rs']. cbn in Hfull. subst fits.
  destruct Hrun as (e1 & c1 & E1 & Hq1 & Hc1 & Eg1 & Hn1).
  destruct (execSelect_hit _ _ _ c1 _ _ e1 q data bm d v codec now ts Hq1 Hc1 ltac:(lia) Hnow Ebm Ed) as (e2 & E2).
  { by rewrite Hn1, decide_True. }
  by exists e1, e2.
Qed.
End Runs.
