(* ===== verification/UQLWrites.v ===== *)
(** [UPDATE] and [DELETE] of UQL: one transaction over the documents a filter
    selects. *)

From Stdlib Require Import Strings.Byte.
From S2P Require Import Common.
From S2P Require Import Prelude.
From S2P Require Import VFS.
From S2P Require Import LRU.
From S2P Require Import Page.
From S2P Require Import Slotted.
From S2P Require Import Telemetry.
From S2P Require Import BufferPool.
From S2P Require Import PoolInv.
From S2P Require Import PoolOps.
From S2P Require Import WAL.
From S2P Require Import DBPage.
From S2P Require Import DB.
From S2P Require Import DBSpec.
From S2P Require Import LockManager.
From S2P Require Import Roaring.
From S2P Require Import Segment.
From S2P Require Import Query.
From S2P Require Import MVCC.
From S2P Require Import UQLLexer.
From S2P Require Import UQLParser.
From S2P Require Import UQLParserSpec.
From S2P Require Import UQLExec.
From S2P Require Import UQLSpec.
From S2P Require Import UQLProps.

(** The records the loop writes. *)
Fixpoint row_writes (t : Z) (v : bytes) (mix : MixParam) (docIDs : list Z) (cs : nat -> clock) : list record :=
  match docIDs with
  | [] => []
  | d :: docIDs => mkRecord t (write_expiry (cs 0%nat) mix) (Sprintf_d d) v :: row_writes t v mix docIDs (fun i => cs (S i))
  end.

(** They fit the page one after the other. *)
Fixpoint rooms (rs l : list record) : Prop :=
  match l with [] => True | r :: l => room rs r /\ rooms (rs ++ [r]) l end.

(** The write set of the cache. *)
Definition write_set (o : option bytes) (docIDs : list Z) (ws : gmap string (option bytes)) : gmap string (option bytes) :=
  foldl (fun ws d => <[key_string (Sprintf_d d) := o]> ws) ws docIDs.

Lemma write_set_lookup o docIDs ws k :
  write_set o docIDs ws !! key_string k = if bool_decide (k ∈ Sprintf_d <$> docIDs) then Some o else ws !! key_string k.
Proof.
  revert ws. induction docIDs as [|d docIDs IH]; intros ws; cbn [write_set foldl fmap list_fmap].
  - by rewrite bool_decide_eq_false_2 by apply not_elem_of_nil.
  - fold (write_set o docIDs (<[key_string (Sprintf_d d) := o]> ws)). rewrite IH. case_bool_decide as H1.
    + by rewrite bool_decide_eq_true_2 by (right; done).
    + destruct (decide (k = Sprintf_d d)) as [->|Hne].
      * by rewrite lookup_insert_eq, bool_decide_eq_true_2 by left.
      * rewrite lookup_insert_ne by (intros E%key_string_inj; done).
        by rewrite bool_decide_eq_false_2 by (intros [?|?]%elem_of_cons; done).
Qed.

(** What the records do to a read. *)
Lemma page_value_writes now rs t v mix docIDs cs k (alive : bool) :
  Forall (fun r => live now r = alive) (row_writes t v mix docIDs cs) ->
  page_value now (rs ++ row_writes t v mix docIDs cs) k =
  if bool_decide (k ∈ Sprintf_d <$> docIDs) then (if alive then Some v else None) else page_value now rs k.
Proof.
  revert rs cs. induction docIDs as [|d docIDs IH]; intros rs cs Hl; cbn [row_writes fmap list_fmap] in *.
  - rewrite app_nil_r. by rewrite bool_decide_eq_false_2 by apply not_elem_of_nil.
  - inversion Hl as [|? ? Hd Hl']; subst. rewrite cons_middle, app_assoc, IH by done. rewrite page_value_snoc. cbn [key val].
    case_bool_decide as H1; [by rewrite bool_decide_eq_true_2 by (right; done)|]. case_bool_decide as H2.
    + subst k. by rewrite bool_decide_eq_true_2 by left.
    + by rewrite bool_decide_eq_false_2 by (intros [?|?]%elem_of_cons; congruence).
Qed.

Section Writes.
Context {D : Type} `{DS : BlockDeviceSpec D} `{RD : !ReliableDevice D} `{MR : MapRange}.
Abbreviation engine := (Engine D LRUEvictionPolicy).
Implicit Types e : engine.
Implicit Types ps : gmap PageID (list record).

(** One write of the loop. *)
Lemma one_write_run ps rs c ix t e d v mix clk :
  running ps rs c ix t LockExclusive e -> 0 <= t < 2 ^ 64 -> zlen v < 2 ^ 29 ->
  room rs (mkRecord t (write_expiry clk mix) (Sprintf_d d) v) ->
  exists e1 e2, acquire t (Sprintf_d d) LockExclusive e = (Ok tt, e1) /\
    ignore (on_db (fun db => Write db 0 t (Sprintf_d d) v mix clk)) e1 = (Ok tt, e2) /\
    running ps (rs ++ [mkRecord t (write_expiry clk mix) (Sprintf_d d) v]) c ix t LockExclusive e2.
Proof.
  intros Hr Ht Hl Hroom. destruct (acquire_run _ _ _ _ _ _ _ (Sprintf_d d) Hr) as (e1 & E1 & H1).
  pose proof (Sprintf_d_length d). pose proof (write_at ps rs c ix t _ e1 (Sprintf_d d) v mix clk H1 Ht ltac:(lia)) as Hw.
  unfold write_spec in Hw. rewrite decide_True in Hw by done. destruct Hw as (e2 & E2 & H2).
  exists e1, e2. split; [done|]. split; [|done]. by apply (ignore_ok _ _ tt).
Qed.

Lemma tombstone_loop_run ps rs c ix t e docIDs cs ws :
  running ps rs c ix t LockExclusive e -> 0 <= t < 2 ^ 64 -> rooms rs (row_writes t [] (MixDuration 1) docIDs cs) ->
  exists e', tombstone_loop t docIDs cs ws e = (Ok (write_set None docIDs ws), e') /\
    running ps (rs ++ row_writes t [] (MixDuration 1) docIDs cs) c ix t LockExclusive e'.
Proof.
  intros Hr Ht. revert rs cs ws e Hr. induction docIDs as [|d docIDs IH]; intros rs cs ws e Hr Hroom; cbn [row_writes rooms] in *.
  - exists e. split; [done|]. by rewrite app_nil_r.
  - destruct Hroom as [Hd Hrest].
    destruct (one_write_run ps rs c ix t e d [] (MixDuration 1) (cs 0%nat) Hr Ht ltac:(done) Hd) as (e1 & e2 & E1 & E2 & H2).
    cbn [tombstone_loop]. rewrite (bind_ok _ _ _ _ _ E1), (bind_ok _ _ _ _ _ E2), cons_middle, app_assoc. by apply IH.
Qed.

(** The index after the documents were added again. *)
Definition reindexed (v : bytes) (docIDs : list Z) (ix : option MemIndex) : option MemIndex :=
  (fun m => foldl (fun m d => index_Add m d v) m docIDs) <$> ix.

Lemma update_loop_run ps rs c ix t e v docIDs cs ws :
  running ps rs c ix t LockExclusive e -> 0 <= t < 2 ^ 64 -> zlen v < 2 ^ 29 -> rooms rs (row_writes t v (MixInt 0) docIDs cs) ->
  exists e', update_loop v t docIDs cs ws e = (Ok (write_set (Some v) docIDs ws), e') /\
    running ps (rs ++ row_writes t v (MixInt 0) docIDs cs) c (reindexed v docIDs ix) t LockExclusive e'.
Proof.
  intros Hr Ht Hl. revert rs cs ws ix e Hr.
  induction docIDs as [|d docIDs IH]; intros rs cs ws ix e Hr Hroom; cbn [row_writes rooms] in *.
  - exists e. split; [done|]. rewrite app_nil_r. destruct Hr as [H1 H2 H3 H4 H5 H6]. split; try done. rewrite H5. by destruct ix.
  - destruct Hroom as [Hd Hrest].
    destruct (one_write_run ps rs c ix t e d v (MixInt 0) (cs 0%nat) Hr Ht Hl Hd) as (e1 & e2 & E1 & E2 & H2).
    destruct (add_index_run _ _ _ _ _ _ _ e2 d v H2) as (e3 & E3 & H3).
    cbn [update_loop]. rewrite (bind_ok _ _ _ _ _ E1), (bind_ok _ _ _ _ _ E2), (bind_ok _ _ _ _ _ E3), cons_middle, app_assoc.
    destruct (IH _ (fun i => cs (S i)) (<[key_string (Sprintf_d d) := Some v]> ws) _ e3 H3 Hrest) as (e' & E & He).
    exists e'. split; [done|]. replace (reindexed v (d :: docIDs) ix) with (reindexed v docIDs ((fun m => index_Add m d v) <$> ix)); [done|].
    by destruct ix.
Qed.

(** The common start: the two transactions. *)
Lemma start_run T ps rs c ix next m e now :
  quiet ps rs c ix next e -> cache_ok T c -> Cache.txIdGen c + 1 < 2 ^ 64 -> 0 <= now < 2 ^ 64 ->
  exists e1 e2 c1, begin_occ now e = (Ok (Cache.txIdGen c + 1), e1) /\ exec_begin e1 = (Ok (u64 (next + 1)), e2) /\
    running ps rs c1 ix (u64 (next + 1)) m e2 /\ cache_ok T c1 /\ Cache.txIdGen c1 = Cache.txIdGen c + 1 /\
    Cache.activeTx c1 !! (Cache.txIdGen c + 1) = Some now /\ (forall k, newest c1 k = newest c k).
Proof.
  intros Hq Hc Hid Hnow. destruct (begin_cache T c now Hc Hid Hnow) as (c1 & E1 & Hc1 & Eg1 & Ea1 & Hn1).
  destruct (on_cache_run _ _ _ _ _ _ _ e _ _ c1 Hq E1) as (e1 & Ee1 & Hq1).
  destruct (exec_begin_run _ _ _ _ _ m e1 Hq1) as (e2 & E2 & Hr2). by exists e1, e2, c1.
Qed.

(** The common end: the versions are committed, then the transaction. *)
Lemma finish_writes_run T ps rs c ix t e tx ws now nowCommit nowTTL msg :
  running ps rs c ix t LockExclusive e -> cache_ok T c -> Cache.txIdGen c = tx -> Cache.activeTx c !! tx = Some now ->
  T <= now -> 0 <= now <= nowCommit -> nowCommit < 2 ^ 64 ->
  exists e' c', finish_writes tx t ws nowCommit nowTTL msg e = (Ok [msg], e') /\ quiet ps rs c' ix t e' /\
    cache_ok nowCommit c' /\ (forall k, newest c' k = match ws !! k with Some o => Some o | None => newest c k end).
Proof.
  intros Hr Hc Htx Ha HT H1 H2. pose proof (commit_succeeds T c tx ws nowCommit nowTTL now Hc Ha HT) as Hs.
  destruct (Cache.ValidateAndCommit tx ws 0 nowCommit nowTTL c) as [err c'] eqn:E. cbn in Hs. subst err.
  destruct (commit_newest nowCommit c tx ws nowCommit nowTTL None c' (cache_ok_mono T nowCommit c Hc ltac:(lia)) ltac:(lia) ltac:(lia) ltac:(lia) E)
    as (Hc' & _ & _ & _ & Hn).
  destruct (on_cache_run _ _ _ _ _ _ _ e _ _ c' Hr E) as (e1 & E1 & Hr1).
  destruct (finish_run _ _ _ _ _ _ _ Hr1) as ((e2 & e3 & E2 & E3 & Hq) & _). exists e3, c'. split; [|split; [done|split; [done|by apply Hn]]].
  unfold finish_writes, commit_occ. by rewrite (bind_ok _ _ _ _ _ E1), (bind_ok _ _ _ _ _ E2), (bind_ok _ _ _ _ _ E3).
Qed.

(** Page and cache agree after the documents got the value [o]. *)
Lemma coherent_writes lo c c' rs t v mix docIDs cs (alive : bool) :
  Forall (fun r => live lo r = alive) (row_writes t v mix docIDs cs) ->
  (forall k, newest c' (key_string k) =
     if bool_decide (k ∈ Sprintf_d <$> docIDs) then Some (if alive then Some v else None) else newest c (key_string k)) ->
  coherent lo c rs -> coherent lo c' (rs ++ row_writes t v mix docIDs cs).
Proof.
  intros Hl Hn Hco k v'. rewrite Hn, (page_value_writes lo rs t v mix docIDs cs k alive Hl).
  case_bool_decide; [by destruct alive; intros [= <-] | apply Hco].
Qed.

(** Times of a statement that writes several rows. *)
Definition write_times (T now nowCommit : Z) : Prop := T <= now /\ 0 <= now <= nowCommit /\ nowCommit < 2 ^ 64.

(** C36: [UPDATE] and [DELETE] on an engine with nothing else running, when their
    records fit the row page as they are (no compaction): both report success; the
    newest cached version of every selected document is the new value (a tombstone),
    and of every other key what it was; on the page every selected document, and no
    other, reads as the new value while the new records are live (as absent once the
    tombstones, which are written to live for a nanosecond, have expired); so a cache
    that agreed with the page still does; [UPDATE] indexes the new text of each
    document; no lock or transaction is left. *)
Theorem update_delete_rows T ps rs c ix next e q data bm v now nowCommit nowTTL cs :
  quiet ps rs c ix next e -> cache_ok T c -> Cache.txIdGen c + 1 < 2 ^ 64 -> write_times T now nowCommit ->
  Execute q data = Ok bm -> zlen v < 2 ^ 29 ->
  let t := u64 (next + 1) in let docIDs := ToArray bm in
  let news := row_writes t v (MixInt 0) docIDs cs in let tombs := row_writes t [] (MixDuration 1) docIDs cs in
  (rooms rs news -> exists e' c', execUpdate q v (Some data) now nowCommit nowTTL cs e =
       (Ok [str "SUCCESS: MVCC chains updated and physical blocks synchronized"], e') /\
     quiet ps (rs ++ news) c' (reindexed v docIDs ix) t e' /\ cache_ok nowCommit c' /\
     (forall k, newest c' (key_string k) = if bool_decide (k ∈ Sprintf_d <$> docIDs) then Some (Some v) else newest c (key_string k)) /\
     forall lo, Forall (fun r => live lo r = true) news ->
       (forall k, page_value lo (rs ++ news) k = if bool_decide (k ∈ Sprintf_d <$> docIDs) then Some v else page_value lo rs k) /\
       (coherent lo c rs -> coherent lo c' (rs ++ news))) /\
  (rooms rs tombs -> exists e' c', execDelete q (Some data) now nowCommit nowTTL cs e =
       (Ok [str "SUCCESS: Transaction complete. MVCC tombstone markers assigned."], e') /\
     quiet ps (rs ++ tombs) c' ix t e' /\ cache_ok nowCommit c' /\
     (forall k, newest c' (key_string k) = if bool_decide (k ∈ Sprintf_d <$> docIDs) then Some None else newest c (key_string k)) /\
     forall lo, Forall (fun r => live lo r = false) tombs ->
       (forall k, page_value lo (rs ++ tombs) k = if bool_decide (k ∈ Sprintf_d <$> docIDs) then None else page_value lo rs k) /\
       (coherent lo c rs -> coherent lo c' (rs ++ tombs))).
Proof.
  intros Hq Hc Hid (HT & H0 & H1) Ebm Hl t docIDs news tombs.
  assert (run_filter q (Some data) e = (Ok docIDs, e)) as E0 by (unfold run_filter; by rewrite Ebm).
  destruct (start_run T ps rs c ix next LockExclusive e now Hq Hc Hid ltac:(lia)) as (e1 & e2 & c1 & E1 & E2 & Hr2 & Hc1 & Eg1 & Ea1 & Hn1).
  fold t in E2, Hr2.
  assert (forall c' o, (forall k, newest c' k = match write_set o docIDs ∅ !! k with Some o => Some o | None => newest c1 k end) ->
    forall k, newest c' (key_string k) = if bool_decide (k ∈ Sprintf_d <$> docIDs) then Some o else newest c (key_string k)) as Hset.
  { intros c' o Hn k. rewrite Hn, write_set_lookup, lookup_empty, Hn1. by case_bool_decide. }
  split; intros Hroom.
  - destruct (update_loop_run ps rs c1 ix t e2 v docIDs cs ∅ Hr2 (u64_ok _) Hl Hroom) as (e3 & E3 & Hr3).
    destruct (finish_writes_run T _ _ c1 _ t e3 _ (write_set (Some v) docIDs ∅) now nowCommit nowTTL
      (str "SUCCESS: MVCC chains updated and physical blocks synchronized") Hr3 Hc1 Eg1 Ea1 HT H0 H1) as (e4 & c4 & E4 & Hq4 & Hc4 & Hn4).
    specialize (Hset _ _ Hn4) as Hn5. exists e4, c4. unfold execUpdate.
    rewrite (bind_ok _ _ _ _ _ E0), (bind_ok _ _ _ _ _ E1), (bind_ok _ _ _ _ _ E2), (bind_ok _ _ _ _ _ E3), E4.
    do 4 (split; [done|]). intros lo Hlo. split; [intros k; exact (page_value_writes lo rs t v _ docIDs cs k true Hlo)|].
    exact (coherent_writes lo c c4 rs t v _ docIDs cs true Hlo Hn5).
  - destruct (tombstone_loop_run ps rs c1 ix t e2 docIDs cs ∅ Hr2 (u64_ok _) Hroom) as (e3 & E3 & Hr3).
    destruct (finish_writes_run T _ _ c1 _ t e3 _ (write_set None docIDs ∅) now nowCommit nowTTL
      (str "SUCCESS: Transaction complete. MVCC tombstone markers assigned.") Hr3 Hc1 Eg1 Ea1 HT H0 H1) as (e4 & c4 & E4 & Hq4 & Hc4 & Hn4).
    specialize (Hset _ _ Hn4) as Hn5. exists e4, c4. unfold execDelete.
    rewrite (bind_ok _ _ _ _ _ E0), (bind_ok _ _ _ _ _ E1), (bind_ok _ _ _ _ _ E2), (bind_ok _ _ _ _ _ E3), E4.
    do 4 (split; [done|]). intros lo Hlo. split; [intros k; exact (page_value_writes lo rs t [] _ docIDs cs k false Hlo)|].
    exact (coherent_writes lo c c4 rs t [] _ docIDs cs false Hlo Hn5).
Qed.
End Writes.
