(* ===== verification/UQLDemo.v ===== *)
(** The UQL theorems at a concrete engine: an empty in-memory database, an empty
    cache and index, a lock manager, and a segment with three documents. *)

From Stdlib Require Import Strings.Byte.
From S2P Require Import Common.
From S2P Require Import Prelude.
From S2P Require Import VFS.
From S2P Require Import LRU.
From S2P Require Import Page.
From S2P Require Import Slotted.
From S2P Require Import Telemetry.
From S2P Require Import BufferPool.
From S2P Require Import PoolInv.
From S2P Require Import PoolOps.
From S2P Require Import WAL.
From S2P Require Import DBPage.
From S2P Require Import DB.
From S2P Require Import DBSpec.
From S2P Require Import KVStore.
From S2P Require Import KVProps.
From S2P Require Import LockManager.
From S2P Require Import Roaring.
From S2P Require Import Segment.
From S2P Require Import Query.
From S2P Require Import MVCC.
From S2P Require Import UQLLexer.
From S2P Require Import UQLParser.
From S2P Require Import UQLParserSpec.
From S2P Require Import UQLExec.
From S2P Require Import UQLSpec.
From S2P Require Import UQLProps.
From S2P Require Import UQLWrites.

#[local] Existing Instance canonical_range.

Definition demo_engine : Engine MemDevice LRUEvictionPolicy :=
  mkEngine demo_db Cache.GlobalCacheStore (Some NewMemIndex) (Some New2PLLockManager).

Lemma demo_engine_quiet : quiet ∅ [] Cache.GlobalCacheStore (Some NewMemIndex) 0 demo_engine.
Proof.
  split; try done; [|by intros s [= <-]]. destruct demo_rep as [H1 H2 H3 _]. split; [done..|].
  intros d rs [[<- <-]|[_ H]]%lookup_insert_Some; [|by rewrite lookup_empty in H].
  split; [unfold page_id_ok; lia|]. right. split_and!; reflexivity.
Qed.

Lemma demo_cache_ok : cache_ok 0 Cache.GlobalCacheStore.
Proof. split; [|done]. intros k vs v. cbn. by rewrite lookup_empty. Qed.

Lemma demo_coherent lo : coherent lo Cache.GlobalCacheStore [].
Proof. intros k v. unfold newest. cbn. by rewrite lookup_empty. Qed.

Lemma demo_settled lo hi : settled lo hi [].
Proof. done. Qed.

Definition demo_stmt : stmt_clock := mkStmtClock 10 20 20 demo_clock.
Definition demo_rows : nat -> row_clock := fun _ => mkRowClock 2000 2000 30 30.

Lemma demo_after : clock_after 0 demo_stmt.
Proof. unfold clock_after. cbn. lia. Qed.

Lemma demo_times : select_times 1000 3000 30 25 demo_rows.
Proof. split; [lia|]. intros i. cbn. lia. Qed.

Definition demo_data : bytes := (WriteSegment (index_docs demo_docs)).1.
Definition demo_query : Query := TermQuery (str "blue").
Definition demo_bm : RoaringBitmap := Add NewRoaringBitmap 5.

Lemma demo_execute : Execute demo_query demo_data = Ok demo_bm.
Proof. vm_compute. reflexivity. Qed.

Lemma demo_docs_found : ToArray demo_bm = [5].
Proof. vm_compute. reflexivity. Qed.

(** The engine after the [INSERT] of one row. *)
Definition demo_row : record := inserted_row 0 5 (str "v") demo_stmt.

Lemma demo_with_row :
  exists e c, execInsert 5 (str "v") false None demo_stmt demo_engine =
      (Ok [str "SUCCESS: Insert executed on storage block and tracking version appended to cache chains"], e) /\
    quiet ∅ [demo_row] c (Some (index_Add NewMemIndex 5 (str "v"))) 1 e /\ cache_ok 30 c /\ Cache.txIdGen c = 1 /\
    coherent 1000 c [demo_row] /\ settled 1000 3000 [demo_row].
Proof.
  pose proof (execInsert_run 0 ∅ [] Cache.GlobalCacheStore (Some NewMemIndex) 0 demo_engine 5 (str "v") None demo_stmt
    demo_engine_quiet demo_cache_ok ltac:(reflexivity) demo_after ltac:(reflexivity)) as Hrun. cbn zeta in Hrun.
  change (mkRecord (u64 (0 + 1)) _ _ _) with demo_row in Hrun. unfold write_spec in Hrun.
  rewrite decide_True in Hrun by (vm_compute; discriminate). destruct Hrun as (e & c & E & Hq & Hc & Eg & Hn).
  exists e, c. split; [done|]. split; [done|]. split; [apply (cache_ok_mono _ 30 _ Hc); cbn; lia|]. split; [done|]. split.
  - by apply (coherent_insert 1000 Cache.GlobalCacheStore c [] demo_row (Sprintf_d 5) (str "v")).
  - exact (settled_snoc 1000 3000 [] demo_row (demo_settled 1000 3000) ltac:(lia) ltac:(vm_compute; discriminate)).
Qed.

(** The row is returned, also for a limit of zero. *)
Lemma select_returns_rows_witness :
  exists e, (execInsert 5 (str "v") false None demo_stmt demo_engine).2 = e /\ forall limit, limit = 10 \/ limit = 0 ->
    exists e', execSelect demo_query limit false [] (Some demo_data) None 25 demo_rows e = (Ok [str "v"], e').
Proof.
  destruct demo_with_row as (e & c & E & Hq & Hc & Eg & Hco & Hset). exists e. split; [by rewrite E|]. intros limit Hlim.
  destruct (select_returns_rows 30 1000 3000 ∅ [demo_row] c (Some (index_Add NewMemIndex 5 (str "v"))) 1 e demo_query demo_data demo_bm
    limit [] None 25 demo_rows Hq Hc ltac:(rewrite Eg; reflexivity) Hco Hset demo_times demo_execute) as (e' & c' & E' & _).
  exists e'. rewrite E', demo_docs_found. destruct Hlim as [-> | ->]; vm_compute; reflexivity.
Defined.

(** A flush on a reliable device. *)
Lemma flush_succeeds (db : DB MemDevice LRUEvictionPolicy) : pool_inv ∅ (bp db) -> exists pool, FlushAll (bp db) = (Ok tt, pool).
Proof.
  intros Hinv. destruct (Flush_reliable (mkKV db 0) Hinv (fun d => eq_refl)) as (s & E). revert E.
  unfold KVStore.Flush, with_pool, with_db. cbn [kdb kroot]. destruct (FlushAll (bp db)) as [r pool]. intros [= -> _]. by exists pool.
Qed.

Lemma insert_then_select_witness :
  exists e1 pool, (execInsert 5 (str "v") false None demo_stmt demo_engine).2 = e1 /\
    (execSelect demo_query 10 false [] (Some demo_data) None 25 demo_rows e1).1 = Ok [str "v"] /\
    FlushAll (bp (edb e1)) = (Ok tt, pool) /\
    (execSelect demo_query 10 false [] (Some demo_data) None 25 demo_rows (restarted pool 3 (NewBatchingWAL []) None)).1 = Ok [str "v"].
Proof.
  destruct (insert_then_select 0 30 1000 3000 ∅ [] Cache.GlobalCacheStore (Some NewMemIndex) 0 demo_engine 5 (str "v") None demo_stmt
    demo_engine_quiet demo_cache_ok ltac:(reflexivity) (demo_coherent 1000) (demo_settled 1000 3000) demo_after
    ltac:(reflexivity) ltac:(vm_compute; discriminate) ltac:(lia) ltac:(vm_compute; discriminate) ltac:(cbn; lia))
    as (e1 & c1 & E1 & Hq & H & _).
  destruct (flush_succeeds (edb e1) (rep_inv _ _ (en_db _ _ _ _ _ _ _ _ Hq))) as (pool & Ef).
  exists e1, pool. split; [rewrite E1; reflexivity|].
  destruct (H demo_query demo_data demo_bm 10 [] 25 demo_rows demo_times demo_execute) as (E2 & _ & E3).
  rewrite demo_docs_found in E2, E3. split; [rewrite E2; vm_compute; reflexivity|]. split; [exact Ef|].
  rewrite (E3 pool 3%nat (NewBatchingWAL []) None Ef ltac:(lia)). vm_compute. reflexivity.
Defined.

(** A value of a whole page. *)
Definition demo_big : bytes := repeat Byte.x61 (Z.to_nat PageSize).

Lemma demo_big_length : zlen demo_big = 32768.
Proof. unfold zlen, demo_big. rewrite repeat_length. by apply Z2Nat.id. Qed.

Lemma demo_no_room : (write_spec 1000 [] (inserted_row 0 5 demo_big demo_stmt)).1 = false.
Proof.
  assert (~ room [] (inserted_row 0 5 demo_big demo_stmt)) as Hn.
  { unfold room, record_size, inserted_row. cbn [key val]. rewrite demo_big_length. vm_compute. intros H. by apply H. }
  unfold write_spec. rewrite decide_False by done. change (compacted 1000 []) with (@nil record). by rewrite decide_False.
Qed.

Lemma failed_insert_is_visible_witness :
  exists e1 e2, execInsert 5 demo_big false None demo_stmt demo_engine = (Err ErrPageOverflow, e1) /\
    execSelect demo_query 1 false [] (Some demo_data) None 25 demo_rows e1 = (Ok [demo_big], e2).
Proof.
  exact (failed_insert_is_visible 0 ∅ [] Cache.GlobalCacheStore (Some NewMemIndex) 0 demo_engine 5 demo_big None demo_stmt
    demo_query demo_data demo_bm 25 demo_rows demo_engine_quiet demo_cache_ok ltac:(reflexivity) demo_after
    ltac:(rewrite demo_big_length; reflexivity) demo_no_room demo_execute demo_docs_found ltac:(lia)).
Defined.

(** The row is updated, on the page and in the cache. *)
Lemma update_delete_rows_witness :
  exists e e' c' rs', (execInsert 5 (str "v") false None demo_stmt demo_engine).2 = e /\
    execUpdate demo_query (str "w") (Some demo_data) 40 50 50 (fun _ => demo_clock) e =
      (Ok [str "SUCCESS: MVCC chains updated and physical blocks synchronized"], e') /\
    quiet ∅ rs' c' (Some (index_Add (index_Add NewMemIndex 5 (str "v")) 5 (str "w"))) 2 e' /\
    newest c' (key_string (str "5")) = Some (Some (str "w")) /\ page_value 1000 rs' (str "5") = Some (str "w").
Proof.
  destruct demo_with_row as (e & c & E & Hq & Hc & Eg & Hco & Hset).
  destruct (update_delete_rows 30 ∅ [demo_row] c (Some (index_Add NewMemIndex 5 (str "v"))) 1 e demo_query demo_data demo_bm (str "w") 40 50 50
    (fun _ => demo_clock) Hq Hc ltac:(rewrite Eg; reflexivity) ltac:(unfold write_times; lia) demo_execute ltac:(reflexivity)) as [H _].
  rewrite demo_docs_found in H. destruct H as (e' & c' & E' & Hq' & _ & Hn & Hp).
  - vm_compute. split; [discriminate | exact I].
  - exists e, e', c'. eexists. split; [rewrite E; reflexivity|]. split; [exact E'|]. split; [exact Hq'|].
    split; [rewrite (Hn (str "5")); reflexivity|].
    rewrite (proj1 (Hp 1000 ltac:(constructor; [vm_compute; reflexivity | constructor])) (str "5")). reflexivity.
Defined.
