(* ===== verification/RangeCursor.v ===== *)
(** The range cursor (range.go): it repeats a prefix scan of a page and takes the
    first key past the last one returned. *)

From Stdlib Require Import Strings.Byte.
From S2P Require Import Common.
From S2P Require Import Prelude.
From S2P Require Import VFS.
From S2P Require Import LRU.
From S2P Require Import Page.
From S2P Require Import Slotted.
From S2P Require Import Telemetry.
From S2P Require Import BufferPool.
From S2P Require Import PoolInv.
From S2P Require Import PoolOps.
From S2P Require Import WAL.
From S2P Require Import DBPage.
From S2P Require Import DB.
From S2P Require Import DBSpec.

Module Range.

(** A nil end or current key is [None]. *)
Record RangeCursor := mkRange {
  txnID : Z;
  pageID : PageID;
  startKey : bytes;
  endKey : option bytes;
  currentKey : option bytes;
  exhausted : bool
}.

Definition NewRangeCursor (pageID : PageID) (txnID : Z) (startKey : bytes) (endKey : option bytes) : RangeCursor :=
  mkRange txnID pageID startKey endKey None false.

(** [bytes.Compare(key, k) <= 0], [bytes.Compare(key, k) > 0]. *)
Definition not_after (key : bytes) (k : option bytes) : bool :=
  match k with Some k => negb (bool_decide (bytes_compare key k = Gt)) | None => false end.
Definition beyond (key : bytes) (k : option bytes) : bool :=
  match k with Some k => bool_decide (bytes_compare key k = Gt) | None => false end.

(** The scan callback: the pair found and whether the end was passed. *)
Definition visit (rc : RangeCursor) (key value : bytes) (acc : option (bytes * bytes) * bool) :
    bool * (option (bytes * bytes) * bool) :=
  if not_after key (currentKey rc) then (true, acc)
  else if beyond key (endKey rc) then (false, (acc.1, true))
  else (false, (Some (key, value), acc.2)).

Section Cursor.
Context {D P : Type} `{BlockDevice D} `{EvictionPolicy P} `{MapRange}.

(** [None] stands for the three nils at the end.  A copy of an empty key is nil,
    so the empty key counts as nothing found. *)
Definition Next (now : Z) (rc : RangeCursor) (db : DB D P) : result (option (bytes * bytes)) * RangeCursor * DB D P :=
  if exhausted rc then (Ok None, rc, db)
  else
    let '(r, db) := DB.Scan db (pageID rc) (txnID rc) (startKey rc) now (visit rc) (None, false) in
    match r with
    | Ok (Some ((_ :: _) as key, value), ex) =>
        (Ok (Some (key, value)), mkRange (txnID rc) (pageID rc) key (endKey rc) (Some key) ex, db)
    | Ok _ => (Ok None, mkRange (txnID rc) (pageID rc) (startKey rc) (endKey rc) (currentKey rc) true, db)
    | Err e => (Err e, rc, db)
    | Panic => (Panic, rc, db)
    | Hang => (Hang, rc, db)
    end.

(** Reading on until the end, an error or [n] pairs. *)
Fixpoint read_range (n : nat) (now : nat -> Z) (rc : RangeCursor) (db : DB D P) : list (bytes * bytes) * RangeCursor * DB D P :=
  match n with
  | O => ([], rc, db)
  | S n =>
      match Next (now 0%nat) rc db with
      | (Ok (Some kv), rc, db) => let '(l, rc, db) := read_range n (fun i => now (S i)) rc db in (kv :: l, rc, db)
      | (_, rc, db) => ([], rc, db)
      end
  end.
End Cursor.
End Range.

(** ** What a call finds *)

Section Spec.
Context {D : Type} `{DS : BlockDeviceSpec D} `{RD : !ReliableDevice D} `{MR : MapRange}.
Implicit Types db : DB D LRUEvictionPolicy.
Implicit Types ps : gmap PageID (list record).
Implicit Types rc : Range.RangeCursor.

(** The first pair past the current key decides. *)
Fixpoint first_past rc (l : list (bytes * (Z * Z * bytes))) : option (bytes * bytes) * bool :=
  match l with
  | [] => (None, false)
  | (k, (_, v)) :: l =>
      if Range.not_after k (Range.currentKey rc) then first_past rc l
      else if Range.beyond k (Range.endKey rc) then (None, true) else (Some (k, v), false)
  end.

Lemma iterate_visit rc l : iterate (Range.visit rc) l (None, false) = first_past rc l.
Proof.
  induction l as [|[k [ts v]] l IH]; cbn; [done|]. unfold Range.visit at 1.
  destruct (Range.not_after k _); [done|]. by destruct (Range.beyond k _).
Qed.

Lemma first_past_in rc l k v ex :
  first_past rc l = (Some (k, v), ex) ->
  (exists ts, (k, (ts, v)) ∈ l) /\ Range.not_after k (Range.currentKey rc) = false /\
  Range.beyond k (Range.endKey rc) = false /\ ex = false.
Proof.
  induction l as [|[k' [ts v']] l IH]; cbn; [done|].
  destruct (Range.not_after k' _) eqn:E1; [intros Hf; destruct (IH Hf) as ([ts' Hin] & ?); split; [|done]; exists ts'; by right|].
  destruct (Range.beyond k' _) eqn:E2; [done|]. intros [= <- <- <-]. split; [|done]. exists ts. by left.
Qed.

(** The pairs of the scan, in the order of the map. *)
Definition range_scanned (now : Z) (active : gset Z) rc (rs : list record) : list (bytes * (Z * Z * bytes)) :=
  range (fold_records (scan_body now active (Range.txnID rc) (Range.startKey rc)) 0 rs ∅).

(** What a call returns and the cursor it leaves. *)
Definition advance rc (found : option (bytes * bytes) * bool) : option (bytes * bytes) * Range.RangeCursor :=
  match found with
  | (Some ((_ :: _) as k, v), ex) =>
      (Some (k, v), Range.mkRange (Range.txnID rc) (Range.pageID rc) k (Range.endKey rc) (Some k) ex)
  | _ => (None, Range.mkRange (Range.txnID rc) (Range.pageID rc) (Range.startKey rc) (Range.endKey rc) (Range.currentKey rc) true)
  end.

Lemma Range_Next_exact ps db rs now rc :
  db_rep ps db -> ps !! Range.pageID rc = Some rs -> Range.exhausted rc = false ->
  exists db', Range.Next now rc db =
    (Ok (advance rc (first_past rc (range_scanned now (activeTxns db) rc rs))).1,
     (advance rc (first_past rc (range_scanned now (activeTxns db) rc rs))).2, db') /\ same_txns db db' /\ db_rep ps db'.
Proof.
  intros Hrep Hrs Ex. unfold Range.Next. rewrite Ex.
  destruct (latched_read_total ps db (Range.pageID rc) rs
    (fun d => scan_page now (activeTxns db) (Range.txnID rc) (Range.startKey rc) d (Range.visit rc) (None, false))
    (Ok (first_past rc (range_scanned now (activeTxns db) rc rs)))) as (db' & E & Hsame & Hrep'); [done|done| |].
  { intros d Hh. unfold scan_page. rewrite (for_slots_holds d rs) by done. cbn [mbind result_bind]. by rewrite iterate_visit. }
  unfold DB.Scan. rewrite E. exists db'. split; [|done]. by destruct (first_past _ _) as [[[[|b k] v]|] ex].
Qed.

Lemma Range_Next_run ps db rs now rc :
  db_rep ps db -> ps !! Range.pageID rc = Some rs ->
  exists r rc' db', Range.Next now rc db = (Ok r, rc', db') /\ same_txns db db' /\ db_rep ps db' /\
    Range.pageID rc' = Range.pageID rc /\ Range.txnID rc' = Range.txnID rc /\ Range.endKey rc' = Range.endKey rc /\
    match r with
    | Some (k, v) => Range.exhausted rc = false /\ first_past rc (range_scanned now (activeTxns db) rc rs) = (Some (k, v), false) /\
        Range.startKey rc' = k /\ Range.currentKey rc' = Some k
    | None => Range.exhausted rc' = true
    end.
Proof.
  intros Hrep Hrs. destruct (Range.exhausted rc) eqn:Ex.
  { exists None, rc, db. unfold Range.Next. by rewrite Ex. }
  destruct (Range_Next_exact ps db rs now rc Hrep Hrs Ex) as (db' & E & Hsame & Hrep'). do 3 eexists. split; [exact E|].
  destruct (first_past _ _) as [[[[|b k] v]|] ex] eqn:Ef; try done. apply first_past_in in Ef as Hf. by destruct Hf as (_ & _ & _ & ->).
Qed.

(** What a returned pair is. *)
Lemma scanned_read now active rc rs k v ts :
  (k, (ts, v)) ∈ range_scanned now active rc rs ->
  has_prefix k (Range.startKey rc) = true /\ read_spec now active (Range.txnID rc) k rs = Some v.
Proof.
  intros Hin%elem_of_range. pose proof (scan_map_spec now active (Range.txnID rc) (Range.startKey rc) rs k) as Hm.
  rewrite Hin in Hm. cbn in Hm. by destruct (has_prefix k _).
Qed.

(** Each key starts with the one before it and is longer. *)
Fixpoint nested (p : bytes) (ks : list bytes) : Prop :=
  match ks with [] => True | k :: ks => (exists t, t <> [] /\ k = p ++ t) /\ nested k ks end.

Lemma not_after_self k : Range.not_after k (Some k) = true.
Proof. unfold Range.not_after. by rewrite bytes_compare_refl. Qed.

Lemma read_range_run n now ps db rs rc :
  db_rep ps db -> ps !! Range.pageID rc = Some rs ->
  exists l rc' db', Range.read_range n now rc db = (l, rc', db') /\ same_txns db db' /\ db_rep ps db' /\
    (forall i k v, l !! i = Some (k, v) -> read_spec (now i) (activeTxns db) (Range.txnID rc) k rs = Some v /\
       Range.beyond k (Range.endKey rc) = false /\ has_prefix k (Range.startKey rc) = true) /\
    (Range.currentKey rc = Some (Range.startKey rc) -> nested (Range.startKey rc) l.*1) /\
    match l.*1 with [] => True | k :: ks => nested k ks end.
Proof.
  revert now db rc. induction n as [|n IH]; intros now db rc Hrep Hrs; cbn [Range.read_range].
  { exists [], rc, db. by split_and!. }
  destruct (Range_Next_run ps db rs (now 0%nat) rc Hrep Hrs) as (r & rc1 & db1 & -> & [Ha Hn] & Hrep1 & Ep & Et & Ee & Hr).
  destruct r as [[k v]|]; [|exists [], rc1, db1; by split_and!].
  destruct Hr as (_ & Ef & Es & Ec). apply first_past_in in Ef as ([ts Hin] & Hcur & Hend & _).
  destruct (scanned_read _ _ _ _ _ _ _ Hin) as [Hpre Hread].
  destruct (IH (fun i => now (S i)) db1 rc1 Hrep1 ltac:(by rewrite Ep)) as (l & rc2 & db2 & -> & [Ha2 Hn2] & Hrep2 & Hl & Hnest & _).
  rewrite Es in Hnest. specialize (Hnest Ec). exists ((k, v) :: l), rc2, db2. split; [done|]. split; [split; congruence|]. split; [done|].
  split; [|split; [|done]].
  - intros [|i] k' v'; cbn; [by intros [= <- <-]|]. intros Hi. destruct (Hl i k' v' Hi) as (H1 & H2 & H3).
    rewrite Ha, Et in H1. rewrite Ee in H2. split; [done|]. split; [done|]. rewrite Es in H3.
    apply has_prefix_spec in H3 as [t3 ->]. apply has_prefix_spec in Hpre as [t ->]. apply has_prefix_spec. exists (t ++ t3). by rewrite app_assoc.
  - intros Hc. cbn. split; [|done]. apply has_prefix_spec in Hpre as [t ->]. exists t. split; [|done]. intros ->.
    rewrite app_nil_r, Hc, not_after_self in Hcur. done.
Qed.

(** The range cursor.  Every pair it returns is a row of the page as [Read]
    would return it, starts with the start key and does not pass the end key; it
    changes no page.  But after a row it scans for keys that start with that
    row's key, so each key it returns extends the one before it: over keys none
    of which extends another (as the chunks of a posting list are) a walk over
    the range returns at most one row. *)
Theorem range_cursor_rows n now ps db rs pg t lo hi :
  db_rep ps db -> ps !! pg = Some rs ->
  exists l rc' db', Range.read_range n now (Range.NewRangeCursor pg t lo hi) db = (l, rc', db') /\ db_rep ps db' /\
    (forall i k v, l !! i = Some (k, v) -> read_spec (now i) (activeTxns db) t k rs = Some v /\
       Range.beyond k hi = false /\ has_prefix k lo = true) /\
    match l.*1 with [] => True | k :: ks => nested k ks end /\
    ((forall r1 r2 x, r1 ∈ rs -> r2 ∈ rs -> key r2 = key r1 ++ x -> x = []) -> (length l <= 1)%nat).
Proof.
  intros Hrep Hrs. destruct (read_range_run n now ps db rs (Range.NewRangeCursor pg t lo hi) Hrep Hrs)
    as (l & rc' & db' & E & _ & Hrep' & Hl & _ & Hnest).
  exists l, rc', db'. split; [done|]. split; [done|]. split; [exact Hl|]. split; [done|]. intros Hflat.
  assert (forall i k v, l !! i = Some (k, v) -> exists r, r ∈ rs /\ key r = k) as Hkey.
  { intros i k v Hi. destruct (Hl i k v Hi) as [Hr _]. by apply read_spec_key in Hr. }
  destruct l as [|[k1 v1] [|[k2 v2] l]]; cbn; [lia..|]. cbn in Hnest. destruct Hnest as [(x & Hx & Ek) _].
  destruct (Hkey 0%nat k1 v1 eq_refl) as (r1 & H1 & <-). destruct (Hkey 1%nat k2 v2 eq_refl) as (r2 & H2 & E2).
  destruct Hx. apply (Hflat r1 r2 x H1 H2). congruence.
Qed.
End Spec.

#[local] Existing Instance canonical_range.

Lemma range_cursor_rows_witness :
  exists db1, Write demo_db 5 1 (str "k") (str "v") MixOther demo_clock = (Ok tt, db1) /\
  exists l rc' db', Range.read_range 3 (fun _ => 2000) (Range.NewRangeCursor 5 1 (str "k") None) db1 = (l, rc', db') /\
    (length l <= 1)%nat.
Proof.
  destruct (demo_write demo_db 1 demo_rep ltac:(lia)) as (db1 & E1 & _ & Hrep1). exists db1. split; [exact E1|].
  destruct (range_cursor_rows 3 (fun _ => 2000) _ db1 _ 5 1 (str "k") None Hrep1 (lookup_insert_eq _ _ _))
    as (l & rc' & db' & E & Hrep & _ & _ & H).
  exists l, rc', db'. split; [exact E|]. apply H. intros r1 r2 x H1 H2 Hx.
  apply list_elem_of_singleton in H1 as ->. apply list_elem_of_singleton in H2 as ->. cbn in Hx. by injection Hx as <-.
Defined.
