(* ===== verification/ORM.v ===== *)
(** The object mapper (orm.go): models are stored as JSON rows, inserted through
    a synthesized UQL statement and found, updated and deleted on the row page. *)

From Stdlib Require Import Strings.Byte.
From S2P Require Import Common.
From S2P Require Import Prelude.
From S2P Require Import VFS.
From S2P Require Import LRU.
From S2P Require Import Page.
From S2P Require Import Slotted.
From S2P Require Import Telemetry.
From S2P Require Import BufferPool.
From S2P Require Import PoolInv.
From S2P Require Import PoolOps.
From S2P Require Import WAL.
From S2P Require Import DBPage.
From S2P Require Import DB.
From S2P Require Import DBSpec.
From S2P Require Import LockManager.
From S2P Require Import Roaring.
From S2P Require Import Segment.
From S2P Require Import Utf8.
From S2P Require Import Query.
From S2P Require Import MVCC.
From S2P Require Import UQLLexer.
From S2P Require Import UQLParser.
From S2P Require Import UQLParserSpec.
From S2P Require Import UQLExec.
From S2P Require Import UQLSpec.
From S2P Require Import UQLProps.
From S2P Require Import UQLDemo.

(** ** Models *)

(** What reflection shows of a Go value: a pointer (nil or not), a struct with its
    type name and fields, anything else. *)
Inductive FieldValue := FUint64 (n : Z) | FOther (text : bytes).

Inductive GoValue :=
| GoNil
| GoPtr (elem : GoValue)
| GoStruct (name : bytes) (fields : list (bytes * FieldValue))
| GoOther.

(** Package json on models: [Unmarshal] stores into the struct [out] points to. *)
Class ModelCodec := {
  Marshal_model : GoValue -> option bytes;
  Unmarshal_model : bytes -> GoValue -> option GoValue
}.

(** [reflect.Value.FieldByName]. *)
Fixpoint FieldByName (name : bytes) (fields : list (bytes * FieldValue)) : option FieldValue :=
  match fields with
  | [] => None
  | (f, v) :: fields => if bytes_equal f name then Some v else FieldByName name fields
  end.

(** The value behind one pointer; a nil pointer has no kind. *)
Definition Elem (v : GoValue) : GoValue :=
  match v with GoPtr v => v | GoNil => GoOther | v => v end.

Definition ErrNotStruct : error := Msg "provided model payload must be a struct or pointer to a struct".

Definition parseModel `{ModelCodec} `{Unicode} (model : GoValue) : result (Z * bytes * bytes) :=
  match Elem model with
  | GoStruct name fields =>
      match FieldByName (str "ID") fields with
      | None => Err (Msg "target model struct must contain a public 'ID' field")
      | Some (FOther _) => Err (Msg "the model 'ID' field tracking identifier must be a uint64 primitive")
      | Some (FUint64 n) =>
          match Marshal_model model with
          | None => Err (Wrap "failed to serialize model properties to JSON" (Msg "json"))
          | Some payload => Ok (n, lower name ++ str "s", payload)
          end
      end
  | _ => Err ErrNotStruct
  end.

(** [fmt.Sprintf("INSERT INTO %s VALUES (%d, '%s')", ...)]. *)
Definition insert_query (table : bytes) (n : Z) (payload : bytes) : bytes :=
  str "INSERT INTO " ++ table ++ str " VALUES (" ++ Sprintf_d n ++ str ", '" ++ payload ++ str "')".

Section ORM.
Context {D P : Type} `{BlockDevice D} `{EvictionPolicy P} `{MapRange} `{ModelCodec} `{Unicode}.
Abbreviation exec := (io (Engine D P)).

(** [Execute] with nil for the lock manager and the codec. *)
Definition execute_plain (env : StmtEnv) (stmt : UQLStatement) : exec (list bytes) := fun e =>
  let env := mkEnv (env_searcher env) None (env_walFile env) (env_stmt env) (env_rows env) (env_pages env) (env_redo env)
    (env_undo env) (env_undoFuel env) (env_log env) (env_report env) in
  let '(r, e') := execute env stmt (mkEngine (edb e) (cache e) (eindex e) None) in
  (r, mkEngine (edb e') (cache e') (eindex e') (lockMgr e)).

Definition orm_Insert (env : StmtEnv) (model : GoValue) : exec unit :=
  '(n, tableName, payload) ← of_result (parseModel model);
  let escapedPayload := ReplaceAll x27 (str "''") payload in
  match ParseUQL (insert_query tableName n escapedPayload) with
  | Ok stmt => _ ← execute_plain env stmt; mret tt
  | Err e => of_result (Err (Wrap "orm pipeline compilation aborted" e))
  | Panic => of_result Panic
  | Hang => of_result Hang
  end.

(** The result is what the destination holds afterwards. *)
Definition orm_Find (n : Z) (out : GoValue) (now : Z) : exec GoValue :=
  match out with
  | GoPtr (GoStruct _ _) =>
      txn ← exec_begin;
      r ← try (on_db (fun db => DB.Read db 0 txn (Sprintf_d n) now));
      _ ← exec_commit txn;
      match r with
      | inl e => of_result (Err (Wrap "orm record query failed" e))
      | inr raw =>
          match Unmarshal_model raw out with
          | Some v => mret v
          | None => of_result (Err (Wrap "orm failed to unmarshal matching physical row contents" (Msg "json")))
          end
      end
  | _ => of_result (Err (Msg "destination output parameter must be an initialized pointer to a struct type"))
  end.

(** The write of [Update] and [Delete]. *)
Definition orm_write (n : Z) (value : bytes) (mix : MixParam) (c : clock) : exec (error + unit) :=
  txn ← exec_begin;
  r ← try (on_db (fun db => Write db 0 txn (Sprintf_d n) value mix c));
  _ ← exec_commit txn;
  mret r.

Definition orm_Update (model : GoValue) (c : clock) : exec unit :=
  '(n, _, payload) ← of_result (parseModel model);
  r ← orm_write n payload (MixInt 0) c;
  match r with
  | inl e => of_result (Err e)
  | inr _ => add_index n payload
  end.

Definition orm_Delete (model : GoValue) (c : clock) : exec unit :=
  '(n, _, _) ← of_result (parseModel model);
  r ← orm_write n [] (MixDuration 1) c;
  of_result (match r with inl e => Err e | inr _ => Ok tt end).
End ORM.

(** ** The synthesized statement *)

Lemma yields_cons bs t bs' ts : lex bs = (t, bs') -> yields bs' ts -> yields bs (t :: ts).
Proof. intros E H. cbn. by rewrite E. Qed.

Lemma yields_space bs ts : yields bs ts -> yields (x20 :: bs) ts.
Proof. destruct ts; [done|]. cbn. by rewrite lex_space. Qed.

Lemma lex_number_then s c rest :
  s <> [] -> forallb IsDigit s = true -> IsDigit c = false -> lex (s ++ c :: rest) = (mkToken TokenNumber s, c :: rest).
Proof.
  intros Hne Hs Hc. destruct s as [|b s]; [done|]. pose proof Hs as Hs'. cbn [forallb] in Hs. apply andb_true_iff in Hs as [Hb Hs].
  pose proof (IsDigit_shape b Hb) as (H1 & H2 & H3 & H4 & H5). unfold lex.
  cbn [app drop_while]. rewrite H1, H2, !bool_decide_eq_false_2, H5, Hb by done. cbn [take_while drop_while]. rewrite Hb.
  by destruct (while_all IsDigit s c rest Hs Hc) as [-> ->].
Qed.

(** What the lexer reads of the escaped text: everything up to the first quote. *)
Definition stored_text (payload : bytes) : bytes := take_while string_char payload.

Lemma stored_text_escaped payload rest :
  take_while string_char (ReplaceAll x27 (str "''") payload ++ x27 :: rest) = stored_text payload.
Proof.
  unfold stored_text, ReplaceAll. induction payload as [|b payload IH]; [done|]. cbn [mbind list_bind].
  destruct (decide (b = x27)) as [->|Hb]; [done|]. rewrite bool_decide_eq_false_2 by done. cbn [app take_while].
  destruct (string_char b); [|done]. f_equal. exact IH.
Qed.

Lemma stored_text_all payload : forallb string_char payload = true -> stored_text payload = payload.
Proof.
  unfold stored_text. induction payload as [|b payload IH]; cbn; [done|]. intros [-> Hp]%andb_true_iff. by rewrite IH.
Qed.

Lemma insert_query_tokens c table n payload :
  isLetter c = true -> forallb ident_char table = true -> 0 <= n < 2 ^ 64 ->
  yields (insert_query (c :: table) n (ReplaceAll x27 (str "''") payload))
    (insert_head false (mkToken (LookupIdent (c :: table)) (c :: table)) (number n) (stored_text payload)).
Proof.
  intros Hc Ht Hn. unfold insert_query, insert_head. cbn [app].
  change (str "INSERT INTO ") with (str "INSERT" ++ x20 :: str "INTO" ++ [x20]). rewrite <- !app_assoc. cbn [app].
  eapply yields_cons; [by apply (lex_word x49 (str "NSERT"))|]. apply yields_space. rewrite <- !app_assoc. cbn [app].
  eapply yields_cons; [by apply (lex_word x49 (str "NTO"))|]. apply yields_space.
  change (str " VALUES (") with (x20 :: str "VALUES" ++ x20 :: [x28]).
  eapply yields_cons; [by apply (lex_word c table)|]. apply yields_space. cbn [app]. rewrite <- ?app_assoc. cbn [app].
  eapply yields_cons; [by apply (lex_word x56 (str "ALUES"))|]. apply yields_space.
  eapply yields_cons; [by apply lex_symbol|].
  destruct (Sprintf_d_ok n Hn) as (_ & H2 & H3). change (str ", '") with (x2c :: x20 :: [x27]). cbn [app].
  eapply yields_cons; [by apply lex_number_then|]. eapply yields_cons; [by apply lex_symbol|]. apply yields_space.
  eapply yields_cons; [|exact I].
  pose proof (stored_text_escaped payload [x29]) as E. set (esc := ReplaceAll x27 (str "''") payload) in *.
  unfold lex. cbn [drop_while]. change (is_space x27) with false. cbv iota. change (symbol x27) with (@None TokenType). cbv iota.
  rewrite bool_decide_eq_true_2 by done. change (str "')") with (x27 :: [x29]). rewrite E. reflexivity.
Qed.

(** ** What the mapper does *)

Section Mapper.
Context {D : Type} `{DS : BlockDeviceSpec D} `{RD : !ReliableDevice D} `{MR : MapRange} `{MC : ModelCodec} `{U : Unicode}.
Abbreviation engine := (Engine D LRUEvictionPolicy).
Implicit Types e : engine.
Implicit Types ps : gmap PageID (list record).

(** An engine at rest with other locks at rest. *)
Lemma quiet_locks ps rs c ix next e l :
  quiet ps rs c ix next e -> (forall s, l = Some s -> locks s = ∅) -> quiet ps rs c ix next (mkEngine (edb e) (cache e) (eindex e) l).
Proof. intros [H1 H2 H3 H4 H5 H6] Hl. by split. Qed.

Lemma orm_Insert_run T ps rs c ix next e env model n ch table payload :
  quiet ps rs c ix next e -> cache_ok T c -> Cache.txIdGen c + 1 < 2 ^ 64 -> clock_after T (env_stmt env) ->
  parseModel model = Ok (n, ch :: table, payload) -> isLetter ch = true -> forallb ident_char table = true -> 0 <= n < 2 ^ 64 ->
  zlen (stored_text payload) < 2 ^ 29 ->
  room rs (inserted_row next n (stored_text payload) (env_stmt env)) ->
  exists e' c', orm_Insert env model e = (Ok tt, e') /\
    quiet ps (rs ++ [inserted_row next n (stored_text payload) (env_stmt env)]) c'
      ((fun m => index_Add m n (stored_text payload)) <$> ix) (u64 (next + 1)) e' /\
    cache_ok (occCommit (env_stmt env)) c' /\ Cache.txIdGen c' = Cache.txIdGen c + 1 /\
    forall k', newest c' k' = if decide (k' = key_string (Sprintf_d n)) then Some (Some (stored_text payload)) else newest c k'.
Proof.
  intros Hq Hc Hid Hclk Hm Hch Ht Hn Hl Hroom. unfold orm_Insert.
  assert (of_result (parseModel model) e = (Ok (n, ch :: table, payload), e)) as E0 by (unfold of_result; by rewrite Hm).
  rewrite (bind_ok _ _ _ _ _ E0).
  rewrite (parse_insert _ false _ n (stored_text payload) Hn (insert_query_tokens ch table n payload Hch Ht Hn)).
  assert (quiet ps rs c ix next (mkEngine (edb e) (cache e) (eindex e) None)) as Hq0 by by apply quiet_locks.
  pose proof (execInsert_run T ps rs c ix next _ n (stored_text payload) None (env_stmt env) Hq0 Hc Hid Hclk Hl) as Hrun.
  cbn zeta in Hrun. fold (inserted_row next n (stored_text payload) (env_stmt env)) in Hrun.
  unfold write_spec in Hrun. rewrite decide_True in Hrun by done. destruct Hrun as (e1 & c1 & E1 & Hq1 & Hc1 & Eg1 & Hn1).
  eexists _, c1. split; [|split; [|done]].
  - unfold execute_plain, mbind, io_bind, execute. cbn [env_stmt env_codec]. rewrite E1. reflexivity.
  - apply quiet_locks; [done|]. apply Hq.
Qed.

Lemma orm_Find_run ps rs c ix next e n name fields now :
  quiet ps rs c ix next e ->
  exists e', orm_Find n (GoPtr (GoStruct name fields)) now e =
    (match page_value now rs (Sprintf_d n) with
     | Some raw => match Unmarshal_model raw (GoPtr (GoStruct name fields)) with
                   | Some v => Ok v
                   | None => Err (Wrap "orm failed to unmarshal matching physical row contents" (Msg "json"))
                   end
     | None => Err (Wrap "orm record query failed" ErrKeyNotFound)
     end, e') /\ quiet ps rs c ix (u64 (next + 1)) e'.
Proof.
  intros Hq. unfold orm_Find. destruct (begin_at _ _ _ _ _ _ _ Hq) as (e1 & E1 & H1). rewrite (bind_ok _ _ _ _ _ E1).
  destruct (read_at _ _ _ _ _ _ _ (Sprintf_d n) now H1) as (e2 & E2 & H2).
  assert (try (on_db (fun db => DB.Read db 0 (u64 (next + 1)) (Sprintf_d n) now)) e1 =
    (Ok (match page_value now rs (Sprintf_d n) with Some v => inr v | None => inl ErrKeyNotFound end), e2)) as E2'.
  { unfold try. rewrite E2. by destruct (page_value now rs _). }
  rewrite (bind_ok _ _ _ _ _ E2'). destruct (commit_at _ _ _ _ _ _ _ H2) as (e3 & E3 & H3). rewrite (bind_ok _ _ _ _ _ E3).
  exists e3. split; [|done]. destruct (page_value now rs _) as [raw|]; [|done]. by destruct (Unmarshal_model raw _).
Qed.

Lemma orm_write_run ps rs c ix next e n value mix clk :
  quiet ps rs c ix next e -> zlen value < 2 ^ 29 ->
  let r := mkRecord (u64 (next + 1)) (write_expiry clk mix) (Sprintf_d n) value in
  room rs r -> exists e', orm_write n value mix clk e = (Ok (inr tt), e') /\ quiet ps (rs ++ [r]) c ix (u64 (next + 1)) e'.
Proof.
  intros Hq Hl r Hroom. unfold orm_write. destruct (begin_at _ _ _ _ _ _ _ Hq) as (e1 & E1 & H1). rewrite (bind_ok _ _ _ _ _ E1).
  pose proof (Sprintf_d_length n). pose proof (write_at _ _ _ _ _ _ _ (Sprintf_d n) value mix clk H1 (u64_ok _) ltac:(lia)) as Hw.
  fold r in Hw. unfold write_spec in Hw. rewrite decide_True in Hw by done. destruct Hw as (e2 & E2 & H2).
  assert (try (on_db (fun db => Write db 0 (u64 (next + 1)) (Sprintf_d n) value mix clk)) e1 = (Ok (inr tt), e2)) as E2'
    by (unfold try; by rewrite E2).
  rewrite (bind_ok _ _ _ _ _ E2'). destruct (commit_at _ _ _ _ _ _ _ H2) as (e3 & E3 & H3). rewrite (bind_ok _ _ _ _ _ E3). by exists e3.
Qed.

(** ** Properties *)

(** C37: The object mapper's round trip: a model inserted through the synthesized
    statement is found again as the part of its JSON text before the first
    apostrophe: the whole text when there is none, and a truncated one otherwise,
    since the doubled quotes of the mapper are no escape in the query language. *)
Theorem orm_insert_find T ps rs c ix next e env model n ch table payload name fields now :
  quiet ps rs c ix next e -> cache_ok T c -> Cache.txIdGen c + 1 < 2 ^ 64 -> clock_after T (env_stmt env) ->
  parseModel model = Ok (n, ch :: table, payload) -> isLetter ch = true -> forallb ident_char table = true -> 0 <= n < 2 ^ 64 ->
  zlen payload < 2 ^ 29 -> room rs (inserted_row next n (stored_text payload) (env_stmt env)) ->
  now < i64 (write_expiry (pageClock (env_stmt env)) (MixInt 0)) ->
  (exists e1 e2, orm_Insert env model e = (Ok tt, e1) /\
     orm_Find n (GoPtr (GoStruct name fields)) now e1 =
       (match Unmarshal_model (stored_text payload) (GoPtr (GoStruct name fields)) with
        | Some v => Ok v
        | None => Err (Wrap "orm failed to unmarshal matching physical row contents" (Msg "json"))
        end, e2)) /\
  (forallb string_char payload = true -> stored_text payload = payload) /\
  (forall p1 p2, payload = p1 ++ x27 :: p2 -> forallb string_char p1 = true -> stored_text payload = p1).
Proof.
  intros Hq Hc Hid Hclk Hm Hch Ht Hn Hl Hroom Hnow. split_and!.
  - assert (length (stored_text payload) <= length payload)%nat as Hle.
    { unfold stored_text. rewrite (while_split string_char payload) at 2. rewrite length_app. lia. }
    destruct (orm_Insert_run T ps rs c ix next e env model n ch table payload Hq Hc Hid Hclk Hm Hch Ht Hn ltac:(unfold zlen in *; lia) Hroom)
      as (e1 & c1 & E1 & Hq1 & _). destruct (orm_Find_run _ _ _ _ _ e1 n name fields now Hq1) as (e2 & E2 & _). exists e1, e2.
    split; [done|]. rewrite E2, page_value_snoc. cbn [key inserted_row]. rewrite bool_decide_eq_true_2 by done. unfold live.
    cbn [expiresAt]. by rewrite (proj2 (Z.ltb_lt _ _)).
  - apply stored_text_all.
  - intros p1 p2 -> Hp. by destruct (while_all string_char p1 x27 p2 Hp eq_refl).
Qed.

(** [Update] of the mapper writes the row but not the version cache: [Find]
    returns the new text while a [SELECT] of the row goes on returning the old
    one, as long as the cache holds it. *)
Theorem orm_update_misses_cache T ps rs c ix next e model n table payload old clk name fields now q data bm nowQ ts :
  quiet ps rs c ix next e -> cache_ok T c -> Cache.txIdGen c + 1 < 2 ^ 64 ->
  parseModel model = Ok (n, table, payload) -> zlen payload < 2 ^ 29 ->
  room rs (mkRecord (u64 (next + 1)) (write_expiry clk (MixInt 0)) (Sprintf_d n) payload) ->
  now < i64 (write_expiry clk (MixInt 0)) -> newest c (key_string (Sprintf_d n)) = Some (Some old) ->
  Execute q data = Ok bm -> ToArray bm = [n] -> 0 <= nowQ < 2 ^ 64 ->
  exists e1 e2 e3, orm_Update model clk e = (Ok tt, e1) /\
    orm_Find n (GoPtr (GoStruct name fields)) now e1 =
      (match Unmarshal_model payload (GoPtr (GoStruct name fields)) with
       | Some v => Ok v
       | None => Err (Wrap "orm failed to unmarshal matching physical row contents" (Msg "json"))
       end, e2) /\
    execSelect q 1 false [] (Some data) None nowQ ts e2 = (Ok [old], e3).
Proof.
  intros Hq Hc Hid Hm Hl Hroom Hnow Hold Ebm Ed HnowQ. unfold orm_Update.
  assert (of_result (parseModel model) e = (Ok (n, table, payload), e)) as E0 by (unfold of_result; by rewrite Hm).
  rewrite (bind_ok _ _ _ _ _ E0). destruct (orm_write_run ps rs c ix next e n payload (MixInt 0) clk Hq Hl Hroom) as (e1 & E1 & Hq1).
  rewrite (bind_ok _ _ _ _ _ E1). destruct (add_index_run _ _ _ _ _ _ _ e1 n payload Hq1) as (e2 & E2 & Hq2).
  destruct (orm_Find_run _ _ _ _ _ e2 n name fields now Hq2) as (e3 & E3 & Hq3).
  destruct (execSelect_hit T _ _ c _ _ e3 q data bm n old None nowQ ts Hq3 Hc Hid HnowQ Ebm Ed Hold) as (e4 & E4).
  exists e2, e3, e4. split; [done|]. split; [|done]. rewrite E3, page_value_snoc. cbn [key]. rewrite bool_decide_eq_true_2 by done.
  unfold live. cbn [expiresAt]. by rewrite (proj2 (Z.ltb_lt _ _)).
Qed.
End Mapper.

(** ** Witnesses *)

#[local] Existing Instance canonical_range.

#[local] Instance ascii_unicode : Unicode := {| wide_word _ := false; wide_lower c := c |}.

(** A codec that writes the text of a model's first field, and reads a text back
    into a field. *)
#[local] Instance demo_models : ModelCodec := {
  Marshal_model := fun m => match Elem m with GoStruct _ (_ :: (_, FOther text) :: _) => Some text | _ => None end;
  Unmarshal_model := fun raw out => match Elem out with GoStruct name _ => Some (GoStruct name [(str "Text", FOther raw)]) | _ => None end
}.

Definition demo_model (text : bytes) : GoValue := GoPtr (GoStruct (str "User") [(str "ID", FUint64 5); (str "Text", FOther text)]).

Definition demo_env : StmtEnv :=
  mkEnv None None None demo_stmt demo_rows (fun _ => demo_clock) (fun _ => demo_clock) (fun _ => demo_clock) 0 IoOk (fun _ => []).

Lemma orm_insert_find_witness :
  exists e1 e2, orm_Insert demo_env (demo_model (str "it's")) demo_engine = (Ok tt, e1) /\
    orm_Find 5 (GoPtr (GoStruct (str "User") [])) 2000 e1 = (Ok (GoStruct (str "User") [(str "Text", FOther (str "it"))]), e2).
Proof.
  destruct (orm_insert_find 0 ∅ [] Cache.GlobalCacheStore (Some NewMemIndex) 0 demo_engine demo_env (demo_model (str "it's")) 5
    Byte.x75 (str "sers") (str "it's") (str "User") [] 2000 demo_engine_quiet demo_cache_ok ltac:(reflexivity) demo_after
    ltac:(reflexivity) ltac:(reflexivity) ltac:(reflexivity) ltac:(lia) ltac:(reflexivity) ltac:(vm_compute; discriminate)
    ltac:(vm_compute; reflexivity)) as ((e1 & e2 & E1 & E2) & _ & _).
  exists e1, e2. split; [exact E1 | exact E2].
Defined.

(** A row in the page and in the cache. *)
Lemma demo_inserted :
  exists e c, quiet ∅ [inserted_row 0 5 (str "old") demo_stmt] c (Some (index_Add NewMemIndex 5 (str "old"))) 1 e /\ cache_ok 20 c /\
    Cache.txIdGen c = 1 /\ newest c (key_string (str "5")) = Some (Some (str "old")).
Proof.
  pose proof (execInsert_run 0 ∅ [] Cache.GlobalCacheStore (Some NewMemIndex) 0 demo_engine 5 (str "old") None demo_stmt
    demo_engine_quiet demo_cache_ok ltac:(reflexivity) demo_after ltac:(reflexivity)) as H.
  cbn zeta in H. fold (inserted_row 0 5 (str "old") demo_stmt) in H. unfold write_spec in H.
  rewrite decide_True in H by (vm_compute; discriminate). destruct H as (e & c & _ & Hq & Hc & Hg & Hn). exists e, c.
  split; [exact Hq|]. split; [exact Hc|]. split; [exact Hg|]. rewrite Hn. by rewrite decide_True by reflexivity.
Qed.

Lemma orm_update_misses_cache_witness :
  exists e e1 e2 e3, orm_Update (demo_model (str "new")) demo_clock e = (Ok tt, e1) /\
    orm_Find 5 (GoPtr (GoStruct (str "User") [])) 2000 e1 = (Ok (GoStruct (str "User") [(str "Text", FOther (str "new"))]), e2) /\
    execSelect demo_query 1 false [] (Some demo_data) None 25 demo_rows e2 = (Ok [str "old"], e3).
Proof.
  destruct demo_inserted as (e & c & Hq & Hc & Hg & Hn).
  destruct (orm_update_misses_cache 20 ∅ _ c _ 1 e (demo_model (str "new")) 5 (str "users") (str "new") (str "old") demo_clock
    (str "User") [] 2000 demo_query demo_data demo_bm 25 demo_rows Hq Hc ltac:(rewrite Hg; reflexivity) ltac:(reflexivity) ltac:(reflexivity)
    ltac:(vm_compute; discriminate) ltac:(vm_compute; reflexivity) Hn demo_execute demo_docs_found ltac:(lia)) as (e1 & e2 & e3 & E1 & E2 & E3).
  exists e, e1, e2, e3. split; [exact E1|]. split; [exact E2 | exact E3].
Defined.
