(* ===== verification/Scorer.v ===== *)
(** The relevance score (scorer.go) in binary64 arithmetic; the logarithm of
    package math is an argument.  Operations are rounded one by one. *)

From Stdlib Require Import Floats.SpecFloat.
From S2P Require Import Common.
From S2P Require Import Prelude.

(** ** float64 *)

Definition float64 (n : Z) : spec_float := binary_normalize 53 1024 n 0 false.
Definition fadd := SFadd 53 1024.
Definition fsub := SFsub 53 1024.
Definition fmul := SFmul 53 1024.
Definition fdiv := SFdiv 53 1024.
Definition fle (x y : spec_float) : bool := SFleb x y.
Definition fgt (x y : spec_float) : bool := SFltb y x.

(** Decimal constants are the nearest floats. *)
Definition float_ratio (n d : Z) : spec_float := fdiv (float64 n) (float64 d).

Record BM25Scorer := mkBM25 { k1 : spec_float; b : spec_float }.

Definition NewBM25Scorer : BM25Scorer := mkBM25 (float_ratio 12 10) (float_ratio 75 100).

Definition Score (Log : spec_float -> spec_float) (s : BM25Scorer) (tf docLen avgDocLen : spec_float)
    (totalDocs docFreq : Z) : spec_float :=
  if fle tf (float64 0) || (totalDocs <=? 0) then float64 0
  else
    let docFreq := if docFreq <=? 0 then 1 else docFreq in
    let avgDocLen := if fle avgDocLen (float64 0) then float64 1 else avgDocLen in
    let docLen := if fle docLen (float64 0) then float64 1 else docLen in
    let numerator := fadd (float64 (totalDocs - docFreq)) (float_ratio 1 2) in
    let denominator := fadd (float64 docFreq) (float_ratio 1 2) in
    let idf := Log (fadd (float64 1) (fdiv numerator denominator)) in
    let lengthNorm := fadd (fsub (float64 1) (b s)) (fmul (b s) (fdiv docLen avgDocLen)) in
    let tfNorm := fdiv (fmul tf (fadd (k1 s) (float64 1))) (fadd tf (fmul (k1 s) lengthNorm)) in
    fmul idf tfNorm.

(** With the logarithm taken as 1: a term twice in one of two documents. *)
Example Score_demo :
  Score (fun _ => float64 1) NewBM25Scorer (float64 2) (float64 4) (float64 4) 2 1 = float_ratio 44 32.
Proof. vm_compute. reflexivity. Qed.
