(* ===== verification/Kernel.v ===== *)
(** The integrated engine (kernel.go): text analysis, documents and posting
    chunks on slotted pages, Boolean search over them, the ring of cluster nodes
    and the guarded distributed search. *)

From Stdlib Require Import Strings.Byte.
From Stdlib Require Import Floats.SpecFloat.
From S2P Require Import Common.
From S2P Require Import Prelude.
From S2P Require Import VFS.
From S2P Require Import LRU.
From S2P Require Import Page.
From S2P Require Import Telemetry.
From S2P Require Import BufferPool.
From S2P Require Import WAL.
From S2P Require Import DBPage.
From S2P Require Import DB.
From S2P Require Import Roaring.
From S2P Require Import Segment.
From S2P Require Import Utf8.
From S2P Require Import Query.
From S2P Require Import UQLLexer.
From S2P Require Import UQLParser.
From S2P Require Import RangeCursor.
From S2P Require Import Scorer.

Module Kernel.

Definition IndexPageID : PageID := 10.
Definition MetadataPageID : PageID := 11.
Definition PostingsChunkSize : Z := 256.
Definition DefaultVirtualNodes : nat := 64.

(** ** Text *)

(** [strings.FieldsFunc]: the maximal runs of characters outside [f]. *)
Fixpoint fields_func (f : Z -> bool) (cur : bytes) (l : list (Z * bytes)) : list bytes :=
  match l with
  | [] => if bool_decide (cur = []) then [] else [cur]
  | (r, bs) :: l =>
      if f r then if bool_decide (cur = []) then fields_func f [] l else cur :: fields_func f [] l
      else fields_func f (cur ++ bs) l
  end.

Definition FieldsFunc (f : Z -> bool) (text : bytes) : list bytes := fields_func f [] (runes text).

(** ** The analyzer *)

Definition stopWords : list bytes := str <$> [
  "the"; "is"; "at"; "which"; "on"; "and"; "a"; "an"; "in"; "of"; "to"; "for"; "with"; "by"; "as"]%string.

Section Analyzer.
Context `{Unicode}.

(** [unicode.IsLetter(c) || unicode.IsNumber(c)]. *)
Definition word_rune (r : Z) : bool :=
  if r <? 0x80
  then (97 <=? r) && (r <=? 122) || (65 <=? r) && (r <=? 90) || (48 <=? r) && (r <=? 57)
  else wide_word r.

Definition Tokenize (text : bytes) : list bytes :=
  filter (fun clean => (clean ∉ stopWords) /\ 1 < zlen clean) (lower <$> FieldsFunc (fun c => negb (word_rune c)) text).
End Analyzer.

(** ** Data *)

Record Posting := mkPosting { DocID : bytes; TF : spec_float }.
Record PostingsChunk := mkChunk { ChunkID : Z; Postings : list Posting }.
Record EngineState := mkState { sTotalDocs : Z; sAvgDocLen : spec_float }.
Record SearchResult := mkHit { hDocID : bytes; hScore : spec_float }.
Record ClusterQuery := mkClusterQuery { QueryID : bytes; QueryText : bytes; QueryLimit : Z }.
Record RoutingEntry := mkRoute { rID : bytes; rAddress : bytes; rHealthy : bool }.

(** Package json on these types.  A failed [Unmarshal] of a chunk still leaves
    something in its destination. *)
Class SearchJSON := {
  Marshal_chunk : PostingsChunk -> bytes;
  Unmarshal_chunk : bytes -> bool * PostingsChunk;
  Marshal_state : EngineState -> bytes;
  Unmarshal_state : bytes -> option EngineState;
  Marshal_query : ClusterQuery -> bytes;
  Unmarshal_hits : bytes -> option (list SearchResult)
}.

(** The engine: database, statistics, ring and routing table, and the audit
    messages handed to the interceptor. *)
Record IntegratedEngine (D P : Type) := mkKernel {
  kDB : DB D P;
  TotalDocs : Z;
  AvgDocLen : spec_float;
  ring : list Z;
  nodeMap : gmap Z bytes;
  routingTable : gmap bytes RoutingEntry;
  audit : list (bytes * bytes * bytes)
}.
Arguments mkKernel {_ _} _ _ _ _ _ _ _.
Arguments kDB {_ _} _.
Arguments TotalDocs {_ _} _.
Arguments AvgDocLen {_ _} _.
Arguments ring {_ _} _.
Arguments nodeMap {_ _} _.
Arguments routingTable {_ _} _.
Arguments audit {_ _} _.

(** The interfaces to the network and to access control; nil is [None]. *)
Record NetworkTransport := mkTransport { BroadcastQuery : bytes -> option (list bytes) }.
Record AuditInterceptor := mkInterceptor { VerifyAccess : bytes -> bytes -> bytes -> bool }.

(** ** Keys *)

Definition docKey (docID : bytes) : bytes := str "doc:" ++ docID.
Definition metaKey (term : bytes) : bytes := str "term_meta:" ++ term.
Definition chunkKey (term : bytes) (n : Z) : bytes := str "term:" ++ term ++ str ":chunk:" ++ Sprintf_d n.
Definition startRange (term : bytes) : bytes := str "term:" ++ term ++ str ":chunk:0".
Definition endRange (term : bytes) : bytes := str "term:" ++ term ++ str ":chunk:" ++ [Byte.xff].

Section Operations.
Context {D P : Type} `{BlockDevice D} `{EvictionPolicy P} `{MapRange} `{Unicode} `{SearchJSON}.
Abbreviation kernel := (io (IntegratedEngine D P)).

Definition set_kDB (db : DB D P) (ie : IntegratedEngine D P) : IntegratedEngine D P :=
  mkKernel db (TotalDocs ie) (AvgDocLen ie) (ring ie) (nodeMap ie) (routingTable ie) (audit ie).

Definition with_kDB {A} (f : DB D P -> result A * DB D P) : kernel A := fun ie =>
  let '(r, db) := f (kDB ie) in (r, set_kDB db ie).

Definition begin_work : kernel Z := with_kDB (fun db => let '(t, db) := BeginTxn db in (Ok t, db)).
Definition end_work (txn : Z) : kernel unit := with_kDB (fun db => (Ok tt, CommitTxn db txn)).

(** [defer ie.DB.CommitTxn(txn)] around a body. *)
Definition in_txn {A} (body : Z -> kernel A) : kernel A :=
  txn ← begin_work;
  r ← try (body txn);
  _ ← end_work txn;
  of_result (match r with inl e => Err e | inr a => Ok a end).

(** *** [NewIntegratedEngine] *)

(** The statistics, when the stored state can be read. *)
Definition restore_state (r : error + bytes) : kernel unit := fun ie =>
  match r with
  | inr ((_ :: _) as stateBytes) =>
      match Unmarshal_state stateBytes with
      | Some s => (Ok tt, mkKernel (kDB ie) (sTotalDocs s) (sAvgDocLen s) (ring ie) (nodeMap ie) (routingTable ie) (audit ie))
      | None => (Ok tt, ie)
      end
  | _ => (Ok tt, ie)
  end.

Definition NewIntegratedEngine (db : DB D P) (now : Z) : result unit * IntegratedEngine D P :=
  (r ← in_txn (fun txn => try (with_kDB (fun db => DB.Read db MetadataPageID txn (str "bm25_state") now)));
   restore_state r) (mkKernel db 0 (float64 0) [] ∅ ∅ []).

(** *** The ring *)

(** The point of one virtual node: the first four bytes of the digest. *)
Definition ring_point (sha256 : bytes -> bytes) (nodeID : bytes) (i : nat) : Z :=
  be_val (take 4 (sha256 (nodeID ++ str "#" ++ Sprintf_d (Z.of_nat i)))).

Definition AddClusterNode (sha256 : bytes -> bytes) (nodeID address : bytes) (ie : IntegratedEngine D P) : IntegratedEngine D P :=
  let points := ring_point sha256 nodeID <$> seq 0 DefaultVirtualNodes in
  mkKernel (kDB ie) (TotalDocs ie) (AvgDocLen ie)
    (merge_sort Z.le (ring ie ++ points))
    (fold_left (fun m hk => <[hk := nodeID]> m) points (nodeMap ie))
    (<[nodeID := mkRoute nodeID address true]> (routingTable ie))
    (audit ie).

(** *** [InsertDocument] *)

Definition termCounts (tokens : list bytes) : gmap bytes Z :=
  fold_left (fun m t => <[t := default 0 (m !! t) + 1]> m) tokens ∅.

(** A four-byte counter; a shorter value is sliced out of range. *)
Definition read_count (bs : bytes) : result Z :=
  match bs with [] => Ok 0 | _ => if zlen bs <? 4 then Panic else Ok (be_val (take 4 bs)) end.

Definition write_row (page : PageID) (txn : Z) (k v : bytes) (c : clock) : kernel unit :=
  with_kDB (fun db => Write db page txn k v (MixInt 0) c).

(** The clock readings of one term. *)
Record term_clock := mkTermClock { metaRead : Z; metaWrite : clock; chunkRead : Z; growWrite : clock; chunkWrite : clock }.

(** The chunk count of a term; a new term gets its first chunk. *)
Definition chunk_count (txn : Z) (term : bytes) (t : term_clock) : kernel Z :=
  r ← try (with_kDB (fun db => DB.Read db IndexPageID txn (metaKey term) (metaRead t)));
  n ← of_result (match r with inr bs => read_count bs | inl _ => Ok 0 end);
  if n =? 0
  then _ ← ignore (write_row IndexPageID txn (metaKey term) (be_bytes 4 1) (metaWrite t)); mret 1
  else mret n.

(** The loop body: one posting. *)
Definition add_posting (txn : Z) (docID term : bytes) (count : Z) (t : term_clock) : kernel unit :=
  chunkCount ← chunk_count txn term t;
  let targetChunkKey := chunkKey term (u32 (chunkCount - 1)) in
  r ← try (with_kDB (fun db => DB.Read db IndexPageID txn targetChunkKey (chunkRead t)));
  let currentChunk := match r with
                      | inr ((_ :: _) as chunkBytes) => (Unmarshal_chunk chunkBytes).2
                      | _ => mkChunk (u32 (chunkCount - 1)) []
                      end in
  let newPosting := mkPosting docID (float64 count) in
  if PostingsChunkSize <=? zlen (Postings currentChunk)
  then
    let chunkCount := u32 (chunkCount + 1) in
    _ ← ignore (write_row IndexPageID txn (metaKey term) (be_bytes 4 chunkCount) (growWrite t));
    write_row IndexPageID txn (chunkKey term (u32 (chunkCount - 1)))
      (Marshal_chunk (mkChunk (u32 (chunkCount - 1)) [newPosting])) (chunkWrite t)
  else
    write_row IndexPageID txn targetChunkKey
      (Marshal_chunk (mkChunk (ChunkID currentChunk) (Postings currentChunk ++ [newPosting]))) (chunkWrite t).

Fixpoint add_postings (txn : Z) (docID : bytes) (terms : list (bytes * Z)) (ts : nat -> term_clock) : kernel unit :=
  match terms with
  | [] => mret tt
  | (term, count) :: terms =>
      _ ← add_posting txn docID term count (ts 0%nat);
      add_postings txn docID terms (fun i => ts (S i))
  end.

(** The running mean of the document lengths, each operation rounded (as on a
    target without fused multiply-add). *)
Definition count_document (txn : Z) (tokens : list bytes) (c : clock) : kernel unit := fun ie =>
  let prevDocs := TotalDocs ie in
  let total := i64 (prevDocs + 1) in
  let avg := fdiv (fadd (fmul (AvgDocLen ie) (float64 prevDocs)) (float64 (zlen tokens))) (float64 total) in
  (ignore (write_row MetadataPageID txn (str "bm25_state") (Marshal_state (mkState total avg)) c))
    (mkKernel (kDB ie) total avg (ring ie) (nodeMap ie) (routingTable ie) (audit ie)).

Definition InsertDocument (pageID : PageID) (docID text : bytes) (cDoc : clock) (ts : nat -> term_clock) (cState : clock) :
    kernel unit :=
  let tokens := Tokenize text in
  in_txn (fun txn =>
    _ ← write_row pageID txn (docKey docID) text cDoc;
    _ ← add_postings txn docID (range (termCounts tokens)) ts;
    count_document txn tokens cState).

(** *** Search *)

(** [for { _, valBytes, err := cursor.Next(); ... }]: the loop ends at an error, at
    the end and at an empty value, whose copy is nil. *)
Fixpoint cursor_loop (fuel : nat) (now : nat -> Z) (rc : Range.RangeCursor) (acc : list PostingsChunk) : kernel (list PostingsChunk) :=
  match fuel with
  | O => of_result Hang
  | S fuel => fun ie =>
      let '(r, rc, db) := Range.Next (now 0%nat) rc (kDB ie) in
      let ie := set_kDB db ie in
      match r with
      | Ok (Some (_, (_ :: _) as valBytes)) =>
          let '(ok, chunk) := Unmarshal_chunk valBytes in
          cursor_loop fuel (fun i => now (S i)) rc (if (ok : bool) then acc ++ [chunk] else acc) ie
      | Ok _ | Err _ => (Ok acc, ie)
      | Panic => (Panic, ie)
      | Hang => (Hang, ie)
      end
  end.

(** The chunks a search finds for a term. *)
Definition term_chunks (fuel : nat) (now : nat -> Z) (txn : Z) (term : bytes) : kernel (list PostingsChunk) :=
  cursor_loop fuel now (Range.NewRangeCursor IndexPageID txn (startRange term) (Some (endRange term))) [].

(** A query other than a term, AND or OR gives the empty set.  [now] has the
    readings of the two sides on its even and odd places. *)
Fixpoint evaluateAST (fuel : nat) (now : nat -> Z) (q : Query) (txn : Z) : kernel (gset bytes) :=
  match q with
  | TermQuery term =>
      chunks ← term_chunks fuel now txn term;
      mret (list_to_set (chunks ≫= fun ch => DocID <$> Postings ch))
  | AndQuery l r =>
      left_ ← evaluateAST fuel (fun i => now (2 * i)%nat) l txn;
      right_ ← evaluateAST fuel (fun i => now (2 * i + 1)%nat) r txn;
      mret (left_ ∩ right_)
  | OrQuery l r =>
      left_ ← evaluateAST fuel (fun i => now (2 * i)%nat) l txn;
      right_ ← evaluateAST fuel (fun i => now (2 * i + 1)%nat) r txn;
      mret (left_ ∪ right_)
  | NotQuery _ _ => mret ∅
  end.

(** The scores of one token's postings. *)
Definition add_scores (Log : spec_float -> spec_float) (avg : spec_float) (total postingsCount : Z) (valid : gset bytes)
    (matches : list Posting) (scores : gmap bytes spec_float) : gmap bytes spec_float :=
  fold_left (fun scores p =>
    if bool_decide (DocID p ∈ valid)
    then <[DocID p := fadd (default (float64 0) (scores !! DocID p))
                        (Score Log NewBM25Scorer (TF p) avg avg total postingsCount)]> scores
    else scores) matches scores.

Fixpoint score_loop (Log : spec_float -> spec_float) (fuel : nat) (now : nat -> nat -> Z) (txn : Z) (avg : spec_float) (total : Z)
    (valid : gset bytes) (tokens : list bytes) (scores : gmap bytes spec_float) : kernel (gmap bytes spec_float) :=
  match tokens with
  | [] => mret scores
  | token :: tokens =>
      chunks ← term_chunks fuel (now 0%nat) txn token;
      let matches := chunks ≫= Postings in
      score_loop Log fuel (fun i => now (S i)) txn avg total valid tokens
        (if zlen matches =? 0 then scores else add_scores Log avg total (zlen matches) valid matches scores)
  end.

(** [sort.Slice] with the scores descending, and the cut. *)
Definition cut (limit : Z) (hits : list SearchResult) : list SearchResult :=
  if (0 <? limit) && (limit <? zlen hits) then take (Z.to_nat limit) hits else hits.

Definition hits_of (scores : gmap bytes spec_float) : list SearchResult :=
  map (fun ds => mkHit ds.1 ds.2) (range scores).

Definition LocalSearch (Log : spec_float -> spec_float) (sort_scores : list SearchResult -> list SearchResult) (fuel : nat)
    (queryText : bytes) (limit : Z) (nowAST : nat -> Z) (nowScore : nat -> nat -> Z) : kernel (list SearchResult) :=
  ast ← of_result (ParseQuery queryText);
  in_txn (fun txn =>
    valid ← evaluateAST fuel nowAST ast txn;
    if bool_decide (valid = ∅) then mret []
    else fun ie =>
      (scores ← score_loop Log fuel nowScore txn (AvgDocLen ie) (TotalDocs ie) valid (Tokenize queryText) ∅;
       mret (cut limit (sort_scores (hits_of scores)))) ie).

(** The hits of the peers whose answer can be read. *)
Definition peer_hits (responses : list bytes) : list SearchResult := responses ≫= fun r => default [] (Unmarshal_hits r).

Definition ErrDenied : error := Msg "security policy validation failure: search access denied".

Definition log_audit (actor action msg : bytes) : kernel unit := fun ie =>
  (Ok tt, mkKernel (kDB ie) (TotalDocs ie) (AvgDocLen ie) (ring ie) (nodeMap ie) (routingTable ie) (audit ie ++ [(actor, action, msg)])).

Definition ScatterGather (Log : spec_float -> spec_float) (sort_scores : list SearchResult -> list SearchResult) (fuel : nat)
    (transport : option NetworkTransport) (interceptor : option AuditInterceptor) (subjectID queryText : bytes) (limit : Z)
    (nowID : Z) (nowAST : nat -> Z) (nowScore : nat -> nat -> Z) : kernel (list SearchResult) :=
  let allowed := match interceptor with
                 | Some i => VerifyAccess i subjectID (str "SEARCH") (str "audit_logs")
                 | None => true
                 end in
  if negb allowed
  then _ ← log_audit subjectID (str "SEARCH_DENIED") (str "ABAC validation failure on distributed search request");
       of_result (Err ErrDenied)
  else
    localHits ← LocalSearch Log sort_scores fuel queryText limit nowAST nowScore;
    match transport with
    | None => mret localHits
    | Some t =>
        let payload := Marshal_query (mkClusterQuery (str "q_" ++ Sprintf_d nowID) queryText limit) in
        let globalHits := match BroadcastQuery t payload with
                          | Some responses => localHits ++ peer_hits responses
                          | None => localHits
                          end in
        mret (cut limit (sort_scores globalHits))
    end.
End Operations.
End Kernel.
