(* ===== verification/KernelCluster.v ===== *)
(** The cluster side of the integrated engine: the ring of virtual nodes over
    any history of calls, and the access gate of the distributed search. *)

From Stdlib Require Import Strings.Byte.
From Stdlib Require Import Floats.SpecFloat.
From S2P Require Import Common.
From S2P Require Import Prelude.
From S2P Require Import VFS.
From S2P Require Import LRU.
From S2P Require Import Page.
From S2P Require Import BufferPool.
From S2P Require Import WAL.
From S2P Require Import DBPage.
From S2P Require Import DB.
From S2P Require Import DBSpec.
From S2P Require Import Query.
From S2P Require Import UQLParser.
From S2P Require Import RangeCursor.
From S2P Require Import Scorer.
From S2P Require Import Utf8.
From S2P Require Import Kernel.
Import Kernel.

Create HintDb kernel.

(** ** Calls that leave the cluster alone *)

Section Frame.
Context {D P : Type} `{BlockDevice D} `{EvictionPolicy P} `{MapRange} `{Unicode} `{SearchJSON}.
Implicit Types ie : IntegratedEngine D P.

(** The same ring, node map, routing table and audit messages. *)
Definition same_cluster ie ie' : Prop :=
  ring ie' = ring ie /\ nodeMap ie' = nodeMap ie /\ routingTable ie' = routingTable ie /\ audit ie' = audit ie.

#[export] Instance same_cluster_preorder : PreOrder same_cluster.
Proof. split; [done|]. intros x y z (? & ? & ? & ?) (? & ? & ? & ?). repeat split; congruence. Qed.

Definition keeps {A} (m : io (IntegratedEngine D P) A) : Prop := forall ie, same_cluster ie (m ie).2.

Lemma keeps_ret {A} (a : A) : keeps (mret a).
Proof. by intros ie. Qed.

Lemma keeps_of_result {A} (r : result A) : keeps (of_result r).
Proof. by intros ie. Qed.

Lemma keeps_bind {A B} (m : io (IntegratedEngine D P) A) (f : A -> io (IntegratedEngine D P) B) :
  keeps m -> (forall a, keeps (f a)) -> keeps (x ← m; f x).
Proof.
  intros Hm Hf ie. unfold mbind, io_bind. specialize (Hm ie). destruct (m ie) as [[a|e| |] ie']; try done.
  by transitivity ie'; [|apply Hf].
Qed.

Lemma keeps_try {A} (m : io (IntegratedEngine D P) A) : keeps m -> keeps (try m).
Proof. intros Hm ie. unfold try. specialize (Hm ie). by destruct (m ie) as [[| | |] ie']. Qed.

Lemma keeps_with_kDB {A} (f : DB D P -> result A * DB D P) : keeps (with_kDB f).
Proof. intros ie. unfold with_kDB. by destruct (f (kDB ie)). Qed.

#[local] Hint Resolve keeps_ret keeps_of_result keeps_bind keeps_try keeps_with_kDB : kernel.

Lemma keeps_ignore {A} (m : io (IntegratedEngine D P) A) : keeps m -> keeps (ignore m).
Proof. intros. unfold ignore. auto with kernel. Qed.

Lemma keeps_in_txn {A} (body : Z -> io (IntegratedEngine D P) A) : (forall t, keeps (body t)) -> keeps (in_txn body).
Proof. intros. unfold in_txn, begin_work, end_work. auto 8 with kernel. Qed.

Lemma keeps_write_row pg txn k v c : keeps (write_row pg txn k v c).
Proof. apply keeps_with_kDB. Qed.

#[local] Hint Resolve keeps_ignore keeps_in_txn keeps_write_row : kernel.

Lemma keeps_restore r : keeps (restore_state r).
Proof. intros ie. unfold restore_state. destruct r as [|[|b bs]]; try done. by destruct (Unmarshal_state _). Qed.

Lemma keeps_add_posting txn docID term n t : keeps (add_posting txn docID term n t).
Proof.
  apply keeps_bind.
  - unfold chunk_count. apply keeps_bind; [auto with kernel|]. intros r. apply keeps_bind; [auto with kernel|]. intros n'.
    destruct (n' =? 0); auto with kernel.
  - intros n'. apply keeps_bind; [auto with kernel|]. intros r. cbn zeta. destruct (_ <=? _); auto with kernel.
Qed.

Lemma keeps_add_postings txn docID terms ts : keeps (add_postings txn docID terms ts).
Proof.
  revert ts. induction terms as [|[term n] terms IH]; intros ts; cbn [add_postings]; [apply keeps_ret|].
  apply keeps_bind; [apply keeps_add_posting|]. intros _. apply IH.
Qed.

Lemma keeps_count_document txn tokens c : keeps (count_document txn tokens c).
Proof.
  intros ie. unfold count_document.
  match goal with |- context [ignore ?m ?x] => pose proof (keeps_ignore m (keeps_write_row _ _ _ _ _) x) as E end.
  destruct E as (E1 & E2 & E3 & E4). by repeat split.
Qed.

Lemma keeps_InsertDocument pg docID text cDoc ts cState : keeps (InsertDocument pg docID text cDoc ts cState).
Proof.
  apply keeps_in_txn. intros txn. apply keeps_bind; [apply keeps_write_row|]. intros _.
  apply keeps_bind; [apply keeps_add_postings|]. intros _. apply keeps_count_document.
Qed.

Lemma keeps_cursor_loop fuel now rc acc : keeps (cursor_loop fuel now rc acc).
Proof.
  revert now rc acc. induction fuel as [|fuel IH]; intros now rc acc ie; [done|]. cbn [cursor_loop].
  destruct (Range.Next _ _ _) as [[r rc'] db']. destruct r as [[[k [|b v]]|]|e| |]; try done.
  destruct (Unmarshal_chunk _) as [ok ch]. transitivity (set_kDB db' ie); [done|apply IH].
Qed.

Lemma keeps_evaluateAST fuel now q txn : keeps (evaluateAST fuel now q txn).
Proof.
  revert now. induction q as [t|l IHl r IHr|l IHl r IHr|l IHl r IHr]; intros now; cbn [evaluateAST].
  - apply keeps_bind; [apply keeps_cursor_loop|auto with kernel].
  - apply keeps_bind; [apply IHl|]. intros. apply keeps_bind; [apply IHr|auto with kernel].
  - apply keeps_bind; [apply IHl|]. intros. apply keeps_bind; [apply IHr|auto with kernel].
  - apply keeps_ret.
Qed.

Lemma keeps_score_loop Log fuel now txn avg total valid tokens scores :
  keeps (score_loop Log fuel now txn avg total valid tokens scores).
Proof.
  revert now scores. induction tokens as [|token tokens IH]; intros now scores; cbn [score_loop]; [apply keeps_ret|].
  apply keeps_bind; [apply keeps_cursor_loop|]. intros chunks. apply IH.
Qed.

Lemma keeps_LocalSearch Log sort fuel q limit nowAST nowScore : keeps (LocalSearch Log sort fuel q limit nowAST nowScore).
Proof.
  apply keeps_bind; [apply keeps_of_result|]. intros ast. apply keeps_in_txn. intros txn.
  apply keeps_bind; [apply keeps_evaluateAST|]. intros valid. destruct (bool_decide _); [apply keeps_ret|].
  intros ie. refine (keeps_bind _ _ _ _ ie); [apply keeps_score_loop|auto with kernel].
Qed.
End Frame.

(** ** The access gate *)

Section Gate.
Context {D P : Type} `{BlockDevice D} `{EvictionPolicy P} `{MapRange} `{Unicode} `{SearchJSON}.
Variables (Log : spec_float -> spec_float) (sort_scores : list SearchResult -> list SearchResult) (fuel : nat).
Implicit Types ie : IntegratedEngine D P.

(** No interceptor, or one that grants the access. *)
Definition allowed (interceptor : option AuditInterceptor) (subject : bytes) : bool :=
  match interceptor with Some i => VerifyAccess i subject (str "SEARCH") (str "audit_logs") | None => true end.

Definition denial (subject : bytes) : bytes * bytes * bytes :=
  (subject, str "SEARCH_DENIED", str "ABAC validation failure on distributed search request").

(** The local hits with those of the peers that answered readably. *)
Definition gathered (transport : option NetworkTransport) (q : ClusterQuery) (local : list SearchResult) : list SearchResult :=
  match transport with
  | None => local
  | Some t => cut (QueryLimit q) (sort_scores (local ++ default [] (peer_hits <$> BroadcastQuery t (Marshal_query q))))
  end.

Lemma ScatterGather_denied transport interceptor subject q limit nowID nowAST nowScore ie :
  allowed interceptor subject = false ->
  ScatterGather Log sort_scores fuel transport interceptor subject q limit nowID nowAST nowScore ie =
  (Err ErrDenied, mkKernel (kDB ie) (TotalDocs ie) (AvgDocLen ie) (ring ie) (nodeMap ie) (routingTable ie)
    (audit ie ++ [denial subject])).
Proof. unfold allowed, ScatterGather. by intros ->. Qed.

Lemma ScatterGather_allowed transport interceptor subject q limit nowID nowAST nowScore ie :
  allowed interceptor subject = true ->
  ScatterGather Log sort_scores fuel transport interceptor subject q limit nowID nowAST nowScore ie =
  let '(r, ie') := LocalSearch Log sort_scores fuel q limit nowAST nowScore ie in
  (hits ← r; Ok (gathered transport (mkClusterQuery (str "q_" ++ Sprintf_d nowID) q limit) hits), ie').
Proof.
  unfold allowed, ScatterGather. intros ->. cbn [negb]. unfold mbind, io_bind.
  destruct (LocalSearch _ _ _ _ _ _ _ _) as [[hits|e| |] ie']; try done.
  destruct transport as [t|]; [|done]. cbn. destruct (BroadcastQuery t _); [done|]. cbn. by rewrite app_nil_r.
Qed.

Lemma cut_length limit (hits : list SearchResult) : 0 < limit -> zlen (cut limit hits) <= limit.
Proof.
  intros Hl. unfold cut, zlen. destruct (0 <? limit) eqn:E1; cbn [andb]; [|apply Z.ltb_ge in E1; lia].
  destruct (limit <? _) eqn:E2; [rewrite length_take; lia|]. apply Z.ltb_ge in E2. lia.
Qed.

Lemma cut_in limit (hits : list SearchResult) h : h ∈ cut limit hits -> h ∈ hits.
Proof. unfold cut. destruct (_ && _); [apply (subseteq_take _ hits)|done]. Qed.

(** C15: The access gate of the distributed search.  A request the interceptor
    refuses ends in the denial error before any page is read: the database, the
    statistics and the ring are as they were, and exactly one denial is added to
    the audit messages.  A request that is granted (or met by no interceptor)
    adds no audit message; it does to the engine what the local search does, and
    fails as it fails; without a transport its hits are the local ones, with one
    each hit is a local hit or one of a readable peer answer, and a positive
    limit bounds their number. *)
Theorem scatter_gather_gate transport interceptor subject q limit nowID nowAST nowScore ie :
  (forall l, sort_scores l ≡ₚ l) ->
  let '(r, ie') := ScatterGather Log sort_scores fuel transport interceptor subject q limit nowID nowAST nowScore ie in
  if allowed interceptor subject
  then
    audit ie' = audit ie /\ ie' = (LocalSearch Log sort_scores fuel q limit nowAST nowScore ie).2 /\
    match (LocalSearch Log sort_scores fuel q limit nowAST nowScore ie).1, transport with
    | Ok local, None => r = Ok local
    | Ok local, Some t => exists hits, r = Ok hits /\ (0 < limit -> zlen hits <= limit) /\
        forall h, h ∈ hits -> h ∈ local \/
          exists payload answers a l, BroadcastQuery t payload = Some answers /\ a ∈ answers /\ Unmarshal_hits a = Some l /\ h ∈ l
    | Err e, _ => r = Err e
    | Panic, _ => r = Panic
    | Hang, _ => r = Hang
    end
  else
    r = Err ErrDenied /\ kDB ie' = kDB ie /\ TotalDocs ie' = TotalDocs ie /\ AvgDocLen ie' = AvgDocLen ie /\
    ring ie' = ring ie /\ nodeMap ie' = nodeMap ie /\ routingTable ie' = routingTable ie /\ audit ie' = audit ie ++ [denial subject].
Proof.
  intros Hsort. destruct (allowed interceptor subject) eqn:Ea; [|by rewrite ScatterGather_denied].
  rewrite ScatterGather_allowed by done.
  pose proof (keeps_LocalSearch Log sort_scores fuel q limit nowAST nowScore ie) as (_ & _ & _ & Eaudit).
  destruct (LocalSearch _ _ _ _ _ _ _ _) as [[local|e| |] ie'] eqn:El; try done.
  split; [done|]. split; [done|]. cbn. destruct transport as [t|]; [|done].
  eexists. split; [done|]. cbn [gathered QueryLimit]. split; [apply cut_length|]. intros h Hin%cut_in. rewrite Hsort in Hin.
  apply elem_of_app in Hin as [Hin|Hin]; [by left|]. right. destruct (BroadcastQuery t _) as [answers|] eqn:Eb; [|by apply elem_of_nil in Hin].
  cbn in Hin. apply list_elem_of_bind in Hin as (a & Hin & Ha). destruct (Unmarshal_hits a) as [l|] eqn:Eu; [|by apply elem_of_nil in Hin].
  by exists (Marshal_query (mkClusterQuery (str "q_" ++ Sprintf_d nowID) q limit)), answers, a, l.
Qed.
End Gate.

(** ** The ring *)

Section Ring.
Context {D P : Type} `{BlockDevice D} `{EvictionPolicy P} `{MapRange} `{Unicode} `{SearchJSON}.
Variable sha256 : bytes -> bytes.
Implicit Types ie : IntegratedEngine D P.

Definition points (nodeID : bytes) : list Z := ring_point sha256 nodeID <$> seq 0 DefaultVirtualNodes.

(** The engines a program can reach, with the nodes it has added so far. *)
Inductive reachable : list bytes -> IntegratedEngine D P -> Prop :=
| reach_new db now : reachable [] (NewIntegratedEngine db now).2
| reach_add added nodeID address ie :
    reachable added ie -> reachable (added ++ [nodeID]) (AddClusterNode sha256 nodeID address ie)
| reach_insert added pg docID text cDoc ts cState ie :
    reachable added ie -> reachable added (InsertDocument pg docID text cDoc ts cState ie).2
| reach_search added Log sort fuel q limit nowAST nowScore ie :
    reachable added ie -> reachable added (LocalSearch Log sort fuel q limit nowAST nowScore ie).2
| reach_scatter added Log sort fuel transport interceptor subject q limit nowID nowAST nowScore ie :
    reachable added ie ->
    reachable added (ScatterGather Log sort fuel transport interceptor subject q limit nowID nowAST nowScore ie).2.

(** The ring after adding these nodes in this order. *)
Record ring_of (added : list bytes) (rg : list Z) (nm : gmap Z bytes) (rt : gmap bytes RoutingEntry) : Prop := {
  ring_sorted : Sorted Z.le rg;
  ring_points : rg ≡ₚ added ≫= points;
  ring_owner : forall h, nm !! h = last (filter (fun n => h ∈ points n) added);
  ring_routes : forall n, match rt !! n with
                          | Some e => n ∈ added /\ rID e = n /\ rHealthy e = true
                          | None => n ∉ added
                          end
}.

Lemma owner_insert (l : list Z) (n : bytes) (m : gmap Z bytes) h :
  fold_left (fun m hk => <[hk := n]> m) l m !! h = if decide (h ∈ l) then Some n else m !! h.
Proof.
  revert m. induction l as [|x l IH]; intros m; cbn [fold_left]; [by rewrite decide_False by set_solver|].
  rewrite IH. destruct (decide (h ∈ l)) as [Hl|Hl]; [by rewrite decide_True by (by right)|].
  destruct (decide (h = x)) as [->|Hx]; [by rewrite lookup_insert_eq, decide_True by left|].
  by rewrite lookup_insert_ne, decide_False by set_solver.
Qed.

Lemma ring_of_add added rg nm rt n a :
  ring_of added rg nm rt ->
  ring_of (added ++ [n]) (merge_sort Z.le (rg ++ points n)) (fold_left (fun m hk => <[hk := n]> m) (points n) nm)
    (<[n := mkRoute n a true]> rt).
Proof.
  intros [Hso Hpe How Hro]. split.
  - apply Sorted_merge_sort. intros x y. lia.
  - rewrite merge_sort_Permutation, bind_app, Hpe. change ([n] ≫= points) with (points n ++ []). by rewrite app_nil_r.
  - intros h. rewrite owner_insert, How, filter_app, filter_cons, filter_nil. destruct (decide (h ∈ points n)); [by rewrite last_snoc|].
    by rewrite app_nil_r.
  - intros n'. destruct (decide (n = n')) as [<-|Hne].
    + rewrite lookup_insert_eq. split; [set_solver|done].
    + rewrite lookup_insert_ne by done. specialize (Hro n'). destruct (rt !! n'); set_solver.
Qed.

Lemma ScatterGather_ring Log sort fuel transport interceptor subject q limit nowID nowAST nowScore ie :
  let ie' := (ScatterGather Log sort fuel transport interceptor subject q limit nowID nowAST nowScore ie).2 in
  ring ie' = ring ie /\ nodeMap ie' = nodeMap ie /\ routingTable ie' = routingTable ie.
Proof.
  intros ie'. subst ie'. destruct (negb (allowed interceptor subject)) eqn:Ea.
  - rewrite ScatterGather_denied by by apply negb_true_iff. done.
  - rewrite ScatterGather_allowed by by apply negb_false_iff.
    destruct (keeps_LocalSearch Log sort fuel q limit nowAST nowScore ie) as (E1 & E2 & E3 & _).
    by destruct (LocalSearch _ _ _ _ _ _ _ _) as [[hits|e| |] ie'].
Qed.

Lemma same_cluster_ring added ie ie' :
  same_cluster ie ie' -> ring_of added (ring ie) (nodeMap ie) (routingTable ie) ->
  ring_of added (ring ie') (nodeMap ie') (routingTable ie').
Proof. by intros (-> & -> & -> & _). Qed.

(** C38: The consistent-hash ring, over any history of calls.  Whatever documents
    were inserted and searches run in between, the ring is sorted and holds, as
    a multiset, the 64 points of every node added (a node added twice has its
    points twice); the node map sends a point to the node added last among those
    that have it, and to none when no node has it; the routing table has exactly
    the nodes added, each under its own name and healthy. *)
Theorem cluster_ring_invariant added ie :
  reachable added ie -> ring_of added (ring ie) (nodeMap ie) (routingTable ie).
Proof.
  induction 1.
  - refine (same_cluster_ring _ (mkKernel db 0 (float64 0) [] ∅ ∅ []) _ (keeps_bind _ _ _ _ _) _).
    + apply keeps_in_txn. intros. apply keeps_try, keeps_with_kDB.
    + apply keeps_restore.
    + split; cbn [ring nodeMap routingTable]; [apply Sorted_nil|done|intros h; apply lookup_empty|].
      intros n. rewrite lookup_empty. apply not_elem_of_nil.
  - by apply ring_of_add.
  - eapply same_cluster_ring; [apply keeps_InsertDocument|done].
  - eapply same_cluster_ring; [apply keeps_LocalSearch|done].
  - match goal with |- context [ScatterGather ?a ?b ?c ?d ?e ?f ?g ?h ?i ?j ?k ?l] =>
      destruct (ScatterGather_ring a b c d e f g h i j k l) as (-> & -> & ->) end. done.
Qed.
End Ring.
