(* ===== verification/KernelSearch.v ===== *)
(** Boolean search over the index page: what the cursor finds for a term, the
    set a query evaluates to, and the hits of a local search. *)

From Stdlib Require Import Strings.Byte.
From Stdlib Require Import Floats.SpecFloat.
From S2P Require Import Common.
From S2P Require Import Prelude.
From S2P Require Import VFS.
From S2P Require Import LRU.
From S2P Require Import Page.
From S2P Require Import Slotted.
From S2P Require Import BufferPool.
From S2P Require Import PoolInv.
From S2P Require Import PoolOps.
From S2P Require Import WAL.
From S2P Require Import DBPage.
From S2P Require Import DB.
From S2P Require Import DBSpec.
From S2P Require Import Segment.
From S2P Require Import Query.
From S2P Require Import UQLLexer.
From S2P Require Import UQLParser.
From S2P Require Import UQLParserSpec.
From S2P Require Import RangeCursor.
From S2P Require Import Scorer.
From S2P Require Import Utf8.
From S2P Require Import Kernel.
Import Kernel.

(** ** Keys of the index page *)

#[local] Arguments chunkKey : simpl never.
#[local] Arguments Range.not_after : simpl never.
#[local] Arguments Range.beyond : simpl never.

Definition colon_free (t : bytes) : Prop := Byte.x3a ∉ t.

(** The rows of an index page: counters and chunks of terms. *)
Definition index_key (k : bytes) : Prop :=
  exists term, colon_free term /\ (k = metaKey term \/ exists n, 0 <= n < 2 ^ 32 /\ k = chunkKey term n).

Lemma print_digits_zero fuel n x : 0 <= n < 10 ^ Z.of_nat fuel -> print_digits fuel n [] = Byte.x30 :: x -> n = 0.
Proof.
  revert n x. induction fuel as [|fuel IH]; intros n x Hn E; [done|]. cbn [print_digits] in E.
  rewrite Nat2Z.inj_succ, Z.pow_succ_r in Hn by lia. destruct (n <? 10) eqn:El.
  - apply Z.ltb_lt in El. injection E as E _. rewrite Z.mod_small in E by lia.
    assert (b2z (z2b (48 + n)) = 48) as Ev by by rewrite E. rewrite b2z_z2b, Z.mod_small in Ev by lia. lia.
  - apply Z.ltb_ge in El. rewrite print_digits_acc in E. assert (0 < n / 10) by (apply Z.div_str_pos; lia).
    assert (0 <= n / 10 < 10 ^ Z.of_nat fuel) as Hq by (split; [lia|apply Z.div_lt_upper_bound; lia]).
    destruct (print_digits fuel (n / 10) []) as [|b y] eqn:Ep.
    + destruct fuel; [cbn in Hq; lia|]. destruct (print_digits_ok (S fuel) (n / 10)) as (_ & _ & Hne); [lia|lia|done].
    + injection E as -> _. apply (IH _ _ Hq) in Ep. lia.
Qed.

Lemma colon_split (a b x y : bytes) : colon_free a -> colon_free b -> a ++ Byte.x3a :: x = b ++ Byte.x3a :: y -> a = b /\ x = y.
Proof.
  revert b. induction a as [|c a IH]; intros [|d b] Ha Hb E; cbn in E; simplify_eq.
  - done.
  - destruct Hb. by left.
  - destruct Ha. by left.
  - destruct (IH b) as [-> ->]; [unfold colon_free in *; set_solver..|done|done].
Qed.

(** Only chunk 0 of a term has a key that starts with the start of its range. *)
Lemma index_key_prefix k term : index_key k -> colon_free term -> has_prefix k (startRange term) = true -> k = chunkKey term 0.
Proof.
  intros (t & Ht & Hk) Hterm [x E]%has_prefix_spec. unfold startRange in E.
  destruct Hk as [->|(n & Hn & ->)]; [discriminate|].
  unfold chunkKey in *. rewrite <- !app_assoc in E. apply app_inv_head in E.
  destruct (colon_split t term (str "chunk:" ++ Sprintf_d n) (str "chunk:0" ++ x) Ht Hterm) as [<- E2]; [exact E|].
  change (str "chunk:0" ++ x) with (str "chunk:" ++ Byte.x30 :: x) in E2. apply app_inv_head in E2.
  unfold Sprintf_d in E2. apply print_digits_zero in E2; [by subst n|]. assert (2 ^ 32 < 10 ^ Z.of_nat 20) by done. lia.
Qed.

Lemma startRange_chunk term : startRange term = chunkKey term 0.
Proof. reflexivity. Qed.

Lemma compare_prefix (p a b : bytes) : bytes_compare (p ++ a) (p ++ b) = bytes_compare a b.
Proof. induction p as [|c p IH]; cbn; [done|]. by rewrite Z.compare_refl. Qed.

Lemma chunk_in_range term : Range.beyond (chunkKey term 0) (Some (endRange term)) = false.
Proof. unfold Range.beyond, chunkKey, endRange. rewrite !compare_prefix. reflexivity. Qed.

(** ** The cursor over the chunks of a term *)

Section Search.
Context {D : Type} `{DS : BlockDeviceSpec D} `{RD : !ReliableDevice D} `{MR : MapRange} `{U : Unicode} `{J : SearchJSON}.
Implicit Types ie : IntegratedEngine D LRUEvictionPolicy.
Implicit Types ps : gmap PageID (list record).
Implicit Types rc : Range.RangeCursor.

(** A scan from the start of a term's range visits at most its first chunk. *)
Lemma scanned_term now active rc rs term :
  Forall (fun r => index_key (key r)) rs -> colon_free term -> Range.startKey rc = chunkKey term 0 ->
  exists ts, range_scanned now active rc rs =
    match read_spec now active (Range.txnID rc) (chunkKey term 0) rs with Some v => [(chunkKey term 0, (ts, v))] | None => [] end.
Proof.
  intros Hidx Hterm Es. unfold range_scanned. set (m := fold_records _ _ _ _).
  assert (forall k ts v, m !! k = Some (ts, v) -> k = chunkKey term 0) as Hk.
  { intros k ts v Hm%elem_of_range. apply (scanned_read now active rc rs k v ts) in Hm as [Hp Hr].
    apply read_spec_key in Hr as (r & Hr & <-). rewrite Es in Hp. rewrite Forall_forall in Hidx. apply index_key_prefix; auto. }
  pose proof (scan_map_spec now active (Range.txnID rc) (Range.startKey rc) rs (chunkKey term 0)) as Hm. fold m in Hm.
  rewrite Es in Hm. replace (has_prefix (chunkKey term 0) (chunkKey term 0)) with true in Hm
    by (symmetry; apply has_prefix_spec; exists []; by rewrite app_nil_r).
  destruct (m !! chunkKey term 0) as [[ts v]|] eqn:E; cbn in Hm; rewrite <- Hm.
  - exists ts. apply Permutation_singleton_r. rewrite range_perm. replace m with ({[chunkKey term 0 := (ts, v)]} : gmap bytes (Z * Z * bytes)).
    + by rewrite map_to_list_singleton.
    + apply map_eq. intros k. destruct (decide (chunkKey term 0 = k)) as [<-|Hne]; [by rewrite lookup_singleton_eq|].
      rewrite lookup_singleton_ne by done. destruct (m !! k) as [[ts' v']|] eqn:Ek; [|done]. by apply Hk in Ek.
  - exists (0, 0). apply Permutation_nil_r. rewrite range_perm. replace m with (∅ : gmap bytes (Z * Z * bytes)); [by rewrite map_to_list_empty|].
    apply map_eq. intros k. rewrite lookup_empty. destruct (m !! k) as [[ts' v']|] eqn:Ek; [|done].
    apply Hk in Ek as Ek'. by subst k; rewrite E in Ek.
Qed.

(** The chunks read from the row of chunk 0. *)
Definition chunks_of (row : option bytes) : list PostingsChunk :=
  match row with
  | Some ((_ :: _) as v) => if (Unmarshal_chunk v).1 then [(Unmarshal_chunk v).2] else []
  | _ => []
  end.

Lemma set_kDB_twice db1 db2 ie : set_kDB db2 (set_kDB db1 ie) = set_kDB db2 ie.
Proof. reflexivity. Qed.

(** Two calls of the cursor suffice. *)
Lemma term_chunks_run f now ps rs txn term ie :
  db_rep ps (kDB ie) -> ps !! IndexPageID = Some rs -> Forall (fun r => index_key (key r)) rs -> colon_free term ->
  exists db', term_chunks (S (S f)) now txn term ie =
    (Ok (chunks_of (read_spec (now 0%nat) (activeTxns (kDB ie)) txn (chunkKey term 0) rs)), set_kDB db' ie) /\
    same_txns (kDB ie) db' /\ db_rep ps db'.
Proof.
  intros Hrep Hrs Hidx Hterm. unfold term_chunks. cbn [cursor_loop].
  set (rc := Range.NewRangeCursor _ _ _ _). assert (Range.startKey rc = chunkKey term 0) as Es by reflexivity.
  destruct (Range_Next_exact ps (kDB ie) rs (now 0%nat) rc Hrep Hrs eq_refl) as (db1 & -> & Hs1 & Hrep1).
  destruct (scanned_term (now 0%nat) (activeTxns (kDB ie)) rc rs term Hidx Hterm Es) as [ts ->]. change (Range.txnID rc) with txn.
  destruct (read_spec _ _ _ _ rs) as [v|] eqn:Er; [|by exists db1]. cbn [first_past].
  change (Range.not_after _ (Range.currentKey rc)) with false. cbn iota. change (Range.endKey rc) with (Some (endRange term)).
  rewrite chunk_in_range. cbn iota. change (chunkKey term 0) with (Byte.x74 :: tail (chunkKey term 0)). cbn [advance fst snd].
  destruct v as [|b v]; [by exists db1|]. cbn [chunks_of]. destruct (Unmarshal_chunk (b :: v)) as [ok ch]. cbn [fst snd].
  change (Byte.x74 :: tail (chunkKey term 0)) with (chunkKey term 0). change (Range.pageID rc) with IndexPageID.
  set (rc2 := Range.mkRange _ _ _ _ _ _). cbn [kDB set_kDB].
  destruct (Range_Next_exact ps db1 rs (now 1%nat) rc2 Hrep1 Hrs eq_refl) as (db2 & -> & Hs2 & Hrep2).
  destruct (scanned_term (now 1%nat) (activeTxns db1) rc2 rs term Hidx Hterm eq_refl) as [ts2 ->].
  assert (same_txns (kDB ie) db2) as Hs by (destruct Hs1, Hs2; split; congruence).
  exists db2. rewrite set_kDB_twice. split; [|done].
  destruct (read_spec (now 1%nat) _ _ _ rs) as [v2|]; [|by destruct ok].
  cbn [first_past]. change (Range.currentKey rc2) with (Some (chunkKey term 0)). rewrite not_after_self. by destruct ok.
Qed.

(** ** Pages at rest *)

(** The newest row of a key. *)
Definition newest (k : bytes) (rs : list record) : option bytes := val <$> last (filter (fun r => key r = k) rs).

Lemma newest_snoc k rs r : newest k (rs ++ [r]) = if decide (key r = k) then Some (val r) else newest k rs.
Proof.
  unfold newest. rewrite filter_app, filter_cons, filter_nil. destruct (decide (key r = k)); [by rewrite last_snoc|by rewrite app_nil_r].
Qed.

(** A transaction alone in the database reads the newest rows, when none has expired. *)
Lemma read_newest now t k rs : Forall (fun r => live now r = true) rs -> read_spec now {[t]} t k rs = newest k rs.
Proof.
  intros Hl. unfold read_spec, newest. rewrite (list_filter_iff _ (fun r => key r = k)).
  - destruct (last _) as [r|] eqn:El; [|done]. apply last_Some_elem_of in El. apply list_elem_of_filter in El as [_ Hin].
    rewrite Forall_forall in Hl. cbn. by rewrite Hl.
  - intros r. unfold visible. split; [tauto|]. intros Hk. split; [done|].
    destruct (decide (txnID r = t)) as [->|Hne]; [by rewrite Z.eqb_refl, orb_true_r|]. by rewrite bool_decide_eq_false_2 by set_solver.
Qed.

(** What a transaction alone on the index page relies on. *)
Record index_at (ps : gmap PageID (list record)) (rs : list record) (txn : Z) (times : Z -> Prop) ie : Prop := {
  at_rep : db_rep ps (kDB ie);
  at_page : ps !! IndexPageID = Some rs;
  at_keys : Forall (fun r => index_key (key r)) rs;
  at_alone : activeTxns (kDB ie) = {[txn]};
  at_live : forall now, times now -> Forall (fun r => live now r = true) rs
}.

Lemma index_at_step ps rs txn times ie db' :
  index_at ps rs txn times ie -> same_txns (kDB ie) db' -> db_rep ps db' -> index_at ps rs txn times (set_kDB db' ie).
Proof. intros [] [Ha _] Hrep. split; try done. cbn. congruence. Qed.

(** The postings of a term that a search can see. *)
Definition visible_postings (rs : list record) (term : bytes) : list Posting :=
  chunks_of (newest (chunkKey term 0) rs) ≫= Postings.

Lemma term_chunks_at f now ps rs txn times term ie :
  index_at ps rs txn times ie -> times (now 0%nat) -> colon_free term ->
  exists db', term_chunks (S (S f)) now txn term ie = (Ok (chunks_of (newest (chunkKey term 0) rs)), set_kDB db' ie) /\
    index_at ps rs txn times (set_kDB db' ie) /\ nextTxnID db' = nextTxnID (kDB ie).
Proof.
  intros Hat Hnow Hterm. destruct (term_chunks_run f now ps rs txn term ie) as (db' & E & Hsame & Hrep); [by destruct Hat..|].
  rewrite (at_alone _ _ _ _ _ Hat), read_newest in E by by apply (at_live _ _ _ _ _ Hat).
  exists db'. split; [done|]. split; [by apply index_at_step|apply Hsame].
Qed.

(** ** Queries *)

(** The set a query evaluates to. *)
Fixpoint eval_spec (rs : list record) (q : Query) : gset bytes :=
  match q with
  | TermQuery t => list_to_set (DocID <$> visible_postings rs t)
  | AndQuery l r => eval_spec rs l ∩ eval_spec rs r
  | OrQuery l r => eval_spec rs l ∪ eval_spec rs r
  | NotQuery _ _ => ∅
  end.

Fixpoint terms_ok (q : Query) : Prop :=
  match q with
  | TermQuery t => colon_free t
  | AndQuery l r | OrQuery l r => terms_ok l /\ terms_ok r
  | NotQuery _ _ => True
  end.

Lemma fmap_bind {A B C} (f : B -> C) (g : A -> list B) (l : list A) : f <$> (l ≫= g) = l ≫= fun a => f <$> g a.
Proof. induction l as [|a l IH]; cbn; [done|]. by rewrite fmap_app, IH. Qed.

(** The call gives this set on a page at rest, at any of these times. *)
Definition gives ps (rs : list record) (txn : Z) (times : Z -> Prop)
    (m : (nat -> Z) -> io (IntegratedEngine D LRUEvictionPolicy) (gset bytes)) (s : gset bytes) : Prop :=
  forall (now : nat -> Z) ie, index_at ps rs txn times ie -> (forall i, times (now i)) ->
  exists db', m now ie = (Ok s, set_kDB db' ie) /\ index_at ps rs txn times (set_kDB db' ie) /\ nextTxnID db' = nextTxnID (kDB ie).

Lemma gives_pair ps (rs : list record) (txn : Z) (times : Z -> Prop)
    (m1 m2 : (nat -> Z) -> io (IntegratedEngine D LRUEvictionPolicy) (gset bytes)) (s1 s2 : gset bytes) (g : gset bytes -> gset bytes -> gset bytes) :
  gives ps rs txn times m1 s1 -> gives ps rs txn times m2 s2 ->
  gives ps rs txn times (fun now => l ← m1 (fun i => now (2 * i)%nat); r ← m2 (fun i => now (2 * i + 1)%nat); mret (g l r)) (g s1 s2).
Proof.
  intros H1 H2 now ie Hat Hnow. destruct (H1 (fun i => now (2 * i)%nat) ie Hat (fun i => Hnow _)) as (db1 & E1 & Hat1 & Hn1).
  destruct (H2 (fun i => now (2 * i + 1)%nat) _ Hat1 (fun i => Hnow _)) as (db2 & E2 & Hat2 & Hn2).
  exists db2. rewrite (bind_ok _ _ _ _ _ E1), (bind_ok _ _ _ _ _ E2). split; [done|]. split; [done|]. cbn in Hn2. congruence.
Qed.

Lemma evaluateAST_run f times ps rs txn q :
  terms_ok q -> gives ps rs txn times (fun now => evaluateAST (S (S f)) now q txn) (eval_spec rs q).
Proof.
  induction q as [t|l IHl r IHr|l IHl r IHr|l IHl r IHr]; intros Hq; cbn [evaluateAST eval_spec].
  - intros now ie Hat Hnow. destruct (term_chunks_at f now ps rs txn times t ie Hat (Hnow _) Hq) as (db' & E & Hat' & Hn).
    exists db'. rewrite (bind_ok _ _ _ _ _ E). unfold visible_postings. rewrite fmap_bind. done.
  - destruct Hq as [Hl Hr]. exact (gives_pair _ _ _ _ _ _ _ _ (∩) (IHl Hl) (IHr Hr)).
  - destruct Hq as [Hl Hr]. exact (gives_pair _ _ _ _ _ _ _ _ (∪) (IHl Hl) (IHr Hr)).
  - intros now ie Hat _. exists (kDB ie). by destruct ie.
Qed.

(** The scores of the tokens. *)
Definition score_spec (Log : spec_float -> spec_float) (rs : list record) (avg : spec_float) (total : Z) (valid : gset bytes)
    (tokens : list bytes) (scores : gmap bytes spec_float) : gmap bytes spec_float :=
  fold_left (fun scores token =>
    let matches := visible_postings rs token in
    if zlen matches =? 0 then scores else add_scores Log avg total (zlen matches) valid matches scores) tokens scores.

Lemma score_loop_run Log f times ps rs txn avg total valid tokens now scores ie :
  index_at ps rs txn times ie -> (forall i j, times (now i j)) -> Forall colon_free tokens ->
  exists db', score_loop Log (S (S f)) now txn avg total valid tokens scores ie =
    (Ok (score_spec Log rs avg total valid tokens scores), set_kDB db' ie) /\
    index_at ps rs txn times (set_kDB db' ie) /\ nextTxnID db' = nextTxnID (kDB ie).
Proof.
  revert now scores ie. induction tokens as [|token tokens IH]; intros now scores ie Hat Hnow Ht; cbn [score_loop].
  { exists (kDB ie). by destruct ie. }
  inversion_clear Ht as [|? ? Ht1 Ht2].
  destruct (term_chunks_at f (now 0%nat) ps rs txn times token ie Hat (Hnow _ _) Ht1) as (db1 & E1 & Hat1 & Hn1).
  rewrite (bind_ok _ _ _ _ _ E1). cbn zeta.
  destruct (IH (fun i => now (S i)) (let matches := visible_postings rs token in
    if zlen matches =? 0 then scores else add_scores Log avg total (zlen matches) valid matches scores) _ Hat1 (fun i j => Hnow _ _) Ht2)
    as (db2 & E2 & Hat2 & Hn2).
  exists db2. split; [exact E2|]. split; [done|]. cbn in Hn2. congruence.
Qed.

(** *** Local search *)

(** The documents that have a posting for one of the tokens. *)
Definition docs_of (rs : list record) (tokens : list bytes) : gset bytes :=
  list_to_set (tokens ≫= fun t => DocID <$> visible_postings rs t).

Lemma add_scores_dom Log avg total n valid matches scores :
  dom (add_scores Log avg total n valid matches scores) = dom scores ∪ (list_to_set (DocID <$> matches) ∩ valid).
Proof.
  unfold add_scores. revert scores. induction matches as [|p matches IH]; intros scores; cbn; [set_solver|]. rewrite IH.
  destruct (bool_decide (DocID p ∈ valid)) eqn:E.
  - apply bool_decide_eq_true in E. rewrite dom_insert_L. set_solver.
  - apply bool_decide_eq_false in E. set_solver.
Qed.

Lemma score_spec_dom Log rs avg total valid tokens scores :
  dom (score_spec Log rs avg total valid tokens scores) = dom scores ∪ (docs_of rs tokens ∩ valid).
Proof.
  unfold score_spec, docs_of. revert scores. induction tokens as [|t tokens IH]; intros scores; cbn [fold_left]; [cbn; set_solver|].
  rewrite IH. cbn zeta. change ((t :: tokens) ≫= _) with ((DocID <$> visible_postings rs t) ++ (tokens ≫= fun t => DocID <$> visible_postings rs t)).
  destruct (zlen (visible_postings rs t) =? 0) eqn:E.
  - apply Z.eqb_eq in E. destruct (visible_postings rs t); [cbn; set_solver|]. unfold zlen in E. cbn in E. lia.
  - rewrite add_scores_dom, list_to_set_app_L. set_solver.
Qed.

Lemma hits_of_docs (scores : gmap bytes spec_float) d : d ∈ hDocID <$> hits_of scores <-> d ∈ dom scores.
Proof.
  unfold hits_of. change (map ?f ?l) with (f <$> l). rewrite elem_of_dom, list_elem_of_fmap. setoid_rewrite list_elem_of_fmap. split.
  - intros (h & -> & [d' s] & -> & Hin). apply elem_of_range in Hin. by exists s.
  - intros [s Hs]. exists (mkHit d s). split; [done|]. exists (d, s). split; [done|]. by apply elem_of_range.
Qed.

Lemma hits_of_NoDup (scores : gmap bytes spec_float) : NoDup (hDocID <$> hits_of scores).
Proof.
  unfold hits_of. change (map ?f ?l) with (f <$> l). rewrite <- list_fmap_compose.
  rewrite (list_fmap_ext _ fst) by done. rewrite range_perm. apply NoDup_fst_map_to_list.
Qed.

(** The database is idle apart from the calls considered. *)
Record index_idle (ps : gmap PageID (list record)) (rs : list record) (times : Z -> Prop) ie : Prop := {
  idle_rep : db_rep ps (kDB ie);
  idle_page : ps !! IndexPageID = Some rs;
  idle_keys : Forall (fun r => index_key (key r)) rs;
  idle_alone : activeTxns (kDB ie) = ∅;
  idle_live : forall now, times now -> Forall (fun r => live now r = true) rs
}.

Lemma db_rep_begin ps (db : DB D LRUEvictionPolicy) : db_rep ps db -> db_rep ps (BeginTxn db).2.
Proof. by intros []. Qed.

Lemma db_rep_commit ps (db : DB D LRUEvictionPolicy) t : db_rep ps db -> db_rep ps (CommitTxn db t).
Proof. by intros []. Qed.

Lemma begin_alone ps rs times ie :
  index_idle ps rs times ie ->
  begin_work ie = (Ok (u64 (nextTxnID (kDB ie) + 1)), set_kDB (BeginTxn (kDB ie)).2 ie) /\
  index_at ps rs (u64 (nextTxnID (kDB ie) + 1)) times (set_kDB (BeginTxn (kDB ie)).2 ie).
Proof.
  intros [? ? ? Ha ?]. split; [done|]. split; [by apply db_rep_begin|done|done| |done]. cbn. by rewrite Ha, union_empty_r_L.
Qed.

Lemma commit_idle ps rs txn times ie db' :
  index_at ps rs txn times (set_kDB db' ie) -> index_idle ps rs times (set_kDB (CommitTxn db' txn) ie).
Proof. intros [? ? ? Ha ?]. split; [by apply db_rep_commit|done|done| |done]. cbn in *. rewrite Ha. by rewrite difference_diag_L. Qed.

Lemma in_txn_ok {A} (body : Z -> io (IntegratedEngine D LRUEvictionPolicy) A) ps rs times ie a ie1 ie2 :
  index_idle ps rs times ie -> ie1 = set_kDB (BeginTxn (kDB ie)).2 ie ->
  body (u64 (nextTxnID (kDB ie) + 1)) ie1 = (Ok a, ie2) ->
  in_txn body ie = (Ok a, set_kDB (CommitTxn (kDB ie2) (u64 (nextTxnID (kDB ie) + 1))) ie2).
Proof.
  intros Hidle -> E. destruct (begin_alone ps rs times ie Hidle) as [Eb _]. unfold in_txn. rewrite (bind_ok _ _ _ _ _ Eb).
  unfold mbind, io_bind, try at 1. by rewrite E.
Qed.

(** The hits of a search, before and after the cut. *)
Definition all_hits (Log : spec_float -> spec_float) (rs : list record) (ast : Query) (text : bytes) ie : list SearchResult :=
  hits_of (score_spec Log rs (AvgDocLen ie) (TotalDocs ie) (eval_spec rs ast) (Tokenize text) ∅).

Definition hits_spec (Log : spec_float -> spec_float) (sort_scores : list SearchResult -> list SearchResult) (rs : list record)
    (ast : Query) (text : bytes) (limit : Z) ie : list SearchResult :=
  if bool_decide (eval_spec rs ast = ∅) then [] else cut limit (sort_scores (all_hits Log rs ast text ie)).

Lemma LocalSearch_run Log sort_scores f ps rs times text ast limit nowAST nowScore ie :
  index_idle ps rs times ie -> ParseQuery text = Ok ast -> terms_ok ast -> Forall colon_free (Tokenize text) ->
  (forall i, times (nowAST i)) -> (forall i j, times (nowScore i j)) ->
  exists db', LocalSearch Log sort_scores (S (S f)) text limit nowAST nowScore ie =
    (Ok (hits_spec Log sort_scores rs ast text limit ie), set_kDB db' ie) /\ index_idle ps rs times (set_kDB db' ie).
Proof.
  intros Hidle Hp Hq Htok Hn1 Hn2. unfold LocalSearch. rewrite Hp.
  destruct (begin_alone ps rs times ie Hidle) as [_ Hat].
  set (txn := u64 (nextTxnID (kDB ie) + 1)) in *. set (ie1 := set_kDB (BeginTxn (kDB ie)).2 ie) in *.
  destruct (evaluateAST_run f times ps rs txn ast Hq nowAST ie1 Hat Hn1) as (db2 & E2 & Hat2 & _).
  unfold hits_spec. change (of_result (Ok ast) ≫= ?k) with (k ast : io (IntegratedEngine D LRUEvictionPolicy) _). cbn beta.
  destruct (bool_decide (eval_spec rs ast = ∅)) eqn:Ee.
  - rewrite (in_txn_ok _ ps rs times ie [] ie1 (set_kDB db2 ie1) Hidle eq_refl).
    + exists (CommitTxn db2 txn). split; [done|]. exact (commit_idle ps rs txn times ie1 db2 Hat2).
    + fold txn. rewrite (bind_ok _ _ _ _ _ E2), Ee. done.
  - destruct (score_loop_run Log f times ps rs txn (AvgDocLen ie) (TotalDocs ie) (eval_spec rs ast) (Tokenize text) nowScore ∅
      (set_kDB db2 ie1) Hat2 Hn2 Htok) as (db3 & E3 & Hat3 & _).
    rewrite (in_txn_ok _ ps rs times ie (cut limit (sort_scores (all_hits Log rs ast text ie))) ie1 (set_kDB db3 ie1) Hidle eq_refl).
    + exists (CommitTxn db3 txn). split; [done|]. exact (commit_idle ps rs txn times ie1 db3 Hat3).
    + fold txn. rewrite (bind_ok _ _ _ _ _ E2), Ee. cbv beta. cbn [set_kDB AvgDocLen TotalDocs]. rewrite (bind_ok _ _ _ _ _ E3). done.
Qed.

(** The documents found: those in the query's set with a posting for a token of the text. *)
Definition found (rs : list record) (ast : Query) (text : bytes) : gset bytes := eval_spec rs ast ∩ docs_of rs (Tokenize text).

Lemma all_hits_docs Log rs ast text ie :
  NoDup (hDocID <$> all_hits Log rs ast text ie) /\ (forall d, d ∈ hDocID <$> all_hits Log rs ast text ie <-> d ∈ found rs ast text).
Proof.
  split; [apply hits_of_NoDup|]. intros d. unfold all_hits, found. rewrite hits_of_docs, score_spec_dom, dom_empty_L. set_solver.
Qed.

Lemma cut_take limit (hits : list SearchResult) :
  cut limit hits = take (if 0 <? limit then Z.to_nat limit else length hits) hits.
Proof.
  unfold cut, zlen. destruct (0 <? limit) eqn:E; cbn [andb]; [|by rewrite take_ge].
  apply Z.ltb_lt in E. destruct (limit <? _) eqn:E2; [done|]. apply Z.ltb_ge in E2. by rewrite take_ge by lia.
Qed.

Lemma hits_spec_docs Log sort_scores rs ast text limit ie :
  (forall l, sort_scores l ≡ₚ l) ->
  exists ids, hDocID <$> hits_spec Log sort_scores rs ast text limit ie = take (if 0 <? limit then Z.to_nat limit else length ids) ids /\
    NoDup ids /\ forall d, d ∈ ids <-> d ∈ found rs ast text.
Proof.
  intros Hsort. destruct (all_hits_docs Log rs ast text ie) as [Hnd Hd]. unfold hits_spec. destruct (bool_decide _) eqn:E.
  - apply bool_decide_eq_true in E. exists []. rewrite take_nil. split; [done|]. split; [constructor|]. unfold found. set_solver.
  - exists (hDocID <$> sort_scores (all_hits Log rs ast text ie)). rewrite cut_take, length_fmap, fmap_take. split; [done|].
    split; [by rewrite Hsort|]. intros d. by rewrite Hsort.
Qed.

(** C14: A local search on an index page at rest returns, without a limit, each
    document of the query's set that has a posting for one of the query's tokens,
    once, and no other; a positive limit keeps that many of them, or all when
    there are fewer.  The query's set is the union and intersection of the sets of
    its terms, empty under NOT, where the set of a term is the documents in its
    first posting chunk: the cursor reaches no further chunk, and two calls of it
    end its loop.  The pages and the statistics stay as they were. *)
Theorem local_search_hits Log sort_scores f ps rs times text ast limit nowAST nowScore ie :
  (forall l, sort_scores l ≡ₚ l) ->
  index_idle ps rs times ie -> ParseQuery text = Ok ast -> terms_ok ast -> Forall colon_free (Tokenize text) ->
  (forall i, times (nowAST i)) -> (forall i j, times (nowScore i j)) ->
  exists hits db', LocalSearch Log sort_scores (S (S f)) text limit nowAST nowScore ie = (Ok hits, set_kDB db' ie) /\
    index_idle ps rs times (set_kDB db' ie) /\
    NoDup (hDocID <$> hits) /\ (forall d, d ∈ hDocID <$> hits -> d ∈ found rs ast text) /\
    length hits = Nat.min (if 0 <? limit then Z.to_nat limit else size (found rs ast text)) (size (found rs ast text)).
Proof.
  intros Hsort Hidle Hp Hq Htok Hn1 Hn2.
  destruct (LocalSearch_run Log sort_scores f ps rs times text ast limit nowAST nowScore ie Hidle Hp Hq Htok Hn1 Hn2) as (db' & E & Hidle').
  exists (hits_spec Log sort_scores rs ast text limit ie), db'. split; [done|]. split; [done|].
  destruct (hits_spec_docs Log sort_scores rs ast text limit ie Hsort) as (ids & Eids & Hnd & Hd).
  assert (length ids = size (found rs ast text)) as Hlen.
  { rewrite <- (size_list_to_set (C := gset bytes) ids) by done. f_equal. apply set_eq. intros d. by rewrite elem_of_list_to_set, Hd. }
  rewrite <- (length_fmap hDocID), Eids, length_take, Hlen. split; [exact (sublist_NoDup _ _ Hnd (sublist_take _ _))|]. split; [|done].
  intros d Hin%subseteq_take. by apply Hd.
Qed.
End Search.
