(* ===== verification/KernelInsert.v ===== *)
(** Document insertion: the rows it adds to the index page, and what a search
    sees of the document afterwards. *)

From Stdlib Require Import Strings.Byte.
From Stdlib Require Import Floats.SpecFloat.
From S2P Require Import Common.
From S2P Require Import Prelude.
From S2P Require Import VFS.
From S2P Require Import LRU.
From S2P Require Import Page.
From S2P Require Import Slotted.
From S2P Require Import BufferPool.
From S2P Require Import PoolInv.
From S2P Require Import PoolOps.
From S2P Require Import WAL.
From S2P Require Import DBPage.
From S2P Require Import DB.
From S2P Require Import DBSpec.
From S2P Require Import UQLParser.
From S2P Require Import UQLParserSpec.
From S2P Require Import Scorer.
From S2P Require Import Utf8.
From S2P Require Import Kernel.
From S2P Require Import KernelSearch.
Import Kernel.

(** ** Room for several records *)

Definition fits (rs new : list record) : Prop :=
  PageHeaderSize + 4 * (zlen rs + zlen new) + total rs + total new <= PageSize.

Lemma fits_cons rs r new : fits rs (r :: new) -> room rs r /\ fits (rs ++ [r]) new.
Proof.
  unfold fits, room, zlen. rewrite total_app, length_app. cbn [length total foldr].
  pose proof (total_nonneg new). unfold total in *. lia.
Qed.

Lemma fits_app rs a b : fits rs (a ++ b) -> fits rs a /\ fits (rs ++ a) b.
Proof.
  unfold fits, zlen. rewrite !total_app, !length_app. pose proof (total_nonneg b). lia.
Qed.

Lemma room_small rs r : room rs r -> zlen (key r) + zlen (val r) < 2 ^ 30.
Proof.
  unfold room, record_size. pose proof (total_nonneg rs). assert (PageSize < 2 ^ 30) by done.
  assert (0 < PageHeaderSize) by done. assert (0 < RecordHeaderSize) by done. unfold zlen in *. lia.
Qed.

(** ** Package json on chunks *)

Definition chunk_ok (c : PostingsChunk) : Prop :=
  0 <= ChunkID c < 2 ^ 32 /\
  Forall (fun p => valid_utf8 (DocID p) /\ exists n, 0 <= n < 2 ^ 53 /\ TF p = float64 n) (Postings c).

Class SearchJSONSpec `{SearchJSON} := {
  chunk_roundtrip c : chunk_ok c -> Unmarshal_chunk (Marshal_chunk c) = (true, c);
  chunk_nonempty c : chunk_ok c -> Marshal_chunk c <> []
}.

Section Insert.
Context {D : Type} `{DS : BlockDeviceSpec D} `{RD : !ReliableDevice D} `{MR : MapRange} `{U : Unicode} `{JS : SearchJSONSpec}.
Implicit Types ie : IntegratedEngine D LRUEvictionPolicy.
Implicit Types ps : gmap PageID (list record).

Definition stored (txn : Z) (c : clock) (k v : bytes) : record := mkRecord txn (write_expiry c (MixInt 0)) k v.

(** A row written on this clock has not expired at these times. *)
Definition lasting (times : Z -> Prop) (c : clock) : Prop :=
  forall now, times now -> (now <? i64 (write_expiry c (MixInt 0))) = true.

Lemma write_row_run pg rs txn k v c ps ie :
  db_rep ps (kDB ie) -> ps !! pg = Some rs -> 0 <= txn < 2 ^ 64 -> room rs (stored txn c k v) ->
  exists db', write_row pg txn k v c ie = (Ok tt, set_kDB db' ie) /\ same_txns (kDB ie) db' /\
    db_rep (<[pg := rs ++ [stored txn c k v]]> ps) db'.
Proof.
  intros Hrep Hrs Ht Hroom. apply room_small in Hroom as Hsmall.
  pose proof (Write_run ps (kDB ie) pg rs txn k v (MixInt 0) c Hrep Hrs Ht Hsmall) as Hw. cbn zeta in Hw.
  unfold write_spec in Hw. rewrite decide_True in Hw by exact Hroom. destruct Hw as (db' & E & Hs & Hrep').
  exists db'. unfold write_row, with_kDB. by rewrite E.
Qed.

Lemma index_write ps rs txn times k v c ie :
  index_at ps rs txn times ie -> 0 <= txn < 2 ^ 64 -> index_key k -> lasting times c -> room rs (stored txn c k v) ->
  exists db', write_row IndexPageID txn k v c ie = (Ok tt, set_kDB db' ie) /\
    index_at (<[IndexPageID := rs ++ [stored txn c k v]]> ps) (rs ++ [stored txn c k v]) txn times (set_kDB db' ie) /\
    nextTxnID db' = nextTxnID (kDB ie).
Proof.
  intros [Hrep Hpg Hk Ha Hl] Ht Hik Hlast Hroom.
  destruct (write_row_run IndexPageID rs txn k v c ps ie Hrep Hpg Ht Hroom) as (db' & E & [Hs1 Hs2] & Hrep'). exists db'.
  split; [done|]. split; [|done]. split; [done|apply lookup_insert_eq| |cbn; congruence|].
  - apply Forall_app. split; [done|]. by apply Forall_singleton.
  - intros now Hnow. apply Forall_app. split; [by apply Hl|]. apply Forall_singleton. exact (Hlast now Hnow).
Qed.

(** ** The rows of one posting *)

(** The chunk counter of a term, 1 when it has none. *)
Definition count_of (rs : list record) (term : bytes) : Z :=
  match newest (metaKey term) rs with Some ((_ :: _) as bs) => be_val (take 4 bs) | _ => 0 end.

Definition chunks (rs : list record) (term : bytes) : Z := if count_of rs term =? 0 then 1 else count_of rs term.

(** The chunk an insertion extends. *)
Definition last_chunk (rs : list record) (term : bytes) : Z := u32 (chunks rs term - 1).

Definition chunk_at (rs : list record) (term : bytes) (n : Z) : PostingsChunk :=
  match newest (chunkKey term n) rs with Some ((_ :: _) as bs) => (Unmarshal_chunk bs).2 | _ => mkChunk n [] end.

Definition first_rows (txn : Z) (rs : list record) (term : bytes) (t : term_clock) : list record :=
  if count_of rs term =? 0 then [stored txn (metaWrite t) (metaKey term) (be_bytes 4 1)] else [].

Definition posting_rows (txn : Z) (rs : list record) (docID term : bytes) (count : Z) (t : term_clock) : list record :=
  let ch := chunk_at rs term (last_chunk rs term) in
  let p := mkPosting docID (float64 count) in
  if PostingsChunkSize <=? zlen (Postings ch)
  then
    let n := u32 (chunks rs term + 1) in
    [stored txn (growWrite t) (metaKey term) (be_bytes 4 n);
     stored txn (chunkWrite t) (chunkKey term (u32 (n - 1))) (Marshal_chunk (mkChunk (u32 (n - 1)) [p]))]
  else [stored txn (chunkWrite t) (chunkKey term (last_chunk rs term)) (Marshal_chunk (mkChunk (ChunkID ch) (Postings ch ++ [p])))].

Definition term_rows (txn : Z) (rs : list record) (docID term : bytes) (count : Z) (t : term_clock) : list record :=
  first_rows txn rs term t ++ posting_rows txn rs docID term count t.

Fixpoint index_rows (txn : Z) (rs : list record) (docID : bytes) (terms : list (bytes * Z)) (ts : nat -> term_clock) : list record :=
  match terms with
  | [] => []
  | (term, count) :: terms =>
      let new := term_rows txn rs docID term count (ts 0%nat) in
      new ++ index_rows txn (rs ++ new) docID terms (fun i => ts (S i))
  end.

(** Counters have four bytes. *)
Definition metas_ok (rs : list record) : Prop := Forall (fun r => forall term, key r = metaKey term -> length (val r) = 4%nat) rs.

Definition term_clock_ok (times : Z -> Prop) (t : term_clock) : Prop :=
  times (metaRead t) /\ times (chunkRead t) /\ lasting times (metaWrite t) /\ lasting times (growWrite t) /\ lasting times (chunkWrite t).

Lemma newest_in k rs v : newest k rs = Some v -> exists r, r ∈ rs /\ key r = k /\ val r = v.
Proof.
  unfold newest. destruct (last _) as [r|] eqn:El; [|done]. intros [= <-]. apply last_Some_elem_of in El.
  apply list_elem_of_filter in El as [? ?]. by exists r.
Qed.

Lemma index_read ps rs txn times k now ie :
  index_at ps rs txn times ie -> times now ->
  exists db', with_kDB (fun db => DB.Read db IndexPageID txn k now) ie =
    (match newest k rs with Some v => Ok v | None => Err ErrKeyNotFound end, set_kDB db' ie) /\
    index_at ps rs txn times (set_kDB db' ie) /\ nextTxnID db' = nextTxnID (kDB ie).
Proof.
  intros Hat Hnow. pose proof Hat as [Hrep Hpg _ Ha Hl].
  destruct (Read_run ps (kDB ie) IndexPageID rs txn k now Hrep Hpg) as (db' & E & Hs & Hrep').
  rewrite Ha, read_newest in E by by apply Hl. exists db'. unfold with_kDB. rewrite E. split; [done|]. split; [by apply index_at_step|].
  apply Hs.
Qed.

Lemma meta_not_chunk t t' n : metaKey t <> chunkKey t' n.
Proof. discriminate. Qed.

Lemma try_read {S A} (m : io S A) (s s' : S) (o : option A) e :
  m s = (match o with Some v => Ok v | None => Err e end, s') ->
  try m s = (Ok (match o with Some v => inr v | None => inl e end), s').
Proof. unfold try. intros ->. by destruct o. Qed.

(** ** Calls that grow the index page *)

(** The call returns [a] and appends [new] to the index page. *)
Definition grows {A} ps (rs new : list record) (txn : Z) (times : Z -> Prop) (m : io (IntegratedEngine D LRUEvictionPolicy) A) (a : A) : Prop :=
  forall ie, index_at ps rs txn times ie ->
  exists db', m ie = (Ok a, set_kDB db' ie) /\
    index_at (<[IndexPageID := rs ++ new]> ps) (rs ++ new) txn times (set_kDB db' ie).

Lemma index_at_nil ps rs txn times ie :
  index_at ps rs txn times ie -> index_at (<[IndexPageID := rs ++ []]> ps) (rs ++ []) txn times ie.
Proof. intros Hat. rewrite app_nil_r, insert_id; [done|apply Hat]. Qed.

Lemma grows_ret {A} ps rs txn times (a : A) : grows ps rs [] txn times (mret a) a.
Proof. intros ie Hat. exists (kDB ie). split; [by destruct ie|]. destruct ie. by apply index_at_nil. Qed.

Lemma grows_bind {A B} ps rs new1 new2 txn times (m : io (IntegratedEngine D LRUEvictionPolicy) A)
    (f : A -> io (IntegratedEngine D LRUEvictionPolicy) B) a b :
  grows ps rs new1 txn times m a -> grows (<[IndexPageID := rs ++ new1]> ps) (rs ++ new1) new2 txn times (f a) b ->
  grows ps rs (new1 ++ new2) txn times (x ← m; f x) b.
Proof.
  intros Hm Hf ie Hat. destruct (Hm ie Hat) as (db1 & E1 & Hat1). destruct (Hf _ Hat1) as (db2 & E2 & Hat2). exists db2.
  rewrite (bind_ok _ _ _ _ _ E1). split; [exact E2|]. by rewrite insert_insert_eq, <- app_assoc in Hat2.
Qed.

Lemma grows_try_read ps rs txn times k now :
  times now ->
  grows ps rs [] txn times (try (with_kDB (fun db => DB.Read db IndexPageID txn k now)))
    (match newest k rs with Some v => inr v | None => inl ErrKeyNotFound end).
Proof.
  intros Hnow ie Hat. destruct (index_read ps rs txn times k now ie Hat Hnow) as (db' & E & Hat' & _). exists db'.
  split; [by apply try_read|]. by apply index_at_nil.
Qed.

Lemma grows_write ps rs txn times k v c :
  0 <= txn < 2 ^ 64 -> index_key k -> lasting times c -> room rs (stored txn c k v) ->
  grows ps rs [stored txn c k v] txn times (write_row IndexPageID txn k v c) tt.
Proof.
  intros Ht Hk Hc Hroom ie Hat. destruct (index_write ps rs txn times k v c ie Hat Ht Hk Hc Hroom) as (db' & E & Hat' & _). by exists db'.
Qed.

Lemma grows_ignore {A} ps rs new txn times (m : io (IntegratedEngine D LRUEvictionPolicy) A) a :
  grows ps rs new txn times m a -> grows ps rs new txn times (ignore m) tt.
Proof. intros Hm ie Hat. destruct (Hm ie Hat) as (db' & E & Hat'). exists db'. split; [by apply (ignore_ok _ _ a)|done]. Qed.

Lemma index_key_meta term : colon_free term -> index_key (metaKey term).
Proof. intros Ht. exists term. split; [done|]. by left. Qed.

Lemma index_key_chunk term n : colon_free term -> index_key (chunkKey term (u32 n)).
Proof. intros Ht. exists term. split; [done|]. right. exists (u32 n). split; [apply Z.mod_pos_bound; lia|done]. Qed.

Lemma read_count_of rs term :
  metas_ok rs -> match newest (metaKey term) rs with Some v => read_count v | None => Ok 0 end = Ok (count_of rs term).
Proof.
  intros Hm. unfold count_of. destruct (newest (metaKey term) rs) as [v|] eqn:E; [|done].
  apply newest_in in E as (r & Hin & Hk & <-). unfold metas_ok in Hm. rewrite Forall_forall in Hm.
  pose proof (Hm r Hin term Hk) as Hl. unfold read_count. destruct (val r); [done|]. unfold zlen. by rewrite Hl.
Qed.

Lemma chunk_count_grows ps rs txn times term t :
  metas_ok rs -> colon_free term -> 0 <= txn < 2 ^ 64 -> term_clock_ok times t -> fits rs (first_rows txn rs term t) ->
  grows ps rs (first_rows txn rs term t) txn times (chunk_count txn term t) (chunks rs term).
Proof.
  intros Hm Ht Htx (Hc1 & _ & Hc3 & _) Hfit. unfold chunk_count.
  apply (grows_bind ps rs [] _ txn times _ _ _ _ (grows_try_read ps rs txn times _ _ Hc1)). rewrite app_nil_r.
  change (first_rows txn rs term t) with ([] ++ first_rows txn rs term t).
  eapply (grows_bind _ _ [] _ _ _ _ _ (count_of rs term)).
  - replace (match match newest (metaKey term) rs with Some v => inr v | None => inl ErrKeyNotFound end with
      | inl _ => Ok 0 | inr bs => read_count bs end) with (Ok (count_of rs term)); [apply grows_ret|].
    rewrite <- (read_count_of rs term Hm). by destruct (newest (metaKey term) rs).
  - rewrite app_nil_r. unfold first_rows, chunks in *. destruct (count_of rs term =? 0); [|apply grows_ret].
    apply (grows_bind _ _ [_] [] _ _ _ _ tt); [|apply grows_ret].
    apply fits_cons in Hfit as [Hroom _]. apply (grows_ignore _ _ _ _ _ _ tt), grows_write; [done|by apply index_key_meta|done|done].
Qed.

Lemma newest_app_ne k rs new : (forall r, r ∈ new -> key r <> k) -> newest k (rs ++ new) = newest k rs.
Proof.
  induction new as [|r new IH] using rev_ind; intros Hne; [by rewrite app_nil_r|].
  rewrite app_assoc, newest_snoc, decide_False by (apply Hne; set_solver). apply IH. intros x Hx. apply Hne. set_solver.
Qed.

Lemma first_rows_key txn rs term t r : r ∈ first_rows txn rs term t -> key r = metaKey term.
Proof. unfold first_rows. destruct (_ =? _); [by intros ->%list_elem_of_singleton|by intros ?%elem_of_nil]. Qed.

Lemma chunk_at_first txn rs term t n : chunk_at (rs ++ first_rows txn rs term t) term n = chunk_at rs term n.
Proof.
  unfold chunk_at. rewrite newest_app_ne; [done|]. intros r Hin%first_rows_key. rewrite Hin. apply meta_not_chunk.
Qed.

Lemma add_posting_grows ps rs txn times docID term count t :
  metas_ok rs -> colon_free term -> 0 <= txn < 2 ^ 64 -> term_clock_ok times t -> fits rs (term_rows txn rs docID term count t) ->
  grows ps rs (term_rows txn rs docID term count t) txn times (add_posting txn docID term count t) tt.
Proof.
  intros Hm Ht Htx Hc [Hf1 Hf2]%fits_app. unfold add_posting, term_rows.
  eapply grows_bind; [by apply chunk_count_grows|]. destruct Hc as (_ & Hc2 & _ & Hc4 & Hc5). cbn beta zeta.
  eapply (grows_bind _ _ [] _ _ _ _ _ _ _ (grows_try_read _ _ _ _ _ _ Hc2)). rewrite app_nil_r. fold (last_chunk rs term).
  replace (match match newest (chunkKey term (last_chunk rs term)) (rs ++ first_rows txn rs term t) with
      | Some v => inr v | None => inl ErrKeyNotFound end with
    | inr ((_ :: _) as chunkBytes) => (Unmarshal_chunk chunkBytes).2 | _ => mkChunk (last_chunk rs term) [] end)
    with (chunk_at rs term (last_chunk rs term)).
  2: { rewrite <- (chunk_at_first txn rs term t). unfold chunk_at. by destruct (newest _ _) as [[|b v]|]. }
  unfold posting_rows in *. cbn zeta in *. destruct (PostingsChunkSize <=? _).
  - apply fits_cons in Hf2 as [Hr1 Hf2]. apply fits_cons in Hf2 as [Hr2 _].
    apply (grows_bind _ _ [_] [_] _ _ _ _ tt); [apply (grows_ignore _ _ _ _ _ _ tt)|]; apply grows_write;
      first [done|by apply index_key_meta|by apply index_key_chunk].
  - apply fits_cons in Hf2 as [Hr1 _]. apply grows_write; first [done|by apply index_key_chunk].
Qed.

(** Counters stay well formed. *)
Lemma metas_ok_rows txn rs docID term count t : metas_ok rs -> metas_ok (rs ++ term_rows txn rs docID term count t).
Proof.
  intros Hm. apply Forall_app. split; [done|]. apply Forall_forall. intros r Hin term' Hk.
  assert (forall n, key r <> chunkKey term n) as Hnk by (intros n E; rewrite Hk in E; by apply meta_not_chunk in E).
  unfold term_rows, first_rows, posting_rows in Hin. cbn zeta in Hin. apply elem_of_app in Hin as [Hin|Hin].
  - destruct (_ =? _); [apply list_elem_of_singleton in Hin as ->; apply length_rev|by apply elem_of_nil in Hin].
  - destruct (_ <=? _).
    + apply elem_of_cons in Hin as [->|Hin]; [apply length_rev|]. apply list_elem_of_singleton in Hin as ->. by destruct (Hnk _ eq_refl).
    + apply list_elem_of_singleton in Hin as ->. by destruct (Hnk _ eq_refl).
Qed.

Lemma add_postings_grows ps rs txn times docID terms ts :
  metas_ok rs -> Forall (fun tc => colon_free tc.1) terms -> 0 <= txn < 2 ^ 64 -> (forall i, term_clock_ok times (ts i)) ->
  fits rs (index_rows txn rs docID terms ts) ->
  grows ps rs (index_rows txn rs docID terms ts) txn times (add_postings txn docID terms ts) tt.
Proof.
  intros Hm Ht Htx. revert ps rs ts Hm. induction Ht as [|[term count] terms Ht _ IH]; intros ps rs ts Hm Hc Hf;
    cbn [add_postings index_rows] in *; [apply grows_ret|].
  apply fits_app in Hf as [Hf1 Hf2]. eapply grows_bind; [by apply add_posting_grows|].
  apply IH; [by apply metas_ok_rows|intros i; apply Hc|done].
Qed.

(** ** What a search sees of the new rows *)

(** Chunk rows can be read back. *)
Definition rows_ok (rs : list record) : Prop := Forall (fun r => forall term n, key r = chunkKey term n ->
  val r <> [] /\ (Unmarshal_chunk (val r)).1 = true /\ chunk_ok (Unmarshal_chunk (val r)).2) rs.

Lemma rows_ok_newest rs term n v : rows_ok rs -> newest (chunkKey term n) rs = Some v ->
  v <> [] /\ (Unmarshal_chunk v).1 = true /\ chunk_ok (Unmarshal_chunk v).2.
Proof.
  intros Hok (r & Hin & Hk & <-)%newest_in. unfold rows_ok in Hok. rewrite Forall_forall in Hok. by apply (Hok r Hin term n).
Qed.

Lemma visible_chunk rs term : rows_ok rs -> visible_postings rs term = Postings (chunk_at rs term 0).
Proof.
  intros Hok. unfold visible_postings, chunk_at. destruct (newest _ _) as [v|] eqn:E; [|done].
  destruct (rows_ok_newest rs term 0 v Hok E) as (Hne & Hu & _). destruct v as [|b v]; [done|]. cbn [chunks_of]. rewrite Hu.
  cbn. by rewrite app_nil_r.
Qed.

Lemma chunk_at_ok rs term n : rows_ok rs -> 0 <= n < 2 ^ 32 -> chunk_ok (chunk_at rs term n).
Proof.
  intros Hok Hn. unfold chunk_at. destruct (newest _ _) as [v|] eqn:E; [|split; [done|apply Forall_nil_2]].
  destruct (rows_ok_newest rs term n v Hok E) as (Hne & _ & Hc). by destruct v.
Qed.

Lemma chunk_ok_single n p : 0 <= n < 2 ^ 32 ->
  (valid_utf8 (DocID p) /\ exists n, 0 <= n < 2 ^ 53 /\ TF p = float64 n) -> chunk_ok (mkChunk n [p]).
Proof. intros Hn Hp. split; [done|]. by apply Forall_singleton. Qed.

Lemma chunk_ok_snoc c p : chunk_ok c ->
  (valid_utf8 (DocID p) /\ exists n, 0 <= n < 2 ^ 53 /\ TF p = float64 n) -> chunk_ok (mkChunk (ChunkID c) (Postings c ++ [p])).
Proof. intros [Hn Hc] Hp. split; [done|]. apply Forall_app. split; [done|]. by apply Forall_singleton. Qed.

Lemma chunk_row_ok c : chunk_ok c ->
  Marshal_chunk c <> [] /\ (Unmarshal_chunk (Marshal_chunk c)).1 = true /\ chunk_ok (Unmarshal_chunk (Marshal_chunk c)).2.
Proof. intros Hc. rewrite chunk_roundtrip by done. split; [by apply chunk_nonempty|done]. Qed.

Lemma rows_ok_rows txn rs docID term count t :
  rows_ok rs -> valid_utf8 docID -> 0 <= count < 2 ^ 53 -> rows_ok (rs ++ term_rows txn rs docID term count t).
Proof.
  intros Hok Hdoc Hcount. apply Forall_app. split; [done|]. apply Forall_forall. intros r Hin term' n' Hk.
  assert (forall x, key r <> metaKey x) as Hnk by (intros x E; rewrite Hk in E; symmetry in E; by apply meta_not_chunk in E).
  unfold term_rows in Hin. apply elem_of_app in Hin as [Hin%first_rows_key|Hin]; [by destruct (Hnk _ Hin)|].
  unfold posting_rows in Hin. cbn zeta in Hin. destruct (_ <=? _).
  - apply elem_of_cons in Hin as [->|Hin]; [by destruct (Hnk _ eq_refl)|]. apply list_elem_of_singleton in Hin as ->.
    apply chunk_row_ok, chunk_ok_single; [apply u32_range|eauto].
  - apply list_elem_of_singleton in Hin as ->. apply chunk_row_ok, chunk_ok_snoc; [apply chunk_at_ok; [done|apply u32_range]|eauto].
Qed.

Lemma chunkKey_inj t t' n n' :
  colon_free t -> colon_free t' -> 0 <= n < 2 ^ 32 -> 0 <= n' < 2 ^ 32 -> chunkKey t n = chunkKey t' n' -> t = t' /\ n = n'.
Proof.
  intros Ht Ht' Hn Hn' E. unfold chunkKey in E. apply app_inv_head in E.
  destruct (colon_split t t' (str "chunk:" ++ Sprintf_d n) (str "chunk:" ++ Sprintf_d n') Ht Ht' E) as [<- E2]. split; [done|].
  apply app_inv_head in E2. pose proof (ParseUint_print n ltac:(lia)) as P1. rewrite E2, ParseUint_print in P1 by lia. congruence.
Qed.

Lemma metaKey_inj t t' : metaKey t = metaKey t' -> t = t'.
Proof. apply app_inv_head. Qed.

Lemma term_rows_key txn rs docID term count t r : r ∈ term_rows txn rs docID term count t ->
  key r = metaKey term \/ exists n, 0 <= n < 2 ^ 32 /\ key r = chunkKey term n.
Proof.
  unfold term_rows, posting_rows. cbn zeta. intros [Hin%first_rows_key|Hin]%elem_of_app; [by left|]. pose proof u32_range.
  destruct (_ <=? _).
  - apply elem_of_cons in Hin as [->|Hin]; [by left|]. apply list_elem_of_singleton in Hin as ->. right. eexists. split; [apply u32_range|done].
  - apply list_elem_of_singleton in Hin as ->. right. eexists. split; [apply u32_range|done].
Qed.

(** The rows of other terms change neither the chunks nor the counter of a term. *)
Lemma other_term txn rs docID term count t T :
  colon_free term -> colon_free T -> T <> term ->
  newest (chunkKey T 0) (rs ++ term_rows txn rs docID term count t) = newest (chunkKey T 0) rs /\
  newest (metaKey T) (rs ++ term_rows txn rs docID term count t) = newest (metaKey T) rs.
Proof.
  intros Ht HT Hne. split; apply newest_app_ne; intros r Hin E; apply term_rows_key in Hin as [Hk|(n & Hn & Hk)]; rewrite Hk in E.
  - by apply meta_not_chunk in E.
  - apply chunkKey_inj in E as [-> _]; [done..|lia].
  - by apply metaKey_inj in E as ->.
  - symmetry in E. by apply meta_not_chunk in E.
Qed.

(** A term takes a new posting that searches find while its first chunk is its
    last and has room. *)
Definition open_term (rs : list record) (term : bytes) : bool :=
  (last_chunk rs term =? 0) && (zlen (visible_postings rs term) <? PostingsChunkSize).

Lemma count_of_range rs term : 0 <= count_of rs term < 2 ^ 32.
Proof.
  unfold count_of. destruct (newest _ _) as [[|b v]|]; [lia| |lia]. unfold be_val.
  pose proof (le_val_range (rev (take 4 (b :: v)))) as Hr. unfold zlen in Hr. rewrite length_rev, length_take in Hr.
  assert (2 ^ (8 * Z.of_nat (Nat.min 4 (length (b :: v)))) <= 2 ^ 32) by (apply Z.pow_le_mono_r; lia). lia.
Qed.

Lemma chunks_range rs term : 1 <= chunks rs term < 2 ^ 32.
Proof. unfold chunks. pose proof (count_of_range rs term). destruct (_ =? 0) eqn:E; [lia|]. apply Z.eqb_neq in E. lia. Qed.

(** The chunk started when the last one is full is never chunk 0. *)
Lemma next_chunk_nonzero rs term : u32 (u32 (chunks rs term + 1) - 1) <> 0.
Proof.
  pose proof (chunks_range rs term). destruct (decide (chunks rs term = 2 ^ 32 - 1)) as [->|Hne]; [done|].
  unfold u32. rewrite (Z.mod_small (_ + 1)), Z.mod_small by lia. lia.
Qed.

Lemma newest_first_rows txn rs term t n : newest (chunkKey term n) (rs ++ first_rows txn rs term t) = newest (chunkKey term n) rs.
Proof. apply newest_app_ne. intros r Hin%first_rows_key. rewrite Hin. apply meta_not_chunk. Qed.

Lemma visible_extended txn rs docID term count t :
  rows_ok rs -> colon_free term -> valid_utf8 docID -> 0 <= count < 2 ^ 53 ->
  visible_postings (rs ++ term_rows txn rs docID term count t) term =
  visible_postings rs term ++ (if open_term rs term then [mkPosting docID (float64 count)] else []).
Proof.
  intros Hok Ht Hdoc Hcount. unfold open_term. rewrite (visible_chunk rs) by done. unfold term_rows. rewrite app_assoc.
  assert (forall c z v, z <> 0 -> 0 <= z < 2 ^ 32 -> key (stored txn c (chunkKey term z) v) <> chunkKey term 0) as Hz.
  { intros c z v Hz0 Hz E. apply chunkKey_inj in E as [_ ->]; done. }
  assert (forall rs', newest (chunkKey term 0) rs' = newest (chunkKey term 0) rs -> visible_postings rs' term = Postings (chunk_at rs term 0)) as Hsame.
  { intros rs' E. rewrite <- visible_chunk by done. unfold visible_postings. by rewrite E. }
  unfold posting_rows. cbn zeta. destruct (PostingsChunkSize <=? _) eqn:Ef.
  - apply Z.leb_le in Ef. replace (_ && _) with false.
    + rewrite app_nil_r. apply Hsame. rewrite newest_app_ne; [apply newest_first_rows|].
      intros r [->|Hin]%elem_of_cons; [apply meta_not_chunk|]. apply list_elem_of_singleton in Hin as ->.
      apply Hz; [apply next_chunk_nonzero|apply u32_range].
    + symmetry. destruct (last_chunk rs term =? 0) eqn:El; [|done]. apply Z.eqb_eq in El. rewrite El in Ef. cbn. by apply Z.ltb_ge.
  - apply Z.leb_gt in Ef. destruct (last_chunk rs term =? 0) eqn:El.
    + apply Z.eqb_eq in El. rewrite El in *. replace (_ <? PostingsChunkSize) with true by (symmetry; by apply Z.ltb_lt). cbn [andb].
      unfold visible_postings. rewrite newest_snoc, decide_True by done. cbn [val stored].
      assert (chunk_ok (mkChunk (ChunkID (chunk_at rs term 0)) (Postings (chunk_at rs term 0) ++ [mkPosting docID (float64 count)]))) as Hc.
      { apply chunk_ok_snoc; [by apply chunk_at_ok|eauto]. }
      pose proof (chunk_roundtrip _ Hc) as Hrt. pose proof (chunk_nonempty _ Hc) as Hne. unfold chunks_of.
      destruct (Marshal_chunk _) as [|b v]; [done|]. rewrite Hrt. cbn. by rewrite app_nil_r.
    + apply Z.eqb_neq in El. cbn [andb]. rewrite app_nil_r. apply Hsame. rewrite newest_snoc, decide_False; [apply newest_first_rows|].
      apply Hz; [done|apply u32_range].
Qed.
End Insert.
