(* ===== verification/KernelDocs.v ===== *)
(** A document from insertion to search, and the witnesses of the integrated
    engine on a small database. *)

From Stdlib Require Import Strings.Byte.
From Stdlib Require Import Floats.SpecFloat.
From S2P Require Import Common.
From S2P Require Import Prelude.
From S2P Require Import VFS.
From S2P Require Import LRU.
From S2P Require Import Page.
From S2P Require Import Slotted.
From S2P Require Import BufferPool.
From S2P Require Import PoolInv.
From S2P Require Import PoolOps.
From S2P Require Import WAL.
From S2P Require Import DBPage.
From S2P Require Import DB.
From S2P Require Import DBSpec.
From S2P Require Import Query.
From S2P Require Import UQLParser.
From S2P Require Import Scorer.
From S2P Require Import Utf8.
From S2P Require Import Kernel.
From S2P Require Import KernelCluster.
From S2P Require Import KernelSearch.
From S2P Require Import KernelInsert.
Import Kernel.

(** ** The terms of a document *)

Definition occurrences (T : bytes) (tokens : list bytes) : Z := zlen (filter (fun t => t = T) tokens).

Lemma termCounts_from (tokens : list bytes) (m : gmap bytes Z) (T : bytes) :
  fold_left (fun m t => <[t := default 0 (m !! t) + 1]> m) tokens m !! T =
  if occurrences T tokens =? 0 then m !! T else Some (default 0 (m !! T) + occurrences T tokens).
Proof.
  revert m. induction tokens as [|t tokens IH]; intros m; cbn [fold_left]; [done|]. rewrite IH. unfold occurrences.
  rewrite filter_cons. destruct (decide (t = T)) as [->|Hne].
  - rewrite lookup_insert_eq, (proj2 (Z.eqb_neq (zlen (T :: _)) 0)) by (unfold zlen; cbn [length]; lia).
    change (default 0 (Some ?x)) with x. unfold zlen. cbn [length]. rewrite Nat2Z.inj_succ.
    destruct (_ =? 0) eqn:E; [apply Z.eqb_eq in E; unfold occurrences, zlen in E|]; f_equal; lia.
  - by rewrite lookup_insert_ne by done.
Qed.

Lemma termCounts_lookup tokens T :
  termCounts tokens !! T = if occurrences T tokens =? 0 then None else Some (occurrences T tokens).
Proof. unfold termCounts. rewrite termCounts_from, lookup_empty. by destruct (_ =? 0). Qed.

Lemma occurrences_bound T tokens : 0 <= occurrences T tokens <= zlen tokens.
Proof. unfold occurrences, zlen. pose proof (length_filter (fun t => t = T) tokens). lia. Qed.

Section Documents.
Context {D : Type} `{DS : BlockDeviceSpec D} `{RD : !ReliableDevice D} `{MR : MapRange} `{U : Unicode} `{JS : SearchJSONSpec}.
Implicit Types ie : IntegratedEngine D LRUEvictionPolicy.
Implicit Types ps : gmap PageID (list record).

Lemma terms_of_document tokens T c : (T, c) ∈ range (termCounts tokens) -> c = occurrences T tokens /\ T ∈ tokens.
Proof.
  rewrite elem_of_range, termCounts_lookup. destruct (occurrences T tokens =? 0) eqn:E; [done|]. intros [= <-]. split; [done|].
  apply Z.eqb_neq in E. unfold occurrences, zlen in E. destruct (filter _ tokens) as [|x l] eqn:Ef; [done|].
  assert (x ∈ filter (fun t => t = T) tokens) as [-> ?]%list_elem_of_filter by (rewrite Ef; left). done.
Qed.

(** ** All terms of a document *)

Lemma index_rows_other txn rs docID terms ts T :
  Forall (fun tc => colon_free tc.1) terms -> colon_free T -> T ∉ terms.*1 ->
  newest (chunkKey T 0) (rs ++ index_rows txn rs docID terms ts) = newest (chunkKey T 0) rs.
Proof.
  intros Ht HT. revert rs ts. induction Ht as [|[term count] terms Ht _ IH]; intros rs ts Hn; cbn [index_rows]; [by rewrite app_nil_r|].
  rewrite app_assoc, IH by set_solver. by apply other_term; [| |set_solver].
Qed.

Lemma open_term_same rs rs' T :
  newest (chunkKey T 0) rs' = newest (chunkKey T 0) rs -> newest (metaKey T) rs' = newest (metaKey T) rs ->
  open_term rs' T = open_term rs T.
Proof. intros E1 E2. unfold open_term, last_chunk, chunks, count_of, visible_postings. by rewrite E1, E2. Qed.

Lemma visible_same rs rs' T :
  newest (chunkKey T 0) rs' = newest (chunkKey T 0) rs -> visible_postings rs' T = visible_postings rs T.
Proof. unfold visible_postings. by intros ->. Qed.

(** The terms fit the codec. *)
Definition terms_fit (terms : list (bytes * Z)) : Prop := Forall (fun tc => colon_free tc.1 /\ 0 <= tc.2 < 2 ^ 53) terms.

Lemma terms_fit_free terms : terms_fit terms -> Forall (fun tc => colon_free tc.1) terms.
Proof. intros Ht. eapply Forall_impl; [exact Ht|]. by intros tc []. Qed.

Lemma index_rows_visible txn rs docID terms ts T count :
  rows_ok rs -> terms_fit terms -> NoDup terms.*1 -> valid_utf8 docID -> (T, count) ∈ terms ->
  visible_postings (rs ++ index_rows txn rs docID terms ts) T =
  visible_postings rs T ++ (if open_term rs T then [mkPosting docID (float64 count)] else []).
Proof.
  intros Hok Ht Hnd Hdoc. revert rs ts Hok. induction Ht as [|[term c] terms [Hfree Hc] Ht IH]; intros rs ts Hok Hin;
    cbn [index_rows]; [by apply elem_of_nil in Hin|]. cbn in Hnd, Hfree, Hc. apply NoDup_cons in Hnd as [Hnew Hnd]. cbn zeta. rewrite app_assoc.
  apply elem_of_cons in Hin as [[= -> ->]|Hin].
  - rewrite (visible_same (rs ++ term_rows txn rs docID term c (ts 0%nat))); [by apply visible_extended|].
    apply index_rows_other; [by apply terms_fit_free|done|done].
  - assert (T ∈ terms.*1) as HinT by (apply list_elem_of_fmap; by exists (T, count)).
    assert (T <> term) as Hne by (intros ->; done).
    assert (colon_free T) as HT by (unfold terms_fit in Ht; rewrite Forall_forall in Ht; apply (Ht (T, count) Hin)).
    destruct (other_term txn rs docID term c (ts 0%nat) T Hfree HT Hne) as [E1 E2].
    rewrite (IH Hnd _ _ (rows_ok_rows _ _ _ _ _ _ Hok Hdoc Hc) Hin).
    by rewrite (open_term_same rs), (visible_same rs).
Qed.

Lemma index_rows_ok txn rs docID terms ts :
  rows_ok rs -> metas_ok rs -> terms_fit terms -> valid_utf8 docID ->
  rows_ok (rs ++ index_rows txn rs docID terms ts) /\ metas_ok (rs ++ index_rows txn rs docID terms ts).
Proof.
  intros Hok Hm Ht Hdoc. revert rs ts Hok Hm. induction Ht as [|[term c] terms [Hfree Hc] Ht IH]; intros rs ts Hok Hm;
    cbn [index_rows]; [by rewrite app_nil_r|]. cbn zeta. rewrite app_assoc.
  apply IH; [by apply rows_ok_rows|by apply metas_ok_rows].
Qed.

Lemma document_terms_fit tokens : Forall colon_free tokens -> zlen tokens < 2 ^ 53 -> terms_fit (range (termCounts tokens)).
Proof.
  intros Hf Hl. apply Forall_forall. intros [T c] Hin. apply terms_of_document in Hin as [-> Hin].
  pose proof (occurrences_bound T tokens). rewrite Forall_forall in Hf. split; [by apply Hf|cbn; lia].
Qed.

Lemma range_NoDup {V} (m : gmap bytes V) : NoDup (range m).*1.
Proof. rewrite range_perm. apply NoDup_fst_map_to_list. Qed.

(** ** Insertion *)

(** The statistics after one more document. *)
Definition mean_after (tokens : list bytes) ie : spec_float :=
  fdiv (fadd (fmul (AvgDocLen ie) (float64 (TotalDocs ie))) (float64 (zlen tokens))) (float64 (i64 (TotalDocs ie + 1))).

Definition state_row (txn : Z) (tokens : list bytes) (c : clock) ie : record :=
  stored txn c (str "bm25_state") (Marshal_state (mkState (i64 (TotalDocs ie + 1)) (mean_after tokens ie))).

Definition document_rows (txn : Z) (rs : list record) (docID : bytes) (tokens : list bytes) (ts : nat -> term_clock) : list record :=
  index_rows txn rs docID (range (termCounts tokens)) ts.

(** The state an insertion meets: the database is idle, the three pages have
    room for the new rows, the terms and the id fit the keys and the codec, and
    the rows it writes last. *)
Record insertable ps (rs rsd rsm : list record) (times : Z -> Prop) (pg : PageID) (docID text : bytes)
    (cDoc : clock) (ts : nat -> term_clock) (cState : clock) ie : Prop := {
  ins_idle : index_idle ps rs times ie;
  ins_rows : rows_ok rs;
  ins_metas : metas_ok rs;
  ins_pages : pg <> IndexPageID /\ pg <> MetadataPageID /\ ps !! pg = Some rsd /\ ps !! MetadataPageID = Some rsm;
  ins_terms : Forall colon_free (Tokenize text) /\ zlen (Tokenize text) < 2 ^ 53 /\ valid_utf8 docID;
  ins_clocks : forall i, term_clock_ok times (ts i);
  ins_room : let txn := u64 (nextTxnID (kDB ie) + 1) in
    room rsd (stored txn cDoc (docKey docID) text) /\
    fits rs (document_rows txn rs docID (Tokenize text) ts) /\
    room rsm (state_row txn (Tokenize text) cState ie)
}.

(** The index is untouched by a write to another page. *)
Lemma write_other ps rs txn times pg rs0 k v c ie :
  index_at ps rs txn times ie -> 0 <= txn < 2 ^ 64 -> pg <> IndexPageID -> ps !! pg = Some rs0 -> room rs0 (stored txn c k v) ->
  exists db', write_row pg txn k v c ie = (Ok tt, set_kDB db' ie) /\
    index_at (<[pg := rs0 ++ [stored txn c k v]]> ps) rs txn times (set_kDB db' ie).
Proof.
  intros [Hrep Hpg Hk Ha Hl] Ht Hne Hrs0 Hroom.
  destruct (write_row_run pg rs0 txn k v c ps ie Hrep Hrs0 Ht Hroom) as (db' & E & [Hs1 _] & Hrep'). exists db'.
  split; [done|]. split; [done|by rewrite lookup_insert_ne|done|cbn; congruence|done].
Qed.

(** The engine after an insertion. *)
Definition counted (tokens : list bytes) (db : DB D LRUEvictionPolicy) ie : IntegratedEngine D LRUEvictionPolicy :=
  mkKernel db (i64 (TotalDocs ie + 1)) (mean_after tokens ie) (ring ie) (nodeMap ie) (routingTable ie) (audit ie).

Lemma count_document_run ps rs rsm txn times tokens c ie :
  index_at ps rs txn times ie -> 0 <= txn < 2 ^ 64 -> ps !! MetadataPageID = Some rsm -> room rsm (state_row txn tokens c ie) ->
  exists db', count_document txn tokens c ie = (Ok tt, counted tokens db' ie) /\
    index_at (<[MetadataPageID := rsm ++ [state_row txn tokens c ie]]> ps) rs txn times (counted tokens db' ie).
Proof.
  intros Hat Ht Hpg Hroom.
  destruct (write_other ps rs txn times MetadataPageID rsm (str "bm25_state")
    (Marshal_state (mkState (i64 (TotalDocs ie + 1)) (mean_after tokens ie))) c (counted tokens (kDB ie) ie)) as (db' & E & Hat');
    [by destruct Hat|done|done|done|done|].
  exists db'. split; [|exact Hat']. unfold count_document. cbn zeta. exact (ignore_ok _ _ _ _ E).
Qed.

Lemma InsertDocument_run ps rs rsd rsm times pg docID text cDoc ts cState ie :
  insertable ps rs rsd rsm times pg docID text cDoc ts cState ie ->
  let txn := u64 (nextTxnID (kDB ie) + 1) in
  let rows := document_rows txn rs docID (Tokenize text) ts in
  exists db', InsertDocument pg docID text cDoc ts cState ie = (Ok tt, counted (Tokenize text) db' ie) /\
    index_idle (<[MetadataPageID := rsm ++ [state_row txn (Tokenize text) cState ie]]> (<[IndexPageID := rs ++ rows]>
      (<[pg := rsd ++ [stored txn cDoc (docKey docID) text]]> ps))) (rs ++ rows) times (counted (Tokenize text) db' ie).
Proof.
  intros [Hidle Hok Hm (Hp1 & Hp2 & Hpd & Hpm) (Hf & Hl & Hu) Hc (Hr1 & Hr2 & Hr3)] txn rows. fold txn in Hr1, Hr2, Hr3.
  assert (0 <= txn < 2 ^ 64) as Ht by apply u64_ok.
  destruct (begin_alone ps rs times ie Hidle) as [_ Hat]. fold txn in Hat. set (ie1 := set_kDB (BeginTxn (kDB ie)).2 ie) in *.
  destruct (write_other ps rs txn times pg rsd (docKey docID) text cDoc ie1 Hat Ht Hp1 Hpd Hr1) as (db2 & E2 & Hat2).
  destruct (add_postings_grows (<[pg := rsd ++ [stored txn cDoc (docKey docID) text]]> ps) rs txn times docID
    (range (termCounts (Tokenize text))) ts Hm (terms_fit_free _ (document_terms_fit _ Hf Hl)) Ht Hc Hr2 _ Hat2) as (db3 & E3 & Hat3).
  rewrite set_kDB_twice in *. fold (document_rows txn rs docID (Tokenize text) ts) in Hat3. fold rows in Hat3.
  destruct (count_document_run _ (rs ++ rows) rsm txn times (Tokenize text) cState (set_kDB db3 ie1) Hat3 Ht) as (db4 & E4 & Hat4);
    [by rewrite !lookup_insert_ne by done|done|].
  exists (CommitTxn db4 txn). split.
  - unfold InsertDocument. cbn zeta. rewrite (in_txn_ok _ ps rs times ie tt ie1 (counted (Tokenize text) db4 (set_kDB db3 ie1)) Hidle eq_refl); [done|].
    fold txn. rewrite (bind_ok _ _ _ _ _ E2), (bind_ok _ _ _ _ _ E3). exact E4.
  - exact (commit_idle _ _ txn times (counted (Tokenize text) db4 ie) db4 ltac:(destruct Hat4; by split)).
Qed.

(** C13: [InsertDocument] on an idle database whose pages have room.  It returns
    without error; the document's row is on its page, the number of documents goes
    up by one and the mean length is updated; the index page grows by rows that can
    be read back, so insertions and searches compose.  For a search, the postings
    of every term of the document gain exactly one posting, the document's with the
    number of its occurrences, at the end, while the term is still in its first
    chunk and that chunk has room; from its 257th document on a term gains
    nothing a search can see.  The postings of all other terms are as before. *)
Theorem document_searchable ps rs rsd rsm times pg docID text cDoc ts cState ie :
  insertable ps rs rsd rsm times pg docID text cDoc ts cState ie ->
  exists ps' rs' db', InsertDocument pg docID text cDoc ts cState ie = (Ok tt, counted (Tokenize text) db' ie) /\
    index_idle ps' rs' times (counted (Tokenize text) db' ie) /\ rows_ok rs' /\ metas_ok rs' /\
    newest (docKey docID) (default [] (ps' !! pg)) = Some text /\
    forall T, colon_free T -> visible_postings rs' T = visible_postings rs T ++
      (if (0 <? occurrences T (Tokenize text)) && open_term rs T then [mkPosting docID (float64 (occurrences T (Tokenize text)))] else []).
Proof.
  intros Hins. destruct (InsertDocument_run ps rs rsd rsm times pg docID text cDoc ts cState ie Hins) as (db' & E & Hidle).
  destruct Hins as [_ Hok Hm (Hp1 & Hp2 & _) (Hf & Hl & Hu) _ _].
  pose proof (document_terms_fit _ Hf Hl) as Hfit.
  match type of Hidle with index_idle ?ps' ?rs' _ _ => exists ps', rs', db' end. split; [done|]. split; [done|].
  unfold document_rows in *. destruct (index_rows_ok (u64 (nextTxnID (kDB ie) + 1)) rs docID _ ts Hok Hm Hfit Hu) as [Hok' Hm'].
  split; [done|]. split; [done|]. split.
  { rewrite !lookup_insert_ne, lookup_insert_eq by done. cbn [default from_option]. unfold id. by rewrite newest_snoc, decide_True. }
  intros T HT. pose proof (occurrences_bound T (Tokenize text)) as [Hpos _]. destruct (0 <? occurrences T (Tokenize text)) eqn:Eo; cbn [andb].
  - apply index_rows_visible; [done|done|apply range_NoDup|done|]. apply elem_of_range. rewrite termCounts_lookup.
    apply Z.ltb_lt in Eo. by rewrite (proj2 (Z.eqb_neq _ _)) by lia.
  - rewrite app_nil_r. apply visible_same, index_rows_other; [by apply terms_fit_free|done|].
    intros ([T' c] & E' & Hin%elem_of_range)%list_elem_of_fmap. cbn in E'. subst T'. rewrite termCounts_lookup in Hin. apply Z.ltb_ge in Eo.
    by rewrite (proj2 (Z.eqb_eq _ 0)) in Hin by lia.
Qed.
End Documents.

(** ** A concrete engine *)

#[local] Existing Instance canonical_range.

(** A codec that keeps every chunk: the bits of its code, a byte each. *)
#[local] Instance spec_float_countable_eq : EqDecision spec_float.
Proof. solve_decision. Defined.

Definition float_code (x : spec_float) : bool * (bool * positive * Z) + (bool + bool) :=
  match x with
  | S754_finite s m e => inl (true, (s, m, e))
  | S754_nan => inl (false, (true, 1%positive, 0))
  | S754_zero s => inr (inl s)
  | S754_infinity s => inr (inr s)
  end.

Definition float_decode (x : bool * (bool * positive * Z) + (bool + bool)) : spec_float :=
  match x with
  | inl (true, (s, m, e)) => S754_finite s m e
  | inl (false, _) => S754_nan
  | inr (inl s) => S754_zero s
  | inr (inr s) => S754_infinity s
  end.

Definition chunk_code (c : PostingsChunk) := (ChunkID c, (fun p => (DocID p, float_code (TF p))) <$> Postings c).

Fixpoint bits (p : positive) : bytes :=
  match p with xH => [Byte.x01] | xO p => Byte.x00 :: bits p | xI p => Byte.x01 :: bits p end.

Fixpoint unbits (bs : bytes) : positive :=
  match bs with
  | [] | [_] => xH
  | b :: bs => if bool_decide (b = Byte.x00) then xO (unbits bs) else xI (unbits bs)
  end.

Lemma unbits_bits p : unbits (bits p) = p.
Proof. induction p as [p IH|p IH|]; cbn; [..|done]; destruct (bits p) eqn:E; try (by destruct p); cbn; by rewrite <- IH. Qed.

#[local] Instance demo_json : SearchJSON := {|
  Marshal_chunk c := bits (encode (chunk_code c));
  Unmarshal_chunk bs :=
    match decode (A := Z * list (bytes * (bool * (bool * positive * Z) + (bool + bool)))) (unbits bs) with
    | Some (n, l) => (true, mkChunk n ((fun dt => mkPosting dt.1 (float_decode dt.2)) <$> l))
    | None => (false, mkChunk 0 [])
    end;
  Marshal_state _ := [];
  Unmarshal_state _ := None;
  Marshal_query _ := [];
  Unmarshal_hits _ := None
|}.

#[local] Instance demo_json_spec : SearchJSONSpec.
Proof.
  split; intros [n l] _; cbn.
  - rewrite unbits_bits, decode_encode. unfold chunk_code. cbn. f_equal. f_equal. rewrite <- list_fmap_compose.
    induction l as [|[d x] l IH]; cbn; [done|]. rewrite IH. by destruct x.
  - by destruct (encode _).
Qed.

#[local] Instance demo_unicode : Unicode := {| wide_word _ := false; wide_lower c := c |}.

Definition kernel_pages : gmap PageID (list record) := {[5 := []; 10 := []; 11 := []]}.

Lemma kernel_rep : db_rep kernel_pages demo_db.
Proof.
  apply db_rep_new; [lia|apply lru_inv_new|reflexivity|intros id _; apply empty_disk_sum|].
  intros id rs Hrs. assert ((id = 5 \/ id = 10 \/ id = 11) /\ rs = []) as [Hid Ers].
  { unfold kernel_pages in Hrs. apply lookup_insert_Some in Hrs as [[<- <-]|[_ Hrs]]; [auto|].
    apply lookup_insert_Some in Hrs as [[<- <-]|[_ Hrs]]; [auto|]. apply lookup_singleton_Some in Hrs as [<- <-]. auto. }
  destruct Hid as [E|[E|E]]; rewrite E, Ers; (split; [done|]); right; split_and!; reflexivity.
Qed.

Definition demo_kernel : IntegratedEngine MemDevice LRUEvictionPolicy := mkKernel demo_db 0 (float64 0) [] ∅ ∅ [].
Definition demo_times (now : Z) : Prop := now = 2000.
Definition demo_terms (_ : nat) : term_clock := mkTermClock 2000 demo_clock 2000 demo_clock demo_clock.

Lemma demo_index_idle : index_idle kernel_pages [] demo_times demo_kernel.
Proof. split; [exact kernel_rep|reflexivity|apply Forall_nil_2|reflexivity|intros; apply Forall_nil_2]. Qed.

Lemma demo_insertable : insertable kernel_pages [] [] [] demo_times 5 (str "d1") (str "Fox and fox") demo_clock demo_terms demo_clock demo_kernel.
Proof.
  split.
  - exact demo_index_idle.
  - apply Forall_nil_2.
  - apply Forall_nil_2.
  - done.
  - split; [|done]. apply Forall_forall. intros t Ht. assert (t = str "fox") as ->.
    { change (Tokenize (str "Fox and fox")) with [str "fox"; str "fox"] in Ht. set_solver. }
    unfold colon_free. vm_compute. set_solver.
  - intros i. assert (lasting demo_times demo_clock) as Hl by (intros now ->; reflexivity). done.
  - cbn zeta. unfold room, fits. split_and!; vm_compute; discriminate.
Qed.

Lemma fox_free : colon_free (str "fox").
Proof. unfold colon_free. vm_compute. set_solver. Qed.

Lemma document_searchable_witness :
  exists db' rs', InsertDocument 5 (str "d1") (str "Fox and fox") demo_clock demo_terms demo_clock demo_kernel =
    (Ok tt, counted (Tokenize (str "Fox and fox")) db' demo_kernel) /\
    visible_postings rs' (str "fox") = [mkPosting (str "d1") (float64 2)].
Proof.
  destruct (document_searchable kernel_pages [] [] [] demo_times 5 (str "d1") (str "Fox and fox") demo_clock demo_terms demo_clock
    demo_kernel demo_insertable) as (ps' & rs' & db' & E & _ & _ & _ & _ & H).
  exists db', rs'. split; [exact E|]. rewrite (H (str "fox") fox_free). reflexivity.
Defined.

Lemma local_search_hits_witness :
  exists db1 hits db2, InsertDocument 5 (str "d1") (str "Fox and fox") demo_clock demo_terms demo_clock demo_kernel =
    (Ok tt, counted (Tokenize (str "Fox and fox")) db1 demo_kernel) /\
    LocalSearch id id 2 (str "fox") 0 (fun _ => 2000) (fun _ _ => 2000) (counted (Tokenize (str "Fox and fox")) db1 demo_kernel) =
    (Ok hits, set_kDB db2 (counted (Tokenize (str "Fox and fox")) db1 demo_kernel)) /\ length hits = 1%nat.
Proof.
  destruct (InsertDocument_run kernel_pages [] [] [] demo_times 5 (str "d1") (str "Fox and fox") demo_clock demo_terms demo_clock
    demo_kernel demo_insertable) as (db1 & E1 & Hidle).
  destruct (local_search_hits id id 0 _ _ demo_times (str "fox") (TermQuery (str "fox")) 0 (fun _ => 2000) (fun _ _ => 2000) _
    (fun l => Permutation_refl l) Hidle eq_refl fox_free) as (hits & db2 & E2 & _ & _ & _ & Hlen).
  - change (Tokenize (str "fox")) with [str "fox"]. apply Forall_singleton, fox_free.
  - done.
  - done.
  - exists db1, hits, db2. split; [exact E1|]. split; [exact E2|]. rewrite Hlen. vm_compute. reflexivity.
Defined.

Lemma scatter_gather_gate_witness :
  (ScatterGather id id 2 None (Some (mkInterceptor (fun _ _ _ => false))) (str "eve") (str "fox") 5 0 (fun _ => 2000) (fun _ _ => 2000)
    demo_kernel).1 = Err ErrDenied.
Proof.
  pose proof (scatter_gather_gate id id 2 None (Some (mkInterceptor (fun _ _ _ => false))) (str "eve") (str "fox") 5 0
    (fun _ => 2000) (fun _ _ => 2000) demo_kernel (fun l => Permutation_refl l)) as H.
  cbn [allowed VerifyAccess] in H.
  match type of H with let '(_, _) := ?x in _ => destruct x as [r ie'] end. apply H.
Defined.

Lemma cluster_ring_invariant_witness :
  exists ie, reachable (D := MemDevice) (P := LRUEvictionPolicy) (fun bs => take 4 (rev bs)) [str "n1"; str "n2"] ie /\
    length (ring ie) = 128%nat.
Proof.
  eexists. split.
  - apply (reach_add _ [str "n1"] (str "n2") (str "b:1")), (reach_add _ [] (str "n1") (str "a:1")), (reach_new _ demo_db 2000).
  - pose proof (cluster_ring_invariant (fun bs => take 4 (rev bs)) [str "n1"; str "n2"] _
      (reach_add _ [str "n1"] (str "n2") (str "b:1") _ (reach_add _ [] (str "n1") (str "a:1") _ (reach_new _ demo_db 2000)))) as H.
    rewrite (ring_points _ _ _ _ _ H). reflexivity.
Defined.
